(* ===== verification/_CoqProject ===== *)
-Q . S2P
Prelude.v
Outcome.v
Logger.v
Net.v
Errors.v
Events.v
Gzip.v
Compress.v
Socket.v
Semaphore.v
Message.v
Packet.v
ReadBuffer.v
TcpPacketStream.v
ConnState.v
Json.v
Connection.v
Client.v
System.v
Flow.v
Stream.v
Receive.v
Requests.v
Frame.v
Handlers.v
Invariants.v
Safety.v
Lifecycle.v
Timers.v
Heartbeat.v
Exceptions.v
Listening.v
Silence.v
Wire.v
Session.v
Dialogue.v
Interleaving.v
Startup.v
Demo.v
Examples.v
