(* ===== verification/Prelude.v ===== *)
(** * libpitaya-cpp: a verification development

    libpitaya-cpp is a client for Pitaya game servers. A [Client] (src/pitaya.cpp) owns one
    [Connection] (src/connection.cpp). The connection resolves an address, shakes hands, sends
    requests and matches the server's answers to them, keeps two heartbeat timers, and tells
    event listeners what happens. It talks to the server through a packet stream
    (src/connection/tcp_packet_stream.cpp), which queues packets, frames them, and parses what
    is received; the stream talks to a [TcpSocket] (src/tcp_socket.cpp). Everything but the
    calls of the client runs on one worker thread, as completions of an asio io context.

    ** How the program is modelled

    Code is translated to computations of the monad [M W] of [Outcome]: explicit state of type
    [W], and three results: a return, a C++ exception, or a fault. Faults are failed
    assertions, undefined behaviour, the deadlock of a mutex locked twice, and fuel that ran
    out. [BuildMode] says whether assertions are compiled out ([NDEBUG]); the theorems hold for
    both builds unless they say which. Integers are [Z] with their wrap-around written out
    ([u8], [u32], [u64], [i64]); bytes are [Z] between 0 and 255 where [bytes_wf] says
    so. An [std::function] of the client is a token, and its calls are recorded in the trace of
    the world. A lambda of the program is a constructor of an inductive type with what the
    lambda captures, and a function that runs it ([call_send], [call_receive], [call_timer]).

    A running program is a [World] (file [Connection]) and the steps of [System]: a step is a
    call of the client or the completion of one thing the connection is waiting for. The
    environment chooses the step and the result it comes with; [steps] is reachability, and
    [exec] runs a list of labels by computation.

    A client may make requests from its callbacks ([Reaction] says which), its callbacks may
    throw ([Raising]), and so may closing the socket ([Closing]). The code and the steps are
    defined for all of these; where none is named, a quiet client is meant, whose callbacks
    make no requests and return, and a socket that closes. [initial] is the connection whose
    worker thread has stored its id after the member that holds it was initialised; the
    constructor starts the thread before, so that the initialisation may overwrite the id
    ([initial_overwritten]), or the client may make calls before the store. This loses nothing:
    C10 says so for the requests, and [Startup] for the rest ([execution_plain]: an execution
    in any of these situations is one of the plain situation, label by label, which reaches
    the same world but for the id).

    ** The files, in order, and what they model

    - [Prelude]: integers, lists, hint databases. [Outcome]: the monad, exceptions and faults,
      lenses, and the effect systems [pure_comp], [no_throw], [throws] and [runs].
    - [Logger]: src/logger.h. [Net]: src/utils/net.h. [Errors]: connection/error.h,
      connection/error.cpp and exception.h. [Events]: connection/event.h.
    - [Gzip] and [Compress]: src/utils/gzip.cpp ([IsCompressed], [Decompress]; [Compress]).
      The class [Zlib] is zlib; [Inflates] and [Deflates] are what zlib documents about it.
    - [Socket]: [AsioTcpSocket], with the lifetime of the memory it hands to asio.
    - [Semaphore]: the class [Semaphore] of src/example.cpp, statement by statement.
    - [Message]: protocol/message.h and message.cpp. [Packet]: protocol/packet.h and packet.cpp.
    - [ReadBuffer]: the members of [TcpPacketStream] and its parser. [TcpPacketStream]: its
      other methods, the interface [TcpSocket], and the lambdas of its completions.
    - [ConnState]: connection/state.h and state.cpp, with asio's timers as the class
      [TimerService]. [Json]: the queries made of rapidjson. [Connection]: connection.h,
      connection.cpp and request.h. [Client]: pitaya.h and pitaya.cpp.
    - [System]: the steps. The files after it prove theorems about executions:
      [Flow] (what each operation does to the place of a request handler), [Stream] (sending),
      [Receive] (receiving), [Requests] (the lambdas of a request), [Frame] (the interfaces
      [Framed], [Sending] and [Stepped] between an invariant and the connection), [Handlers],
      [Invariants], [Safety] (with the induction over ordinary executions), [Lifecycle],
      [Timers] (what stays armed), [Heartbeat], [Exceptions], [Listening] (and the destructor
      of [Connection]), [Silence] (the timeout of the heartbeat), [Wire] (the packets sent, as
      a session), [Session] (whole executions), [Dialogue] (the client as an abstract
      machine), [Interleaving] (requests made at any time, and clients that make them from
      callbacks), [Startup] (callbacks that throw, a socket that does not close, a constructor
      that overwrites the id), [Demo] ([main] of src/example.cpp).
    - [Examples]: concrete instances of every class, and the theorems at concrete inputs.

    ** What the theorems show

    - Requests. Every request handler is called, under way or dropped (C1), none is called
      twice (C2, C26), ids in use are distinct (C18), the timeout of each is always pending
      (C8), and it does not matter when one is made (C11), from a callback or not (C10); what
      the closure of a request does on every branch (C27); a request that is answered, from
      the call of [Request] to the call of its handler, for all inputs and all cuts of the
      answer (C4). Once established, the client behaves as the abstract machine of
      [Dialogue], for every sequence of requests, packets and timers that run out (C6).
    - The connection. A handshake that succeeds, in the same way (C5); the packets sent follow
      the protocol (C7); the events a listener sees follow the life of the connection (C12);
      the handshake response as a function of its text (C28); the timers (C16, C29);
      a server that falls silent, which is not noticed (C17); the three ways of losing a
      connection (C30); an established connection always listens (C15).
    - Safety. What holds between steps (C14); which faults (C13) and which exceptions (C19) a
      step can end in, for any client, any socket and any order in the constructor.
    - The stream. Sending is a bounded queue (C9); received bytes, however cut, give the
      packets sent, in order (C3); what the parser accepts, exactly (C20), that it stays in its
      buffer (C21), and what it does with the rest: a packet that does not fit fills the
      buffer, and ends in reads of no bytes (C35); a HandshakeAck (C36).
    - Encodings: messages (C22, C34, C37), packets (C33), addresses (C40), the inverted
      route dictionary (C39).
    - Compression (C31, C32), the socket (C38), the semaphore (C24, C25) and the example
      program (C23).

    Some theorems show that the code does something it cannot have been meant to do; the
    manifest lists these under its findings.

    ** Bounds and fuel

    The parser has one more fuel than there are headers that fit in the valid bytes
    ([parse_fuel]), and an iteration consumes at least the four bytes of a header, except on a
    HandshakeAck in a build without assertions, where it consumes nothing: C21 and C36 show
    that the fuel runs out exactly in that case, for which the program loops for ever.
    [Decompress] and [Compress] take their fuel as an argument; C31 and C32 hold from a fuel
    that is linear in the data. [DecompressFuel] is that of the connection; the theorems do
    not restrict it, and a [Decompress] that does not end is the fault [FuelExhausted] of C13. [encode_id] has fuel
    for the ten bytes of a 64-bit id, which C34 shows to be enough. The theorems about all
    executions are about those with one call of [Start] and fewer than 2^64 - 2 requests
    ([ordinary]); C1, C2, C4, C5, C6, C11 and C19 do not need that. C13 is moreover for fewer
    than 2^32 - 1 sends, after which the 32-bit ids of the write buffers repeat. The theorems
    on the semaphore are for fewer than 2^64 - 1 steps.

    ** Parameters

    The callbacks of the client ([Reaction], [Raising]), whether [Close] throws ([Closing]), the
    calendar ([LocalTime]), zlib ([Zlib]),
    [realloc] ([Allocator]), rapidjson ([RapidJson]), boost's resolver ([Resolver]), error
    messages ([BoostMessages]), timers ([TimerService]) and raw socket ([RawTcpSocket]), and
    the order of an [std::unordered_map] ([UnorderedIteration]). Each is a class whose laws,
    where it has any, are documented behaviour; [Examples] has an instance of each.

    ** Not modelled

    - The [LOG] statements in the files other than src/logger.h, and the printing of the
      example: pure output, on which nothing depends.
    - src/test: the runner has no tests.
    - Calls of [AddEventListener] and [Connect] from inside the client's callbacks, or while
      the worker thread is in the middle of a completion: a step is atomic. The first would
      change the vector [Broadcast] is walking. The mutexes of [EventListeners] are not
      modelled for that reason; that of [State] is ([with_lock]). Calls of [Request] are
      modelled wherever they are made ([Reaction], [Interleaving]).
    - The conversion of a duration in seconds to the unit of a clock, which is the standard
      library's and may overflow for intervals of centuries.
    - The constructor's race on the stored id, beyond its two orders: concurrent writes are
      undefined behaviour. A client that throws one of the library's own exceptions from a
      callback, in C13 (a completed read catches it).
    - Memory: allocation succeeds, and objects live as long as the program needs them, but for the buffers of [Socket].
      The destructor of [Connection] is the condition under which it returns.
    - Short writes: a send that completes without an error is taken to have sent everything,
      as the program takes it. *)

From Stdlib Require Export ZArith Lia.
From stdpp Require Export base tactics numbers strings list gmap fin_maps relations.

#[global] Open Scope Z_scope.

Declare Scope pitaya_scope.
Delimit Scope pitaya_scope with pitaya.
#[global] Open Scope pitaya_scope.

(** ** Hint databases of the development

    - [width]: rewrite rules that remove a wrap-around on values that fit;
    - [bytes]: well-formedness of byte lists. *)

Create Rewrite HintDb width.
Create HintDb bytes.

(** ** Fixed-width integers

    A C++ integer of width [w] is a [Z]; the functions below are the conversions
    to the unsigned types ([uint8_t], [uint32_t], [uint64_t] and [size_t], which
    is 64 bits wide) and to the signed ones. *)

Definition u8 (z : Z) : Z := z mod 2 ^ 8.
Definition u32 (z : Z) : Z := z mod 2 ^ 32.
Definition u64 (z : Z) : Z := z mod 2 ^ 64.

Definition i64 (z : Z) : Z := (z + 2 ^ 63) mod 2 ^ 64 - 2 ^ 63.

(** The values a signed 64-bit computation may have without overflow. *)
Definition fits_i64 (z : Z) : bool := (- 2 ^ 63 <=? z) && (z <? 2 ^ 63).

Lemma u8_range z : 0 ≤ u8 z < 256.
Proof. unfold u8. apply Z.mod_pos_bound. lia. Qed.

Lemma u64_range z : 0 ≤ u64 z < 2 ^ 64.
Proof. unfold u64. apply Z.mod_pos_bound. lia. Qed.

Lemma u8_small z : 0 ≤ z < 256 → u8 z = z.
Proof. intros. unfold u8. apply Z.mod_small. lia. Qed.

Lemma u32_small z : 0 ≤ z < 2 ^ 32 → u32 z = z.
Proof. intros. unfold u32. by apply Z.mod_small. Qed.

Lemma u64_small z : 0 ≤ z < 2 ^ 64 → u64 z = z.
Proof. intros. unfold u64. by apply Z.mod_small. Qed.

Lemma i64_small z : - 2 ^ 63 ≤ z < 2 ^ 63 → i64 z = z.
Proof. intros. unfold i64. rewrite Z.mod_small; lia. Qed.

Lemma fits_i64_spec z : fits_i64 z = true ↔ - 2 ^ 63 ≤ z < 2 ^ 63.
Proof. unfold fits_i64. rewrite andb_true_iff, Z.leb_le, Z.ltb_lt. done. Qed.

(** Or-ing into the low bits that are zero is adding. *)
Lemma lor_low a b k : 0 ≤ k → 0 ≤ b < 2 ^ k → Z.lor (a * 2 ^ k) b = a * 2 ^ k + b.
Proof.
  intros Hk Hb. symmetry. apply Z.add_nocarry_lor. apply Z.bits_inj'. intros n Hn.
  rewrite Z.land_spec, Z.bits_0. destruct (decide (n < k)).
  - by rewrite Z.mul_pow2_bits_low.
  - rewrite <- (Z.mod_small b (2 ^ k)), Z.mod_pow2_bits_high by lia. apply andb_false_r.
Qed.

#[export] Hint Rewrite u8_small u32_small u64_small i64_small using lia : width.

Ltac width := autorewrite with width.

(** ** Bytes *)

Definition byte_wf (b : Z) : Prop := 0 ≤ b < 256.
Abbreviation bytes_wf := (Forall byte_wf).

#[global] Instance byte_wf_dec b : Decision (byte_wf b).
Proof. unfold byte_wf. apply _. Defined.

Lemma byte_wf_u8 z : byte_wf (u8 z).
Proof. apply u8_range. Qed.

Lemma bytes_wf_take n l : bytes_wf l → bytes_wf (take n l).
Proof. apply Forall_take. Qed.

Lemma bytes_wf_drop n l : bytes_wf l → bytes_wf (drop n l).
Proof. apply Forall_drop. Qed.

Lemma bytes_wf_app l k : bytes_wf l → bytes_wf k → bytes_wf (l ++ k).
Proof. apply Forall_app_2. Qed.

#[export] Hint Resolve byte_wf_u8 bytes_wf_take bytes_wf_drop bytes_wf_app : bytes.

(** [std::string] is a Rocq [string]: 8-bit characters. The conversions between
    its characters and [uint8_t] values. *)

Definition byte_of_char (c : Ascii.ascii) : Z := Z.of_N (Ascii.N_of_ascii c).
Definition char_of_byte (b : Z) : Ascii.ascii := Ascii.ascii_of_N (Z.to_N (u8 b)).

Definition bytes_of_string (s : string) : list Z :=
  byte_of_char <$> String.list_ascii_of_string s.
Definition string_of_bytes (l : list Z) : string :=
  String.string_of_list_ascii (char_of_byte <$> l).

Lemma byte_of_char_wf c : byte_wf (byte_of_char c).
Proof.
  unfold byte_wf, byte_of_char. pose proof (Ascii.N_ascii_bounded c). lia.
Qed.

Lemma char_of_byte_of_char c : char_of_byte (byte_of_char c) = c.
Proof.
  unfold char_of_byte. pose proof (byte_of_char_wf c) as H. unfold byte_wf in H.
  rewrite u8_small by done. unfold byte_of_char. rewrite N2Z.id.
  apply Ascii.ascii_N_embedding.
Qed.

Lemma byte_of_char_of_byte b : byte_wf b → byte_of_char (char_of_byte b) = b.
Proof.
  intros H. unfold byte_wf in H. unfold byte_of_char, char_of_byte.
  rewrite u8_small by done. rewrite Ascii.N_ascii_embedding; lia.
Qed.

Lemma bytes_of_string_wf s : bytes_wf (bytes_of_string s).
Proof. unfold bytes_of_string. apply Forall_fmap, Forall_true. apply byte_of_char_wf. Qed.

Lemma string_of_bytes_of_string s : string_of_bytes (bytes_of_string s) = s.
Proof.
  unfold string_of_bytes, bytes_of_string. rewrite <- list_fmap_compose.
  rewrite (list_fmap_ext _ id), list_fmap_id.
  - apply String.string_of_list_ascii_of_string.
  - intros _ c _. apply char_of_byte_of_char.
Qed.

Lemma bytes_of_string_of_bytes l : bytes_wf l → bytes_of_string (string_of_bytes l) = l.
Proof.
  intros H. unfold string_of_bytes, bytes_of_string.
  rewrite String.list_ascii_of_string_of_list_ascii, <- list_fmap_compose.
  induction H; csimpl; [done | ]. by rewrite byte_of_char_of_byte, IHForall.
Qed.

#[export] Hint Resolve byte_of_char_wf bytes_of_string_wf : bytes.
#[export] Hint Constructors Forall : bytes.

(** ** Lists *)

(** [std::rotate(begin, begin + k, end)]. *)
Definition std_rotate {A} (k : nat) (l : list A) : list A := drop k l ++ take k l.

Lemma length_std_rotate {A} k (l : list A) : length (std_rotate k l) = length l.
Proof. unfold std_rotate. rewrite length_app, length_drop, length_take. lia. Qed.

Lemma take_std_rotate {A} k n (l : list A) :
  (k + n ≤ length l)%nat → take n (std_rotate k l) = take n (drop k l).
Proof.
  intros. unfold std_rotate. rewrite take_app_le; [done | ]. rewrite length_drop. lia.
Qed.

Lemma bytes_wf_std_rotate k l : bytes_wf l → bytes_wf (std_rotate k l).
Proof. intros. unfold std_rotate. auto with bytes. Qed.

#[export] Hint Resolve bytes_wf_std_rotate : bytes.

(** Writing [c] over [b], which follows [a]. *)
Lemma list_inserts_write {A} (a b c t : list A) i :
  i = length a → length c = length b → list_inserts i c (a ++ b ++ t) = a ++ c ++ t.
Proof.
  intros -> Hlen. rewrite <- (Nat.add_0_r (length a)), list_inserts_app_r.
  by rewrite list_inserts_0_r.
Qed.

Lemma fmap_Some_eq {A B} (f : A → B) a : f <$> Some a = Some (f a).
Proof. done. Qed.

(** Growing a block and writing at its old end. *)
Lemma list_inserts_resize {A} (x : A) (a c : list A) i n :
  i = length a → (length a + length c ≤ n)%nat →
  list_inserts i c (resize n x a) = a ++ c ++ replicate (n - length a - length c) x.
Proof.
  intros Hi Hn. rewrite resize_ge by lia.
  replace (n - length a)%nat with (length c + (n - length a - length c))%nat at 1 by lia.
  rewrite replicate_add. apply list_inserts_write; [done|]. by rewrite length_replicate.
Qed.

Lemma list_insert_range_split {A} (l : list A) i n :
  (i + n ≤ length l)%nat → l = take i l ++ take n (drop i l) ++ drop (i + n) l.
Proof. intros. by rewrite <- drop_drop, !take_drop. Qed.

(** ** Tactics *)

(** Split every boolean comparison of a hypothesis or of the goal into the
    proposition it decides. *)
Ltac bool_to_prop :=
  repeat match goal with
  | H : _ && _ = true |- _ => apply andb_true_iff in H as [??]
  | H : (_ <? _) = true |- _ => apply Z.ltb_lt in H
  | H : (_ <? _) = false |- _ => apply Z.ltb_ge in H
  | H : (_ <=? _) = true |- _ => apply Z.leb_le in H
  | H : (_ <=? _) = false |- _ => apply Z.leb_gt in H
  | H : (_ =? _) = true |- _ => apply Z.eqb_eq in H
  | H : (_ =? _) = false |- _ => apply Z.eqb_neq in H
  end.

(** Decide a comparison of the goal by arithmetic. *)
Ltac decide_ltb :=
  match goal with
  | |- context [?a <? ?b] =>
      first [ rewrite (proj2 (Z.ltb_lt a b)) by lia
            | rewrite (proj2 (Z.ltb_ge a b)) by lia ]
  | |- context [?a <=? ?b] =>
      first [ rewrite (proj2 (Z.leb_le a b)) by lia
            | rewrite (proj2 (Z.leb_gt a b)) by lia ]
  | |- context [?a =? ?b] =>
      first [ rewrite (proj2 (Z.eqb_eq a b)) by lia
            | rewrite (proj2 (Z.eqb_neq a b)) by lia ]
  end.
