(* ===== verification/Outcome.v ===== *)
(** * The effects of the program: state, exceptions, assertions, faults

    Every C++ function that touches an object's state, throws, asserts or can
    have undefined behaviour is a computation of the monad [M W]: from a state of
    type [W] it returns a value and a new state, throws a C++ exception in a new
    state, or crashes. The file also has the logics the later files use: what a
    computation adds to a measure of the state ([adds]), that it leaves the state alone
    ([pure_comp]), that it does not throw ([no_throw]) or throws only in given ways ([throws]),
    and that it keeps an invariant and can crash only in given ways ([runs], [ends]). *)

From S2P Require Import Prelude.

(** ** Build mode

    [assert] is compiled out when [NDEBUG] is defined, as the Release build of
    the Makefile does. *)
Class BuildMode := ndebug : bool.

(** Exceptions the sources throw or let through: [pitaya::Exception]
    (include/pitaya/exception.h), [std::out_of_range] and
    [boost::system::system_error]. *)
Inductive exn :=
| PitayaException (what : string)
| StdOutOfRange
| SystemError (what : string).

(** Ways in which the process stops being a defined computation. *)
Inductive fault :=
| AssertFailed (what : string)
| UndefinedBehaviour (what : string)
| Deadlock
| FuelExhausted.

(** The faults of the accesses to the vector that the source calls [name]. *)
Definition index_out_of_range (name : string) : fault :=
  UndefinedBehaviour (name +:+ ": vector index out of range").
Definition invalid_range (name : string) : fault :=
  UndefinedBehaviour (name +:+ ": invalid iterator range").

#[global] Instance exn_eq_dec : EqDecision exn.
Proof. solve_decision. Defined.
#[global] Instance fault_eq_dec : EqDecision fault.
Proof. solve_decision. Defined.

Inductive outcome (W A : Type) :=
| Ret (a : A) (w : W)
| Throw (e : exn) (w : W)
| Crash (f : fault).
Arguments Ret {W A} a w.
Arguments Throw {W A} e w.
Arguments Crash {W A} f.

Definition M (W A : Type) : Type := W → outcome W A.

#[global] Instance M_ret W : MRet (M W) := λ A a w, Ret a w.
#[global] Instance M_bind W : MBind (M W) := λ A B k m w,
  match m w with
  | Ret a w' => k a w'
  | Throw e w' => Throw e w'
  | Crash f => Crash f
  end.

Section operations.
Context {W : Type}.

Definition get : M W W := λ w, Ret w w.
Definition put (w : W) : M W unit := λ _, Ret tt w.
Definition modify (f : W → W) : M W unit := λ w, Ret tt (f w).
Definition throw {A} (e : exn) : M W A := λ w, Throw e w.
Definition crash {A} (f : fault) : M W A := λ _, Crash f.
Definition undefined {A} (what : string) : M W A := crash (UndefinedBehaviour what).

(** [assert(b)]. *)
Definition cpp_assert `{BuildMode} (what : string) (b : bool) : M W unit :=
  if ndebug then mret tt else if b then mret tt else crash (AssertFailed what).

(** [try { m } catch (const pitaya::Exception&) { h }]. *)
Definition catch_pitaya {A} (m : M W A) (h : string → M W A) : M W A := λ w,
  match m w with
  | Throw (PitayaException what) w' => h what w'
  | o => o
  end.

(** [try { m } catch (const system_error&) { h }]. *)
Definition catch_system {A} (m : M W A) (h : string → M W A) : M W A := λ w,
  match m w with
  | Throw (SystemError what) w' => h what w'
  | o => o
  end.

(** A range-based [for] over [l]. *)
Fixpoint for_each {A} (l : list A) (body : A → M W unit) : M W unit :=
  match l with
  | [] => mret tt
  | x :: l => body x ;; for_each l body
  end.

(** [v\[i\]] on the [std::vector] that the source calls [name]: undefined out of range. *)
Definition vec_at {A} (name : string) (v : list A) (i : Z) : M W A :=
  if i <? 0 then crash (index_out_of_range name) else
  match v !! Z.to_nat i with
  | Some x => mret x
  | None => crash (index_out_of_range name)
  end.

(** The elements of [v] in the iterator range [\[first, last)]. *)
Definition vec_range {A} (name : string) (v : list A) (first last : Z) : M W (list A) :=
  if (0 <=? first) && (first <=? last) && (last <=? Z.of_nat (length v)) then
    mret (take (Z.to_nat (last - first)) (drop (Z.to_nat first) v))
  else crash (invalid_range name).
End operations.

(** ** Focusing on a sub-object

    [Lens W S]: an object of type [S] is a member of one of type [W]. *)
Class Lens (W S : Type) := {
  view : W → S;
  set_view : S → W → W;
  view_set s w : view (set_view s w) = s;
  set_view_view w : set_view (view w) w = w;
  set_set s1 s2 w : set_view s1 (set_view s2 w) = set_view s1 w;
}.

(** A method of the member [S] called from a method of [W]. *)
Definition zoom {W S A} `{Lens W S} (m : M S A) : M W A := λ w,
  match m (view w) with
  | Ret a s => Ret a (set_view s w)
  | Throw e s => Throw e (set_view s w)
  | Crash f => Crash f
  end.

#[export, refine] Instance lens_id W : Lens W W := {| view w := w; set_view s _ := s |}.
Proof. all: done. Defined.

(** ** Inversion and computation of [bind] *)

Lemma bind_Ret {W A B} (m : M W A) (k : A → M W B) w a w' :
  m w = Ret a w' → (m ≫= k) w = k a w'.
Proof. unfold mbind, M_bind. by intros ->. Qed.

Lemma bind_Throw {W A B} (m : M W A) (k : A → M W B) w e w' :
  m w = Throw e w' → (m ≫= k) w = Throw e w'.
Proof. unfold mbind, M_bind. by intros ->. Qed.

Lemma bind_Crash {W A B} (m : M W A) (k : A → M W B) w f :
  m w = Crash f → (m ≫= k) w = Crash f.
Proof. unfold mbind, M_bind. by intros ->. Qed.

Lemma ret_bind {W A B} (a : A) (k : A → M W B) w : ((mret a : M W A) ≫= k) w = k a w.
Proof. done. Qed.

Lemma bind_ext {W A B} (m : M W A) (k1 k2 : A → M W B) w :
  (∀ a w1, k1 a w1 = k2 a w1) → (m ≫= k1) w = (m ≫= k2) w.
Proof. intros Hk. unfold mbind, M_bind. by destruct (m w). Qed.

(** Run the first computation of the goal's [bind] with an equation on it. *)
Ltac run E := rewrite (bind_Ret _ _ _ _ _ E).

Lemma bind_assoc {W A B C} (m : M W A) (k : A → M W B) (h : B → M W C) w :
  ((m ≫= k) ≫= h) w = (m ≫= λ a, k a ≫= h) w.
Proof. unfold mbind, M_bind. by destruct (m w). Qed.

Lemma bind_Ret_inv {W A B} (m : M W A) (k : A → M W B) w b w' :
  (m ≫= k) w = Ret b w' → ∃ a w1, m w = Ret a w1 ∧ k a w1 = Ret b w'.
Proof. unfold mbind, M_bind. destruct (m w); naive_solver. Qed.

Lemma cpp_assert_true {W} `{BuildMode} what b (w : W) :
  b = true → cpp_assert what b w = Ret tt w.
Proof. intros ->. unfold cpp_assert. by destruct ndebug. Qed.

Lemma cpp_assert_false {W} `{BuildMode} what (w : W) :
  cpp_assert what false w = if ndebug then Ret tt w else Crash (AssertFailed what).
Proof. unfold cpp_assert. by destruct ndebug. Qed.

Lemma vec_at_Some {W A} {name} (v : list A) i x (w : W) :
  0 ≤ i → v !! Z.to_nat i = Some x → vec_at name v i w = Ret x w.
Proof. intros Hi Hx. unfold vec_at. decide_ltb. by rewrite Hx. Qed.

Lemma vec_at_out {W A} {name} (v : list A) i (w : W) :
  Z.of_nat (length v) ≤ i →
  vec_at name v i w = Crash (index_out_of_range name).
Proof.
  intros Hi. unfold vec_at. decide_ltb. by rewrite lookup_ge_None_2 by lia.
Qed.

Lemma vec_range_ok {W A} {name} (v : list A) i j (w : W) :
  0 ≤ i ≤ j → j ≤ Z.of_nat (length v) →
  vec_range name v i j w = Ret (take (Z.to_nat (j - i)) (drop (Z.to_nat i) v)) w.
Proof.
  intros. unfold vec_range. do 3 decide_ltb. done.
Qed.

(** Reads at a known split of the vector. *)
Lemma vec_at_middle {W A} {name} (a t : list A) x i (w : W) :
  i = Z.of_nat (length a) → vec_at name (a ++ x :: t) i w = Ret x w.
Proof.
  intros ->. apply vec_at_Some; [lia|]. rewrite Nat2Z.id. by apply list_lookup_middle.
Qed.

Lemma vec_at_app_r {W A} {name} (a t : list A) i k (w : W) :
  i = Z.of_nat (length a) → 0 ≤ k → vec_at name (a ++ t) (i + k) w = vec_at name t k w.
Proof.
  intros -> Hk. unfold vec_at. do 2 decide_ltb.
  rewrite lookup_app_r by lia. by replace (Z.to_nat _ - length a)%nat with (Z.to_nat k) by lia.
Qed.

Lemma vec_range_middle {W A} {name} (a b t : list A) i j (w : W) :
  i = Z.of_nat (length a) → j = i + Z.of_nat (length b) →
  vec_range name (a ++ b ++ t) i j w = Ret b w.
Proof.
  intros -> ->. rewrite vec_range_ok by (rewrite ?length_app; lia).
  rewrite Nat2Z.id, drop_app_length. by rewrite take_app_length' by lia.
Qed.

Lemma vec_range_suffix {W A} {name} (a t : list A) i j (w : W) :
  i = Z.of_nat (length a) → j = Z.of_nat (length (a ++ t)) →
  vec_range name (a ++ t) i j w = Ret t w.
Proof.
  rewrite length_app. intros -> ->. rewrite vec_range_ok by (rewrite ?length_app; lia).
  rewrite Nat2Z.id, drop_app_length, take_ge by lia. done.
Qed.

Lemma vec_range_out {W A} {name} (v : list A) i j (w : W) :
  j < i → vec_range name v i j w = Crash (invalid_range name).
Proof.
  intros. unfold vec_range. rewrite (proj2 (Z.leb_gt i j)) by lia. by rewrite andb_false_r.
Qed.

Lemma zoom_Ret {W S A} `{Lens W S} (m : M S A) w a s :
  m (view w) = Ret a s → zoom m w = Ret a (set_view s w).
Proof. unfold zoom. by intros ->. Qed.

Lemma zoom_Ret_inv {W S A} `{Lens W S} (m : M S A) w a w' :
  zoom m w = Ret a w' → ∃ s, m (view w) = Ret a s ∧ w' = set_view s w.
Proof. unfold zoom. destruct (m (view w)); intros [= <- <-]. by eexists. Qed.

(** ** Accounting

    [adds R μ k m]: when [m] returns, the measure [μ] of the state has grown by [k] ([R] is
    equality) or by at most [k] ([R] is [≤]). *)

Class Accounting (R : relation nat) := {
  accounting_preorder :: PreOrder R;
  accounting_mono a b c : R a b → R (a + c)%nat (b + c)%nat;
}.

#[export] Instance accounting_eq : Accounting eq.
Proof. split; [apply _|]. by intros a b c ->. Qed.

#[export] Instance accounting_le : Accounting le.
Proof. split; [apply _|]. intros. lia. Qed.

Definition adds {W A} (R : relation nat) (μ : W → nat) (k : nat) (m : M W A) : Prop :=
  ∀ w a w', m w = Ret a w' → R (μ w') (μ w + k)%nat.

Section adds.
Context {W : Type} (R : relation nat) `{!Accounting R} (μ : W → nat).

Lemma accounting_mono_l a b c : R a b → R (c + a)%nat (c + b)%nat.
Proof. rewrite !(Nat.add_comm c). apply accounting_mono. Qed.

Lemma adds_ret {A} (a : A) : adds R μ 0 (mret a : M W A).
Proof. intros w b w' [= <- <-]. by rewrite Nat.add_0_r. Qed.

Lemma adds_get : adds R μ 0 (get : M W W).
Proof. intros w b w' [= <- <-]. by rewrite Nat.add_0_r. Qed.

Lemma adds_throw {A} k e : adds R μ k (throw e : M W A).
Proof. by intros w b w'. Qed.

Lemma adds_crash {A} k f : adds R μ k (crash f : M W A).
Proof. by intros w b w'. Qed.

Lemma adds_undefined {A} k what : adds R μ k (undefined what : M W A).
Proof. by intros w b w'. Qed.

Lemma adds_modify k f : (∀ w, R (μ (f w)) (μ w + k)%nat) → adds R μ k (modify f).
Proof. intros H w b w' [= <- <-]. apply H. Qed.

Lemma adds_assert `{BuildMode} what b : adds R μ 0 (cpp_assert what b : M W unit).
Proof.
  unfold cpp_assert. destruct ndebug, b; first [apply adds_ret | apply adds_crash].
Qed.

Lemma adds_bind {A B} k1 k2 (m : M W A) (f : A → M W B) :
  adds R μ k1 m → (∀ a, adds R μ k2 (f a)) → adds R μ (k1 + k2) (m ≫= f).
Proof.
  intros Hm Hf w b w' (a & w1 & E1 & E2)%bind_Ret_inv.
  etrans; [by eapply Hf|]. rewrite Nat.add_assoc. apply accounting_mono. by eapply Hm.
Qed.

(** A first computation that adds nothing. *)
Lemma adds_seq {A B} k (m : M W A) (f : A → M W B) :
  adds R μ 0 m → (∀ a, adds R μ k (f a)) → adds R μ k (m ≫= f).
Proof. apply (adds_bind 0 k). Qed.

Lemma adds_weaken {A} k1 k2 (m : M W A) : R k1 k2 → adds R μ k1 m → adds R μ k2 m.
Proof.
  intros Hk Hm w a w' E. etrans; [by eapply Hm|]. by apply accounting_mono_l.
Qed.

Lemma adds_for_each {A} (l : list A) body :
  (∀ x, adds R μ 0 (body x)) → adds R μ 0 (for_each l body).
Proof. intros H. induction l; simpl; [apply adds_ret | by apply adds_seq]. Qed.

Lemma adds_vec_at {A} {name} (v : list A) i : adds R μ 0 (vec_at name v i : M W A).
Proof.
  unfold vec_at. destruct (_ <? _); [apply adds_crash|].
  destruct (_ !! _); [apply adds_ret | apply adds_crash].
Qed.

Lemma adds_vec_range {A} {name} (v : list A) i j : adds R μ 0 (vec_range name v i j : M W _).
Proof.
  unfold vec_range. destruct (_ && _); [apply adds_ret | apply adds_crash].
Qed.

Lemma adds_zoom {S A} `{Lens W S} (νS : S → nat) k (m : M S A) :
  adds R νS k m →
  (∀ w s, R (νS s) (νS (view w) + k)%nat → R (μ (set_view s w)) (μ w + k)%nat) →
  adds R μ k (zoom m).
Proof.
  intros Hm Hμ w a w'. unfold zoom. destruct (m (view w)) eqn:E; [|done..].
  intros [= <- <-]. apply Hμ. by eapply Hm.
Qed.

Lemma adds_catch_pitaya {A} k (m : M W A) h :
  adds R μ k m → (∀ w e w', m w = Throw e w' → R (μ w') (μ w)) →
  (∀ what, adds R μ k (h what)) → adds R μ k (catch_pitaya m h).
Proof.
  intros Hm Ht Hh w a w'. unfold catch_pitaya. destruct (m w) as [b w1|[what| |] w1|] eqn:E;
    [intros [= <- <-]; by eapply Hm| |done..].
  intros E'. etrans; [by eapply Hh|]. apply accounting_mono. by eapply Ht.
Qed.

(** A computation that looks at the state it starts in. *)
Lemma adds_get_then {A} k (f : W → M W A) :
  (∀ w a w', f w w = Ret a w' → R (μ w') (μ w + k)%nat) → adds R μ k (get ≫= f).
Proof. intros Hf w a w'. apply Hf. Qed.
End adds.

(** [adds_leaf] closes a goal on a construct that adds nothing; [adds_seq_tac] goes past a
    first computation that adds nothing, closing that part when it is a leaf. *)
Ltac adds_leaf :=
  first
  [ apply adds_get; apply _ | apply adds_ret; apply _ | apply adds_throw | apply adds_crash
  | apply adds_undefined | apply adds_assert; apply _ | apply adds_vec_at; apply _
  | apply adds_vec_range; apply _ ].
Ltac adds_seq_tac := eapply adds_seq; [apply _ | try adds_leaf | intros ?].

(** Computations that leave the state alone. *)
Definition pure_comp {W A} (m : M W A) : Prop := ∀ w a w', m w = Ret a w' → w' = w.

Lemma adds_pure {W A} R `{!Accounting R} (μ : W → nat) (m : M W A) : pure_comp m → adds R μ 0 m.
Proof. intros H w a w' E. rewrite (H _ _ _ E), Nat.add_0_r. done. Qed.

Section pure.
Context {W : Type}.

Lemma pure_ret {A} (a : A) : pure_comp (mret a : M W A).
Proof. by intros w b w' [= _ <-]. Qed.
Lemma pure_get : pure_comp (get : M W W).
Proof. by intros w b w' [= _ <-]. Qed.
Lemma pure_throw {A} e : pure_comp (throw e : M W A).
Proof. by intros w b w'. Qed.
Lemma pure_crash {A} f : pure_comp (crash f : M W A).
Proof. by intros w b w'. Qed.
Lemma pure_undefined {A} what : pure_comp (undefined what : M W A).
Proof. by intros w b w'. Qed.
Lemma pure_assert `{BuildMode} what b : pure_comp (cpp_assert what b : M W unit).
Proof. unfold cpp_assert. destruct ndebug, b; first [apply pure_ret | apply pure_crash]. Qed.
Lemma pure_bind {A B} (m : M W A) (f : A → M W B) :
  pure_comp m → (∀ a, pure_comp (f a)) → pure_comp (m ≫= f).
Proof.
  intros Hm Hf w b w' (a & w1 & E1 & E2)%bind_Ret_inv.
  apply Hm in E1 as ->. by eapply Hf.
Qed.
Lemma pure_vec_at {A} {name} (v : list A) i : pure_comp (vec_at name v i : M W A).
Proof. unfold vec_at. repeat case_match; first [apply pure_ret | apply pure_crash]. Qed.
Lemma pure_vec_range {A} {name} (v : list A) i j : pure_comp (vec_range name v i j : M W _).
Proof. unfold vec_range. case_match; first [apply pure_ret | apply pure_crash]. Qed.
End pure.

Create HintDb pure.
#[export] Hint Resolve pure_ret pure_get pure_throw pure_crash pure_undefined pure_assert
  pure_bind pure_vec_at pure_vec_range : pure.

(** Follow the control flow of a computation that only reads the state. *)
Ltac pure_tac :=
  repeat first [ progress intros | solve [auto with pure nocore] | apply pure_bind | case_match ].

(** ** Exceptions *)

Definition no_throw {W A} (m : M W A) : Prop := ∀ w e w', m w ≠ Throw e w'.

Section no_throw.
Context {W : Type}.

Lemma no_throw_ret {A} (a : A) : no_throw (mret a : M W A).
Proof. done. Qed.
Lemma no_throw_get : no_throw (get : M W W).
Proof. done. Qed.
Lemma no_throw_modify f : no_throw (modify f : M W unit).
Proof. done. Qed.
Lemma no_throw_crash {A} f : no_throw (crash f : M W A).
Proof. done. Qed.
Lemma no_throw_undefined {A} what : no_throw (undefined what : M W A).
Proof. done. Qed.
Lemma no_throw_assert `{BuildMode} what b : no_throw (cpp_assert what b : M W unit).
Proof. unfold cpp_assert. by destruct ndebug, b. Qed.
Lemma no_throw_bind {A B} (m : M W A) (f : A → M W B) :
  no_throw m → (∀ a, no_throw (f a)) → no_throw (m ≫= f).
Proof.
  intros Hm Hf w e w'. unfold mbind, M_bind.
  destruct (m w) eqn:E; [apply Hf|by intros _; eapply Hm|done].
Qed.
Lemma no_throw_for_each {A} (l : list A) body :
  (∀ x, no_throw (body x)) → no_throw (for_each l body : M W unit).
Proof. intros H. induction l; simpl; [done|by apply no_throw_bind]. Qed.
Lemma no_throw_vec_at {A} {name} (v : list A) i : no_throw (vec_at name v i : M W A).
Proof. unfold vec_at. intros w e w'. by repeat case_match. Qed.
Lemma no_throw_vec_range {A} {name} (v : list A) i j : no_throw (vec_range name v i j : M W _).
Proof. unfold vec_range. intros w e w'. by case_match. Qed.
Lemma no_throw_zoom {S A} `{Lens W S} (m : M S A) : no_throw m → no_throw (zoom m).
Proof. intros Hm w e w'. unfold zoom. destruct (m (view w)) eqn:E; [done| |done].
  intros _. by eapply Hm.
Qed.
End no_throw.

Create HintDb no_throw.
#[export] Hint Resolve no_throw_ret no_throw_get no_throw_modify no_throw_crash
  no_throw_undefined no_throw_assert no_throw_bind no_throw_for_each no_throw_vec_at
  no_throw_vec_range no_throw_zoom : no_throw.

Ltac no_throw_tac :=
  repeat first
    [ progress intros | solve [auto with no_throw nocore] | apply no_throw_bind | case_match ].

(** *** Which exceptions

    [throws E m]: when [m] throws, [E] holds of the exception and of the state it leaves. *)

Definition throws {W A} (E : exn → W → Prop) (m : M W A) : Prop :=
  ∀ w e w', m w = Throw e w' → E e w'.

Section throws.
Context {W : Type} (E : exn → W → Prop).

Lemma throws_none {A} (m : M W A) : no_throw m → throws E m.
Proof. intros Hm w e w' Et. by apply Hm in Et. Qed.

Lemma throws_bind {A B} (m : M W A) (f : A → M W B) :
  throws E m → (∀ a, throws E (f a)) → throws E (m ≫= f).
Proof.
  intros Hm Hf w e w'. unfold mbind, M_bind.
  destruct (m w) eqn:Em; [apply Hf|by intros [= <- <-]; eapply Hm|done].
Qed.

Lemma throws_for_each {A} (l : list A) body :
  (∀ x, throws E (body x)) → throws E (for_each l body : M W unit).
Proof. intros Hb. induction l; simpl; [by apply throws_none|by apply throws_bind]. Qed.

(** What is caught is not thrown. *)
Lemma throws_catch_pitaya {A} (m : M W A) h :
  throws (λ e w, E e w ∨ ∃ what, e = PitayaException what) m → (∀ what, throws E (h what)) →
  throws E (catch_pitaya m h).
Proof.
  intros Hm Hh w e w'. unfold catch_pitaya. destruct (m w) as [|e1 w1|] eqn:Em; [done| |done].
  destruct (Hm _ _ _ Em) as [He|[what ->]]; [|apply Hh].
  destruct e1; [apply Hh|by intros [= <- <-]..].
Qed.

Lemma throws_weaken {A} (E' : exn → W → Prop) (m : M W A) :
  (∀ e w, E e w → E' e w) → throws E m → throws E' m.
Proof. intros HE Hm w e w' Et. by eapply HE, Hm. Qed.

Lemma no_throw_throws {A} (m : M W A) : throws E m → (∀ e w, ¬ E e w) → no_throw m.
Proof. intros Hm HE w e w' Et. by eapply HE, Hm. Qed.
End throws.

Create HintDb throws.

(** Follow the control flow; what throws nothing at all is found in [no_throw]. *)
Ltac throws_tac :=
  repeat first
    [ progress intros | solve [auto with throws nocore]
    | apply throws_none; solve [auto with no_throw nocore]
    | apply throws_for_each | apply throws_bind | case_match ].

(** ** Invariants and faults

    [runs I F m]: from a state where [I] holds, [m] ends in one where it holds, by a return
    or by an exception, or crashes with a fault that [F] allows. *)

Definition ends {W A} (I : W → Prop) (F : fault → Prop) (o : outcome W A) : Prop :=
  match o with
  | Ret _ w' | Throw _ w' => I w'
  | Crash f => F f
  end.

Definition runs {W A} (I : W → Prop) (F : fault → Prop) (m : M W A) : Prop :=
  ∀ w, I w → ends I F (m w).

Lemma ends_bind {W A B} (I J : W → Prop) F (m : M W A) (k : A → M W B) w :
  ends I F (m w) → (∀ a w', I w' → m w = Ret a w' → ends J F (k a w')) →
  (∀ w', I w' → J w') → ends J F ((m ≫= k) w).
Proof.
  intros Hm Hk HJ. unfold mbind, M_bind. destruct (m w); simpl in *; [by apply Hk|by apply HJ|done].
Qed.

(** When the first part does not throw, only what follows has to end in [J]. *)
Lemma ends_then {W A B} (I J : W → Prop) F (m : M W A) (k : A → M W B) w :
  no_throw m → ends I F (m w) → (∀ a w', I w' → ends J F (k a w')) → ends J F ((m ≫= k) w).
Proof.
  intros Hn Hm Hk. unfold mbind, M_bind. specialize (Hn w).
  destruct (m w) as [a w'|e w'|f]; simpl in *; [by apply Hk|by destruct (Hn e w')|done].
Qed.

(** Nothing is thrown, so nothing is caught. *)
Lemma ends_catch_pitaya {W A} (I : W → Prop) F (m : M W A) h w :
  no_throw m → ends I F (m w) → ends I F (catch_pitaya m h w).
Proof.
  intros Hn Hm. unfold catch_pitaya. specialize (Hn w).
  destruct (m w) as [|e w'|]; [done|by destruct (Hn e w')|done].
Qed.

Section runs.
Context {W : Type} (I : W → Prop) (F : fault → Prop).

Lemma runs_ret {A} (a : A) : runs I F (mret a).
Proof. by intros w. Qed.

Lemma runs_get : runs I F get.
Proof. by intros w. Qed.

Lemma runs_throw {A} e : runs I F (throw e : M W A).
Proof. by intros w. Qed.

Lemma runs_crash {A} f : F f → runs I F (crash f : M W A).
Proof. by intros ? w. Qed.

Lemma runs_undefined {A} what : F (UndefinedBehaviour what) → runs I F (undefined what : M W A).
Proof. apply runs_crash. Qed.

Lemma runs_modify f : (∀ w, I w → I (f w)) → runs I F (modify f).
Proof. intros Hf w Hw. by apply Hf. Qed.

Lemma runs_bind {A B} (m : M W A) (k : A → M W B) :
  runs I F m → (∀ a, runs I F (k a)) → runs I F (m ≫= k).
Proof.
  intros Hm Hk w Hw. specialize (Hm w Hw). unfold mbind, M_bind.
  destruct (m w); [by apply Hk|done..].
Qed.

(** The continuation may use what the first computation returned, and where. *)
Lemma runs_bind_eq {A B} (m : M W A) (k : A → M W B) :
  runs I F m → (∀ w a w', I w → m w = Ret a w' → runs I F (k a)) → runs I F (m ≫= k).
Proof.
  intros Hm Hk w Hw. specialize (Hm w Hw). unfold mbind, M_bind.
  destruct (m w) eqn:E; [by eapply Hk|done..].
Qed.

Lemma runs_get_then {A} (f : W → M W A) :
  (∀ w, I w → ends I F (f w w)) → runs I F (get ≫= f).
Proof. intros Hf w. apply Hf. Qed.

Lemma runs_assert `{BuildMode} what b :
  F (AssertFailed what) ∨ b = true → runs I F (cpp_assert what b : M W unit).
Proof.
  intros Hb. unfold cpp_assert. destruct ndebug, b; try apply runs_ret.
  apply runs_crash. naive_solver.
Qed.

Lemma runs_for_each {A} (l : list A) body :
  (∀ x, runs I F (body x)) → runs I F (for_each l body).
Proof. intros Hb. induction l; simpl; [apply runs_ret|by apply runs_bind]. Qed.

Lemma runs_vec_at {A} {name} (v : list A) i :
  F (index_out_of_range name) → runs I F (vec_at name v i : M W A).
Proof.
  intros HF. unfold vec_at. case_match; [by apply runs_crash|].
  case_match; [apply runs_ret|by apply runs_crash].
Qed.

Lemma runs_vec_range {A} {name} (v : list A) i j :
  F (invalid_range name) → runs I F (vec_range name v i j : M W _).
Proof. intros HF. unfold vec_range. case_match; [apply runs_ret|by apply runs_crash]. Qed.

Lemma runs_catch_pitaya {A} (m : M W A) h :
  runs I F m → (∀ what, runs I F (h what)) → runs I F (catch_pitaya m h).
Proof.
  intros Hm Hh w Hw. specialize (Hm w Hw). unfold catch_pitaya.
  destruct (m w) as [|[]|]; try done. by apply Hh.
Qed.

Lemma runs_catch_system {A} (m : M W A) h :
  runs I F m → (∀ what, runs I F (h what)) → runs I F (catch_system m h).
Proof.
  intros Hm Hh w Hw. specialize (Hm w Hw). unfold catch_system.
  destruct (m w) as [|[]|]; try done. by apply Hh.
Qed.

(** A method of a member that keeps an invariant of the member. *)
Lemma runs_zoom {S A} `{Lens W S} (J : S → Prop) (m : M S A) :
  runs J F m → (∀ w, I w → J (view w)) → (∀ w s, I w → J s → I (set_view s w)) →
  runs I F (zoom m).
Proof.
  intros Hm HJ HI w Hw. specialize (Hm (view w) (HJ w Hw)). unfold zoom.
  destruct (m (view w)); naive_solver.
Qed.

Lemma runs_weaken {A} (G : fault → Prop) (m : M W A) :
  (∀ f, G f → F f) → runs I G m → runs I F m.
Proof. intros HG Hm w Hw. specialize (Hm w Hw). destruct (m w); simpl in *; auto. Qed.
End runs.
