(* ===== verification/Logger.v ===== *)
(** * The log (src/logger.h)

    [StreamLogger] and the macro [LOG]: one line of a log, built in the constructor, extended
    by [operator<<] and written by the destructor. The date is formatted into a buffer of
    fixed size; the file shows that every date fits. No other file depends on this one. *)

From stdpp Require Import pretty.
From S2P Require Import Prelude Outcome.

#[local] Instance append_assoc : Assoc (=) String.append.
Proof. intros s t u. induction s as [|c s IH]; [done|exact (f_equal (String c) IH)]. Qed.
#[local] Instance append_nil_r : RightId (=) ""%string String.append.
Proof. intros s. induction s as [|c s IH]; [done|exact (f_equal (String c) IH)]. Qed.

(** ** The C library's calendar *)

Record tm := { tm_sec : Z; tm_min : Z; tm_hour : Z; tm_mday : Z; tm_mon : Z; tm_year : Z }.

(** [localtime] gives fields in their ranges, with the year an [int], or a null pointer. *)
Class LocalTime := {
  localtime : Z → option tm;
  localtime_wf t d : localtime t = Some d →
    0 ≤ tm_sec d ≤ 60 ∧ 0 ≤ tm_min d < 60 ∧ 0 ≤ tm_hour d < 24 ∧ 1 ≤ tm_mday d ≤ 31 ∧
    0 ≤ tm_mon d < 12 ∧ - 2 ^ 31 ≤ tm_year d < 2 ^ 31;
}.

(** A number in two digits. *)
Definition two_digits (n : Z) : string :=
  if n <? 10 then "0" +:+ pretty n else pretty n.

(** The format [%Y-%m-%d %H:%M:%S] in brackets, with a space after. *)
Definition format_time (d : tm) : string :=
  "[" +:+ pretty (tm_year d + 1900) +:+ "-" +:+ two_digits (tm_mon d + 1) +:+ "-" +:+
  two_digits (tm_mday d) +:+ " " +:+ two_digits (tm_hour d) +:+ ":" +:+ two_digits (tm_min d) +:+
  ":" +:+ two_digits (tm_sec d) +:+ "] ".

(** [strftime(buf, maxsize, ...)]: when the text and its terminator do not fit, the contents
    of the buffer are indeterminate. *)
Definition strftime (maxsize : Z) (d : tm) : option string :=
  if Z.of_nat (String.length (format_time d)) + 1 <=? maxsize then Some (format_time d) else None.

(** ** The logger *)

Inductive LogLevel :=
| LogLevel_Debug
| LogLevel_Info
| LogLevel_Warn
| LogLevel_Error
| LogLevel_Fatal.

Definition LogLevelNames (level : LogLevel) : string :=
  match level with
  | LogLevel_Debug => "[DEBU] "
  | LogLevel_Info => "[INFO] "
  | LogLevel_Warn => "[WARN] "
  | LogLevel_Error => "[ERRO] "
  | LogLevel_Fatal => "[FATA] "
  end.

(** What the logger looks at and changes: the time, and the standard output. *)
Record Console := { con_time : Z; con_out : string }.

Record StreamLogger := { oss : string }.

Definition newline : string := String (Ascii.ascii_of_nat 10) "".

Section logger.
Context `{LocalTime}.

Definition kMaxSizeForTime : Z := 32.

Definition StreamLogger_new (level : LogLevel) (function : string) (line : Z) : M Console StreamLogger :=
  w ← get;
  match localtime (con_time w) with
  | None => undefined "strftime of a null pointer"
  | Some d =>
      match strftime kMaxSizeForTime d with
      | None => undefined "read of indeterminate bytes"
      | Some timeBuf =>
          mret {| oss := timeBuf +:+ LogLevelNames level +:+ function +:+ "(" +:+ pretty line +:+ "): " |}
      end
  end.

(** [operator<<], with the text of its argument. *)
Definition StreamLogger_append (l : StreamLogger) (t : string) : StreamLogger :=
  {| oss := oss l +:+ t |}.

Definition StreamLogger_destroy (l : StreamLogger) : M Console unit :=
  modify (λ w, {| con_time := con_time w; con_out := con_out w +:+ oss l +:+ newline |}).

(** [LOG(level) << t1 << t2 ...]: the logger lives until the end of the statement. *)
Definition LOG (level : LogLevel) (file : string) (line : Z) (ts : list string) : M Console unit :=
  l ← StreamLogger_new level file line;
  StreamLogger_destroy (foldl StreamLogger_append l ts).

(** ** Every date fits *)

Lemma length_pretty_go k n s :
  (n < 10 ^ N.of_nat k)%N → (String.length (pretty_N_go n s) ≤ String.length s + k)%nat.
Proof.
  revert n s. induction k as [|k IH]; intros n s Hn.
  { assert (n = 0)%N as -> by lia. rewrite pretty_N_go_0. lia. }
  destruct (decide (n = 0)%N) as [->|Hz]; [rewrite pretty_N_go_0; lia|].
  rewrite pretty_N_go_step by lia. etrans; [apply IH|simpl; lia].
  rewrite Nat2N.inj_succ, N.pow_succ_r' in Hn. apply N.Div0.div_lt_upper_bound. lia.
Qed.

Lemma length_pretty_N k n : (n < 10 ^ N.of_nat (S k))%N → (String.length (pretty n) ≤ S k)%nat.
Proof.
  intros Hn. unfold pretty, pretty_N. case_decide; [simpl; lia|].
  pose proof (length_pretty_go (S k) n "" Hn). simpl in *. lia.
Qed.

Lemma length_pretty_year y : - 2 ^ 31 ≤ y < 2 ^ 31 → (String.length (pretty (y + 1900)%Z) ≤ 11)%nat.
Proof.
  intros Hy. destruct (y + 1900) as [|p|p] eqn:E.
  - vm_compute. lia.
  - change (pretty (Z.pos p)) with (pretty (N.pos p)).
    etrans; [apply (length_pretty_N 9)|lia]. simpl N.of_nat. lia.
  - change (pretty (Z.neg p)) with ("-" +:+ pretty (N.pos p)). simpl. apply le_n_S.
    apply (length_pretty_N 9). simpl N.of_nat. lia.
Qed.

Lemma length_two_digits n : 0 ≤ n < 100 → String.length (two_digits n) = 2%nat.
Proof.
  intros Hn.
  assert (Forall (λ k, String.length (two_digits (Z.of_nat k)) = 2%nat) (seq 0 100)) as Hall
    by (by apply (bool_decide_unpack _); vm_compute).
  rewrite Forall_forall in Hall. rewrite <- (Z2Nat.id n) by lia. apply Hall, elem_of_seq. lia.
Qed.

Lemma length_append s t : String.length (s +:+ t) = (String.length s + String.length t)%nat.
Proof. induction s; simpl; [done|by f_equal]. Qed.

Lemma strftime_fits t d : localtime t = Some d → strftime kMaxSizeForTime d = Some (format_time d).
Proof.
  intros (? & ? & ? & ? & ? & Hy)%localtime_wf. unfold strftime, kMaxSizeForTime.
  rewrite (proj2 (Z.leb_le _ _)); [done|]. unfold format_time.
  rewrite !length_append, !length_two_digits by lia. apply length_pretty_year in Hy. simpl in *. lia.
Qed.

Lemma append_parts ts l :
  oss (foldl StreamLogger_append l ts) = oss l +:+ foldr String.append "" ts.
Proof.
  revert l. induction ts as [|t ts IH]; intros l; simpl; [by rewrite (right_id_L "" String.append)|].
  rewrite IH. simpl. by rewrite <- (assoc_L String.append).
Qed.

(** A statement that logs writes one line with its date, level and place, whatever the date;
    it has undefined behaviour only when the time has no date. *)
Lemma LOG_spec level file line ts w :
  LOG level file line ts w =
    match localtime (con_time w) with
    | None => Crash (UndefinedBehaviour "strftime of a null pointer")
    | Some d => Ret tt {| con_time := con_time w; con_out := con_out w +:+
        (format_time d +:+ LogLevelNames level +:+ file +:+ "(" +:+ pretty line +:+ "): ") +:+
        foldr String.append "" ts +:+ newline |}
    end.
Proof.
  unfold LOG, StreamLogger_new. rewrite bind_assoc, (bind_Ret get _ _ _ _ eq_refl).
  destruct (localtime _) as [d|] eqn:E; [|done]. rewrite (strftime_fits _ _ E).
  rewrite (bind_Ret (mret _) _ _ _ _ eq_refl). unfold StreamLogger_destroy, modify.
  rewrite append_parts. cbn [oss]. by rewrite <- (assoc_L String.append (_ +:+ _) _ newline).
Qed.
End logger.
