(* ===== verification/Net.v ===== *)
(** * Address splitting (src/utils/net.h)

    [SplitHostAndPort] cuts an address at its first colon. *)

From S2P Require Import Prelude Outcome.

(** [std::string::find_first_of(c)]; [None] is [npos]. *)
Fixpoint find_first_of (c : Ascii.ascii) (s : string) : option nat :=
  match s with
  | EmptyString => None
  | String a s => if decide (a = c) then Some 0%nat else S <$> find_first_of c s
  end.

(** [std::string::substr(pos)]. *)
Fixpoint substr_from (pos : nat) (s : string) : string :=
  match pos, s with
  | O, _ => s
  | S pos, String _ s => substr_from pos s
  | S _, EmptyString => EmptyString
  end.

(** [std::string::substr(0, len)]. *)
Fixpoint substr_to (len : nat) (s : string) : string :=
  match len, s with
  | S len, String a s => String a (substr_to len s)
  | _, _ => EmptyString
  end.

Definition colon : Ascii.ascii := Ascii.ascii_of_nat 58.

Definition SplitHostAndPort (address : string) : option (string * string) :=
  match find_first_of colon address with
  | None => None
  | Some colonPos =>
      let host := substr_to colonPos address in
      let port := substr_from (colonPos + 1) address in
      Some (host, port)
  end.

(** ** Properties *)

Lemma find_first_of_None c s :
  find_first_of c s = None ↔ c ∉ String.list_ascii_of_string s.
Proof.
  induction s as [|a s IH]; simpl; [set_solver|].
  case_decide; [set_solver|]. rewrite fmap_None, IH. set_solver.
Qed.

(** What [find_first_of] and the two [substr] calls compute together: the parts
    around the first occurrence. *)
Lemma find_first_of_split c s pos :
  find_first_of c s = Some pos →
  find_first_of c (substr_to pos s) = None ∧
  s = (substr_to pos s +:+ String c (substr_from (pos + 1) s)).
Proof.
  revert pos. induction s as [|a s IH]; intros pos; simpl; [done|].
  case_decide as Hac.
  - subst a. by intros [= <-].
  - intros (p & Hp & ->)%fmap_Some. destruct (IH p Hp) as [Hn Hs]. simpl.
    rewrite decide_False, Hn by done. split; [done | exact (f_equal (String a) Hs)].
Qed.

Lemma find_first_of_app c h p :
  find_first_of c h = None → find_first_of c (h +:+ String c p) = Some (String.length h).
Proof.
  induction h as [|a h IH]; simpl.
  - intros _. by rewrite decide_True.
  - case_decide; [done|]. rewrite fmap_None. intros E%IH. by rewrite E.
Qed.

Lemma substr_to_length h p : substr_to (String.length h) (h +:+ p) = h.
Proof. induction h; cbn; [by destruct p | by f_equal]. Qed.

Lemma substr_from_length h c p : substr_from (String.length h + 1) (h +:+ String c p) = p.
Proof. induction h; cbn; [by destruct p | done]. Qed.

(** C40: [SplitHostAndPort] inverts joining a colon-free host with any port, it
    succeeds on nothing else, and it fails exactly on addresses without a colon. *)
Theorem SplitHostAndPort_spec address :
  match SplitHostAndPort address with
  | Some (host, port) =>
      (colon ∉ String.list_ascii_of_string host) ∧ address = (host +:+ String colon port)
      ∧ ∀ host' port', colon ∉ String.list_ascii_of_string host' →
          address = (host' +:+ String colon port') → host' = host ∧ port' = port
  | None => colon ∉ String.list_ascii_of_string address
  end.
Proof.
  unfold SplitHostAndPort.
  destruct (find_first_of colon address) as [pos|] eqn:E; [|by apply find_first_of_None].
  pose proof E as [Hh Ha]%find_first_of_split. split; [by apply find_first_of_None|].
  split; [done|]. intros h p Hhp ->. apply find_first_of_None in Hhp.
  rewrite find_first_of_app in E by done. injection E as <-.
  by rewrite substr_to_length, substr_from_length.
Qed.
