(* ===== verification/Errors.v ===== *)
(** * Error codes and categories
    (include/pitaya/connection/error.h, src/connection/error.cpp,
    include/pitaya/exception.h)

    A [boost::system::error_code] is a value and a category. The message of a
    code of boost's own categories comes from boost: it is a parameter. *)

From S2P Require Import Prelude Outcome.

Inductive ConnectionError :=
| InvalidPacketType
| TooManyPackets
| WrongPacket
| HeartbeatTimeout
| InvalidHeartbeatJson
| InvalidHandshakeCompression
| InvalidMessage.

#[global] Instance ConnectionError_eq_dec : EqDecision ConnectionError.
Proof. solve_decision. Defined.

(** [static_cast<int>(e)]. *)
Definition ConnectionError_to_int (e : ConnectionError) : Z :=
  match e with
  | InvalidPacketType => 1
  | TooManyPackets => 2
  | WrongPacket => 3
  | HeartbeatTimeout => 4
  | InvalidHeartbeatJson => 5
  | InvalidHandshakeCompression => 6
  | InvalidMessage => 7
  end.

(** [ErrorCategory::name] and [ErrorCategory::message] of
    [pitaya::connection::ErrorCategory]. *)
Definition ErrorCategory_name : string := "pitaya_connection".

Definition ErrorCategory_message (ev : Z) : string :=
  if ev =? ConnectionError_to_int InvalidPacketType then
    "Received invalid packet type from server"
  else if ev =? ConnectionError_to_int TooManyPackets then
    "Received too many packets from the server"
  else if ev =? ConnectionError_to_int WrongPacket then
    "Received wrong packet from the server"
  else if ev =? ConnectionError_to_int HeartbeatTimeout then
    "Did not receive heartbeat from server"
  else if ev =? ConnectionError_to_int InvalidHandshakeCompression then
    "Invalid handshake response compression from server"
  else if ev =? ConnectionError_to_int InvalidHeartbeatJson then
    "Invalid heartbeat json value from server"
  else "Unknown error".

(** [pitaya::ErrorCategory] of exception.h. *)
Definition PitayaErrorCategory_name : string := "pitaya".
Definition PitayaErrorCategory_message (ev : Z) : string :=
  "Returning error category message man".

(** Boost's own categories (system, generic, the asio ones) are one constructor. *)
Inductive Category := BoostCategory | PitayaConnectionCategory.

#[global] Instance Category_eq_dec : EqDecision Category.
Proof. solve_decision. Defined.

Record error_code := { ec_value : Z; ec_category : Category }.

#[global] Instance error_code_eq_dec : EqDecision error_code.
Proof. solve_decision. Defined.

(** [make_error_code(ConnectionError)]. *)
Definition make_error_code (e : ConnectionError) : error_code :=
  {| ec_value := ConnectionError_to_int e; ec_category := PitayaConnectionCategory |}.

(** [boost::system::errc::make_error_code(success)]. *)
Definition ec_success : error_code := {| ec_value := 0; ec_category := BoostCategory |}.

(** The conversion of an [error_code] to [bool]. *)
Definition ec_failed (ec : error_code) : bool := negb (ec_value ec =? 0).

(** Messages of boost's categories. *)
Class BoostMessages := boost_message : Z → string.

Definition ec_message `{BoostMessages} (ec : error_code) : string :=
  match ec_category ec with
  | BoostCategory => boost_message (ec_value ec)
  | PitayaConnectionCategory => ErrorCategory_message (ec_value ec)
  end.

(** ** Properties *)

Lemma ec_failed_success : ec_failed ec_success = false.
Proof. done. Qed.

Lemma ec_failed_connection_error e : ec_failed (make_error_code e) = true.
Proof. by destruct e. Qed.

(** The message identifies the error: two different connection errors have
    different messages. *)
Lemma ErrorCategory_message_inj e1 e2 :
  ErrorCategory_message (ConnectionError_to_int e1)
  = ErrorCategory_message (ConnectionError_to_int e2) → e1 = e2.
Proof. by destruct e1, e2. Qed.

(** Exactly one enumerator has no message of its own: [InvalidMessage] falls in
    the default case and is reported as an unknown error. *)
Lemma ErrorCategory_message_unknown e :
  ErrorCategory_message (ec_value (make_error_code e)) = "Unknown error"%string ↔ e = InvalidMessage.
Proof. by destruct e. Qed.
