(* ===== verification/Events.v ===== *)
(** * Events and listeners (include/pitaya/connection/event.h)

    A [Listener] is an [std::function] of the client: the model names it by a
    token, and what calling it does is an argument of [Broadcast]. *)

From S2P Require Import Prelude Outcome.

Inductive Event :=
| EventConnected
| EventConnectionFailed
| EventConnectionError
| EventKicked.

#[global] Instance Event_eq_dec : EqDecision Event.
Proof. solve_decision. Defined.

(** [operator<<(std::ostream&, Event)]. *)
Definition Event_name (ev : Event) : string :=
  match ev with
  | EventConnected => "Connected"
  | EventConnectionFailed => "Connection Failed"
  | EventConnectionError => "Connection Error"
  | EventKicked => "Kicked"
  end.

Definition Listener := nat.

Record EventListeners := { listeners : list Listener }.

Definition EventListeners_empty : EventListeners := {| listeners := [] |}.

Definition EventListeners_Add (l : Listener) (ls : EventListeners) : EventListeners :=
  {| listeners := listeners ls ++ [l] |}.

Section broadcast.
Context {W : Type} (call : Listener → Event → string → M W unit).

Definition EventListeners_Broadcast (ls : EventListeners) (ev : Event) (msg : string) : M W unit :=
  for_each (listeners ls) (λ l, call l ev msg).
End broadcast.
