(* ===== verification/Gzip.v ===== *)
(** * Compression helpers (src/utils/gzip.cpp)

    [IsCompressed] and [Decompress]; [Compress] has its own file. zlib is a parameter: the
    class [Zlib] has the calls the sources make, on a [z_stream] whose input and
    output windows are passed explicitly. [realloc] may fail: whether it does is
    the parameter [Allocator]. *)

From S2P Require Import Prelude Outcome.

(** ** zlib's interface *)

Definition Z_OK : Z := 0.
Definition Z_STREAM_END : Z := 1.
Definition Z_DATA_ERROR : Z := -3.
Definition Z_MEM_ERROR : Z := -4.
Definition Z_BUF_ERROR : Z := -5.
Definition Z_NO_FLUSH : Z := 0.
Definition Z_FINISH : Z := 4.
Definition Z_DEFAULT_COMPRESSION : Z := -1.

(** One call of [inflate] or [deflate]: the return code, the stream after the
    call, the input it left unread and the bytes it wrote to [next_out]. *)
Record ZCall (z_stream : Type) := {
  z_ret : Z;
  z_strm : z_stream;
  z_in : list Z;
  z_out : list Z;
}.
Arguments z_ret {z_stream}.
Arguments z_strm {z_stream}.
Arguments z_in {z_stream}.
Arguments z_out {z_stream}.

Class Zlib := {
  z_stream : Type;
  (** Return code and initialised stream, from the window bits. *)
  inflateInit2 : Z → Z * z_stream;
  (** The stream, the bytes of the input window, [avail_out] and [flush]. *)
  inflate : z_stream → list Z → Z → Z → ZCall z_stream;
  inflateEnd : z_stream → Z;
  deflateInit : Z → Z * z_stream;
  deflate : z_stream → list Z → Z → Z → ZCall z_stream;
  deflateEnd : z_stream → Z;
}.

(** [realloc_ok k n]: the [k]-th [realloc] of the call, for [n] bytes, succeeds. *)
Class Allocator := realloc_ok : nat → Z → bool.

(** ** IsCompressed *)

(** Reads of [data] are checked: an access outside of it is undefined. *)
Definition IsCompressed {W} (data : list Z) : M W bool :=
  let size := Z.of_nat (length data) in
  if negb (2 <? size) then mret false else
  d0 ← vec_at "data" data 0;
  d1 ← vec_at "data" data 1;
  mret (((d0 =? 0x78) && ((d1 =? 0x9C) || (d1 =? 0x01) || (d1 =? 0xDA) || (d1 =? 0x5E)))
        || ((d0 =? 0x1F) && (d1 =? 0x8B))).

(** ** Decompress *)

(** What the caller finds after the call: the return code, the block [*output]
    points to ([None] is an indeterminate byte) and [*output_size]. *)
Record Decompressed := {
  d_rc : Z;
  d_output : list (option Z);
  d_size : Z;
}.

Section decompress.
Context `{Zlib, Allocator}.

(** The [do ... while (inflate_s.avail_out == 0)] loop. [k] counts the calls of
    [realloc]; [None] is a loop that has not finished within the fuel. *)
Fixpoint Decompress_loop (fuel k : nat) (inflate_s : z_stream) (next_in : list Z) (size : Z)
    (output : list (option Z)) (size_uncompressed output_size : Z) : option Decompressed :=
  match fuel with
  | O => None
  | S fuel =>
    let resize_to := u64 (size_uncompressed + 2 * size) in
    if realloc_ok k resize_to then
      let output := resize (Z.to_nat resize_to) None output in
      let avail_out := u32 (2 * size) in
      let c := inflate inflate_s next_in avail_out Z_FINISH in
      let output := list_inserts (Z.to_nat size_uncompressed) (Some <$> z_out c) output in
      let ret := z_ret c in
      if negb (ret =? Z_STREAM_END) && negb (ret =? Z_OK) && negb (ret =? Z_BUF_ERROR) then
        Some {| d_rc := inflateEnd (z_strm c); d_output := output; d_size := output_size |}
      else
        let avail_out := avail_out - Z.of_nat (length (z_out c)) in
        let size_uncompressed := u64 (size_uncompressed + (2 * size - avail_out)) in
        if avail_out =? 0 then
          Decompress_loop fuel (S k) (z_strm c) (z_in c) size output
            size_uncompressed size_uncompressed
        else
          Some {| d_rc := inflateEnd (z_strm c); d_output := output;
                  d_size := size_uncompressed |}
    else Some {| d_rc := Z_MEM_ERROR; d_output := output; d_size := output_size |}
  end.

Definition window_bits : Z := 15 + 32.

(** [Decompress(&output, &output_size, data, size)]; [output_size] is the value the
    caller's variable has before the call. *)
Definition Decompress (fuel : nat) (output_size : Z) (data : list Z) : option Decompressed :=
  let size := Z.of_nat (length data) in
  let '(rc, inflate_s) := inflateInit2 window_bits in
  if negb (rc =? Z_OK) then
    Some {| d_rc := 1; d_output := []; d_size := output_size |}
  else
    let next_in := take (Z.to_nat (u32 size)) data in
    Decompress_loop fuel 0 inflate_s next_in size [] 0 output_size.

(** The bytes [output\[0..size)] as the callers read them: [None] when one of them is
    indeterminate or outside the block. *)
Definition output_bytes (d : Decompressed) : option (list Z) :=
  if decide (Z.to_nat (d_size d) ≤ length (d_output d))%nat then
    mapM id (take (Z.to_nat (d_size d)) (d_output d))
  else None.
End decompress.

(** ** Properties of [IsCompressed] *)

(** The magic numbers the sources recognise. *)
Definition is_magic (b0 b1 : Z) : Prop :=
  (b0 = 0x78 ∧ b1 ∈ [0x9C; 0x01; 0xDA; 0x5E]) ∨ (b0 = 0x1F ∧ b1 = 0x8B).

(** [IsCompressed] never reads outside of the buffer, whatever its length, and
    answers [true] exactly for three bytes or more that start with a zlib or a gzip
    magic number. *)
Lemma IsCompressed_spec {W} (data : list Z) (w : W) :
  ∃ b, IsCompressed data w = Ret b w ∧
    (b = true ↔ ∃ b0 b1 b2 rest, data = b0 :: b1 :: b2 :: rest ∧ is_magic b0 b1).
Proof.
  unfold IsCompressed. destruct data as [|b0 [|b1 [|b2 rest]]];
    try (exists false; split; [done|]; split; [done|naive_solver]).
  eexists. split.
  { rewrite (proj2 (Z.ltb_lt 2 _)) by (simpl length; lia). done. }
  rewrite orb_true_iff, !andb_true_iff, !orb_true_iff, !Z.eqb_eq. unfold is_magic. set_solver.
Qed.

(** ** Properties of [Decompress] *)

(** [Inflates data plain]: what zlib documents for a stream [data] that is the
    compressed form of [plain]. [inflating s i rest]: the stream [s] with unread input
    [i] still has to write [rest]. Each call of [inflate] with room for [n] bytes writes
    as many of them as fit and reports [Z_OK], [Z_BUF_ERROR] (more room is needed) or
    [Z_STREAM_END]. *)
Class Inflates `{Zlib} (data plain : list Z) := {
  inflating : z_stream → list Z → list Z → Prop;
  inflates_init : ∃ s, inflateInit2 window_bits = (Z_OK, s) ∧ inflating s data plain;
  inflates_call s i rest n :
    inflating s i rest → 0 < n →
    let c := inflate s i n Z_FINISH in
    z_out c = take (Z.to_nat n) rest ∧
    inflating (z_strm c) (z_in c) (drop (Z.to_nat n) rest) ∧
    z_ret c ∈ [Z_OK; Z_STREAM_END; Z_BUF_ERROR];
  inflates_end s i rest : inflating s i rest → inflateEnd s = Z_OK;
}.

Section decompress_correct.
Context `{Zlib, Allocator} (data plain : list Z) `{!Inflates data plain}.
Let size := Z.of_nat (length data).
Hypothesis realloc_never_fails : ∀ k n, realloc_ok k n = true.
Hypothesis size_pos : 0 < size.
Hypothesis size_fits : 2 * size < 2 ^ 32.
Hypothesis plain_fits : Z.of_nat (length plain) + 2 * size < 2 ^ 64.

(** The loop, from the point where [n] bytes of [plain] are written. *)
Lemma Decompress_loop_correct fuel k s i n osz :
  inflating s i (drop n plain) → (n ≤ length plain)%nat →
  (length plain - n < fuel * Z.to_nat (2 * size))%nat →
  ∃ junk, Decompress_loop fuel k s i size (Some <$> take n plain) (Z.of_nat n) osz =
    Some {| d_rc := Z_OK; d_output := (Some <$> plain) ++ junk;
            d_size := Z.of_nat (length plain) |}.
Proof.
  set (cap := Z.to_nat (2 * size)).
  revert k s i n osz. induction fuel as [|fuel IH]; [lia|].
  intros k s i n osz Hs Hn Hfuel. simpl.
  rewrite realloc_never_fails, (u64_small (_ + 2 * size)), u32_small by lia.
  destruct (inflates_call s i _ (2 * size) Hs ltac:(lia)) as (Ho & Hs' & Hret).
  set (c := inflate s i (2 * size) Z_FINISH) in *. fold cap in Ho, Hs'.
  assert (negb (z_ret c =? Z_STREAM_END) && negb (z_ret c =? Z_OK)
          && negb (z_ret c =? Z_BUF_ERROR) = false) as ->.
  { set_unfold in Hret. destruct Hret as [->|[->|[->|[]]]]; done. }
  assert (length (z_out c) = cap `min` (length plain - n))%nat as Hlen.
  { by rewrite Ho, length_take, length_drop. }
  rewrite list_inserts_resize by (rewrite ?length_fmap, ?length_take; lia).
  rewrite Z.sub_sub_distr, Z.sub_diag, Z.add_0_l, u64_small by lia.
  assert (∀ t, (Some <$> take n plain) ++ (Some <$> z_out c) ++ t
    = (Some <$> take (n + cap) plain) ++ t) as Hout.
  { intros t. by rewrite app_assoc, <- fmap_app, Ho, take_take_drop. }
  rewrite Hout, <- Nat2Z.inj_add.
  destruct (decide (cap ≤ length plain - n)%nat).
  - decide_ltb. rewrite !length_fmap, Hlen.
    replace (_ - _ - _)%nat with 0%nat by (rewrite length_take; lia).
    rewrite app_nil_r, Nat.min_l by lia. apply IH; [|lia|fold cap; lia].
    by rewrite drop_drop in Hs'.
  - decide_ltb. rewrite take_ge by lia. eexists. f_equal. f_equal; [|lia].
    by eapply inflates_end.
Qed.

(** The number of iterations that is enough. *)
Definition decompress_fuel : nat := S (length plain / Z.to_nat (2 * size)).

Lemma decompress_fuel_enough : (length plain < decompress_fuel * Z.to_nat (2 * size))%nat.
Proof.
  unfold decompress_fuel. rewrite Nat.mul_comm.
  apply Nat.mul_succ_div_gt. lia.
Qed.

(** C31: on a stream that zlib documents as the compressed form of [plain],
    [Decompress] terminates, returns [Z_OK], and the block and the size it hands to
    the caller are exactly [plain], however many times the block had to grow. *)
Theorem Decompress_correct fuel osz :
  (decompress_fuel ≤ fuel)%nat →
  ∃ d, Decompress fuel osz data = Some d ∧ d_rc d = Z_OK ∧ output_bytes d = Some plain.
Proof.
  intros Hfuel. unfold Decompress.
  destruct inflates_init as (s & -> & Hs). simpl. fold size.
  rewrite u32_small, take_ge by lia.
  destruct (Decompress_loop_correct fuel 0 s data 0 osz) as [junk E]; [done|lia| |].
  { pose proof decompress_fuel_enough. nia. }
  change (Decompress_loop fuel 0 s data size [] 0 osz)
    with (Decompress_loop fuel 0 s data size (Some <$> take 0 plain) (Z.of_nat 0) osz).
  rewrite E. eexists; split; [done|]. split; [done|].
  unfold output_bytes. simpl. rewrite Nat2Z.id, decide_True.
  - rewrite take_app_length' by by rewrite length_fmap. by apply mapM_fmap_Some.
  - rewrite length_app, length_fmap. lia.
Qed.
End decompress_correct.

(** Data that zlib rejects on the first call is still reported as a success: the
    error branch returns the code of [inflateEnd], which is [Z_OK], and leaves the
    caller's size untouched. *)
Lemma Decompress_hides_data_error `{Zlib, Allocator} fuel osz data s :
  inflateInit2 window_bits = (Z_OK, s) →
  (0 < fuel)%nat → realloc_ok 0 (u64 (0 + 2 * Z.of_nat (length data))) = true →
  let c := inflate s (take (Z.to_nat (u32 (Z.of_nat (length data)))) data)
             (u32 (2 * Z.of_nat (length data))) Z_FINISH in
  z_ret c = Z_DATA_ERROR → inflateEnd (z_strm c) = Z_OK →
  ∃ out, Decompress fuel osz data = Some {| d_rc := 0; d_output := out; d_size := osz |}.
Proof.
  intros Hinit Hfuel Hrealloc c Hret Hend. unfold Decompress. rewrite Hinit. simpl.
  destruct fuel as [|fuel]; [lia|]. simpl Decompress_loop. rewrite Z.add_0_l in Hrealloc |- *.
  rewrite Hrealloc. fold c. rewrite Hret, Hend. simpl. eauto.
Qed.

Lemma pure_IsCompressed {W} data : pure_comp (IsCompressed data : M W bool).
Proof. unfold IsCompressed. pure_tac. Qed.

Lemma no_throw_IsCompressed {W} data : no_throw (IsCompressed data : M W bool).
Proof. unfold IsCompressed. no_throw_tac. Qed.

#[export] Hint Resolve pure_IsCompressed : pure.
#[export] Hint Resolve no_throw_IsCompressed : no_throw.
