(* ===== verification/Compress.v ===== *)
(** * Compression (src/utils/gzip.cpp: [Compress])

    zlib's [deflate] is a parameter of the class [Zlib] of [Gzip]. The block [*output] grows
    by [CHUNK] bytes each time [deflate] reports that it has no room; [df_offset] is
    [next_out - *output]. *)

From S2P Require Import Prelude Outcome Gzip.

Definition CHUNK : Z := 64.

(** What the caller finds after the call: the return code, the block [*output] points to
    ([None] is the null pointer) and [*output_size]. *)
Record Compressed := {
  c_rc : Z;
  c_output : option (list (option Z));
  c_size : Z;
}.

Section compress.
Context `{Zlib, Allocator}.

(** The local variables of the loops: the stream with its windows, the block, its size and
    the number of calls of [realloc] so far. *)
Record Deflating := {
  df_strm : z_stream;
  df_in : list Z;
  df_avail_out : Z;
  df_offset : Z;
  df_output : list (option Z);
  df_size : Z;
  df_reallocs : nat;
}.

(** [ret = deflate(&strm, flush)]. *)
Definition deflate_step (flush : Z) (d : Deflating) : Z * Deflating :=
  let c := deflate (df_strm d) (df_in d) (df_avail_out d) flush in
  (z_ret c,
   {| df_strm := z_strm c; df_in := z_in c;
      df_avail_out := df_avail_out d - Z.of_nat (length (z_out c));
      df_offset := df_offset d + Z.of_nat (length (z_out c));
      df_output := list_inserts (Z.to_nat (df_offset d)) (Some <$> z_out c) (df_output d);
      df_size := df_size d; df_reallocs := df_reallocs d |}).

(** The growth of the block by [CHUNK] bytes, when [realloc] succeeds. *)
Definition grow (d : Deflating) : Deflating :=
  {| df_strm := df_strm d; df_in := df_in d;
     df_avail_out := u32 (df_avail_out d + CHUNK); df_offset := df_offset d;
     df_output := resize (Z.to_nat (u64 (df_size d + CHUNK))) None (df_output d);
     df_size := u64 (df_size d + CHUNK); df_reallocs := S (df_reallocs d) |}.

(** [while (ret == Z_BUF_ERROR)]. A [realloc] that fails leaves [next_out] computed from the
    null pointer. *)
Fixpoint Compress_grow {W} (fuel : nat) (flush ret : Z) (d : Deflating) : M W (Z * Deflating) :=
  match fuel with
  | O => crash FuelExhausted
  | S fuel =>
      if ret =? Z_BUF_ERROR then
        if realloc_ok (df_reallocs d) (u64 (df_size d + CHUNK)) then
          let '(ret, d) := deflate_step flush (grow d) in
          Compress_grow fuel flush ret d
        else undefined "arithmetic on a null pointer"
      else mret (ret, d)
  end.

(** [do ... while (strm.avail_out == 0)]; [inl] is the early return. *)
Fixpoint Compress_inner {W} (fuel : nat) (flush : Z) (d : Deflating)
    : M W (Compressed + Deflating) :=
  match fuel with
  | O => crash FuelExhausted
  | S fuel' =>
      let '(ret, d) := deflate_step flush d in
      '(ret, d) ← Compress_grow fuel flush ret d;
      if negb (ret =? Z_STREAM_END) && negb (ret =? Z_OK) then
        mret (inl {| c_rc := deflateEnd (df_strm d); c_output := Some (df_output d);
                     c_size := df_size d |})
      else if df_avail_out d =? 0 then Compress_inner fuel' flush d
      else mret (inr d)
  end.

(** [do ... while (flush != Z_FINISH)]; [flush] does not change. *)
Fixpoint Compress_outer {W} (fuel : nat) (flush : Z) (d : Deflating)
    : M W (Compressed + Deflating) :=
  match fuel with
  | O => crash FuelExhausted
  | S fuel' =>
      r ← Compress_inner fuel flush d;
      match r with
      | inl c => mret (inl c)
      | inr d =>
          let d := {| df_strm := df_strm d; df_in := df_in d; df_avail_out := df_avail_out d;
                      df_offset := df_offset d; df_output := df_output d;
                      df_size := u64 (df_size d - df_avail_out d);
                      df_reallocs := df_reallocs d |} in
          if negb (flush =? Z_FINISH) then Compress_outer fuel' flush d else mret (inr d)
      end
  end.

(** [Compress(&output, &output_size, data, size)]; [output] and [output_size] are what the
    caller's variables hold before the call. When the first [realloc] fails [deflate] is
    called with a null [next_out], for which zlib documents an error code that is neither
    [Z_OK] nor [Z_STREAM_END] nor [Z_BUF_ERROR]. *)
Definition Compress {W} (fuel : nat) (output : list (option Z)) (output_size : Z) (data : list Z)
    : M W Compressed :=
  let size := Z.of_nat (length data) in
  let '(ret, strm) := deflateInit Z_DEFAULT_COMPRESSION in
  if negb (ret =? Z_OK) then
    mret {| c_rc := ret; c_output := Some output; c_size := output_size |}
  else if negb (realloc_ok 0 CHUNK) then
    mret {| c_rc := deflateEnd strm; c_output := None; c_size := CHUNK |}
  else
    let avail_in := u32 size in
    let flush := if avail_in =? size then Z_FINISH else Z_NO_FLUSH in
    r ← Compress_outer fuel flush
          {| df_strm := strm; df_in := take (Z.to_nat avail_in) data; df_avail_out := CHUNK;
             df_offset := 0; df_output := resize (Z.to_nat CHUNK) None output;
             df_size := CHUNK; df_reallocs := 1 |};
    match r with
    | inl c => mret c
    | inr d =>
        mret {| c_rc := Z_OK;
                c_output := if realloc_ok (df_reallocs d) (df_size d)
                            then Some (resize (Z.to_nat (df_size d)) None (df_output d)) else None;
                c_size := df_size d |}
    end.
End compress.

(** ** Correctness *)

(** [Deflates data compressed]: what zlib documents about [deflate] with [Z_FINISH], for a
    [data] whose compressed form is [compressed]. [deflating s i rest]: the stream [s] with
    unread input [i] still has to write [rest]. Without room a call makes no progress and
    reports [Z_BUF_ERROR]; with room for [n] bytes it writes as many of them as fit, and
    reports [Z_STREAM_END] when room is left. *)
Class Deflates `{Zlib} (data compressed : list Z) := {
  deflating : z_stream → list Z → list Z → Prop;
  deflates_init : ∃ s, deflateInit Z_DEFAULT_COMPRESSION = (Z_OK, s) ∧ deflating s data compressed;
  deflates_no_room s i rest :
    deflating s i rest →
    let c := deflate s i 0 Z_FINISH in
    z_ret c = Z_BUF_ERROR ∧ z_out c = [] ∧ deflating (z_strm c) (z_in c) rest;
  deflates_call s i rest n :
    deflating s i rest → 0 < n →
    let c := deflate s i n Z_FINISH in
    z_out c = take (Z.to_nat n) rest ∧
    deflating (z_strm c) (z_in c) (drop (Z.to_nat n) rest) ∧
    if Z.of_nat (length rest) <? n then z_ret c = Z_STREAM_END
    else z_ret c ∈ [Z_OK; Z_STREAM_END; Z_BUF_ERROR];
}.

Section compress_correct.
Context `{Zlib, Allocator} (data compressed : list Z) `{!Deflates data compressed} {W : Type}.
Hypothesis realloc_never_fails : ∀ k n, realloc_ok k n = true.
Hypothesis compressed_fits : Z.of_nat (length compressed) + CHUNK < 2 ^ 64.

(** The loops' invariant: [done] is written, [rest] is not. *)
Record deflated (d : Deflating) (done rest : list Z) : Prop := {
  dw_stream : deflating (df_strm d) (df_in d) rest;
  dw_split : compressed = done ++ rest;
  dw_offset : df_offset d = Z.of_nat (length done);
  dw_room : 0 ≤ df_avail_out d ≤ CHUNK;
  dw_size : df_size d = df_offset d + df_avail_out d;
  dw_output : ∃ junk, df_output d = (Some <$> done) ++ junk ∧
                Z.of_nat (length junk) = df_avail_out d;
}.

(** One call: it ends the stream and leaves room, or fills the room there was. *)
Lemma deflate_step_deflated d done rest :
  deflated d done rest →
  let '(ret, d') := deflate_step Z_FINISH d in
  let n := Z.to_nat (df_avail_out d) in
  deflated d' (done ++ take n rest) (drop n rest) ∧
  (ret = Z_STREAM_END ∧ drop n rest = [] ∧ 0 < df_avail_out d' ∨
   df_avail_out d' = 0 ∧ (n ≤ length rest)%nat ∧ ret ∈ [Z_OK; Z_STREAM_END; Z_BUF_ERROR] ∧
   (df_avail_out d = 0 → ret = Z_BUF_ERROR)).
Proof.
  intros [Hs Hsplit Hoff Hroom Hsize (junk & Hout & Hjunk)]. unfold deflate_step. cbv zeta.
  set (c := deflate _ _ _ _). set (n := Z.to_nat (df_avail_out d)).
  assert (z_out c = take n rest ∧ deflating (z_strm c) (z_in c) (drop n rest) ∧
    (Z.of_nat (length rest) < df_avail_out d ∧ z_ret c = Z_STREAM_END ∨
     df_avail_out d ≤ Z.of_nat (length rest) ∧ z_ret c ∈ [Z_OK; Z_STREAM_END; Z_BUF_ERROR] ∧
     (df_avail_out d = 0 → z_ret c = Z_BUF_ERROR))) as (Ho & Hs' & Hret).
  { destruct (decide (df_avail_out d = 0)) as [E|E].
    - pose proof (deflates_no_room _ _ _ Hs) as Hc. cbv zeta in Hc. rewrite <- E in Hc.
      fold c in Hc. destruct Hc as (Hr & -> & Hd). unfold n. rewrite E. simpl. rewrite drop_0.
      split_and!; [done..|]. right. rewrite Hr. split_and!; [lia|set_solver|done].
    - destruct (deflates_call _ _ _ (df_avail_out d) Hs ltac:(lia)) as (Ho & Hd & Hr). fold c in Ho, Hd, Hr.
      split_and!; [done..|]. destruct (_ <? _) eqn:El; bool_to_prop; [by left|right].
      split_and!; [lia|done|done]. }
  assert (length (z_out c) = n `min` length rest)%nat as Hlen by (by rewrite Ho, length_take).
  split.
  - split; cbn; [done|by rewrite <- app_assoc, take_drop|rewrite length_app, Hoff, Ho; lia|lia|lia|].
    exists (drop (length (z_out c)) junk). rewrite Hout.
    rewrite <- (take_drop (length (z_out c)) junk) at 1.
    rewrite list_inserts_write by (rewrite ?length_fmap, ?length_take; lia).
    rewrite fmap_app, <- app_assoc, <- Ho. split; [done|]. rewrite length_drop. lia.
  - cbn. destruct Hret as [[Hl Hr]|(Hl & Hr & Hz)]; [left|right; split_and!; [lia|lia|done|done]].
    split_and!; [done|apply drop_ge; lia|lia].
Qed.

Lemma grow_deflated d done rest :
  deflated d done rest → df_avail_out d = 0 →
  deflated (grow d) done rest ∧ df_avail_out (grow d) = CHUNK.
Proof.
  intros [Hs Hsplit Hoff Hroom Hsize (junk & Hout & Hjunk)] Hfull. unfold CHUNK in *.
  assert (Z.of_nat (length done) ≤ Z.of_nat (length compressed)) as Hdone.
  { rewrite Hsplit, length_app. lia. }
  assert (df_size d = Z.of_nat (length done)) as Hsz by lia.
  unfold grow, CHUNK. cbn. rewrite Hfull, Hsz, u64_small, (u32_small (0 + 64)) by lia.
  split; [|done]. split; cbn; [done|done|done|unfold CHUNK; lia|lia|].
  exists (replicate 64 None). rewrite Hout, (nil_length_inv junk), app_nil_r by lia.
  rewrite resize_ge by (rewrite length_fmap; lia). rewrite length_fmap, length_replicate.
  by replace (Z.to_nat (Z.of_nat (length done) + 64) - length done)%nat with 64%nat by lia.
Qed.

(** What a loop has achieved from [rest]: the stream has ended and room is left, or the
    block is full and less is to be written. *)
Definition advanced (rest rest' : list Z) (d' : Deflating) : Prop :=
  rest' = [] ∧ 0 < df_avail_out d' ∨ df_avail_out d' = 0 ∧ (length rest' < length rest)%nat.

Lemma Compress_grow_full fuel flush d :
  Compress_grow (W := W) (S fuel) flush Z_BUF_ERROR d =
    if realloc_ok (df_reallocs d) (u64 (df_size d + CHUNK)) then
      let '(ret, d) := deflate_step flush (grow d) in Compress_grow fuel flush ret d
    else undefined "arithmetic on a null pointer".
Proof. done. Qed.

(** The innermost loop, from a full block. *)
Lemma Compress_grow_deflated fuel d done rest (w : W) :
  deflated d done rest → df_avail_out d = 0 → (length rest + 2 ≤ fuel)%nat →
  ∃ ret d' done' rest', Compress_grow fuel Z_FINISH Z_BUF_ERROR d w = Ret (ret, d') w ∧
    deflated d' done' rest' ∧ (ret = Z_OK ∨ ret = Z_STREAM_END) ∧ advanced rest rest' d'.
Proof.
  revert d done rest. induction fuel as [|fuel IH]; [lia|]. intros d done rest Hd Hfull Hfuel.
  rewrite Compress_grow_full, realloc_never_fails.
  destruct (grow_deflated _ _ _ Hd Hfull) as [Hg Hroom].
  pose proof (deflate_step_deflated _ _ _ Hg) as Hstep.
  destruct (deflate_step Z_FINISH (grow d)) as [ret d']. rewrite Hroom in Hstep.
  cbv zeta in Hstep. cbv beta iota.
  destruct Hstep as [Hd' Hcases]. change (Z.to_nat CHUNK) with 64%nat in *.
  assert (∀ r : Z, r ≠ Z_BUF_ERROR → Compress_grow fuel Z_FINISH r d' w = Ret (r, d') w) as Hexit.
  { intros r Hr. destruct fuel; [lia|]. simpl. by rewrite (proj2 (Z.eqb_neq _ _) Hr). }
  pose proof (length_drop rest 64) as Hlen.
  destruct Hcases as [(-> & E & Hpos)|(E & Hle & Hr & _)].
  - rewrite Hexit by done. do 4 eexists. split; [done|]. split; [exact Hd'|].
    split; [by right|by left].
  - destruct (decide (ret = Z_BUF_ERROR)) as [->|Hne].
    + destruct (IH _ _ _ Hd' E ltac:(lia)) as (ret & d2 & done2 & rest2 & E2 & Hd2 & Hret & Hadv).
      exists ret, d2, done2, rest2. split_and!; [done..|]. destruct Hadv as [?|[? ?]]; [by left|right].
      split; [done|lia].
    + rewrite Hexit by done. do 4 eexists. split; [done|]. split; [exact Hd'|].
      split; [set_solver|right]. split; [done|lia].
Qed.

(** One iteration of the inner loop up to its test. *)
Lemma Compress_iteration fuel d done rest (w : W) :
  deflated d done rest → (length rest + 2 ≤ fuel)%nat →
  ∃ ret d' done' rest',
    (let '(ret, d) := deflate_step Z_FINISH d in Compress_grow fuel Z_FINISH ret d) w = Ret (ret, d') w ∧
    deflated d' done' rest' ∧ (ret = Z_OK ∨ ret = Z_STREAM_END) ∧ advanced rest rest' d'.
Proof.
  intros Hd Hfuel. pose proof (deflate_step_deflated _ _ _ Hd) as Hstep.
  destruct (deflate_step Z_FINISH d) as [ret d1]. cbv zeta in Hstep. cbv beta iota.
  destruct Hstep as [Hd1 Hcases]. set (n := Z.to_nat (df_avail_out d)) in *.
  pose proof (length_drop rest n) as Hlen.
  assert (∀ r : Z, r ≠ Z_BUF_ERROR → Compress_grow fuel Z_FINISH r d1 w = Ret (r, d1) w) as Hexit.
  { intros r Hr. destruct fuel; [lia|]. simpl. by rewrite (proj2 (Z.eqb_neq _ _) Hr). }
  destruct Hcases as [(-> & E & Hpos)|(E & Hle & Hr & Hz)].
  - rewrite Hexit by done. do 4 eexists. split; [done|]. split; [exact Hd1|]. split; [by right|by left].
  - destruct (decide (ret = Z_BUF_ERROR)) as [->|Hne].
    + destruct (Compress_grow_deflated fuel _ _ _ w Hd1 E ltac:(lia))
        as (ret & d2 & done2 & rest2 & E2 & Hd2 & Hret & Hadv).
      exists ret, d2, done2, rest2. split_and!; [done..|]. destruct Hadv as [?|[? ?]]; [by left|right].
      split; [done|lia].
    + assert (0 < n)%nat as Hn.
      { pose proof (dw_room _ _ _ Hd). destruct (decide (df_avail_out d = 0)) as [Hd0|]; [|lia].
        by rewrite (Hz Hd0) in Hne. }
      rewrite Hexit by done. do 4 eexists. split; [done|]. split; [exact Hd1|].
      split; [set_solver|right]. split; [done|lia].
Qed.

Lemma Compress_inner_deflated fuel d done rest (w : W) :
  deflated d done rest → (length rest + 3 ≤ fuel)%nat →
  ∃ d', Compress_inner fuel Z_FINISH d w = Ret (inr d') w ∧ deflated d' compressed [].
Proof.
  revert d done rest. induction fuel as [|fuel IH]; [lia|]. intros d done rest Hd Hfuel.
  destruct (Compress_iteration (S fuel) d done rest w Hd ltac:(lia))
    as (ret & d' & done' & rest' & E & Hd' & Hret & Hadv).
  cbn [Compress_inner]. destruct (deflate_step Z_FINISH d) as [ret0 d0]. cbv beta iota in E |- *. run E.
  assert (negb (ret =? Z_STREAM_END) && negb (ret =? Z_OK) = false) as -> by (by destruct Hret as [->| ->]).
  destruct Hadv as [[-> Hpos]|[Hfull Hless]].
  - rewrite (proj2 (Z.eqb_neq _ _)) by lia. exists d'. split; [done|].
    pose proof (dw_split _ _ _ Hd') as Hs. rewrite app_nil_r in Hs. by rewrite Hs.
  - rewrite Hfull. apply (IH _ _ _ Hd'). lia.
Qed.

Hypothesis data_fits : Z.of_nat (length data) < 2 ^ 32.

(** C32: on data shorter than 4 GiB, whatever the caller's variables held before, [Compress]
    terminates and returns [Z_OK]; the block has exactly the compressed form of the data,
    however many times it had to grow, and its size is the size reported. *)
Theorem Compress_correct fuel output osz (w : W) :
  (length compressed + 4 ≤ fuel)%nat →
  Compress fuel output osz data w =
    Ret {| c_rc := Z_OK; c_output := Some (Some <$> compressed);
           c_size := Z.of_nat (length compressed) |} w.
Proof.
  intros Hfuel. unfold Compress. destruct deflates_init as (s & -> & Hs).
  rewrite realloc_never_fails, u32_small, !Z.eqb_refl, take_ge by lia. cbn [negb].
  set (d := {| df_strm := s |}).
  assert (deflated d [] compressed) as Hd.
  { split; cbn; [done|done|done|unfold CHUNK; lia|done|].
    eexists. split; [done|]. by rewrite length_resize. }
  destruct fuel as [|fuel]; [lia|].
  destruct (Compress_inner_deflated (S fuel) d [] compressed w Hd ltac:(lia)) as (d' & E & Hd').
  cbn [Compress_outer]. rewrite bind_assoc. run E. cbv beta iota. cbn [negb]. rewrite Z.eqb_refl. cbn [negb]. rewrite ret_bind.
  rewrite realloc_never_fails. unfold CHUNK in *.
  destruct Hd' as [_ _ Hoff Hroom Hsize (junk & Hout & Hjunk)]. cbn [df_size df_output df_reallocs].
  rewrite Hsize, Hout, Z.add_simpl_r, Hoff, u64_small by lia.
  rewrite Nat2Z.id, resize_le, take_app_length' by (rewrite ?length_app, ?length_fmap; lia).
  done.
Qed.
End compress_correct.
