(* ===== verification/Socket.v ===== *)
(** * The socket over boost::asio (include/pitaya/tcp_socket.h, src/tcp_socket.cpp)

    [AsioTcpSocket] implements the interface [TcpSocket] with a [tcp::socket]. The raw socket
    is boost's: whether its calls report an error is the class [RawTcpSocket]. What matters
    here is the lifetime of the memory an asynchronous operation is given: asio only keeps a
    view of it, and the caller must keep it alive until the completion. Vectors that are alive
    are the entries of [as_objects], under addresses that are never reused. *)

From S2P Require Import Prelude Outcome.

Section socket.
Context {SH RH CH EP : Type}.

(** An operation started on the raw socket. The view of [async_send] is a vector and a size;
    that of [async_receive] points into the read buffer of the packet stream. *)
Inductive RawOp :=
| RawConnect (endpoints : EP) (h : CH)
| RawReceive (offset size : Z) (h : RH)
| RawSend (object : nat) (size : Z) (h : SH).

Record AsioTcpSocket := {
  as_open : bool;
  as_objects : gmap nat (list Z);
  as_next : nat;
  as_ops : list RawOp;
}.

(** The error, if any, that [shutdown] and [close] report in a state of the socket. *)
Class RawTcpSocket := {
  raw_shutdown_error : AsioTcpSocket → option string;
  raw_close_error : AsioTcpSocket → option string;
}.

Context `{RawTcpSocket}.

Definition add_op (op : RawOp) (s : AsioTcpSocket) : AsioTcpSocket :=
  {| as_open := as_open s; as_objects := as_objects s; as_next := as_next s;
     as_ops := as_ops s ++ [op] |}.

(** Construction and destruction of a [std::vector<uint8_t>]. *)
Definition new_object (v : list Z) : M AsioTcpSocket nat := λ s,
  Ret (as_next s) {| as_open := as_open s; as_objects := <[as_next s := v]> (as_objects s);
                     as_next := S (as_next s); as_ops := as_ops s |}.
Definition delete_object (o : nat) : M AsioTcpSocket unit :=
  modify (λ s, {| as_open := as_open s; as_objects := delete o (as_objects s);
                  as_next := as_next s; as_ops := as_ops s |}).

(** [tcp::socket::shutdown] and [tcp::socket::close]: the descriptor is closed even when an
    error is reported. *)
Definition raw_shutdown : M AsioTcpSocket unit :=
  s ← get;
  match raw_shutdown_error s with Some what => throw (SystemError what) | None => mret tt end.
Definition closed (s : AsioTcpSocket) : AsioTcpSocket :=
  {| as_open := false; as_objects := as_objects s; as_next := as_next s; as_ops := as_ops s |}.
Definition raw_close : M AsioTcpSocket unit :=
  s ← get;
  modify closed ;;
  match raw_close_error s with Some what => throw (SystemError what) | None => mret tt end.

(** ** The methods *)

Definition AsioTcpSocket_Connect (it : EP) (onConnectionDone : CH) : M AsioTcpSocket unit :=
  modify (add_op (RawConnect it onConnectionDone)).

(** asio throws its errors as both a [system_error] and a [boost::exception]. *)
Definition AsioTcpSocket_Shutdown : M AsioTcpSocket unit :=
  catch_system raw_shutdown (λ _, mret tt).

Definition AsioTcpSocket_Close : M AsioTcpSocket unit :=
  s ← get;
  if as_open s then raw_close else mret tt.

Definition AsioTcpSocket_Receive (bufferStart bufferSize : Z) (onComplete : RH)
    : M AsioTcpSocket unit :=
  modify (add_op (RawReceive bufferStart bufferSize onComplete)).

(** [Send]: the parameter [buffer] is a copy of the caller's vector, which is destroyed when
    the call ends; the operation has a view of the copy. *)
Definition AsioTcpSocket_Send (buffer : list Z) (onComplete : SH) : M AsioTcpSocket unit :=
  object ← new_object buffer;
  modify (add_op (RawSend object (Z.of_nat (length buffer)) onComplete)) ;;
  delete_object object.

(** The io context makes progress on an operation that sends: it reads [n] bytes of the
    vector. *)
Definition transmit (op : RawOp) (n : nat) : M AsioTcpSocket (list Z) :=
  s ← get;
  match op with
  | RawSend object size _ =>
      match as_objects s !! object with
      | Some v => mret (take n v)
      | None => undefined "read of a destroyed vector"
      end
  | _ => undefined "not an operation that sends"
  end.

(** Any call of the interface, as a sequence of them. *)
Inductive asio_call :=
| AsioConnect (it : EP) (h : CH)
| AsioShutdown
| AsioClose
| AsioReceive (start size : Z) (h : RH)
| AsioSend (buffer : list Z) (h : SH).

Definition asio_run (c : asio_call) : M AsioTcpSocket unit :=
  match c with
  | AsioConnect it h => AsioTcpSocket_Connect it h
  | AsioShutdown => AsioTcpSocket_Shutdown
  | AsioClose => AsioTcpSocket_Close
  | AsioReceive start size h => AsioTcpSocket_Receive start size h
  | AsioSend buffer h => AsioTcpSocket_Send buffer h
  end.

(** ** Disconnecting *)

Lemma AsioTcpSocket_Shutdown_Ret s : AsioTcpSocket_Shutdown s = Ret tt s.
Proof.
  unfold AsioTcpSocket_Shutdown, catch_system, raw_shutdown, mbind, M_bind, get, throw.
  by destruct (raw_shutdown_error s).
Qed.

Lemma AsioTcpSocket_Close_eq s :
  AsioTcpSocket_Close s =
    if as_open s then
      match raw_close_error s with
      | Some what => Throw (SystemError what) (closed s)
      | None => Ret tt (closed s)
      end
    else Ret tt s.
Proof.
  unfold AsioTcpSocket_Close. run (eq_refl : get s = Ret s s). destruct (as_open s); [|done].
  unfold raw_close. run (eq_refl : get s = Ret s s).
  run (eq_refl : modify closed s = Ret tt (closed s)). by destruct (raw_close_error s).
Qed.

(** [Disconnect] over this socket, which is [Shutdown] and then [Close]. An error of the
    shutdown is swallowed; an error of the close is not: it is thrown, with the socket closed,
    into whatever called [Disconnect]. On a socket that is not open nothing happens. *)
Lemma AsioDisconnect_spec s :
  (AsioTcpSocket_Shutdown ;; AsioTcpSocket_Close) s =
    if as_open s then
      match raw_close_error s with
      | Some what => Throw (SystemError what) (closed s)
      | None => Ret tt (closed s)
      end
    else Ret tt s.
Proof. run (AsioTcpSocket_Shutdown_Ret s). apply AsioTcpSocket_Close_eq. Qed.

(** ** The lifetime of what is sent *)

(** Addresses are given out in order, and the operations that send view none that is alive. *)
Record socket_wf (s : AsioTcpSocket) : Prop := {
  so_fresh : ∀ o, is_Some (as_objects s !! o) → (o < as_next s)%nat;
  so_dangling : ∀ o size h, RawSend o size h ∈ as_ops s →
    as_objects s !! o = None ∧ (o < as_next s)%nat;
}.

(** What a call leaves: a well-formed socket, with more operations. *)
Definition goes_on (s s' : AsioTcpSocket) : Prop := socket_wf s' ∧ as_ops s `prefix_of` as_ops s'.

Lemma closed_wf s : socket_wf s → goes_on s (closed s).
Proof. intros []. by split; [split|]. Qed.

Lemma add_op_wf s op :
  socket_wf s → (∀ o size h, op ≠ RawSend o size h) → goes_on s (add_op op s).
Proof.
  intros [Hf Hd] Hop. split; [split; cbn; [done|]|by eexists].
  intros o size h Hin%elem_of_app. destruct Hin as [?|Hin%list_elem_of_singleton]; [by eapply Hd|].
  by destruct (Hop o size h).
Qed.

Lemma Send_Ret buffer h s :
  socket_wf s →
  ∃ s', AsioTcpSocket_Send buffer h s = Ret tt s' ∧ goes_on s s' ∧
    as_ops s' = as_ops s ++ [RawSend (as_next s) (Z.of_nat (length buffer)) h].
Proof.
  intros [Hf Hd]. eexists. split; [done|]. cbn. split; [split; [split|by eexists]|done]; cbn.
  - intros o. destruct (decide (o = as_next s)) as [->|Hne].
    + intros _. lia.
    + rewrite lookup_delete_ne, lookup_insert_ne by done. intros ?%Hf. lia.
  - intros o size h' Hin%elem_of_app. destruct Hin as [Hin|Hin%list_elem_of_singleton].
    + destruct (Hd _ _ _ Hin) as [Ho Hlt]. split; [|lia].
      by rewrite lookup_delete_ne, lookup_insert_ne by lia.
    + injection Hin as -> _ _. split; [by rewrite lookup_delete_eq|lia].
Qed.

(** Calls one after the other, each from where the one before it ended, by a return or by an
    exception that its caller has caught. *)
Fixpoint asio_runs (cs : list asio_call) (s : AsioTcpSocket) : AsioTcpSocket :=
  match cs with
  | [] => s
  | c :: cs =>
      match asio_run c s with
      | Ret _ s' | Throw _ s' => asio_runs cs s'
      | Crash _ => s
      end
  end.

Lemma asio_run_wf c s :
  socket_wf s → ∃ s', (asio_run c s = Ret tt s' ∨ ∃ e, asio_run c s = Throw e s') ∧ goes_on s s'.
Proof.
  intros Hwf. destruct c as [it h| | |start size h|buffer h]; cbn [asio_run].
  - eexists. split; [by left|]. by apply add_op_wf.
  - rewrite AsioTcpSocket_Shutdown_Ret. eexists. split; [by left|]. by split.
  - rewrite AsioTcpSocket_Close_eq. pose proof (closed_wf s Hwf).
    destruct (as_open s); [destruct (raw_close_error s)|]; eauto.
    eexists. split; [by left|]. by split.
  - eexists. split; [by left|]. by apply add_op_wf.
  - destruct (Send_Ret buffer h s Hwf) as (s' & -> & Hs & _). eauto.
Qed.

Lemma asio_runs_wf cs s : socket_wf s → goes_on s (asio_runs cs s).
Proof.
  revert s. induction cs as [|c cs IH]; intros s Hwf; cbn [asio_runs]; [by split|].
  destruct (asio_run_wf c s Hwf) as (s1 & E & Hwf1 & Hp).
  assert (goes_on s (asio_runs cs s1)) as Hgo.
  { destruct (IH s1 Hwf1) as [Hwf2 Hp2]. split; [done|]. by etrans. }
  by destruct E as [->|[e ->]].
Qed.

(** C38: the memory that [Send] gives to the raw socket is destroyed when [Send] returns, before
    the operation completes, and asio never sees it alive again: whatever is called
    afterwards, progress on that operation reads a destroyed vector. *)
Theorem AsioSend_dangling buffer h cs s :
  socket_wf s →
  let s' := asio_runs (AsioSend buffer h :: cs) s in
  ∃ object, RawSend object (Z.of_nat (length buffer)) h ∈ as_ops s' ∧
    ∀ n, transmit (RawSend object (Z.of_nat (length buffer)) h) n s' =
      Crash (UndefinedBehaviour "read of a destroyed vector").
Proof.
  intros Hwf. cbv zeta. cbn [asio_runs asio_run].
  destruct (Send_Ret buffer h s Hwf) as (s1 & -> & [Hwf1 _] & Hops).
  destruct (asio_runs_wf cs s1 Hwf1) as [[_ Hd] [more Hp]].
  assert (RawSend (as_next s) (Z.of_nat (length buffer)) h ∈ as_ops (asio_runs cs s1)) as Hin.
  { rewrite Hp, Hops. set_solver. }
  exists (as_next s). split; [done|]. intros n. unfold transmit.
  rewrite (bind_Ret get _ _ _ _ eq_refl). by destruct (Hd _ _ _ Hin) as [-> _].
Qed.
End socket.
