(* ===== verification/Semaphore.v ===== *)
(** * The semaphore of the example program (src/example.cpp: [Semaphore])

    A counter under a mutex, with a condition variable. Threads are numbered; the program
    counter of a thread says which statement of [Notify] or [Wait] it is about to run. The
    scheduler chooses the thread, and what the condition variable leaves open: which sleeping
    thread [notify_one] wakes, and spurious wake-ups. *)

From S2P Require Import Prelude Outcome.

(** The statements of [Notify] and [Wait]. [NotifyLock], [WaitLock] and [Woken] want the
    mutex; [Sleeping] is inside [_condition.wait], without the mutex. *)
Inductive pc :=
| Idle
| NotifyLock | NotifyInc | NotifyOne | NotifyUnlock
| WaitLock | WaitTest | Sleeping | Woken | WaitUnlock.

#[global] Instance pc_eq_dec : EqDecision pc.
Proof. solve_decision. Defined.

Record Semaphore := {
  sem_mutex : option nat;
  sem_count : Z;
  sem_pcs : list pc;
}.

(** [n] threads and the members as they are initialised. *)
Definition Semaphore_new (n : nat) : Semaphore :=
  {| sem_mutex := None; sem_count := 0; sem_pcs := replicate n Idle |}.

Inductive event :=
| CallNotify
| CallWait
| Go
| Wake (j : nat)
| Spurious.

Definition goto (i : nat) (p : pc) (s : Semaphore) : Semaphore :=
  {| sem_mutex := sem_mutex s; sem_count := sem_count s; sem_pcs := <[i := p]> (sem_pcs s) |}.
Definition set_mutex (m : option nat) (s : Semaphore) : Semaphore :=
  {| sem_mutex := m; sem_count := sem_count s; sem_pcs := sem_pcs s |}.
Definition set_count (n : Z) (s : Semaphore) : Semaphore :=
  {| sem_mutex := sem_mutex s; sem_count := n; sem_pcs := sem_pcs s |}.

Definition acquire (i : nat) (p : pc) (s : Semaphore) : option Semaphore :=
  match sem_mutex s with
  | None => Some (goto i p (set_mutex (Some i) s))
  | Some _ => None
  end.
Definition release (i : nat) (p : pc) (s : Semaphore) : Semaphore :=
  goto i p (set_mutex None s).

(** [Notify], from a call to the return: [NotifyUnlock] is the end of the scope of the lock.
    [notify_one] wakes a sleeping thread when there is one. *)
Definition Notify (i : nat) (p : pc) (e : event) (s : Semaphore) : option Semaphore :=
  match p, e with
  | Idle, CallNotify => Some (goto i NotifyLock s)
  | NotifyLock, Go => acquire i NotifyInc s
  | NotifyInc, Go => Some (goto i NotifyOne (set_count (u64 (sem_count s + 1)) s))
  | NotifyOne, Go =>
      if bool_decide (Sleeping ∈ sem_pcs s) then None else Some (goto i NotifyUnlock s)
  | NotifyOne, Wake j =>
      if bool_decide (sem_pcs s !! j = Some Sleeping)
      then Some (goto i NotifyUnlock (goto j Woken s)) else None
  | NotifyUnlock, Go => Some (release i Idle s)
  | _, _ => None
  end.

(** [Wait]: the test of the loop, then either the wait on the condition, which releases the
    mutex, or the decrement. *)
Definition Wait (i : nat) (p : pc) (e : event) (s : Semaphore) : option Semaphore :=
  match p, e with
  | Idle, CallWait => Some (goto i WaitLock s)
  | WaitLock, Go => acquire i WaitTest s
  | WaitTest, Go =>
      if sem_count s =? 0 then Some (release i Sleeping s)
      else Some (goto i WaitUnlock (set_count (u64 (sem_count s - 1)) s))
  | Sleeping, Spurious => Some (goto i Woken s)
  | Woken, Go => acquire i WaitTest s
  | WaitUnlock, Go => Some (release i Idle s)
  | _, _ => None
  end.

Definition sem_step (i : nat) (e : event) (s : Semaphore) : option Semaphore :=
  p ← sem_pcs s !! i;
  match Notify i p e s with Some s' => Some s' | None => Wait i p e s end.

(** ** The atomic semaphore

    The specification: a number, two atomic operations, of which the second is possible on a
    positive number only. *)

Inductive abs_op := AbsNotify | AbsWait.

Definition abs_step (op : abs_op) (n : nat) : option nat :=
  match op, n with
  | AbsNotify, n => Some (S n)
  | AbsWait, S n => Some n
  | AbsWait, O => None
  end.

Fixpoint abs_run (ops : list abs_op) (n : nat) : option nat :=
  match ops with
  | [] => Some n
  | op :: ops => abs_step op n ≫= abs_run ops
  end.

(** The atomic operation a step stands for: the increment and the decrement. *)
Definition commits (i : nat) (e : event) (s : Semaphore) : list abs_op :=
  match sem_pcs s !! i, e with
  | Some NotifyInc, Go => [AbsNotify]
  | Some WaitTest, Go => if sem_count s =? 0 then [] else [AbsWait]
  | _, _ => []
  end.

(** An execution: the state it ends in, and its atomic operations in order. *)
Fixpoint sem_exec (ls : list (nat * event)) (s : Semaphore) : option (Semaphore * list abs_op) :=
  match ls with
  | [] => Some (s, [])
  | (i, e) :: ls =>
      s1 ← sem_step i e s;
      '(s2, ops) ← sem_exec ls s1;
      Some (s2, commits i e s ++ ops)
  end.

(** The calls that have returned. *)
Fixpoint returns (p : pc) (ls : list (nat * event)) (s : Semaphore) : nat :=
  match ls with
  | [] => 0
  | (i, e) :: ls =>
      (match sem_pcs s !! i, e with Some q, Go => if decide (q = p) then 1 else 0 | _, _ => 0 end) +
      match sem_step i e s with Some s1 => returns p ls s1 | None => 0 end
  end%nat.

(** ** The invariant *)

(** The threads that hold the mutex, by their program counter. *)
Definition holds (p : pc) : bool :=
  match p with
  | NotifyInc | NotifyOne | NotifyUnlock | WaitTest | WaitUnlock => true
  | _ => false
  end.

(** The threads that will look at the counter, or wake one that will. *)
Definition attends (p : pc) : nat :=
  match p with NotifyOne | Woken | WaitTest => 1 | _ => 0 end.

Record sem_wf (s : Semaphore) : Prop := {
  sm_mutex i p : sem_pcs s !! i = Some p → (holds p = true ↔ sem_mutex s = Some i);
  sm_owner i : sem_mutex s = Some i → (i < length (sem_pcs s))%nat;
  sm_count : 0 ≤ sem_count s;
  (** No wake-up is lost. *)
  sm_awake : Sleeping ∈ sem_pcs s → sem_count s ≤ Z.of_nat (sum_list_with attends (sem_pcs s));
}.

Lemma sum_list_with_insert {A} (f : A → nat) (l : list A) i x y :
  l !! i = Some x → (sum_list_with f (<[i := y]> l) + f x = sum_list_with f l + f y)%nat.
Proof.
  revert i. induction l as [|z l IH]; intros [|i]; simpl; [done..| |].
  - intros [= ->]. lia.
  - intros Hi%IH. lia.
Qed.

Lemma sem_wf_new n : sem_wf (Semaphore_new n).
Proof.
  split; cbn; [|done|done|by intros [? _]%elem_of_replicate].
  intros i p [-> _]%lookup_replicate. done.
Qed.

(** One thread moves from [p] to [q]. *)
Definition moved (i : nat) (p q : pc) (m : option nat) (n : Z) (s s' : Semaphore) : Prop :=
  sem_pcs s !! i = Some p ∧ s' = {| sem_mutex := m; sem_count := n; sem_pcs := <[i := q]> (sem_pcs s) |}.

(** The three ways in which the mutex may change hands. *)
Definition hands_over (i : nat) (p q : pc) (m m' : option nat) : Prop :=
  m' = m ∧ holds p = holds q ∨
  m = None ∧ m' = Some i ∧ holds q = true ∨
  m' = None ∧ holds p = true ∧ holds q = false.

Lemma moved_wf i p q m n s s' :
  sem_wf s → moved i p q m n s s' → hands_over i p q (sem_mutex s) m → 0 ≤ n →
  (Sleeping ∈ sem_pcs s' →
   n ≤ Z.of_nat (sum_list_with attends (sem_pcs s) + attends q) - Z.of_nat (attends p)) →
  sem_wf s'.
Proof.
  intros [Hm Ho Hc Ha] [Hi ->] Hover Hn Hawake. cbn in *.
  pose proof (sum_list_with_insert attends (sem_pcs s) i p q Hi) as Hsum.
  split; cbn; [| |done|intros ?%Hawake; lia].
  2: { intros j. rewrite length_insert. apply lookup_lt_Some in Hi.
       destruct Hover as [[-> _]|[(_ & -> & _)|(-> & _)]]; [apply Ho|by intros [= <-]|done]. }
  intros j r. destruct (decide (j = i)) as [->|Hne].
  - rewrite list_lookup_insert_eq by by eapply lookup_lt_Some. intros [= <-].
    pose proof (Hm i p Hi). destruct Hover as [[-> <-]|[(E & -> & ->)|(-> & _ & ->)]]; naive_solver.
  - rewrite list_lookup_insert_ne by done. intros Hj. pose proof (Hm j r Hj) as Hjr.
    destruct Hover as [[-> _]|[(E & -> & _)|(-> & Hp & _)]]; [done| |].
    + rewrite Hjr, E. naive_solver.
    + rewrite Hjr. apply (Hm i p Hi) in Hp. rewrite Hp. naive_solver.
Qed.

Lemma sleeping_insert (i : nat) q (l : list pc) : Sleeping ∈ <[i := q]> l → q = Sleeping ∨ Sleeping ∈ l.
Proof.
  intros (j & Hj)%list_elem_of_lookup. destruct (decide (j = i)) as [->|].
  - left. apply list_lookup_insert_Some in Hj. naive_solver.
  - right. rewrite list_lookup_insert_ne in Hj by done. by eapply list_elem_of_lookup_2.
Qed.

(** The cases of a step, as moves. *)
Lemma sem_step_cases i e s s' :
  sem_step i e s = Some s' →
  (∃ p q m, moved i p q m (sem_count s) s s' ∧ hands_over i p q (sem_mutex s) m ∧
     commits i e s = [] ∧
     (sem_count s = 0 ∨ (attends p ≤ attends q)%nat ∧ q ≠ Sleeping)) ∨
  (moved i NotifyInc NotifyOne (sem_mutex s) (u64 (sem_count s + 1)) s s' ∧ commits i e s = [AbsNotify]) ∨
  (moved i WaitTest WaitUnlock (sem_mutex s) (u64 (sem_count s - 1)) s s' ∧
     sem_count s ≠ 0 ∧ commits i e s = [AbsWait]) ∨
  (moved i NotifyOne NotifyUnlock (sem_mutex s) (sem_count s) s s' ∧ (Sleeping ∉ sem_pcs s) ∧
     commits i e s = []) ∨
  (∃ j s1, moved j Sleeping Woken (sem_mutex s) (sem_count s) s s1 ∧
     moved i NotifyOne NotifyUnlock (sem_mutex s) (sem_count s) s1 s' ∧ commits i e s = []).
Proof.
  unfold sem_step. destruct (sem_pcs s !! i) as [p|] eqn:Hi; [|done]. cbn.
  unfold commits, hands_over. rewrite Hi.
  assert (∀ q m, s' = {| sem_mutex := m; sem_count := sem_count s; sem_pcs := <[i := q]> (sem_pcs s) |} →
    moved i p q m (sem_count s) s s') as Hmove by (intros; by split).
  intros Hstep. destruct p, e; cbn in Hstep; unfold acquire, release, goto, set_mutex, set_count in Hstep;
    repeat first [case_bool_decide|case_match]; simplify_eq/=; bool_to_prop;
    try (left; do 3 eexists; (split; [by apply Hmove|]); split; [naive_solver|];
         split; [done|]; first [by left|right; simpl; split; [lia|done]]).
  - right. left. split; [by split|done].
  - right. right. right. left. split; [by split|done].
  - do 4 right. exists j. eexists. split; [split; [done|reflexivity]|].
    split; [|done]. split; [|done]. cbn. rewrite list_lookup_insert_ne; [done|]. intros ->. congruence.
  - right. right. left. split; [by split|done].
Qed.

(** *** Preservation, and the link with the atomic semaphore *)

Lemma sem_step_wf i e s s' n :
  sem_wf s → sem_step i e s = Some s' → sem_count s = Z.of_nat n → Z.of_nat n < 2 ^ 64 - 1 →
  sem_wf s' ∧ ∃ n', abs_run (commits i e s) n = Some n' ∧ sem_count s' = Z.of_nat n'.
Proof.
  intros Hwf Hstep Hn Hbound. pose proof (sm_count _ Hwf) as Hc.
  destruct (sem_step_cases _ _ _ _ Hstep)
    as [(p & q & m & Hmove & Hover & -> & Hq)|[[Hmove ->]|[(Hmove & Hpos & ->)|
        [(Hmove & Hnone & ->)|(j & s1 & Hmove1 & Hmove2 & ->)]]]].
  - split; [|destruct Hmove as [_ ->]; by exists n].
    eapply (moved_wf i p q); [done..| |]. { done. }
    intros Hin. destruct Hmove as [Hi ->]. cbn in Hin.
    destruct Hq as [?|[Hle Hns]].
    { pose proof (sum_list_with_insert attends (sem_pcs s) i p q Hi). lia. }
    apply sleeping_insert in Hin as [?|Hin]; [done|]. pose proof (sm_awake _ Hwf Hin). lia.
  - rewrite u64_small in Hmove by lia. split; [|destruct Hmove as [_ ->]; exists (S n); cbn; lia || by split; [|lia]].
    eapply (moved_wf i); [done..|by left|lia|]. intros Hin. destruct Hmove as [_ ->]. cbn in Hin.
    apply sleeping_insert in Hin as [?|Hin]; [done|]. pose proof (sm_awake _ Hwf Hin). cbn. lia.
  - rewrite u64_small in Hmove by lia.
    split; [|destruct Hmove as [_ ->]; destruct n as [|n]; [lia|]; exists n; cbn; split; [done|lia]].
    eapply (moved_wf i); [done..|by left|lia|]. intros Hin. destruct Hmove as [_ ->]. cbn in Hin.
    apply sleeping_insert in Hin as [?|Hin]; [done|]. pose proof (sm_awake _ Hwf Hin). cbn. lia.
  - split; [|destruct Hmove as [_ ->]; by exists n].
    eapply (moved_wf i); [done..|by left|done|]. intros Hin. destruct Hmove as [_ ->]. cbn in Hin.
    by apply sleeping_insert in Hin as [?|Hin].
  - assert (Sleeping ∈ sem_pcs s) as Hin.
    { destruct Hmove1 as [Hj _]. by eapply list_elem_of_lookup_2. }
    pose proof (sm_awake _ Hwf Hin) as Ha.
    assert (sem_wf s1) as Hwf1.
    { eapply (moved_wf j); [done..|by left|done|]. intros _. cbn. lia. }
    destruct Hmove1 as [Hj ->]. cbn in *.
    pose proof (sum_list_with_insert attends (sem_pcs s) j Sleeping Woken Hj) as Hsum. cbn in Hsum.
    split; [|destruct Hmove2 as [_ ->]; by exists n].
    eapply (moved_wf i); [done..|by left|done|]. intros _. cbn. lia.
Qed.

(** The calls that have returned and the threads past their atomic operation add up to the
    operations. *)
Definition past_wait (p : pc) : nat := match p with WaitUnlock => 1 | _ => 0 end.
Definition past_notify (p : pc) : nat := match p with NotifyOne | NotifyUnlock => 1 | _ => 0 end.
Definition count_op (op : abs_op) (o : abs_op) : nat :=
  match op, o with AbsNotify, AbsNotify | AbsWait, AbsWait => 1 | _, _ => 0 end.

Lemma sem_step_returns i e s s' :
  sem_step i e s = Some s' →
  (sum_list_with past_wait (sem_pcs s') + returns WaitUnlock [(i, e)] s =
     sum_list_with past_wait (sem_pcs s) + sum_list_with (count_op AbsWait) (commits i e s) ∧
   sum_list_with past_notify (sem_pcs s') + returns NotifyUnlock [(i, e)] s =
     sum_list_with past_notify (sem_pcs s) + sum_list_with (count_op AbsNotify) (commits i e s))%nat.
Proof.
  unfold sem_step, commits. cbn [returns]. destruct (sem_pcs s !! i) as [p|] eqn:Hi; [|done]. cbn.
  pose proof (λ f q, sum_list_with_insert f (sem_pcs s) i p q Hi) as Hsum.
  intros Hstep. destruct p, e; cbn in Hstep |- *; unfold acquire, release, goto, set_mutex, set_count in Hstep;
    repeat first [case_bool_decide|case_match]; simplify_eq/=;
    try (match goal with |- context [<[i := ?q]> (sem_pcs s)] =>
           pose proof (Hsum past_wait q); pose proof (Hsum past_notify q) end; cbn in *; lia).
  all: assert (<[j := Woken]> (sem_pcs s) !! i = Some NotifyOne) as Hi'
    by (rewrite list_lookup_insert_ne; [done|intros ->; congruence]).
  all: pose proof (λ f, sum_list_with_insert f _ _ _ NotifyUnlock Hi') as Hi2.
  all: pose proof (λ f, sum_list_with_insert f _ _ _ Woken H) as Hj.
  all: pose proof (Hi2 past_wait); pose proof (Hi2 past_notify).
  all: pose proof (Hj past_wait); pose proof (Hj past_notify); cbn in *; lia.
Qed.

(** *** Executions *)

Lemma returns_cons p i e ls s s1 :
  sem_step i e s = Some s1 → returns p ((i, e) :: ls) s = (returns p [(i, e)] s + returns p ls s1)%nat.
Proof. intros E. cbn [returns]. rewrite E. lia. Qed.

Lemma abs_run_app ops1 ops2 n : abs_run (ops1 ++ ops2) n = abs_run ops1 n ≫= abs_run ops2.
Proof.
  revert n. induction ops1 as [|op ops1 IH]; intros n; [done|]. cbn.
  destruct (abs_step op n); [apply IH|done].
Qed.

Lemma abs_run_le ops n k : abs_run ops n = Some k → (k ≤ n + length ops)%nat.
Proof.
  revert n. induction ops as [|op ops IH]; intros n; cbn; [intros [= ->]; lia|].
  destruct op, n; cbn; try done; intros ?%IH; lia.
Qed.

Lemma commits_length i e s : (length (commits i e s) ≤ 1)%nat.
Proof. unfold commits. repeat case_match; simpl; lia. Qed.

Lemma sem_exec_wf ls s s' ops n :
  sem_wf s → sem_count s = Z.of_nat n → Z.of_nat n + Z.of_nat (length ls) < 2 ^ 64 - 1 →
  sem_exec ls s = Some (s', ops) →
  sem_wf s' ∧ ∃ n', abs_run ops n = Some n' ∧ sem_count s' = Z.of_nat n'.
Proof.
  revert s ops n. induction ls as [|[i e] ls IH]; intros s ops n Hwf Hn Hbound; cbn.
  { intros [= -> <-]. eauto. }
  destruct (sem_step i e s) as [s1|] eqn:Es; [|done]. cbn.
  destruct (sem_exec ls s1) as [[s2 ops2]|] eqn:Ex; [|done]. intros [= <- <-].
  destruct (sem_step_wf i e s s1 n Hwf Es Hn) as (Hwf1 & n1 & Ha & Hn1); [lia|].
  assert (n1 ≤ n + 1)%nat as Hle.
  { pose proof (abs_run_le _ _ _ Ha). pose proof (commits_length i e s). lia. }
  cbn [length] in Hbound.
  destruct (IH s1 ops2 n1 Hwf1 Hn1 ltac:(lia) Ex) as (Hwf2 & n2 & Hb & Hn2).
  split; [done|]. exists n2. split; [|done]. by rewrite abs_run_app, Ha.
Qed.

Lemma sem_exec_returns ls s s' ops :
  sem_exec ls s = Some (s', ops) →
  (sum_list_with past_wait (sem_pcs s') + returns WaitUnlock ls s =
     sum_list_with past_wait (sem_pcs s) + sum_list_with (count_op AbsWait) ops ∧
   sum_list_with past_notify (sem_pcs s') + returns NotifyUnlock ls s =
     sum_list_with past_notify (sem_pcs s) + sum_list_with (count_op AbsNotify) ops)%nat.
Proof.
  revert s ops. induction ls as [|[i e] ls IH]; intros s ops; cbn [sem_exec].
  { intros [= -> <-]. simpl. lia. }
  destruct (sem_step i e s) as [s1|] eqn:Es; [|done]. cbn.
  destruct (sem_exec ls s1) as [[s2 ops2]|] eqn:Ex; [|done]. intros [= <- <-].
  pose proof (sem_step_returns _ _ _ _ Es). destruct (IH _ _ Ex).
  pose proof (returns_cons WaitUnlock _ _ ls _ _ Es) as Hw.
  pose proof (returns_cons NotifyUnlock _ _ ls _ _ Es) as Hn. cbn in Hw, Hn.
  rewrite Hw, Hn, !sum_list_with_app. cbn in *. lia.
Qed.

Lemma sum_list_with_replicate_0 {A} (f : A → nat) n x : f x = 0%nat → sum_list_with f (replicate n x) = 0%nat.
Proof. intros Hx. induction n; simpl; lia. Qed.

(** C24: the semaphore is atomic. Whatever the interleaving of its threads, the spurious
    wake-ups and the choices of [notify_one], as long as fewer than 2^64 - 1 steps are taken,
    the increments and decrements in the order in which they happen are a run of the atomic
    semaphore, whose number is the counter; every [Wait] that has returned, or is about to,
    has made exactly one decrement, and every [Notify] exactly one increment. So no more calls
    of [Wait] return than there are calls of [Notify]. *)
Theorem semaphore_atomic n ls s ops :
  sem_exec ls (Semaphore_new n) = Some (s, ops) → Z.of_nat (length ls) < 2 ^ 64 - 1 →
  abs_run ops 0 = Some (Z.to_nat (sem_count s)) ∧
  sum_list_with (count_op AbsWait) ops =
    (returns WaitUnlock ls (Semaphore_new n) + sum_list_with past_wait (sem_pcs s))%nat ∧
  sum_list_with (count_op AbsNotify) ops =
    (returns NotifyUnlock ls (Semaphore_new n) + sum_list_with past_notify (sem_pcs s))%nat.
Proof.
  intros Hexec Hbound.
  destruct (sem_exec_wf ls _ s ops 0 (sem_wf_new n) eq_refl ltac:(lia) Hexec) as (_ & k & Hk & Hc).
  pose proof (sem_exec_returns _ _ _ _ Hexec) as [Hw Hn]. cbn [sem_pcs Semaphore_new] in Hw, Hn.
  rewrite sum_list_with_replicate_0 in Hw, Hn by done.
  split; [by rewrite Hc, Nat2Z.id|]. lia.
Qed.

Lemma sum_list_with_pos {A} (f : A → nat) l :
  (0 < sum_list_with f l)%nat → ∃ i x, l !! i = Some x ∧ (0 < f x)%nat.
Proof.
  induction l as [|x l IH]; simpl; [lia|]. intros Hpos. destruct (decide (0 < f x)%nat).
  - by exists 0%nat, x.
  - destruct IH as (i & y & ? & ?); [lia|]. by exists (S i), y.
Qed.

(** A thread inside the mutex can go on, when somebody sleeps for it to wake. *)
Lemma holder_runs i p j s :
  sem_pcs s !! i = Some p → holds p = true → sem_pcs s !! j = Some Sleeping →
  ∃ e s', sem_step i e s = Some s' ∧ (e = Go ∨ ∃ j, e = Wake j).
Proof.
  intros Hi Hp Hj. unfold sem_step. rewrite Hi. destruct p; try done.
  2: { exists (Wake j). cbn. rewrite bool_decide_eq_true_2 by done. eauto. }
  all: exists Go; cbn; try case_match; eauto.
Qed.

(** C25: no wake-up is lost. In every execution the threads inside the mutex are at most one;
    and when the counter is positive while threads sleep, another thread is awake that will
    look at the counter or wake a sleeper, and some thread that is not asleep can take a step
    without a new call. *)
Theorem semaphore_no_lost_wakeup n ls s ops :
  sem_exec ls (Semaphore_new n) = Some (s, ops) → Z.of_nat (length ls) < 2 ^ 64 - 1 →
  (∀ i j p q, sem_pcs s !! i = Some p → sem_pcs s !! j = Some q →
     holds p = true → holds q = true → i = j) ∧
  (0 < sem_count s → Sleeping ∈ sem_pcs s →
     (∃ i p, sem_pcs s !! i = Some p ∧ attends p = 1%nat) ∧
     ∃ i e s', sem_step i e s = Some s' ∧ (e = Go ∨ ∃ j, e = Wake j)).
Proof.
  intros Hexec Hbound.
  destruct (sem_exec_wf ls _ s ops 0 (sem_wf_new n) eq_refl ltac:(lia) Hexec) as ([Hm Ho Hc Ha] & _).
  split.
  { intros i j p q Hi Hj Hp%(Hm i p Hi) Hq%(Hm j q Hj). congruence. }
  intros Hpos Hin. pose proof (Ha Hin) as Hawake.
  destruct (sum_list_with_pos attends (sem_pcs s)) as (i & p & Hi & Hatt); [lia|].
  apply list_elem_of_lookup in Hin as [j Hj]. split.
  { exists i, p. split; [done|]. destruct p; simpl in *; lia. }
  destruct (sem_mutex s) as [k|] eqn:Hk.
  - destruct (lookup_lt_is_Some_2 (sem_pcs s) k (Ho k eq_refl)) as [q Hq].
    exists k. eapply holder_runs; [done| |done]. by apply (Hm k q Hq).
  - exists i, Go. unfold sem_step. rewrite Hi. cbn.
    assert (holds p ≠ true) as Hno by (intros Hp%(Hm i p Hi); done).
    destruct p; simpl in Hatt, Hno; try lia; try done. cbn. unfold acquire. rewrite Hk. eauto.
Qed.

