(* ===== verification/Message.v ===== *)
(** * Messages (include/pitaya/protocol/message.h, src/protocol/message.cpp)

    The application-level message carried by a Data packet: its constructor
    [NewRequest], its serialisation with a route dictionary, its deserialisation.
    Codes and flags are [Z]; a [std::vector<uint8_t>] is a [list Z] of bytes. *)

From S2P Require Import Prelude Outcome Gzip.

Definition kMessageErrorMask : Z := 32.
Definition kMessageGzipMask : Z := 16.
Definition kMessageTypeMask : Z := 7.
Definition kMessageRouteCompressionMask : Z := 1.
Definition kMessageRouteLengthMask : Z := 255.
Definition kNotifyMessageId : Z := 0.
Definition kMessageFlagSize : Z := 1.
Definition kMessageHeaderLength : Z := 2.

Inductive MessageType := MT_Request | MT_Notify | MT_Response | MT_Push.

#[global] Instance MessageType_eq_dec : EqDecision MessageType.
Proof. solve_decision. Defined.

Definition MessageType_to_byte (t : MessageType) : Z :=
  match t with MT_Request => 0 | MT_Notify => 1 | MT_Response => 2 | MT_Push => 3 end.

(** [static_cast<MessageType>(b)], for the values the code lets through. *)
Definition MessageType_of_byte (b : Z) : MessageType :=
  if b =? 0 then MT_Request else if b =? 1 then MT_Notify
  else if b =? 2 then MT_Response else MT_Push.

Record Message := {
  msg_type : MessageType;
  msg_id : Z;
  msg_route : string;
  msg_data : list Z;
  msg_error : bool;
}.

#[global] Instance Message_eq_dec : EqDecision Message.
Proof. solve_decision. Defined.

(** [Message message = {}]: value initialisation. *)
Definition Message_zero : Message :=
  {| msg_type := MT_Request; msg_id := 0; msg_route := ""; msg_data := []; msg_error := false |}.

Definition IsMessageTypeRoutable (t : MessageType) : bool :=
  bool_decide (t = MT_Request) || bool_decide (t = MT_Notify) || bool_decide (t = MT_Push).

Definition IsMessageTypeInvalid (type : Z) : bool := 3 <? type.

(** [Message::NewRequest]: the parameter [data] is not used by the body. *)
Definition Message_NewRequest (id : Z) (route : string) (data : list Z) : Message :=
  {| msg_type := MT_Request; msg_id := id; msg_route := route;
     msg_data := msg_data Message_zero; msg_error := msg_error Message_zero |}.

(** ** SerializeInto *)

(** The loop that writes the id as base 128 digits, least significant first. [None]
    is a loop that has not finished within the fuel. *)
Fixpoint encode_id_loop (fuel : nat) (n : Z) : option (list Z) :=
  match fuel with
  | O => None
  | S fuel =>
      let b := u8 (n mod 128) in
      let n := Z.shiftr n 7 in
      if negb (n =? 0) then cons (u8 (b + 128)) <$> encode_id_loop fuel n
      else Some [b]
  end.

(** Ten digits are enough for a [size_t]. *)
Definition encode_id {W} (n : Z) : M W (list Z) :=
  match encode_id_loop 10 n with
  | Some bs => mret bs
  | None => crash FuelExhausted
  end.

(** [routeDict.at(route)]. *)
Definition map_at {W A} (m : gmap string A) (k : string) : M W A :=
  match m !! k with Some x => mret x | None => throw StdOutOfRange end.

Definition Message_SerializeInto {W} (m : Message) (buf : list Z) (routeDict : gmap string Z)
    : M W (list Z) :=
  let isRouteCompressed := bool_decide (is_Some (routeDict !! msg_route m)) in
  code ← map_at routeDict (msg_route m);
  let flag := 0 in
  let flag := if isRouteCompressed then Z.lor flag kMessageRouteCompressionMask else flag in
  let flag := if msg_error m then Z.lor flag kMessageErrorMask else flag in
  let buf := buf ++ [u8 flag] in
  buf ← (if bool_decide (msg_type m = MT_Request) || bool_decide (msg_type m = MT_Response)
         then bs ← encode_id (u64 (msg_id m)); mret (buf ++ bs)
         else mret buf);
  let buf :=
    if IsMessageTypeRoutable (msg_type m) then
      if isRouteCompressed then
        buf ++ [u8 (Z.land (Z.shiftr code 8) 255); u8 (Z.land code 255)]
      else
        buf ++ [u8 (Z.of_nat (String.length (msg_route m)))] ++ bytes_of_string (msg_route m)
    else buf in
  mret (buf ++ msg_data m).

(** ** Deserialize *)

(** The loop over [buf\[offset..\]] that reads the id: [i] is the loop variable, [bs]
    the bytes from [i] on. It returns the id and the offset after it; when no byte
    ends the number, [offset] keeps its value. A shift by 64 or more is undefined. *)
Fixpoint decode_id_loop {W} (bs : list Z) (i offset id : Z) : M W (Z * Z) :=
  match bs with
  | [] => mret (id, offset)
  | b :: bs =>
      let shift := 7 * (i - offset) in
      if 64 <=? shift then undefined "shift exceeds the width of uint64_t" else
      let id := u64 (id + u64 (Z.shiftl (Z.land b 0x7F) shift)) in
      if b <? 128 then mret (id, i + 1)
      else decode_id_loop bs (i + 1) offset id
  end.

(** [std::string(count, ch)]. *)
Definition string_fill (count ch : Z) : string :=
  string_of_bytes (replicate (Z.to_nat count) ch).

Section deserialize.
Context {W : Type} `{Zlib, Allocator}.

(** The route: [(route, offset)], or [None] for a code that is not in the map. *)
Definition decode_route (buf : list Z) (codeToRoute : gmap Z string) (flag offset : Z)
    : M W (option (string * Z)) :=
  if Z.land flag kMessageRouteCompressionMask =? 1 then
    hi ← vec_at "buf" buf offset;
    lo ← vec_at "buf" buf (offset + 1);
    let code := u8 (Z.lor (Z.shiftl hi 8) lo) in
    match codeToRoute !! code with
    | None => mret None
    | Some route => mret (Some (route, offset + 2))
    end
  else
    routeLength ← vec_at "buf" buf offset;
    let offset := offset + 1 in
    count ← vec_at "buf" buf offset;
    mret (Some (string_fill count routeLength, offset + routeLength)).

(** The body: [None] when it cannot be decompressed. The expression
    [&buf\[offset\]] is a read past the end when [offset] is the size. *)
Definition decode_body (fuel : nat) (buf : list Z) (flag offset : Z) : M W (option (list Z)) :=
  let size := Z.of_nat (length buf) in
  if Z.land flag kMessageGzipMask =? kMessageGzipMask then
    vec_at "buf" buf offset ;;
    match Decompress fuel 0 (drop (Z.to_nat offset) buf) with
    | None => crash FuelExhausted
    | Some d =>
        if negb (d_rc d =? 0) then mret None else
        match output_bytes d with
        | Some data => mret (Some data)
        | None => undefined "read of indeterminate bytes"
        end
    end
  else
    data ← vec_range "buf" buf offset size;
    mret (Some data).

Definition Message_Deserialize (fuel : nat) (buf : list Z) (codeToRoute : gmap Z string)
    : M W (option Message) :=
  if Z.of_nat (length buf) <? kMessageHeaderLength then mret None else
  flag ← vec_at "buf" buf 0;
  let offset := 1 in
  let type := u8 (Z.land (Z.shiftr flag 1) kMessageTypeMask) in
  if IsMessageTypeInvalid type then mret None else
  let type := MessageType_of_byte type in
  '(id, offset) ←
    (if bool_decide (type = MT_Request) || bool_decide (type = MT_Response)
     then decode_id_loop (drop (Z.to_nat offset) buf) offset offset 0
     else mret (msg_id Message_zero, offset));
  let error := Z.land flag kMessageErrorMask =? kMessageErrorMask in
  r ← (if IsMessageTypeRoutable type then decode_route buf codeToRoute flag offset
       else mret (Some (msg_route Message_zero, offset)));
  match r with
  | None => mret None
  | Some (route, offset) =>
      d ← decode_body fuel buf flag offset;
      match d with
      | None => mret None
      | Some data =>
          mret (Some {| msg_type := type; msg_id := id; msg_route := route;
                        msg_data := data; msg_error := error |})
      end
  end.
End deserialize.

(** ** The id codec *)

Lemma land_7F b : Z.land b 0x7F = b mod 128.
Proof. change 0x7F with (Z.ones 7). by rewrite Z.land_ones by lia. Qed.

Lemma shiftr_7 n : Z.shiftr n 7 = n / 128.
Proof. by rewrite Z.shiftr_div_pow2 by lia. Qed.

Section id_codec.
Context {W : Type}.

(** One step of the decoding loop on a byte [b], as long as nothing wraps. *)
Lemma decode_id_step b bs i off acc (w : W) :
  off ≤ i → i - off < 10 → 0 ≤ acc →
  acc + b mod 128 * 2 ^ (7 * (i - off)) < 2 ^ 64 →
  decode_id_loop (b :: bs) i off acc w =
    let id := acc + b mod 128 * 2 ^ (7 * (i - off)) in
    if b <? 128 then Ret (id, i + 1) w else decode_id_loop bs (i + 1) off id w.
Proof.
  intros ??? Hfit. simpl. decide_ltb.
  rewrite land_7F, Z.shiftl_mul_pow2 by lia.
  assert (0 ≤ b mod 128 * 2 ^ (7 * (i - off))).
  { apply Z.mul_nonneg_nonneg; [|lia]. pose proof (Z.mod_pos_bound b 128). lia. }
  rewrite (u64_small (b `mod` 128 * _)), u64_small by lia. by destruct (b <? 128).
Qed.

(** The digits written for [n]: how many they are, and what the decoding loop
    does on them in the middle of a number. *)
Lemma encode_id_loop_spec fuel n :
  (0 < fuel)%nat → 0 ≤ n < 2 ^ (7 * Z.of_nat fuel) →
  ∃ bs, encode_id_loop fuel n = Some bs ∧ (1 ≤ length bs ≤ fuel)%nat ∧ bytes_wf bs ∧
    ∀ rest i off acc (w : W),
      off ≤ i → i - off + Z.of_nat (length bs) ≤ 10 → 0 ≤ acc →
      acc + n * 2 ^ (7 * (i - off)) < 2 ^ 64 →
      decode_id_loop (bs ++ rest) i off acc w =
        Ret (acc + n * 2 ^ (7 * (i - off)), i + Z.of_nat (length bs)) w.
Proof.
  revert n. induction fuel as [|fuel IH]; [lia|]. intros n _ Hn.
  simpl encode_id_loop. rewrite shiftr_7.
  pose proof (Z.mod_pos_bound n 128 ltac:(lia)) as Hb.
  pose proof (Z.div_mod n 128 ltac:(lia)) as Hdiv.
  rewrite (u8_small (n mod 128)) by lia.
  destruct (n / 128 =? 0) eqn:E; simpl; bool_to_prop.
  - exists [n mod 128]. split_and!; [done|simpl; lia..| |].
    { repeat constructor; lia. }
    intros rest i off acc w ??? Hfit. cbn [length app] in *.
    rewrite decode_id_step by (rewrite ?Z.mod_mod; nia).
    simpl. decide_ltb. rewrite Z.mod_mod by lia. by replace (n mod 128) with n by lia.
  - destruct fuel as [|fuel].
    { exfalso. apply E. apply Z.div_small. simpl in Hn. lia. }
    destruct (IH (n / 128)) as (bs & -> & Hlen & Hwf & Hdec); [lia| |].
    { split; [apply Z.div_pos; lia|]. apply Z.div_lt_upper_bound; [lia|].
      replace (128 * _) with (2 ^ (7 * Z.of_nat (S (S fuel)))); [lia|].
      replace (7 * Z.of_nat (S (S fuel))) with (7 + 7 * Z.of_nat (S fuel)) by lia.
      by rewrite Z.pow_add_r by lia. }
    exists (u8 (n mod 128 + 128) :: bs). rewrite u8_small by lia.
    split_and!; [done|simpl; lia..|constructor; [unfold byte_wf; lia|done]|].
    intros rest i off acc w Hi Hlen' Hacc Hfit. cbn [length app] in *.
    assert ((n mod 128 + 128) mod 128 = n mod 128) as Hmod.
    { rewrite <- Z.add_mod_idemp_r, Z.mod_same, Z.add_0_r by lia. by apply Z.mod_mod. }
    assert (2 ^ (7 * (i + 1 - off)) = 128 * 2 ^ (7 * (i - off))) as Hpow.
    { replace (7 * (i + 1 - off)) with (7 + 7 * (i - off)) by lia.
      by rewrite Z.pow_add_r by lia. }
    pose proof (Z.pow_pos_nonneg 2 (7 * (i - off)) ltac:(lia) ltac:(lia)).
    rewrite decode_id_step, Hmod by (rewrite ?Hmod; nia). simpl. decide_ltb.
    rewrite Hdec, Hpow by (rewrite ?Hpow; nia). f_equal. f_equal; [|lia].
    trans (acc + (128 * (n / 128) + n mod 128) * 2 ^ (7 * (i - off))); [ring|].
    by rewrite <- Hdiv.
Qed.

Lemma encode_id_spec n :
  0 ≤ n < 2 ^ 64 →
  ∃ bs, (∀ w : W, encode_id n w = Ret bs w) ∧ (1 ≤ length bs ≤ 10)%nat ∧ bytes_wf bs ∧
    ∀ rest off (w' : W), decode_id_loop (bs ++ rest) off off 0 w' =
      Ret (n, off + Z.of_nat (length bs)) w'.
Proof.
  intros Hn. destruct (encode_id_loop_spec 10 n) as (bs & E & Hlen & Hwf & Hdec); [lia..|].
  exists bs. unfold encode_id. rewrite E. split_and!; [done|lia|lia|done|].
  intros rest off w'. rewrite Hdec by (rewrite ?Z.sub_diag; simpl; lia).
  by rewrite Z.sub_diag, Z.mul_1_r.
Qed.
End id_codec.

(** C34: every id a [size_t] can hold is written in at most ten bytes, and reading
    those bytes, whatever follows them and wherever they start, gives the id back and
    stops right after them. *)
Theorem message_id_roundtrip {W} n (w : W) :
  0 ≤ n < 2 ^ 64 →
  ∃ bs, encode_id n w = Ret bs w ∧ (1 ≤ length bs ≤ 10)%nat ∧ bytes_wf bs ∧
    ∀ rest off, decode_id_loop (bs ++ rest) off off 0 w = Ret (n, off + Z.of_nat (length bs)) w.
Proof.
  intros Hn. destruct (encode_id_spec (W := W) n Hn) as (bs & ? & ? & ? & ?). exists bs. auto.
Qed.

(** ** Serialisation *)

(** The first byte written for a message. *)
Definition request_flag (error : bool) : Z := if error then 33 else 1.

Section serialize.
Context {W : Type}.

(** The bytes of a request whose route has a code. *)
Lemma SerializeInto_request m buf routeDict code (w : W) :
  msg_type m = MT_Request → 0 ≤ msg_id m < 2 ^ 64 → routeDict !! msg_route m = Some code →
  ∃ bs, (∀ w' : W, encode_id (msg_id m) w' = Ret bs w') ∧
    Message_SerializeInto m buf routeDict w =
      Ret (buf ++ request_flag (msg_error m) :: bs
           ++ [u8 (Z.land (Z.shiftr code 8) 255); u8 (Z.land code 255)] ++ msg_data m) w.
Proof.
  intros Hty Hid Hcode. destruct (encode_id_spec (W := W) _ Hid) as (bs & Eall & _).
  exists bs. split; [done|]. unfold Message_SerializeInto, map_at. rewrite Hcode.
  rewrite bool_decide_eq_true_2 by eauto. rewrite u64_small, Hty by done.
  rewrite ret_bind. simpl. rewrite bind_assoc. run (Eall w). rewrite !ret_bind.
  unfold mret, M_ret. f_equal.
  destruct (msg_error m); simpl; by rewrite <- !app_assoc.
Qed.
End serialize.

(** Serialising a message throws [std::out_of_range] exactly when its route is not in
    the dictionary, for every type of message; the branch that writes the route in full is
    never reached. *)
Lemma SerializeInto_throws {W} m buf routeDict (w : W) :
  0 ≤ msg_id m < 2 ^ 64 →
  (Message_SerializeInto m buf routeDict w = Throw StdOutOfRange w ↔
   routeDict !! msg_route m = None).
Proof.
  intros Hid. unfold Message_SerializeInto, map_at.
  destruct (routeDict !! msg_route m) as [code|] eqn:E; [|done].
  split; [|done]. intros H. exfalso. revert H.
  destruct (encode_id_spec (W := W) (msg_id m) Hid) as (bs & Eid & _).
  rewrite u64_small by done. rewrite ret_bind.
  destruct (_ || _); [|done]. rewrite bind_assoc. by run (Eid w).
Qed.

(** ** Deserialisation *)

Section deserialize_facts.
Context {W : Type} `{Zlib, Allocator}.

Lemma decode_route_routed pre hi lo data codes flag (w : W) :
  Z.land flag kMessageRouteCompressionMask = 1 →
  decode_route (pre ++ hi :: lo :: data) codes flag (Z.of_nat (length pre)) w =
    Ret ((λ r, (r, Z.of_nat (length pre) + 2)) <$> codes !! u8 (Z.lor (Z.shiftl hi 8) lo)) w.
Proof.
  intros Hflag. unfold decode_route. rewrite Hflag. simpl.
  run (vec_at_middle (name := "buf") pre (lo :: data) hi _ w eq_refl).
  rewrite cons_middle, app_assoc.
  run (vec_at_middle (name := "buf") (pre ++ [hi]) data lo (Z.of_nat (length pre) + 1) w
         ltac:(rewrite length_app; simpl; lia)).
  by destruct (codes !! _).
Qed.

Lemma decode_body_plain fuel pre data flag i (w : W) :
  Z.land flag kMessageGzipMask = 0 → i = Z.of_nat (length pre) →
  decode_body fuel (pre ++ data) flag i w = Ret (Some data) w.
Proof.
  intros Hflag Hi. unfold decode_body. rewrite Hflag. simpl.
  by run (vec_range_suffix (name := "buf") pre data i _ w Hi eq_refl).
Qed.

(** The header: what [Deserialize] does from the second byte on. *)
Lemma Deserialize_header fuel flag rest codes (w : W) :
  rest ≠ [] → Z.land (Z.shiftr flag 1) kMessageTypeMask < 4 →
  let type := MessageType_of_byte (Z.land (Z.shiftr flag 1) kMessageTypeMask) in
  Message_Deserialize fuel (flag :: rest) codes w =
    (('(id, offset) ←
       (if bool_decide (type = MT_Request) || bool_decide (type = MT_Response)
        then decode_id_loop rest 1 1 0 else mret (0, 1));
     r ← (if IsMessageTypeRoutable type then decode_route (flag :: rest) codes flag offset
          else mret (Some (EmptyString, offset)));
     match r with
     | None => mret None
     | Some (route, offset) =>
         d ← decode_body fuel (flag :: rest) flag offset;
         mret ((λ data, {| msg_type := type; msg_id := id; msg_route := route;
                   msg_data := data;
                   msg_error := Z.land flag kMessageErrorMask =? kMessageErrorMask |}) <$> d)
     end) : M W (option Message)) w.
Proof.
  intros Hne Hty type. unfold Message_Deserialize.
  rewrite (proj2 (Z.ltb_ge _ _)).
  2: { destruct rest; [done|]. unfold kMessageHeaderLength. simpl length. lia. }
  run (eq_refl : vec_at "buf" (flag :: rest) 0 w = Ret flag w).
  assert (0 ≤ Z.land (Z.shiftr flag 1) kMessageTypeMask).
  { apply Z.land_nonneg. by right. }
  rewrite u8_small by lia. unfold IsMessageTypeInvalid. decide_ltb. fold type.
  change (drop (Z.to_nat 1) (flag :: rest)) with rest.
  apply bind_ext. intros [id offset] w1. apply bind_ext. intros [[route off]|] w2; [|done].
  apply bind_ext. by intros [data|] w3.
Qed.
End deserialize_facts.

Lemma u8_code code : 
  u8 (Z.lor (Z.shiftl (u8 (Z.land (Z.shiftr code 8) 255)) 8) (u8 (Z.land code 255))) = code mod 256.
Proof.
  assert (∀ z, Z.land z 255 = z mod 256) as Hland.
  { intros z. change 255 with (Z.ones 8). by rewrite Z.land_ones by lia. }
  unfold u8. change (2 ^ 8) with 256. rewrite <- !Hland.
  apply Z.bits_inj'. intros n Hn. rewrite !Z.land_spec, Z.lor_spec.
  destruct (decide (n < 8)).
  - rewrite Z.shiftl_spec_low, !Z.land_spec by lia. simpl.
    by destruct (Z.testbit code n), (Z.testbit 255 n).
  - change 255 with (Z.ones 8). rewrite Z.ones_spec_high by lia. by rewrite !andb_false_r.
Qed.

(** C22: what the receiver reads of a request the client wrote. Type, id, error bit and data
    come back as they were; the route is looked up under the low byte of its code only, and
    the message is refused when that byte has no route. *)
Theorem request_roundtrip {W} `{Zlib, Allocator} fuel m routeDict codes code (w : W) :
  msg_type m = MT_Request → 0 ≤ msg_id m < 2 ^ 64 → routeDict !! msg_route m = Some code →
  ∃ buf, Message_SerializeInto m [] routeDict w = Ret buf w ∧
    Message_Deserialize fuel buf codes w =
      Ret ((λ route, {| msg_type := MT_Request; msg_id := msg_id m; msg_route := route;
                        msg_data := msg_data m; msg_error := msg_error m |})
           <$> codes !! (code mod 256)) w.
Proof.
  intros Hty Hid Hcode.
  destruct (SerializeInto_request m [] routeDict code w Hty Hid Hcode) as (bs & Ebs & ->).
  destruct (encode_id_spec (W := W) (msg_id m) Hid) as (bs' & Ebs' & Hlen & _ & Hdec).
  specialize (Ebs w). rewrite Ebs' in Ebs. injection Ebs as ->.
  eexists; split; [done|]. rewrite app_nil_l, <- u8_code.
  set (hi := u8 (Z.land (Z.shiftr code 8) 255)). set (lo := u8 (Z.land code 255)).
  set (flag := request_flag (msg_error m)).
  assert (Z.land (Z.shiftr flag 1) kMessageTypeMask = 0 ∧ Z.land flag kMessageRouteCompressionMask = 1
    ∧ Z.land flag kMessageGzipMask = 0
    ∧ (Z.land flag kMessageErrorMask =? kMessageErrorMask) = msg_error m) as (E1 & E2 & E3 & E4).
  { subst flag. by destruct (msg_error m). }
  rewrite Deserialize_header by (rewrite ?E1; by destruct bs). rewrite E1. simpl.
  run (Hdec (hi :: lo :: msg_data m) 1 w).
  replace (1 + Z.of_nat (length bs)) with (Z.of_nat (length (flag :: bs))) by (simpl length; lia).
  run (decode_route_routed (flag :: bs) hi lo (msg_data m) codes flag w E2).
  destruct (codes !! _) as [route|]; [|done]. rewrite !fmap_Some_eq.
  replace (flag :: bs ++ hi :: lo :: msg_data m) with ((flag :: bs ++ [hi; lo]) ++ msg_data m)
    by (simpl; by rewrite <- app_assoc).
  run (decode_body_plain fuel (flag :: bs ++ [hi; lo]) (msg_data m) flag
         (Z.of_nat (length (flag :: bs)) + 2) w E3
         ltac:(simpl length; rewrite length_app; simpl; lia)).
  by rewrite E4.
Qed.

(** The decoding loop ends without a fault exactly when it meets a last byte, or the end
    of the buffer, before its shift reaches the width of the id. *)
Lemma decode_id_loop_defined {W} bs i off id (w : W) :
  off ≤ i ≤ off + 10 →
  (∃ r, decode_id_loop bs i off id w = Ret r w) ↔
    i - off + Z.of_nat (length bs) ≤ 10 ∨
    ∃ j b, bs !! j = Some b ∧ i - off + Z.of_nat j < 10 ∧ b < 128.
Proof.
  revert i id. induction bs as [|b bs IH]; intros i id Hi; simpl.
  { split; [lia|by eauto]. }
  destruct (64 <=? 7 * (i - off)) eqn:E; bool_to_prop.
  { split; [naive_solver|]. intros [?|(?&?&?&?&?)]; lia. }
  destruct (b <? 128) eqn:Eb; bool_to_prop.
  { split; [|by eauto]. intros _. right. exists 0%nat, b. split_and!; [done|lia..]. }
  rewrite IH by lia. split; (intros [?|(j & b' & Hj & Hlt & Hb)]; [left; lia|right]).
  - exists (S j), b'. split_and!; [done|lia..].
  - destruct j as [|j]; [simplify_eq/=; lia|]. exists j, b'. split_and!; [done|lia..].
Qed.

Lemma decode_id_loop_offset {W} bs i off id id' off' (w w' : W) :
  decode_id_loop bs i off id w = Ret (id', off') w' →
  w' = w ∧ (off' = off ∨ i < off' ≤ i + Z.of_nat (length bs)).
Proof.
  revert i id. induction bs as [|b bs IH]; intros i id; simpl.
  { intros [= <- <- <-]. by auto. }
  repeat case_match; [done|intros [= <- <- <-]; split; [done|lia]|].
  intros [-> ?]%IH. split; [done|lia].
Qed.

Lemma error_mask_testbit flag :
  (Z.land flag kMessageErrorMask =? kMessageErrorMask) = Z.testbit flag 5.
Proof.
  unfold kMessageErrorMask. change 32 with (2 ^ 5).
  destruct (Z.testbit flag 5) eqn:E.
  - apply Z.eqb_eq. apply Z.bits_inj'. intros n Hn. rewrite Z.land_spec.
    rewrite Z.pow2_bits_eqb by lia. destruct (Z.eqb_spec 5 n) as [<-|];
      [by rewrite E|apply andb_false_r].
  - apply Z.eqb_neq. intros Heq. apply (f_equal (λ z, Z.testbit z 5)) in Heq.
    by rewrite Z.land_spec, E in Heq.
Qed.

Section deserialize_types.
Context {W : Type} `{Zlib, Allocator}.

(** A response is read back field by field: the id of the request it answers, the
    error bit of its flag, and everything after the id as its data. *)
Lemma Deserialize_response fuel flag id bs data codes (w : W) :
  Z.land (Z.shiftr flag 1) kMessageTypeMask = 2 → Z.land flag kMessageGzipMask = 0 →
  0 ≤ id < 2 ^ 64 → encode_id id w = Ret bs w →
  Message_Deserialize fuel (flag :: bs ++ data) codes w =
    Ret (Some {| msg_type := MT_Response; msg_id := id; msg_route := "";
                 msg_data := data; msg_error := Z.testbit flag 5 |}) w.
Proof.
  intros Hty Hgz Hid Ebs.
  destruct (encode_id_spec (W := W) id Hid) as (bs' & Ebs' & Hlen & _ & Hdec).
  rewrite Ebs' in Ebs. injection Ebs as ->.
  rewrite Deserialize_header by (rewrite ?Hty; destruct bs; simpl in *; [lia|done]). rewrite Hty. simpl.
  run (Hdec data 1 w). rewrite ret_bind.
  rewrite app_comm_cons.
  run (decode_body_plain fuel (flag :: bs) data flag (1 + Z.of_nat (length bs)) w Hgz
         ltac:(simpl length; lia)).
  unfold mret, M_ret. by rewrite fmap_Some_eq, error_mask_testbit.
Qed.

(** C37: reading an uncompressed response has a defined result exactly when the id ends
    within its first ten bytes or the message is too short to hold more: a longer run of
    continuation bytes shifts past the width of the id. *)
Theorem Deserialize_response_defined fuel flag rest codes (w : W) :
  Z.land (Z.shiftr flag 1) kMessageTypeMask = 2 → Z.land flag kMessageGzipMask = 0 →
  rest ≠ [] →
  (∃ r, Message_Deserialize fuel (flag :: rest) codes w = Ret r w) ↔
    (length rest ≤ 10)%nat ∨ ∃ j b, (j < 10)%nat ∧ rest !! j = Some b ∧ b < 128.
Proof.
  intros Hty Hgz Hne. rewrite Deserialize_header by (rewrite ?Hty; done). rewrite Hty. simpl.
  trans (∃ r, decode_id_loop rest 1 1 0 w = Ret r w).
  - split.
    + intros [r Hr]. apply bind_Ret_inv in Hr as ([id off] & w1 & E & _).
      by destruct (decode_id_loop_offset _ _ _ _ _ _ _ _ E) as [-> _]; eauto.
    + intros [[id off] E]. run E. rewrite ret_bind.
      destruct (decode_id_loop_offset _ _ _ _ _ _ _ _ E) as [_ Hoff].
      unfold decode_body. rewrite Hgz. simpl.
      rewrite bind_assoc.
      run (vec_range_ok (name := "buf") (flag :: rest) off (Z.of_nat (length (flag :: rest))) w
             ltac:(simpl length; lia) ltac:(done)).
      by eexists.
  - rewrite decode_id_loop_defined by lia.
    split; (intros [?|(j & b & ? & ? & ?)]; [left; lia|right; exists j, b; split_and!; [done||lia..]]).
Qed.

(** A Push whose route is a code. *)
Lemma Deserialize_push fuel flag hi lo data codes (w : W) :
  Z.land (Z.shiftr flag 1) kMessageTypeMask = 3 → Z.land flag kMessageGzipMask = 0 →
  Z.land flag kMessageRouteCompressionMask = 1 →
  Message_Deserialize fuel (flag :: hi :: lo :: data) codes w =
    Ret ((λ route, {| msg_type := MT_Push; msg_id := 0; msg_route := route; msg_data := data;
                      msg_error := Z.land flag kMessageErrorMask =? kMessageErrorMask |})
           <$> codes !! u8 (Z.lor (Z.shiftl hi 8) lo)) w.
Proof.
  intros Hty Hgz Hrc. rewrite Deserialize_header by (rewrite ?Hty; done). rewrite Hty. simpl.
  rewrite ret_bind. run (decode_route_routed [flag] hi lo data codes flag w Hrc).
  destruct (codes !! _) as [route|]; [|done]. cbn [fmap option_fmap option_map].
  by run (decode_body_plain fuel [flag; hi; lo] data flag 3 w Hgz eq_refl).
Qed.

(** A Push whose route is written in full. The text of the route is not what is
    read: the result has as many copies of the length byte as the first character says.
    The result is defined exactly when the length byte is followed by a byte and does not
    reach past the end of the message. *)
Lemma Deserialize_push_full_route fuel flag len rest codes (w : W) :
  Z.land (Z.shiftr flag 1) kMessageTypeMask = 3 → Z.land flag kMessageGzipMask = 0 →
  Z.land flag kMessageRouteCompressionMask = 0 → 0 ≤ len →
  Message_Deserialize fuel (flag :: len :: rest) codes w =
    match rest with
    | c :: _ =>
        if len <=? Z.of_nat (length rest) then
          Ret (Some {| msg_type := MT_Push; msg_id := 0; msg_route := string_fill c len;
                       msg_data := drop (Z.to_nat len) rest;
                       msg_error := Z.land flag kMessageErrorMask =? kMessageErrorMask |}) w
        else Crash (invalid_range "buf")
    | [] => Crash (index_out_of_range "buf")
    end.
Proof.
  intros Hty Hgz Hrc Hlen. rewrite Deserialize_header by (rewrite ?Hty; done). rewrite Hty. simpl.
  rewrite ret_bind. unfold decode_route. rewrite Hrc. simpl.
  rewrite bind_assoc.
  run (vec_at_middle (name := "buf") [flag] rest len 1 w eq_refl). rewrite bind_assoc.
  destruct rest as [|c rest].
  { by rewrite (bind_Crash _ _ _ _ (vec_at_out (name := "buf") [flag; len] 2 w ltac:(done))). }
  run (vec_at_middle (name := "buf") [flag; len] rest c 2 w eq_refl). rewrite ret_bind.
  unfold decode_body. rewrite Hgz. simpl. rewrite bind_assoc.
  destruct (len <=? _) eqn:E; bool_to_prop.
  - run (vec_range_ok (name := "buf") (flag :: len :: c :: rest) (2 + len)
           (Z.of_nat (length (flag :: len :: c :: rest))) w
           ltac:(simpl length in *; lia) ltac:(done)).
    rewrite ret_bind. unfold mret, M_ret. rewrite fmap_Some_eq. do 3 f_equal.
    replace (Z.to_nat (2 + len)) with (2 + Z.to_nat len)%nat by lia. simpl.
    apply take_ge. rewrite length_drop. simpl in *. lia.
  - by rewrite (bind_Crash _ _ _ _ (vec_range_out (name := "buf") (flag :: len :: c :: rest) (2 + len)
           (Z.of_nat (length (flag :: len :: c :: rest))) w ltac:(simpl length in *; lia))).
Qed.
End deserialize_types.

(** ** Effects *)

Section message_effects.
Context {W : Type} `{Zlib, Allocator}.

Lemma pure_SerializeInto m buf dict : pure_comp (Message_SerializeInto m buf dict : M W _).
Proof. unfold Message_SerializeInto, map_at, encode_id. pure_tac. Qed.

Lemma pure_decode_id_loop bs i off id : pure_comp (decode_id_loop bs i off id : M W _).
Proof.
  revert i id. induction bs as [|b bs IH]; intros i id; simpl; [apply pure_ret|].
  case_match; [apply pure_undefined|]. case_match; [apply pure_ret|apply IH].
Qed.

Lemma pure_Deserialize fuel buf codes : pure_comp (Message_Deserialize fuel buf codes : M W _).
Proof.
  unfold Message_Deserialize, decode_route, decode_body.
  repeat first [ apply pure_decode_id_loop | progress pure_tac ].
Qed.

Lemma no_throw_decode_id_loop bs i off id : no_throw (decode_id_loop bs i off id : M W _).
Proof.
  revert i id. induction bs as [|b bs IH]; intros i id; simpl; [apply no_throw_ret|].
  case_match; [apply no_throw_undefined|]. case_match; [apply no_throw_ret|apply IH].
Qed.

Lemma no_throw_Deserialize fuel buf codes : no_throw (Message_Deserialize fuel buf codes : M W _).
Proof.
  unfold Message_Deserialize, decode_route, decode_body.
  repeat first [ apply no_throw_decode_id_loop | progress no_throw_tac ].
Qed.
End message_effects.

#[export] Hint Resolve pure_SerializeInto pure_Deserialize : pure.
#[export] Hint Resolve no_throw_Deserialize : no_throw.
