(* ===== verification/Packet.v ===== *)
(** * Packets (include/pitaya/protocol/packet.h, src/protocol/packet.cpp)

    A packet is a type and a body; on the wire it is four bytes of header (the type and
    the length of the body in big endian on three bytes) and the body. *)

From S2P Require Import Prelude Outcome Message.

Definition kPacketHeaderSize : Z := 4.

Inductive PacketType := PT_Handshake | PT_HandshakeAck | PT_Heartbeat | PT_Data | PT_Kick.

#[global] Instance PacketType_eq_dec : EqDecision PacketType.
Proof. solve_decision. Defined.

(** [enum class RouteCompression]. *)
Inductive RouteCompression := RouteCompression_Yes | RouteCompression_No.

Definition PacketType_to_byte (t : PacketType) : Z :=
  match t with
  | PT_Handshake => 0x01
  | PT_HandshakeAck => 0x02
  | PT_Heartbeat => 0x03
  | PT_Data => 0x04
  | PT_Kick => 0x05
  end.

(** [static_cast<PacketType>(b)] for the values the guard of [PacketTypeFromByte] admits. *)
Definition PacketType_cast (b : Z) : PacketType :=
  if b =? 1 then PT_Handshake else if b =? 2 then PT_HandshakeAck
  else if b =? 3 then PT_Heartbeat else if b =? 4 then PT_Data else PT_Kick.

Definition PacketTypeFromByte (packetType : Z) : option PacketType :=
  if (PacketType_to_byte PT_Handshake <=? packetType)
     && (packetType <=? PacketType_to_byte PT_Kick) then Some (PacketType_cast packetType)
  else None.

(** [operator<<(std::ostream&, PacketType)]. *)
Definition PacketType_name (p : PacketType) : string :=
  match p with
  | PT_Handshake => "Handshake"
  | PT_HandshakeAck => "HandshakeAck"
  | PT_Heartbeat => "Heartbeat"
  | PT_Data => "Data"
  | PT_Kick => "Kick"
  end.

Record Packet := { pkt_type : PacketType; pkt_body : list Z }.

#[global] Instance Packet_eq_dec : EqDecision Packet.
Proof. solve_decision. Defined.

(** [Packet::Packet()]. *)
Definition Packet_default : Packet := {| pkt_type := PT_Handshake; pkt_body := [] |}.

Definition NewHandshake (json : string) : Packet :=
  {| pkt_type := PT_Handshake; pkt_body := bytes_of_string json |}.

(** The overloads that copy [length] bytes from a pointer: the caller passes the range. *)
Definition NewHandshake_bytes (data : list Z) : Packet :=
  {| pkt_type := PT_Handshake; pkt_body := data |}.

Definition NewHandshakeAck : Packet :=
  {| pkt_type := PT_HandshakeAck; pkt_body := pkt_body Packet_default |}.

Definition NewHeartbeat : Packet :=
  {| pkt_type := PT_Heartbeat; pkt_body := pkt_body Packet_default |}.

Definition NewData_message {W} (message : Message) (routeDict : gmap string Z) : M W Packet :=
  body ← Message_SerializeInto message (pkt_body Packet_default) routeDict;
  mret {| pkt_type := PT_Data; pkt_body := body |}.

Definition NewData_bytes (data : list Z) : Packet :=
  {| pkt_type := PT_Data; pkt_body := data |}.

Definition NewKick : Packet :=
  {| pkt_type := PT_Kick; pkt_body := pkt_body Packet_default |}.

(** [NewRequestMessage] only asserts: a client of the header cannot use it. *)
Definition NewRequestMessage {W} `{BuildMode} (msgId : Z) (codeOrRoute : string + Z)
    (data : list Z) : M W (list Z) :=
  cpp_assert "invalid function specialization" false ;; mret [].

(** ** Serialisation *)

Definition kFirstByteMask : Z := 0xff.
Definition FirstByte (val : Z) : Z := u8 (Z.land val kFirstByteMask).
Definition SecondByte (val : Z) : Z := u8 (Z.land (Z.shiftr val 8) kFirstByteMask).
Definition ThirdByte (val : Z) : Z := u8 (Z.land (Z.shiftr val 16) kFirstByteMask).

Definition Packet_SerializeInto (p : Packet) (buf : list Z) : list Z :=
  let size := u32 (Z.of_nat (length (pkt_body p))) in
  let buf := buf ++ [PacketType_to_byte (pkt_type p)] in
  let buf := buf ++ [ThirdByte size] in
  let buf := buf ++ [SecondByte size] in
  let buf := buf ++ [FirstByte size] in
  buf ++ pkt_body p.

(** The length the reader computes from the three bytes after the type. *)
Definition header_length (b1 b2 b3 : Z) : Z :=
  Z.lor (Z.lor (Z.shiftl b1 16) (Z.shiftl b2 8)) b3.

(** ** Properties *)

Lemma PacketType_to_byte_range t : 1 ≤ PacketType_to_byte t ≤ 5.
Proof. destruct t; simpl; lia. Qed.

Lemma PacketTypeFromByte_to_byte t : PacketTypeFromByte (PacketType_to_byte t) = Some t.
Proof. by destruct t. Qed.

(** [PacketTypeFromByte] is the exact inverse of the numbering of the enum: it accepts
    the bytes of the five types and no other value. *)
Lemma PacketTypeFromByte_spec b t :
  PacketTypeFromByte b = Some t ↔ b = PacketType_to_byte t.
Proof.
  split; [|intros ->; apply PacketTypeFromByte_to_byte].
  unfold PacketTypeFromByte, PacketType_cast. simpl.
  destruct (_ && _) eqn:E; [|done]. bool_to_prop. intros [= <-].
  repeat case_match; bool_to_prop; simpl; lia.
Qed.

Lemma land_ff z : Z.land z kFirstByteMask = z mod 256.
Proof. unfold kFirstByteMask. change 0xff with (Z.ones 8). by rewrite Z.land_ones by lia. Qed.

Lemma header_bytes n :
  FirstByte n = n mod 256 ∧ SecondByte n = n / 256 mod 256 ∧ ThirdByte n = n / 65536 mod 256.
Proof.
  unfold FirstByte, SecondByte, ThirdByte, u8. rewrite !land_ff, !Z.shiftr_div_pow2 by lia.
  change (2 ^ 8) with 256. change (2 ^ 16) with 65536. by rewrite !Z.mod_mod by lia.
Qed.

(** On bytes, the three disjoint shifts add up. *)
Lemma header_length_sum b1 b2 b3 :
  byte_wf b2 → byte_wf b3 → header_length b1 b2 b3 = b1 * 65536 + b2 * 256 + b3.
Proof.
  unfold byte_wf, header_length. intros H2 H3. rewrite !Z.shiftl_mul_pow2 by lia.
  rewrite lor_low by lia.
  replace (b1 * 2 ^ 16 + b2 * 2 ^ 8) with ((b1 * 2 ^ 8 + b2) * 2 ^ 8) by ring.
  rewrite lor_low by lia. lia.
Qed.

Lemma header_length_nonneg b1 b2 b3 :
  byte_wf b1 → byte_wf b2 → byte_wf b3 → 0 ≤ header_length b1 b2 b3 < 2 ^ 24.
Proof. intros. rewrite header_length_sum by done. unfold byte_wf in *. lia. Qed.

(** The header of a packet, as a list. *)
Definition header (p : Packet) : list Z :=
  let size := u32 (Z.of_nat (length (pkt_body p))) in
  [PacketType_to_byte (pkt_type p); ThirdByte size; SecondByte size; FirstByte size].

Lemma Packet_SerializeInto_eq p buf : Packet_SerializeInto p buf = buf ++ header p ++ pkt_body p.
Proof. unfold Packet_SerializeInto. by rewrite <- !app_assoc. Qed.

Lemma header_wf p : bytes_wf (header p).
Proof.
  unfold header, FirstByte, SecondByte, ThirdByte.
  repeat apply Forall_cons_2; auto with bytes.
  pose proof (PacketType_to_byte_range (pkt_type p)). unfold byte_wf. lia.
Qed.

Lemma Packet_SerializeInto_wf p buf :
  bytes_wf buf → bytes_wf (pkt_body p) → bytes_wf (Packet_SerializeInto p buf).
Proof. intros. rewrite Packet_SerializeInto_eq. auto using header_wf with bytes. Qed.

(** What a reader computes from the header: the length modulo 2^24. *)
Lemma header_length_mod p :
  let size := u32 (Z.of_nat (length (pkt_body p))) in
  header_length (ThirdByte size) (SecondByte size) (FirstByte size) =
    Z.of_nat (length (pkt_body p)) mod 2 ^ 24.
Proof.
  cbv zeta. set (n := u32 (Z.of_nat (length (pkt_body p)))).
  destruct (header_bytes n) as (-> & -> & ->).
  rewrite header_length_sum by (apply Z.mod_pos_bound; lia).
  subst n. set (l := Z.of_nat (length (pkt_body p))).
  assert (l mod 2 ^ 24 = u32 l mod 2 ^ 24) as ->.
  { unfold u32. rewrite Z.mod_mod_divide; [done|]. by exists (2 ^ 8). }
  generalize (u32 l). intros n. change (2 ^ 24) with (256 * (256 * 256)).
  rewrite !Z.rem_mul_r, Z.div_div by lia.
  change (256 * 256) with 65536. lia.
Qed.

Lemma header_length_header p b0 b1 b2 b3 :
  header p = [b0; b1; b2; b3] → Z.of_nat (length (pkt_body p)) < 2 ^ 24 →
  header_length b1 b2 b3 = Z.of_nat (length (pkt_body p)).
Proof.
  intros [= _ <- <- <-] Hlen. rewrite header_length_mod. apply Z.mod_small. lia.
Qed.

(** C33: serialisation writes the four bytes of the header and then the body, untouched,
    after what the buffer already holds; a reader that decodes the header finds the type and
    the length of the body modulo 2{^24}: the length is exact for bodies shorter than 16 MiB
    and wraps around above. *)
Theorem Packet_SerializeInto_spec p buf :
  ∃ b0 b1 b2 b3,
    Packet_SerializeInto p buf = buf ++ [b0; b1; b2; b3] ++ pkt_body p ∧
    bytes_wf [b0; b1; b2; b3] ∧
    PacketTypeFromByte b0 = Some (pkt_type p) ∧
    header_length b1 b2 b3 = Z.of_nat (length (pkt_body p)) mod 2 ^ 24.
Proof.
  do 4 eexists. split; [apply Packet_SerializeInto_eq|]. split; [apply header_wf|].
  split; [apply PacketTypeFromByte_to_byte|apply header_length_mod].
Qed.

Lemma pure_NewData {W} msg dict : pure_comp (NewData_message msg dict : M W Packet).
Proof. unfold NewData_message. pure_tac. Qed.

#[export] Hint Resolve pure_NewData : pure.

Lemma runs_NewData {W} (I : W → Prop) F msg dict : runs I F (NewData_message msg dict : M W Packet).
Proof.
  apply runs_bind; [|intros; apply runs_ret]. unfold Message_SerializeInto.
  apply runs_bind; [unfold map_at; case_match; [apply runs_ret|apply runs_throw]|]. intros code.
  apply runs_bind; [|intros; apply runs_ret]. case_match; [|apply runs_ret].
  apply runs_bind; [|intros; apply runs_ret]. intros w Hw.
  destruct (encode_id_spec (W := W) _ (u64_range (msg_id msg))) as (bs & E & _). by rewrite E.
Qed.

Lemma NewData_Throw {W} msg dict (w w' : W) e :
  NewData_message msg dict w = Throw e w' → e = StdOutOfRange ∧ dict !! msg_route msg = None.
Proof.
  destruct (dict !! msg_route msg) as [code|] eqn:Hcode.
  - intros E. exfalso. revert E. apply no_throw_bind; [|intros; apply no_throw_ret].
    unfold Message_SerializeInto, map_at. rewrite Hcode.
    apply no_throw_bind; [apply no_throw_ret|intros ?]. apply no_throw_bind; [|intros; apply no_throw_ret].
    case_match; [|apply no_throw_ret]. apply no_throw_bind; [|intros; apply no_throw_ret].
    unfold encode_id. case_match; [apply no_throw_ret|apply no_throw_crash].
  - unfold NewData_message, Message_SerializeInto, map_at. rewrite Hcode. by intros [= <- _].
Qed.
