(* ===== verification/ReadBuffer.v ===== *)
(** * The packet stream's state and its packet parser
    (src/connection/tcp_packet_stream.h and .cpp: the fields of the class,
    [ParsePacketsFromReadBuffer])

    [readBufferHead] is the first position of [readBuffer] that holds no valid byte.
    The parser cuts the valid bytes into packets, moves what is left of an incomplete
    packet to the front of the buffer and updates the head. The second half of the file
    refines it to the wire format: the packets it returns are the ones whose
    serialisations the buffer starts with. *)

From S2P Require Import Prelude Outcome Message Packet.

Record TcpPacketStream := {
  packetSendQueue : list Packet;
  writeBuffers : gmap Z (list Z);
  writeId : Z;
  readBufferMaxSize : Z;
  readBufferHead : Z;
  readBuffer : list Z;
  incompletePacketBuffer : list Z;
}.

Definition set_packetSendQueue (q : list Packet) (s : TcpPacketStream) : TcpPacketStream :=
  {| packetSendQueue := q; writeBuffers := writeBuffers s; writeId := writeId s;
     readBufferMaxSize := readBufferMaxSize s; readBufferHead := readBufferHead s;
     readBuffer := readBuffer s; incompletePacketBuffer := incompletePacketBuffer s |}.

Definition set_writeBuffers (b : gmap Z (list Z)) (id : Z) (s : TcpPacketStream) : TcpPacketStream :=
  {| packetSendQueue := packetSendQueue s; writeBuffers := b; writeId := id;
     readBufferMaxSize := readBufferMaxSize s; readBufferHead := readBufferHead s;
     readBuffer := readBuffer s; incompletePacketBuffer := incompletePacketBuffer s |}.

Definition set_readBuffer (head : Z) (b : list Z) (s : TcpPacketStream) : TcpPacketStream :=
  {| packetSendQueue := packetSendQueue s; writeBuffers := writeBuffers s; writeId := writeId s;
     readBufferMaxSize := readBufferMaxSize s; readBufferHead := head;
     readBuffer := b; incompletePacketBuffer := incompletePacketBuffer s |}.

(** The constructor: an empty queue and a zeroed buffer of the maximal size. *)
Definition TcpPacketStream_new (maxSize : Z) : TcpPacketStream :=
  {| packetSendQueue := []; writeBuffers := ∅; writeId := 0;
     readBufferMaxSize := maxSize; readBufferHead := 0;
     readBuffer := replicate (Z.to_nat maxSize) 0; incompletePacketBuffer := [] |}.

(** [_readBuffer.size()]. *)
Definition readBufferSize (s : TcpPacketStream) : Z := Z.of_nat (length (readBuffer s)).

(** ** ParsePacketsFromReadBuffer *)

Section parse.
Context `{BuildMode}.

(** Both early returns of the loop. *)
Definition keep_rest (packetStartOffset sizeLeft : Z) (packets : list Packet)
    : M TcpPacketStream (list Packet) :=
  modify (λ s, set_readBuffer sizeLeft
                 (std_rotate (Z.to_nat packetStartOffset) (readBuffer s)) s) ;;
  mret packets.

(** The [for (;;)] loop; [bufferSize] is the head on entry. A loop that has not
    returned within the fuel is a crash. *)
Fixpoint parse_loop (fuel : nat) (bufferSize packetStartOffset : Z) (packets : list Packet)
    : M TcpPacketStream (list Packet) :=
  match fuel with
  | O => crash FuelExhausted
  | S fuel =>
    let sizeLeft := u64 (bufferSize - packetStartOffset) in
    if sizeLeft <? kPacketHeaderSize then keep_rest packetStartOffset sizeLeft packets
    else
      s ← get;
      cpp_assert "packetStartOffset < _readBuffer.size()" (packetStartOffset <? readBufferSize s) ;;
      b0 ← vec_at "_readBuffer" (readBuffer s) packetStartOffset;
      match PacketTypeFromByte b0 with
      | None => throw (PitayaException "Received an invalid packet type from the server.")
      | Some packetType =>
        b1 ← vec_at "_readBuffer" (readBuffer s) (packetStartOffset + 1);
        b2 ← vec_at "_readBuffer" (readBuffer s) (packetStartOffset + 2);
        b3 ← vec_at "_readBuffer" (readBuffer s) (packetStartOffset + 3);
        let length := header_length b1 b2 b3 in
        if sizeLeft <? kPacketHeaderSize + length then
          keep_rest packetStartOffset sizeLeft packets
        else
          let dataStart := packetStartOffset + kPacketHeaderSize in
          match packetType with
          | PT_Handshake =>
              data ← vec_range "_readBuffer" (readBuffer s) dataStart (dataStart + length);
              parse_loop fuel bufferSize (packetStartOffset + (kPacketHeaderSize + length))
                (packets ++ [NewHandshake_bytes data])
          | PT_Heartbeat =>
              cpp_assert "length == 0" (length =? 0) ;;
              parse_loop fuel bufferSize (packetStartOffset + kPacketHeaderSize)
                (packets ++ [NewHeartbeat])
          | PT_Data =>
              data ← vec_range "_readBuffer" (readBuffer s) dataStart (dataStart + length);
              parse_loop fuel bufferSize (packetStartOffset + (kPacketHeaderSize + length))
                (packets ++ [NewData_bytes data])
          | PT_Kick =>
              cpp_assert "length == 0" (length =? 0) ;;
              parse_loop fuel bufferSize (packetStartOffset + kPacketHeaderSize)
                (packets ++ [NewKick])
          | PT_HandshakeAck =>
              cpp_assert "Unexpected packet type from server" false ;;
              parse_loop fuel bufferSize packetStartOffset packets
          end
      end
  end.

(** Every iteration that goes on consumes at least a header, so that one more than the
    number of headers that fit is enough fuel when the loop ends at all. *)
Definition parse_fuel (bufferSize : Z) : nat := S (Z.to_nat (bufferSize / kPacketHeaderSize)).

Definition ParsePacketsFromReadBuffer : M TcpPacketStream (list Packet) :=
  s ← get;
  parse_loop (parse_fuel (readBufferHead s)) (readBufferHead s) 0 [].
End parse.

(** ** The wire format *)

(** What the stream can hand to the connection: the bodies of Heartbeat and Kick are
    dropped by the parser, so the server must not send any. *)
Definition receivable (p : Packet) : Prop :=
  bytes_wf (pkt_body p) ∧ Z.of_nat (length (pkt_body p)) < 2 ^ 24 ∧
  match pkt_type p with
  | PT_Handshake | PT_Data => True
  | PT_Heartbeat | PT_Kick => pkt_body p = []
  | PT_HandshakeAck => False
  end.

(** A packet on the wire, and a sequence of packets. *)
Definition frame (p : Packet) : list Z := Packet_SerializeInto p [].
Definition frames (ps : list Packet) : list Z := ps ≫= frame.

(** [incomplete rest]: no packet can be cut from [rest] yet. *)
Definition incomplete (rest : list Z) : Prop :=
  match rest with
  | b0 :: b1 :: b2 :: b3 :: body =>
      is_Some (PacketTypeFromByte b0) ∧ Z.of_nat (length body) < header_length b1 b2 b3
  | _ => True
  end.

Lemma frame_eq p : frame p = header p ++ pkt_body p.
Proof. unfold frame. by rewrite Packet_SerializeInto_eq. Qed.

Lemma length_frame p : length (frame p) = (4 + length (pkt_body p))%nat.
Proof. rewrite frame_eq, length_app. done. Qed.

Lemma frames_cons p ps : frames (p :: ps) = frame p ++ frames ps.
Proof. done. Qed.

Lemma frames_app ps qs : frames (ps ++ qs) = frames ps ++ frames qs.
Proof. unfold frames. by rewrite bind_app. Qed.

(** The valid bytes of the buffer. *)
Definition valid_bytes (s : TcpPacketStream) : list Z :=
  take (Z.to_nat (readBufferHead s)) (readBuffer s).

(** The invariant of the read side: the head is inside the buffer, whose size never
    changes and which holds bytes. *)
Record buffer_wf (s : TcpPacketStream) : Prop := {
  buffer_head : 0 ≤ readBufferHead s ≤ readBufferSize s;
  buffer_size : readBufferSize s = readBufferMaxSize s;
  buffer_small : readBufferMaxSize s < 2 ^ 32;
  buffer_bytes : bytes_wf (readBuffer s);
}.

Lemma buffer_split s pre rest :
  0 ≤ readBufferHead s ≤ readBufferSize s → valid_bytes s = pre ++ rest →
  readBufferHead s = Z.of_nat (length pre) + Z.of_nat (length rest) ∧
  ∃ tail, readBuffer s = pre ++ rest ++ tail.
Proof.
  unfold valid_bytes, readBufferSize. intros Hhead Hvalid. split.
  - apply (f_equal length) in Hvalid. rewrite length_take, length_app in Hvalid. lia.
  - exists (drop (Z.to_nat (readBufferHead s)) (readBuffer s)).
    by rewrite app_assoc, <- Hvalid, take_drop.
Qed.

Section parse_facts.
Context `{BuildMode}.

(** The state in which the loop leaves the stream when [n] bytes are left at [off]. *)
Definition kept (off n : Z) (s : TcpPacketStream) : TcpPacketStream :=
  set_readBuffer n (std_rotate (Z.to_nat off) (readBuffer s)) s.

(** The body of the loop on a complete header, in the two ways it can go on. *)
Definition parse_body (fuel : nat) (bufferSize off : Z) (packets : list Packet)
    (t : PacketType) (len : Z) (data : list Z) : M TcpPacketStream (list Packet) :=
  match t with
  | PT_Handshake =>
      parse_loop fuel bufferSize (off + (4 + len)) (packets ++ [NewHandshake_bytes data])
  | PT_Heartbeat =>
      cpp_assert "length == 0" (len =? 0) ;;
      parse_loop fuel bufferSize (off + 4) (packets ++ [NewHeartbeat])
  | PT_Data =>
      parse_loop fuel bufferSize (off + (4 + len)) (packets ++ [NewData_bytes data])
  | PT_Kick =>
      cpp_assert "length == 0" (len =? 0) ;;
      parse_loop fuel bufferSize (off + 4) (packets ++ [NewKick])
  | PT_HandshakeAck =>
      cpp_assert "Unexpected packet type from server" false ;;
      parse_loop fuel bufferSize off packets
  end.

(** One iteration, described on the bytes [pre ++ rest] that are valid: too few bytes
    for a header; an unknown type; a body that is not all there; a whole packet. *)
Lemma parse_loop_step fuel s pre rest packets :
  buffer_wf s → valid_bytes s = pre ++ rest →
  let off := Z.of_nat (length pre) in
  parse_loop (S fuel) (readBufferHead s) off packets s =
    match rest with
    | b0 :: b1 :: b2 :: b3 :: body =>
        match PacketTypeFromByte b0 with
        | None => Throw (PitayaException "Received an invalid packet type from the server.") s
        | Some t =>
            let len := header_length b1 b2 b3 in
            if Z.of_nat (length body) <? len then
              Ret packets (kept off (Z.of_nat (length rest)) s)
            else parse_body fuel (readBufferHead s) off packets t len (take (Z.to_nat len) body) s
        end
    | _ => Ret packets (kept off (Z.of_nat (length rest)) s)
    end.
Proof.
  intros [Hhead Hsize Hsmall Hwf] Hvalid off.
  destruct (buffer_split s pre rest Hhead Hvalid) as (Hh & tail & Hb). fold off in Hh.
  assert (bytes_wf rest) as Hrest.
  { rewrite Hb in Hwf. by apply Forall_app in Hwf as [_ [? _]%Forall_app]. }
  assert (∀ k, 0 ≤ k → vec_at "_readBuffer" (readBuffer s) (off + k) s = vec_at "_readBuffer" (rest ++ tail) k s) as Hread.
  { intros k Hk. rewrite Hb. by apply vec_at_app_r. }
  assert (readBufferSize s < 2 ^ 32) as Hlt by lia.
  assert (off + Z.of_nat (length rest) ≤ readBufferSize s) as Hfit by lia.
  simpl parse_loop. rewrite Hh, Z.add_simpl_l, u64_small by lia. unfold kPacketHeaderSize.
  destruct rest as [|b0 [|b1 [|b2 [|b3 body]]]]; try done.
  set (n := Z.of_nat (length (b0 :: b1 :: b2 :: b3 :: body))) in *.
  assert (n = 4 + Z.of_nat (length body)) as Hn by (unfold n; simpl length; lia).
  rewrite (proj2 (Z.ltb_ge n 4)) by lia.
  run (eq_refl : get s = Ret s s).
  run (cpp_assert_true "packetStartOffset < _readBuffer.size()" (off <? readBufferSize s) s
         ltac:(apply Z.ltb_lt; lia)).
  rewrite <- (Z.add_0_r off) at 1. run (Hread 0 ltac:(done)).
  destruct (PacketTypeFromByte b0) as [t|]; [|done].
  run (Hread 1 ltac:(done)). run (Hread 2 ltac:(done)). run (Hread 3 ltac:(done)).
  set (len := header_length b1 b2 b3).
  assert (0 ≤ len) as Hlen.
  { apply Forall_cons in Hrest as [_ [? [? [? _]%Forall_cons]%Forall_cons]%Forall_cons].
    by apply header_length_nonneg. }
  assert ((n <? 4 + len) = (Z.of_nat (length body) <? len)) as ->.
  { destruct (Z.ltb_spec (Z.of_nat (length body)) len); [apply Z.ltb_lt|apply Z.ltb_ge]; lia. }
  destruct (_ <? len) eqn:E; bool_to_prop; [done|].
  rewrite <- (take_drop (Z.to_nat len) body) in Hb.
  assert (vec_range "_readBuffer" (readBuffer s) (off + 4) (off + 4 + len) s
          = Ret (take (Z.to_nat len) body) s) as Hdata.
  { rewrite Hb. change (b0 :: b1 :: b2 :: b3 :: ?l) with ([b0; b1; b2; b3] ++ l).
    rewrite <- !app_assoc, (app_assoc pre). apply vec_range_middle.
    - rewrite length_app. subst off. simpl. lia.
    - rewrite length_take. lia. }
  destruct t; unfold parse_body; simpl; by first [run Hdata | done].
Qed.

(** The state after the loop: the bytes left are at the front, nothing else moved. *)
Lemma kept_wf s pre rest :
  buffer_wf s → valid_bytes s = pre ++ rest →
  let s' := kept (Z.of_nat (length pre)) (Z.of_nat (length rest)) s in
  buffer_wf s' ∧ valid_bytes s' = rest.
Proof.
  intros [Hhead Hsize Hsmall Hwf] Hvalid s'.
  destruct (buffer_split s pre rest Hhead Hvalid) as (Hh & tail & Hb).
  split.
  - unfold s', kept. split; unfold readBufferSize in *; simpl;
      rewrite ?length_std_rotate; auto with bytes. lia.
  - unfold s', kept, valid_bytes. simpl. rewrite !Nat2Z.id, Hb, take_std_rotate.
    + by rewrite drop_app_length, take_app_length.
    + rewrite !length_app. lia.
Qed.

Lemma incomplete_step fuel s pre rest packets :
  buffer_wf s → valid_bytes s = pre ++ rest → incomplete rest →
  parse_loop (S fuel) (readBufferHead s) (Z.of_nat (length pre)) packets s =
    Ret packets (kept (Z.of_nat (length pre)) (Z.of_nat (length rest)) s).
Proof.
  intros Hwf Hvalid Hinc. rewrite (parse_loop_step _ _ pre rest) by done.
  destruct rest as [|b0 [|b1 [|b2 [|b3 body]]]]; try done.
  destruct Hinc as [[t ->] Hlen]. simpl. by decide_ltb.
Qed.

Lemma frame_step fuel s pre p rest packets :
  buffer_wf s → valid_bytes s = pre ++ frame p ++ rest → receivable p →
  parse_loop (S fuel) (readBufferHead s) (Z.of_nat (length pre)) packets s =
    parse_loop fuel (readBufferHead s) (Z.of_nat (length (pre ++ frame p))) (packets ++ [p]) s.
Proof.
  intros Hwf Hvalid (Hbytes & Hshort & Hty).
  rewrite (parse_loop_step _ _ pre (frame p ++ rest)) by done.
  rewrite frame_eq, <- app_assoc.
  pose proof (header_length_header p _ _ _ _ eq_refl Hshort) as Hlen.
  unfold header at 1. cbn [app]. rewrite PacketTypeFromByte_to_byte, Hlen. cbv zeta.
  rewrite (proj2 (Z.ltb_ge _ _)) by (rewrite length_app; lia).
  rewrite Nat2Z.id, take_app_length. unfold parse_body.
  destruct p as [[] body]; simpl in *; try done; subst.
  all: unfold NewHandshake_bytes, NewData_bytes, NewHeartbeat, NewKick; simpl.
  all: try run (cpp_assert_true "length == 0" true s eq_refl).
  all: f_equal; rewrite length_app; simpl; lia.
Qed.

Lemma parse_loop_frames fuel s pre ps rest packets :
  buffer_wf s → valid_bytes s = pre ++ frames ps ++ rest →
  Forall receivable ps → incomplete rest → (length ps < fuel)%nat →
  parse_loop fuel (readBufferHead s) (Z.of_nat (length pre)) packets s =
    Ret (packets ++ ps) (kept (Z.of_nat (length (pre ++ frames ps))) (Z.of_nat (length rest)) s).
Proof.
  intros Hwf Hvalid Hps Hinc. revert fuel pre packets Hvalid.
  induction Hps as [|p ps Hp Hps IH]; intros [|fuel] pre packets Hvalid Hfuel; simpl in Hfuel; try lia.
  - rewrite (incomplete_step _ _ pre rest) by done. by rewrite !app_nil_r.
  - rewrite frames_cons, <- app_assoc in Hvalid.
    rewrite (frame_step _ _ pre p (frames ps ++ rest)) by done.
    rewrite IH by (rewrite <- ?app_assoc; done || lia).
    by rewrite frames_cons, <- !app_assoc.
Qed.

Lemma length_frames ps : (4 * length ps ≤ length (frames ps))%nat.
Proof.
  induction ps as [|p ps IH]; [done|]. rewrite frames_cons, length_app, length_frame. simpl. lia.
Qed.

(** The parser inverts the wire format: packets followed by an incomplete one are returned,
    and the incomplete bytes are left at the front; nothing else of the stream changes. *)
Lemma parse_frames s ps rest :
  buffer_wf s → valid_bytes s = frames ps ++ rest → Forall receivable ps → incomplete rest →
  ∃ s', ParsePacketsFromReadBuffer s = Ret ps s' ∧
    buffer_wf s' ∧ valid_bytes s' = rest ∧ readBufferHead s' = Z.of_nat (length rest) ∧
    packetSendQueue s' = packetSendQueue s ∧ writeBuffers s' = writeBuffers s ∧
    writeId s' = writeId s.
Proof.
  intros Hwf Hvalid Hps Hinc. unfold ParsePacketsFromReadBuffer.
  destruct (buffer_split s (frames ps) rest (buffer_head s Hwf) Hvalid) as (Hh & _).
  run (eq_refl : get s = Ret s s).
  rewrite (parse_loop_frames _ s [] ps rest []) by (try done; unfold parse_fuel, kPacketHeaderSize;
    pose proof (length_frames ps); pose proof (Z.div_le_lower_bound (readBufferHead s) 4 (Z.of_nat (length ps))); lia).
  eexists. split; [done|]. destruct (kept_wf s (frames ps) rest Hwf Hvalid) as [Hwf' Hv'].
  by split_and!.
Qed.

(** Packets in front of anything: the loop reaches what follows them with them parsed. *)
Lemma frames_prefix fuel s pre ps rest packets :
  buffer_wf s → valid_bytes s = pre ++ frames ps ++ rest → Forall receivable ps →
  parse_loop (length ps + fuel) (readBufferHead s) (Z.of_nat (length pre)) packets s =
    parse_loop fuel (readBufferHead s) (Z.of_nat (length (pre ++ frames ps))) (packets ++ ps) s.
Proof.
  intros Hwf Hvalid Hps. revert pre packets Hvalid.
  induction Hps as [|p ps Hp Hps IH]; intros pre packets Hvalid.
  - by rewrite !app_nil_r.
  - rewrite frames_cons, <- app_assoc in Hvalid. simpl plus.
    rewrite (frame_step _ _ pre p (frames ps ++ rest)) by done.
    rewrite IH by (by rewrite <- ?app_assoc). by rewrite frames_cons, <- !app_assoc.
Qed.

Lemma parse_after_frames s ps rest :
  buffer_wf s → valid_bytes s = frames ps ++ rest → Forall receivable ps → (4 ≤ length rest)%nat →
  ∃ fuel, ParsePacketsFromReadBuffer s =
    parse_loop (S fuel) (readBufferHead s) (Z.of_nat (length (frames ps))) ps s.
Proof.
  intros Hwf Hvalid Hps Hrest. exists (parse_fuel (readBufferHead s) - S (length ps))%nat.
  unfold ParsePacketsFromReadBuffer. run (eq_refl : get s = Ret s s).
  destruct (buffer_split s (frames ps) _ (buffer_head s Hwf) Hvalid) as (Hh & _).
  pose proof (length_frames ps) as Hl.
  assert (parse_fuel (readBufferHead s) = (length ps + S (parse_fuel (readBufferHead s) - S (length ps)))%nat) as ->.
  { unfold parse_fuel, kPacketHeaderSize.
    pose proof (Z.div_le_lower_bound (readBufferHead s) 4 (Z.of_nat (length ps) + 1)). lia. }
  change 0 with (Z.of_nat (length (@nil Z))).
  rewrite (frames_prefix _ s [] ps rest) by done. f_equal. lia.
Qed.

(** A complete packet the client does not expect. *)
Lemma ack_step fuel s pre p rest packets :
  buffer_wf s → valid_bytes s = pre ++ frame p ++ rest → pkt_type p = PT_HandshakeAck →
  Z.of_nat (length (pkt_body p)) < 2 ^ 24 →
  parse_loop (S fuel) (readBufferHead s) (Z.of_nat (length pre)) packets s =
    if ndebug then parse_loop fuel (readBufferHead s) (Z.of_nat (length pre)) packets s
    else Crash (AssertFailed "Unexpected packet type from server").
Proof.
  intros Hwf Hvalid Hty Hshort. rewrite (parse_loop_step _ _ pre (frame p ++ rest)) by done.
  rewrite frame_eq, <- app_assoc. pose proof (header_length_header p _ _ _ _ eq_refl Hshort) as Hlen.
  unfold header at 1. cbn [app]. rewrite PacketTypeFromByte_to_byte, Hlen. cbv zeta.
  rewrite (proj2 (Z.ltb_ge _ _)) by (rewrite length_app; lia).
  rewrite Hty. unfold parse_body, mbind, M_bind. rewrite cpp_assert_false.
  by destruct ndebug.
Qed.

(** C36: a HandshakeAck from the server, after any packets. A build with assertions aborts;
    in a Release build the loop consumes nothing and never ends: no amount of fuel is
    enough. *)
Theorem ParsePackets_HandshakeAck s ps p rest :
  buffer_wf s → valid_bytes s = frames ps ++ frame p ++ rest → Forall receivable ps →
  pkt_type p = PT_HandshakeAck → Z.of_nat (length (pkt_body p)) < 2 ^ 24 →
  if ndebug then ∀ fuel, parse_loop fuel (readBufferHead s) 0 [] s = Crash FuelExhausted
  else ParsePacketsFromReadBuffer s = Crash (AssertFailed "Unexpected packet type from server").
Proof.
  intros Hwf Hvalid Hps Hty Hshort.
  assert (∀ fuel packets, ndebug = true →
    parse_loop fuel (readBufferHead s) (Z.of_nat (length (frames ps))) packets s
      = Crash FuelExhausted) as Hloop.
  { intros fuel packets Hnd. induction fuel as [|fuel IH]; [done|].
    by rewrite (ack_step _ _ _ p rest), Hnd by done. }
  destruct ndebug eqn:Hnd.
  - intros fuel. destruct (decide (fuel ≤ length ps)%nat) as [Hle|].
    + clear Hloop. revert fuel Hle. change 0 with (Z.of_nat (length (@nil Z))).
      generalize (@nil Packet). change (valid_bytes s = [] ++ frames ps ++ frame p ++ rest) in Hvalid.
      revert Hvalid. generalize (@nil Z). induction Hps as [|q qs Hq Hqs IH].
      * intros pre _ packets [|fuel] ?; [done|simpl in *; lia].
      * intros pre Hvalid packets [|fuel] Hle; [done|]. rewrite frames_cons, <- app_assoc in Hvalid.
        rewrite (frame_step _ _ pre q (frames qs ++ frame p ++ rest)) by done.
        apply IH; [by rewrite <- app_assoc|simpl in *; lia].
    + replace fuel with (length ps + (fuel - length ps))%nat by lia.
      change 0 with (Z.of_nat (length (@nil Z))).
      rewrite (frames_prefix _ s [] ps (frame p ++ rest)) by done. by apply Hloop.
  - destruct (parse_after_frames s ps (frame p ++ rest)) as [fuel ->]; [done..| |].
    { rewrite length_app, length_frame. lia. }
    rewrite (ack_step _ _ _ p rest) by done. by rewrite Hnd.
Qed.

(** a byte that is no packet type, after any packets. The parser throws and leaves the
    stream as it was: the packets in front are not delivered, and the same bytes are still
    the valid bytes of the buffer for the next call. *)
Lemma ParsePackets_invalid_type s ps b0 b1 b2 b3 rest :
  buffer_wf s → valid_bytes s = frames ps ++ b0 :: b1 :: b2 :: b3 :: rest →
  Forall receivable ps → PacketTypeFromByte b0 = None →
  ParsePacketsFromReadBuffer s =
    Throw (PitayaException "Received an invalid packet type from the server.") s.
Proof.
  intros Hwf Hvalid Hps Hb0.
  destruct (parse_after_frames s ps (b0 :: b1 :: b2 :: b3 :: rest)) as [fuel ->];
    [done..|simpl; lia|].
  by rewrite (parse_loop_step _ _ _ (b0 :: b1 :: b2 :: b3 :: rest)), Hb0 by done.
Qed.

(** The outcomes of the loop on any valid bytes, with enough fuel. *)
Definition parse_outcome (s : TcpPacketStream) (again : nat → outcome TcpPacketStream (list Packet))
    (o : outcome TcpPacketStream (list Packet)) : Prop :=
  match o with
  | Ret ps s' =>
      buffer_wf s' ∧ readBufferHead s' ≤ readBufferHead s ∧
      ∃ b, s' = set_readBuffer (readBufferHead s') b s
  | Throw e s' => s' = s ∧ e = PitayaException "Received an invalid packet type from the server."
  | Crash (AssertFailed what) =>
      ndebug = false ∧ (what = "length == 0" ∨ what = "Unexpected packet type from server")
  | Crash FuelExhausted => ndebug = true ∧ ∀ fuel, again fuel = Crash FuelExhausted
  | Crash _ => False
  end.

(** What holds one iteration later holds now. *)
Lemma parse_outcome_later s again again' o :
  again 0%nat = Crash FuelExhausted → (∀ fuel, again (S fuel) = again' fuel) →
  parse_outcome s again' o → parse_outcome s again o.
Proof.
  intros H0 Hlater. destruct o as [| |[]]; simpl; try done.
  intros [? Hagain]. split; [done|]. intros [|fuel]; [done|]. by rewrite Hlater.
Qed.

Lemma header_length_valid s pre b0 b1 b2 b3 body :
  buffer_wf s → valid_bytes s = pre ++ b0 :: b1 :: b2 :: b3 :: body → 0 ≤ header_length b1 b2 b3.
Proof.
  intros Hwf Hvalid. destruct (buffer_split s pre _ (buffer_head s Hwf) Hvalid) as (_ & tail & Hb).
  pose proof (buffer_bytes s Hwf) as Hbytes. rewrite Hb in Hbytes.
  apply Forall_app in Hbytes as [_ [Hbytes _]%Forall_app].
  apply Forall_cons in Hbytes as [_ [? [? [? _]%Forall_cons]%Forall_cons]%Forall_cons].
  by apply header_length_nonneg.
Qed.

(** On a HandshakeAck the loop stays where it is. *)
Lemma ack_outcome fuel s off packets (again : nat → outcome TcpPacketStream (list Packet)) :
  again 0%nat = Crash FuelExhausted →
  (∀ n, again (S n) = parse_body n (readBufferHead s) off packets PT_HandshakeAck 0 [] s) →
  (∀ n, again n = parse_loop n (readBufferHead s) off packets s) →
  parse_outcome s again (again (S fuel)).
Proof.
  intros H0 HS Hagain.
  assert (∀ n, again (S n) = if ndebug then again n
    else Crash (AssertFailed "Unexpected packet type from server")) as Hack.
  { intros n. rewrite HS, Hagain. unfold parse_body, mbind, M_bind. rewrite cpp_assert_false.
    by destruct ndebug. }
  rewrite Hack. destruct ndebug eqn:Hnd; [|by split; [|right]].
  assert (∀ n, again n = Crash FuelExhausted) as Hall.
  { induction n as [|n IHn]; [done|]. by rewrite Hack. }
  rewrite Hall. by split.
Qed.

Lemma parse_loop_outcome fuel s pre rest packets :
  buffer_wf s → valid_bytes s = pre ++ rest → (length rest < 4 * fuel)%nat →
  parse_outcome s (λ fuel, parse_loop fuel (readBufferHead s) (Z.of_nat (length pre)) packets s)
    (parse_loop fuel (readBufferHead s) (Z.of_nat (length pre)) packets s).
Proof.
  intros Hwf. revert pre rest packets.
  induction fuel as [|fuel IH]; intros pre rest packets Hvalid Hfuel; [lia|].
  set (again := λ fuel, parse_loop fuel (readBufferHead s) (Z.of_nat (length pre)) packets s).
  assert (parse_outcome s again
    (Ret packets (kept (Z.of_nat (length pre)) (Z.of_nat (length rest)) s))) as Hkept.
  { destruct (kept_wf s pre rest Hwf Hvalid) as [Hkwf _].
    split; [done|]. destruct (buffer_split s pre rest (buffer_head s Hwf) Hvalid) as [Hh _].
    split; [simpl; lia|by eexists]. }
  change (parse_loop (S fuel) (readBufferHead s) _ packets s) with (again (S fuel)).
  assert (∀ n, again (S n) = _) as Hstep by (intros n; apply (parse_loop_step n s pre rest packets Hwf Hvalid)).
  destruct rest as [|b0 [|b1 [|b2 [|b3 body]]]]; try by rewrite Hstep.
  destruct (PacketTypeFromByte b0) as [t|] eqn:Ht; [|by rewrite Hstep].
  pose proof (header_length_valid _ _ _ _ _ _ _ Hwf Hvalid) as Hlen. cbv zeta in Hstep.
  set (len := header_length b1 b2 b3) in *.
  destruct (Z.of_nat (length body) <? len) eqn:E; [by rewrite Hstep|]. bool_to_prop. clear Hkept.
  (* Both ways to go on leave a shorter list of bytes. *)
  assert (∀ k packets', 0 ≤ k → (Z.to_nat k ≤ length body)%nat →
    let later fuel := parse_loop fuel (readBufferHead s) (Z.of_nat (length pre) + (4 + k)) packets' s in
    (∀ n, again (S n) = later n) → parse_outcome s again (again (S fuel))) as Hnext.
  { intros k packets' Hk Hle later Hlater. rewrite Hlater.
    apply (parse_outcome_later s again later); [done..|]. unfold later.
    specialize (IH (pre ++ [b0; b1; b2; b3] ++ take (Z.to_nat k) body) (drop (Z.to_nat k) body) packets').
    replace (Z.of_nat (length pre) + (4 + k))
      with (Z.of_nat (length (pre ++ [b0; b1; b2; b3] ++ take (Z.to_nat k) body)))
      by (rewrite !length_app, length_take; simpl; lia).
    apply IH; [rewrite <- !app_assoc; simpl; by rewrite take_drop|rewrite length_drop; simpl in Hfuel; lia]. }
  assert (∀ packets', (∀ n, again (S n) = (cpp_assert "length == 0" (len =? 0) ;;
      parse_loop n (readBufferHead s) (Z.of_nat (length pre) + 4) packets') s) →
    parse_outcome s again (again (S fuel))) as Hempty.
  { intros packets' Heq. destruct (cpp_assert "length == 0" (len =? 0) s) as [[] s1| |] eqn:Ha.
    - assert (s1 = s) as -> by by apply pure_assert in Ha.
      apply (Hnext 0 packets'); [done|lia|]. intros n. rewrite Heq. by run Ha.
    - unfold cpp_assert in Ha. by destruct ndebug, (len =? 0).
    - rewrite Heq, (bind_Crash _ _ _ _ Ha). unfold cpp_assert in Ha.
      destruct ndebug eqn:Hnd, (len =? 0); try done. injection Ha as <-. by split; [|left]. }
  destruct t.
  - by apply (Hnext len (packets ++ [NewHandshake_bytes (take (Z.to_nat len) body)])); [|lia|].
  - by apply (ack_outcome fuel s (Z.of_nat (length pre)) packets).
  - by apply (Hempty (packets ++ [NewHeartbeat])).
  - by apply (Hnext len (packets ++ [NewData_bytes (take (Z.to_nat len) body)])); [|lia|].
  - by apply (Hempty (packets ++ [NewKick])).
Qed.

(** The outcomes of the parser on any buffer. *)
Lemma parse_safe s :
  buffer_wf s →
  parse_outcome s (λ fuel, parse_loop fuel (readBufferHead s) 0 [] s) (ParsePacketsFromReadBuffer s).
Proof.
  intros Hwf. unfold ParsePacketsFromReadBuffer. run (eq_refl : get s = Ret s s).
  change 0 with (Z.of_nat (length (@nil Z))).
  apply (parse_loop_outcome _ s [] (valid_bytes s) []); [done..|].
  destruct (buffer_split s [] (valid_bytes s) (buffer_head s Hwf) eq_refl) as (Hh & _).
  unfold parse_fuel, kPacketHeaderSize. simpl in Hh.
  pose proof (Z.mul_succ_div_gt (readBufferHead s) 4). lia.
Qed.
(** ** Every buffer is packets and something they stop at *)

(** What follows the packets: an incomplete one, a byte that is no type, a HandshakeAck, or a
    Heartbeat or a Kick with a body. *)
Definition unexpected (rest : list Z) : Prop :=
  match rest with
  | b0 :: b1 :: b2 :: b3 :: body =>
      PacketTypeFromByte b0 = None ∨
      header_length b1 b2 b3 ≤ Z.of_nat (length body) ∧
      (PacketTypeFromByte b0 = Some PT_HandshakeAck ∨
       (PacketTypeFromByte b0 = Some PT_Heartbeat ∨ PacketTypeFromByte b0 = Some PT_Kick) ∧
       header_length b1 b2 b3 ≠ 0)
  | _ => False
  end.

(** A complete packet is the serialisation of its type and body. *)
Lemma frame_of_bytes b0 b1 b2 b3 body t :
  bytes_wf [b1; b2; b3] → PacketTypeFromByte b0 = Some t →
  header_length b1 b2 b3 = Z.of_nat (length body) →
  frame {| pkt_type := t; pkt_body := body |} = b0 :: b1 :: b2 :: b3 :: body.
Proof.
  intros [H1 [H2 [H3 _]%Forall_cons]%Forall_cons]%Forall_cons ->%PacketTypeFromByte_spec Hlen.
  rewrite frame_eq. unfold header. cbn [pkt_body pkt_type].
  pose proof (header_length_nonneg _ _ _ H1 H2 H3).
  rewrite <- Hlen, u32_small by lia. rewrite header_length_sum in * by done. unfold byte_wf in *.
  destruct (header_bytes (b1 * 65536 + b2 * 256 + b3)) as (-> & -> & ->).
  simpl. repeat f_equal; clear Hlen; Z.div_mod_to_equations; lia.
Qed.

Lemma split_valid bytes :
  bytes_wf bytes →
  ∃ ps rest, bytes = frames ps ++ rest ∧ Forall receivable ps ∧ (incomplete rest ∨ unexpected rest).
Proof.
  remember (length bytes) as n eqn:Hn. revert bytes Hn.
  induction n as [n IH] using lt_wf_ind. intros bytes -> Hwf.
  destruct bytes as [|b0 [|b1 [|b2 [|b3 body]]]];
    try (eexists [], _; split; [done|]; split; [constructor|by left]).
  set (rest := b0 :: b1 :: b2 :: b3 :: body) in *.
  assert (incomplete rest ∨ unexpected rest →
    ∃ ps rest', rest = frames ps ++ rest' ∧ Forall receivable ps ∧ (incomplete rest' ∨ unexpected rest'))
    as Hhere by (intros Hs; exists [], rest; auto).
  destruct (PacketTypeFromByte b0) as [t|] eqn:Ht; [|apply Hhere; right; by left].
  set (len := header_length b1 b2 b3).
  destruct (decide (Z.of_nat (length body) < len)) as [Hshort|Hlong].
  { apply Hhere. left. split; [by rewrite Ht|done]. }
  apply Forall_cons in Hwf as [_ [H1 [H2 [H3 Hbody]%Forall_cons]%Forall_cons]%Forall_cons].
  pose proof (header_length_nonneg _ _ _ H1 H2 H3) as Hlen. fold len in Hlen.
  assert (∀ p, receivable p → frame p = b0 :: b1 :: b2 :: b3 :: take (Z.to_nat len) body →
    ∃ ps rest', rest = frames ps ++ rest' ∧ Forall receivable ps ∧ (incomplete rest' ∨ unexpected rest'))
    as Hnext.
  { intros p Hp Hframe.
    destruct (IH (length (drop (Z.to_nat len) body))) with (drop (Z.to_nat len) body)
      as (ps & rest' & Hdrop & Hps & Hstop); [rewrite length_drop; simpl; lia|done|by apply bytes_wf_drop|].
    exists (p :: ps), rest'. split; [|by split; [constructor|]].
    rewrite frames_cons, Hframe, <- app_assoc, <- Hdrop. simpl. by rewrite take_drop. }
  assert (frame {| pkt_type := t; pkt_body := take (Z.to_nat len) body |}
    = b0 :: b1 :: b2 :: b3 :: take (Z.to_nat len) body) as Hframe.
  { apply frame_of_bytes; [by repeat (apply Forall_cons_2; [done|])|done|]. rewrite length_take. lia. }
  assert (match t with
          | PT_Handshake | PT_Data => True
          | PT_Heartbeat | PT_Kick => len = 0
          | PT_HandshakeAck => False
          end → receivable {| pkt_type := t; pkt_body := take (Z.to_nat len) body |}) as Hrecv.
  { intros Hty. split; [by apply bytes_wf_take|]. split; [simpl; rewrite length_take; lia|].
    by destruct t; simpl; try rewrite Hty. }
  destruct t; try (by apply (Hnext _ (Hrecv I) Hframe)).
  - apply Hhere. right. right. split; [lia|by left].
  - destruct (decide (len = 0)) as [E|E]; [by apply (Hnext _ (Hrecv E) Hframe)|].
    apply Hhere. right. right. split; [lia|right]. by split; [left|].
  - destruct (decide (len = 0)) as [E|E]; [by apply (Hnext _ (Hrecv E) Hframe)|].
    apply Hhere. right. right. split; [lia|right]. by split; [right|].
Qed.

(** A build with assertions does not return at what is unexpected. *)
Lemma unexpected_no_return s ps rest ps' s' :
  buffer_wf s → valid_bytes s = frames ps ++ rest → Forall receivable ps → unexpected rest →
  ndebug = false → ParsePacketsFromReadBuffer s ≠ Ret ps' s'.
Proof.
  intros Hwf Hvalid Hps Hrest Hnd.
  destruct rest as [|b0 [|b1 [|b2 [|b3 body]]]]; try done.
  destruct (parse_after_frames s ps (b0 :: b1 :: b2 :: b3 :: body)) as [fuel ->]; [done..|simpl; lia|].
  rewrite (parse_loop_step _ _ _ (b0 :: b1 :: b2 :: b3 :: body)) by done. cbn in Hrest.
  destruct Hrest as [->|[Hle Hty]]; [done|]. cbv zeta.
  destruct (PacketTypeFromByte b0) as [t|]; [|by destruct Hty as [?|[[?|?] _]]].
  rewrite (proj2 (Z.ltb_ge _ _)) by done. unfold parse_body, mbind, M_bind, cpp_assert. rewrite Hnd.
  destruct Hty as [[= ->]|[[[= ->]|[= ->]] Hne]]; [done|by rewrite (proj2 (Z.eqb_neq _ _) Hne)..].
Qed.

(** What the parser throws is an exception of the library, which is caught. *)
Lemma parse_loop_exn fuel size off packets s e s' :
  parse_loop fuel size off packets s = Throw e s' → ∃ what, e = PitayaException what.
Proof.
  revert off packets s. induction fuel as [|fuel IH]; intros off packets s; simpl; [done|].
  assert (∀ {A} (m : M TcpPacketStream A) (k : A → M TcpPacketStream (list Packet)) s,
    no_throw m → (m ≫= k) s = Throw e s' → ∃ a s1, k a s1 = Throw e s') as Hbind.
  { intros A m k s0 Hm. unfold mbind, M_bind. destruct (m s0) eqn:E; [|by apply Hm in E|done].
    intros Ek. by exists a, w. }
  destruct (_ <? _); [done|].
  intros (? & ? & E)%Hbind; [|apply no_throw_get].
  apply Hbind in E as (? & ? & E); [|apply no_throw_assert].
  apply Hbind in E as (? & ? & E); [|apply no_throw_vec_at].
  destruct (PacketTypeFromByte _) as [t|]; [|injection E as <- _; by eexists].
  do 3 (apply Hbind in E as (? & ? & E); [|apply no_throw_vec_at]).
  destruct (_ <? _); [done|].
  destruct t; (apply Hbind in E as (? & ? & E);
    [by eapply IH|first [apply no_throw_vec_range|apply no_throw_assert]]).
Qed.

(** The sending half of the stream, which the parser does not touch. *)
Definition same_sending (s s' : TcpPacketStream) : Prop :=
  packetSendQueue s' = packetSendQueue s ∧ writeBuffers s' = writeBuffers s ∧ writeId s' = writeId s.

Lemma runs_parse_loop s fuel size off packets :
  runs (same_sending s) (λ _, True) (parse_loop fuel size off packets).
Proof.
  revert off packets. induction fuel as [|fuel IH]; intros off packets; simpl; [by intros ? _|].
  assert (∀ o n, runs (same_sending s) (λ _, True) (keep_rest o n packets)) as Hkeep.
  { intros o n. apply runs_bind; [|intros; apply runs_ret]. by apply runs_modify. }
  case_match; [apply Hkeep|]. apply runs_bind; [apply runs_get|intros s0].
  apply runs_bind; [by apply runs_assert; left|intros _].
  apply runs_bind; [by apply runs_vec_at|intros b0]. case_match; [|apply runs_throw].
  do 3 (apply runs_bind; [by apply runs_vec_at|intros ?]). case_match; [apply Hkeep|].
  case_match; (apply runs_bind; [|intros ?; apply IH]);
    first [by apply runs_vec_range|by apply runs_assert; left].
Qed.

(** C20: the parser is the exact inverse of the wire format. In a build with assertions it
    returns some packets and leaves some bytes at the front of the buffer if and only if the
    valid bytes were the serialisations of these packets, in order, followed by those bytes,
    every packet is one a server may send, and no packet can be cut from the bytes left. *)
Theorem ParsePackets_iff s ps rest :
  buffer_wf s → ndebug = false →
  (∃ s', ParsePacketsFromReadBuffer s = Ret ps s' ∧ valid_bytes s' = rest) ↔
  valid_bytes s = frames ps ++ rest ∧ Forall receivable ps ∧ incomplete rest.
Proof.
  intros Hwf Hnd. split.
  - intros (s' & E & <-).
    destruct (split_valid (valid_bytes s)) as (qs & rest' & Hvalid & Hqs & [Hinc|Hun]).
    { unfold valid_bytes. apply bytes_wf_take, Hwf. }
    + destruct (parse_frames s qs rest' Hwf Hvalid Hqs Hinc) as (s2 & E2 & _ & Hv & _).
      rewrite E in E2. injection E2 as <- <-. by rewrite Hv.
    + by destruct (unexpected_no_return s qs rest' ps s' Hwf Hvalid Hqs Hun Hnd).
  - intros (Hvalid & Hps & Hinc).
    destruct (parse_frames s ps rest Hwf Hvalid Hps Hinc) as (s' & E & _ & Hv & _). by exists s'.
Qed.

(** C21: parsing is safe on every buffer, whatever the server sent: it never reads outside of
    the buffer. It returns with a well-formed buffer and a head that has not grown, or throws
    leaving the stream unchanged, or fails one of two assertions about what the server sent in a build
    that has assertions; running out
    of the fuel chosen means that no fuel is enough, which only a Release build can reach. *)
Theorem ParsePackets_safe s :
  buffer_wf s →
  parse_outcome s (λ fuel, parse_loop fuel (readBufferHead s) 0 [] s) (ParsePacketsFromReadBuffer s).
Proof. apply parse_safe. Qed.
End parse_facts.
