(* ===== verification/TcpPacketStream.v ===== *)
(** * The packet stream over a TCP socket
    (include/pitaya/connection/packet_stream.h, src/connection/tcp_packet_stream.h and
    .cpp, the interface [TcpSocket] of include/pitaya/tcp_socket.h)

    The stream is modelled with what it has handed to others and has not got back: the
    closures posted to the io context, and the operations started on the [TcpSocket]
    interface. A completion of one of them is a call of the corresponding lambda of the
    sources; which completion comes when, and with which result, is the environment's
    choice. The handlers the stream is given are opaque: how to call them is an argument,
    and they may change any state [W] that the stream is part of. *)

From S2P Require Import Prelude Outcome Errors Message Packet ReadBuffer.

Definition kMaxQueuedPackets : Z := 50.

(** Operations started with [TcpSocket::Send], [Receive] and [Connect]. *)
Record SendOp (SH : Type) := { so_buffer : list Z; so_id : Z; so_handler : SH }.
Record ReceiveOp (RH : Type) := { ro_offset : Z; ro_size : Z; ro_handler : RH }.
Record ConnectOp (CH EP : Type) := { co_endpoints : EP; co_handler : CH }.
Arguments so_buffer {SH}. Arguments so_id {SH}. Arguments so_handler {SH}.
Arguments ro_offset {RH}. Arguments ro_size {RH}. Arguments ro_handler {RH}.
Arguments co_endpoints {CH EP}. Arguments co_handler {CH EP}.

(** Calls of the [TcpSocket] interface, in the order in which they were made. *)
Inductive SocketCall :=
| CallConnect
| CallReceive (size : Z)
| CallSend (buffer : list Z)
| CallShutdown
| CallClose.

(** Whether closing the socket fails, after the calls that have been made: the message of the
    [system_error] that [Close] throws. *)
Class Closing := close_error : list SocketCall → option string.

(** The stream and its outstanding work. [io_posted]: the handlers captured by the
    closures [SendPacket] posted and that have not run; [io_ignored]: the handlers
    destroyed without having been called. *)
Record StreamIO (SH RH CH EP : Type) := {
  io_stream : TcpPacketStream;
  io_posted : list SH;
  io_sends : list (SendOp SH);
  io_receives : list (ReceiveOp RH);
  io_connects : list (ConnectOp CH EP);
  io_calls : list SocketCall;
  io_ignored : list SH;
}.
Arguments io_stream {SH RH CH EP}. Arguments io_posted {SH RH CH EP}.
Arguments io_sends {SH RH CH EP}. Arguments io_receives {SH RH CH EP}.
Arguments io_connects {SH RH CH EP}. Arguments io_calls {SH RH CH EP}.
Arguments io_ignored {SH RH CH EP}.

Section stream.
Context {SH RH CH EP : Type} {closing : Closing}.
Local Abbreviation IO := (StreamIO SH RH CH EP).

Definition set_stream (s : TcpPacketStream) (io : IO) : IO :=
  {| io_stream := s; io_posted := io_posted io; io_sends := io_sends io;
     io_receives := io_receives io; io_connects := io_connects io;
     io_calls := io_calls io; io_ignored := io_ignored io |}.
Definition set_posted (l : list SH) (io : IO) : IO :=
  {| io_stream := io_stream io; io_posted := l; io_sends := io_sends io;
     io_receives := io_receives io; io_connects := io_connects io;
     io_calls := io_calls io; io_ignored := io_ignored io |}.
Definition set_sends (l : list (SendOp SH)) (io : IO) : IO :=
  {| io_stream := io_stream io; io_posted := io_posted io; io_sends := l;
     io_receives := io_receives io; io_connects := io_connects io;
     io_calls := io_calls io; io_ignored := io_ignored io |}.
Definition set_receives (l : list (ReceiveOp RH)) (io : IO) : IO :=
  {| io_stream := io_stream io; io_posted := io_posted io; io_sends := io_sends io;
     io_receives := l; io_connects := io_connects io;
     io_calls := io_calls io; io_ignored := io_ignored io |}.
Definition set_connects (l : list (ConnectOp CH EP)) (io : IO) : IO :=
  {| io_stream := io_stream io; io_posted := io_posted io; io_sends := io_sends io;
     io_receives := io_receives io; io_connects := l;
     io_calls := io_calls io; io_ignored := io_ignored io |}.
Definition add_call (c : SocketCall) (io : IO) : IO :=
  {| io_stream := io_stream io; io_posted := io_posted io; io_sends := io_sends io;
     io_receives := io_receives io; io_connects := io_connects io;
     io_calls := io_calls io ++ [c]; io_ignored := io_ignored io |}.
Definition add_ignored (h : SH) (io : IO) : IO :=
  {| io_stream := io_stream io; io_posted := io_posted io; io_sends := io_sends io;
     io_receives := io_receives io; io_connects := io_connects io;
     io_calls := io_calls io; io_ignored := io_ignored io ++ [h] |}.

#[export, refine] Instance lens_stream : Lens IO TcpPacketStream :=
  {| view := io_stream; set_view := set_stream |}.
Proof. all: by repeat intros []. Defined.

(** [TcpPacketStream(ioContext, maxSize, socket)]. *)
Definition StreamIO_new (maxSize : Z) : IO :=
  {| io_stream := TcpPacketStream_new maxSize; io_posted := []; io_sends := [];
     io_receives := []; io_connects := []; io_calls := []; io_ignored := [] |}.

(** ** The socket interface *)

Definition TcpSocket_Connect (ep : EP) (h : CH) : M IO unit :=
  modify (λ io, add_call CallConnect
    (set_connects (io_connects io ++ [{| co_endpoints := ep; co_handler := h |}]) io)).

Definition TcpSocket_Receive (offset size : Z) (h : RH) : M IO unit :=
  modify (λ io, add_call (CallReceive size)
    (set_receives (io_receives io ++ [{| ro_offset := offset; ro_size := size; ro_handler := h |}]) io)).

Definition TcpSocket_Send (buffer : list Z) (id : Z) (h : SH) : M IO unit :=
  modify (λ io, add_call (CallSend buffer)
    (set_sends (io_sends io ++ [{| so_buffer := buffer; so_id := id; so_handler := h |}]) io)).

(** [AsioTcpSocket::Shutdown] catches what the raw socket throws; [AsioTcpSocket::Close] does
    not. *)
Definition TcpSocket_Shutdown : M IO unit := modify (add_call CallShutdown).
Definition TcpSocket_Close : M IO unit :=
  io ← get;
  modify (add_call CallClose) ;;
  match close_error (io_calls io) with
  | Some what => throw (SystemError what)
  | None => mret tt
  end.

(** ** Connect and Disconnect *)

(** [resolve host port] is the answer of boost's resolver, or the message of the
    [system_error] it throws. *)
Definition TcpPacketStream_Connect (resolve : string → string → string + EP)
    (host port : string) (handler : CH) : M IO unit :=
  catch_system
    (match resolve host port with
     | inl what => throw (SystemError what)
     | inr endpointIterator => TcpSocket_Connect endpointIterator handler
     end)
    (λ what, throw (PitayaException ("Error resolving host " +:+ host +:+ ": " +:+ what))).

Definition TcpPacketStream_Disconnect : M IO unit :=
  TcpSocket_Shutdown ;; TcpSocket_Close.

(** ** Sending *)

Definition SendPacket (packet : Packet) (handler : SH) : M IO unit :=
  io ← get;
  let q := packetSendQueue (io_stream io) in
  if Z.of_nat (length q) <? kMaxQueuedPackets then
    modify (λ io, set_stream (set_packetSendQueue (q ++ [packet]) (io_stream io)) io) ;;
    modify (λ io, set_posted (io_posted io ++ [handler]) io)
  else
    modify (add_ignored handler).

Definition SendNextPacket `{BuildMode} (handler : SH) : M IO unit :=
  io ← get;
  cpp_assert "!_packetSendQueue.empty()"
    (negb (Z.of_nat (length (packetSendQueue (io_stream io))) =? 0)) ;;
  match packetSendQueue (io_stream io) with
  | [] => undefined "front of an empty deque"
  | pkt :: q =>
      modify (λ io, set_stream (set_packetSendQueue q (io_stream io)) io) ;;
      let id := writeId (io_stream io) in
      modify (λ io, set_stream
        (set_writeBuffers (writeBuffers (io_stream io)) (u32 (id + 1)) (io_stream io)) io) ;;
      let buf := Packet_SerializeInto pkt [] in
      TcpSocket_Send buf id handler ;;
      io ← get;
      cpp_assert "_writeBuffers.find(_writeId) == _writeBuffers.end()"
        (bool_decide (writeBuffers (io_stream io) !! writeId (io_stream io) = None)) ;;
      modify (λ io, set_stream
        (set_writeBuffers (<[id := buf]> (writeBuffers (io_stream io)))
           (writeId (io_stream io)) (io_stream io)) io)
  end.

(** ** Receiving *)

Definition ReadToBuffer (handler : RH) : M IO unit :=
  io ← get;
  let bufferStart := readBufferHead (io_stream io) in
  let bufferSize := u64 (readBufferSize (io_stream io) - readBufferHead (io_stream io)) in
  TcpSocket_Receive bufferStart bufferSize handler.

Definition ReceivePackets (handler : RH) : M IO unit := ReadToBuffer handler.

(** ** Completions *)

Context {W : Type} `{Lens W IO} `{BuildMode}.
Variable call_send : SH → error_code → M W unit.
Variable call_receive : RH → error_code → list Packet → M W unit.
Variable call_connect : CH → error_code → M W unit.

(** The lambda of [Connect]. *)
Definition Connect_done (handler : CH) (ec : error_code) : M W unit :=
  if ec_failed ec then call_connect handler ec else call_connect handler ec_success.

(** The lambda of [SendNextPacket]; [nwritten] is not looked at. *)
Definition SendNextPacket_done (id : Z) (h : SH) (ec : error_code) (nwritten : Z) : M W unit :=
  if ec_failed ec then call_send h ec
  else
    call_send h ec_success ;;
    zoom (modify (λ io : IO, set_stream
      (set_writeBuffers (delete id (writeBuffers (io_stream io)))
         (writeId (io_stream io)) (io_stream io)) io)).

(** The lambda of [ReadToBuffer]. *)
Definition ReadToBuffer_done (handler : RH) (ec : error_code) (bytesRead : Z) : M W unit :=
  if ec_failed ec then call_receive handler ec []
  else
    cpp_assert "bytesRead > 0" (0 <? bytesRead) ;;
    zoom (modify (λ io : IO, set_stream
      (set_readBuffer (u64 (readBufferHead (io_stream io) + bytesRead))
         (readBuffer (io_stream io)) (io_stream io)) io)) ;;
    w ← get;
    cpp_assert "_readBufferHead <= _readBuffer.size()"
      (readBufferHead (io_stream (view w)) <=? readBufferSize (io_stream (view w))) ;;
    catch_pitaya
      (packets ← zoom (zoom (W := IO) ParsePacketsFromReadBuffer);
       if Z.of_nat (length packets) =? 0 then zoom (ReadToBuffer handler)
       else call_receive handler ec_success packets)
      (λ _, call_receive handler (make_error_code InvalidPacketType) []).

(** What the socket does before it completes a [Receive]: the bytes are in the buffer. *)
Definition socket_wrote (offset : Z) (data : list Z) : M W unit :=
  zoom (modify (λ io : IO, set_stream
    (set_readBuffer (readBufferHead (io_stream io))
       (list_inserts (Z.to_nat offset) data (readBuffer (io_stream io))) (io_stream io)) io)).
End stream.

(** A socket whose [Close] does not fail: the one meant where no other is named. *)
#[export] Instance closing_succeeds : Closing | 100 := λ _, None.
