(* ===== verification/ConnState.v ===== *)
(** * The state of a connection (include/pitaya/connection/state.h,
    src/connection/state.cpp)

    [State] holds a variant: [Inited], or [Connected] with the route dictionaries and the
    two heartbeat timers. The timers are boost::asio's: the class [TimerService] has the
    calls the sources make and, as laws, what asio documents about pending waits. The file
    also has the mutex of [State] and the loop that inverts the route dictionary. *)

From S2P Require Import Prelude Outcome Errors.

(** ** Timers *)

(** The expiry a timer is given: [expires_after(d)], or [expires_at(now + d)]. *)
Inductive Expiry :=
| ExpiresAfter (d : Z)
| ExpiresAtNowPlus (d : Z).

(** A timer is named by a token. [ts_waiting s t] are the handlers of the waits started on
    [t] that have been neither cancelled nor completed, oldest first; [ts_given s] those of
    all waits ever started. [ts_fire s t h ec s']:
    the io context invokes [h] for a wait of [t], with [ec], and is then in state [s']. *)
Class TimerService (Cb : Type) := {
  TS : Type;
  ts_empty : TS;
  ts_new : TS → nat * TS;
  ts_expires : nat → Expiry → TS → TS;
  ts_async_wait : nat → Cb → TS → TS;
  ts_destroy : nat → TS → TS;
  ts_fire : TS → nat → Cb → error_code → TS → Prop;
  ts_alive : TS → nat → Prop;
  ts_waiting : TS → nat → list Cb;
  ts_given : TS → list Cb;

  (** A new timer is not one of the existing ones, and has no wait. *)
  ts_new_fresh s : ¬ ts_alive s (ts_new s).1;
  ts_new_alive s t : ts_alive (ts_new s).2 t ↔ t = (ts_new s).1 ∨ ts_alive s t;
  ts_new_waiting s t :
    ts_waiting (ts_new s).2 t = if decide (t = (ts_new s).1) then [] else ts_waiting s t;
  (** Setting the expiry cancels the pending waits of that timer. *)
  ts_expires_alive t e s t' : ts_alive (ts_expires t e s) t' ↔ ts_alive s t';
  ts_expires_waiting t e s t' :
    ts_waiting (ts_expires t e s) t' = if decide (t' = t) then [] else ts_waiting s t';
  ts_async_wait_alive t h s t' : ts_alive (ts_async_wait t h s) t' ↔ ts_alive s t';
  ts_async_wait_waiting t h s t' :
    ts_waiting (ts_async_wait t h s) t' =
      if decide (t' = t) then ts_waiting s t ++ [h] else ts_waiting s t';
  (** Destroying a timer cancels its pending waits. *)
  ts_destroy_alive t s t' : ts_alive (ts_destroy t s) t' ↔ t' ≠ t ∧ ts_alive s t';
  ts_destroy_waiting t s t' :
    ts_waiting (ts_destroy t s) t' = if decide (t' = t) then [] else ts_waiting s t';
  (** A completed wait is no longer pending; the completion of a cancelled wait, or of one
      that had expired before it was cancelled, leaves the pending ones as they are. *)
  ts_fire_alive s t h ec s' t' : ts_fire s t h ec s' → ts_alive s' t' ↔ ts_alive s t';
  ts_fire_other s t h ec s' t' :
    ts_fire s t h ec s' → t' ≠ t → ts_waiting s' t' = ts_waiting s t';
  ts_fire_waiting s t h ec s' :
    ts_fire s t h ec s' → ts_waiting s t ≡ₚ h :: ts_waiting s' t ∨ ts_waiting s' t = ts_waiting s t;
  (** The waits that complete with an error are the cancelled ones. *)
  ts_fire_failed s t h ec s' :
    ts_fire s t h ec s' → ec_failed ec = true → ts_waiting s' t = ts_waiting s t;
  (** Only handlers that were given are invoked. *)
  ts_given_empty : ts_given ts_empty = [];
  ts_new_given s : ts_given (ts_new s).2 = ts_given s;
  ts_expires_given t e s : ts_given (ts_expires t e s) = ts_given s;
  ts_async_wait_given t h s : ts_given (ts_async_wait t h s) = h :: ts_given s;
  ts_destroy_given t s : ts_given (ts_destroy t s) = ts_given s;
  ts_fire_given s t h ec s' : ts_fire s t h ec s' → h ∈ ts_given s ∧ ts_given s' = ts_given s;
}.

(** ** The variant *)

(** The iteration order of an [std::unordered_map] is unspecified: it is a parameter. *)
Class UnorderedIteration := {
  iterate : gmap string Z → list (string * Z);
  iterate_perm m : iterate m ≡ₚ map_to_list m;
}.

Section state.
(** [Fn]: the callbacks [SetConnected] is given. *)
Context {Fn : Type}.

Record Connected := {
  heartbeatInterval : Z;
  heartbeatTimeoutSeconds : Z;
  serializer : string;
  routeToCode : gmap string Z;
  codeToRoute : gmap Z string;
  heartbeatTimer : nat;
  heartbeatTimeout : nat;
  heartbeatTick : Fn;
}.

(** [boost::variant<Inited, Connected>]. *)
Inductive StateType :=
| InitedState
| ConnectedState (c : Connected).

(** The [State] object: the value and the mutex. *)
Record State := { st_locked : bool; st_val : StateType }.

Definition State_new (val : StateType) : State := {| st_locked := false; st_val := val |}.

(** [State::IsConnected]. *)
Definition IsConnected (st : State) : bool :=
  match st_val st with ConnectedState _ => true | InitedState => false end.

(** [codeToRoute.insert(make_pair(code, route))] for each pair: the first one stays. *)
Fixpoint invert_routes (l : list (string * Z)) (m : gmap Z string) : gmap Z string :=
  match l with
  | [] => m
  | (route, code) :: l =>
      invert_routes l (match m !! code with Some _ => m | None => <[code := route]> m end)
  end.

Definition make_codeToRoute `{UnorderedIteration} (routes : gmap string Z) : gmap Z string :=
  invert_routes (iterate routes) ∅.

(** The handlers of the timers' waits: [State::HeartbeatTick], the lambda around
    [heartbeatTimeoutCb], and those the connection starts for its requests. *)
Inductive TimerCb :=
| CbHeartbeatTick
| CbHeartbeatTimeout (heartbeatTimeoutCb : Fn)
| CbRequestTimeout (id : Z).

Context `{!TimerService TimerCb, !UnorderedIteration}.
Context {W : Type} `{!Lens W State, !Lens W TS}.

Definition get_state : M W State := λ w, Ret (view w) w.
Definition set_val (v : StateType) : M W unit :=
  modify (λ w : W, set_view {| st_locked := st_locked (view w); st_val := v |} w).
Definition set_locked (b : bool) : M W unit :=
  modify (λ w : W, set_view {| st_locked := b; st_val := st_val (view w) |} w).
Definition timer_op (f : TS → TS) : M W unit := modify (λ w : W, set_view (f (view w)) w).
Definition timer_new : M W nat := λ w, Ret (ts_new (view w)).1 (set_view (ts_new (view w)).2 w).

(** [std::lock_guard<State> lock(_state); m]: the mutex is not recursive; it is released
    when the scope is left, by an exception as well. *)
Definition with_lock {A} (m : M W A) : M W A := λ w,
  if st_locked (view w) then Crash Deadlock else
  match (set_locked true ;; m) w with
  | Ret a w' => (set_locked false ;; mret a) w'
  | Throw e w' => (set_locked false ;; throw e) w'
  | Crash f => Crash f
  end.

(** The old value of the variant is destroyed by an assignment: its timers with it. *)
Definition destroy_val : M W unit :=
  st ← get_state;
  match st_val st with
  | InitedState => mret tt
  | ConnectedState c =>
      timer_op (ts_destroy (heartbeatTimer c)) ;; timer_op (ts_destroy (heartbeatTimeout c))
  end.

(** [State::SetInited]. *)
Definition SetInited : M W unit := destroy_val ;; set_val InitedState.

Definition kHeartbeatFactor : Z := 3.

(** [Connected::Connected]: the two timers are new ones of the context. *)
Definition Connected_new (heartbeatInterval heartbeatTimeoutSeconds : Z) (serializer : string)
    (routeToCode : gmap string Z) (heartbeatTick : Fn) : M W Connected :=
  timer ← timer_new;
  timeout ← timer_new;
  mret {|
    heartbeatInterval := heartbeatInterval;
    heartbeatTimeoutSeconds := heartbeatTimeoutSeconds;
    serializer := serializer;
    routeToCode := routeToCode;
    codeToRoute := make_codeToRoute routeToCode;
    heartbeatTimer := timer;
    heartbeatTimeout := timeout;
    heartbeatTick := heartbeatTick |}.

(** [State::SetConnected]. [std::chrono::seconds] counts in a signed 64-bit integer: a
    product that does not fit is undefined. *)
Definition SetConnected (heartbeatInterval : Z) (serializer : string)
    (routeDict : gmap string Z) (heartbeatTick heartbeatTimeoutCb : Fn) : M W unit :=
  (if fits_i64 (heartbeatInterval * kHeartbeatFactor) then mret tt
   else undefined "signed overflow of heartbeatInterval * kHeartbeatFactor") ;;
  connected ← Connected_new heartbeatInterval (heartbeatInterval * kHeartbeatFactor) serializer
                routeDict heartbeatTick;
  timer_op (ts_expires (heartbeatTimer connected) (ExpiresAfter heartbeatInterval)) ;;
  timer_op (ts_async_wait (heartbeatTimer connected) CbHeartbeatTick) ;;
  timer_op (ts_expires (heartbeatTimeout connected) (ExpiresAtNowPlus (heartbeatTimeoutSeconds connected))) ;;
  timer_op (ts_async_wait (heartbeatTimeout connected) (CbHeartbeatTimeout heartbeatTimeoutCb)) ;;
  destroy_val ;;
  set_val (ConnectedState connected).

(** [State::ExtendHeartbeatTimeout]. *)
Definition ExtendHeartbeatTimeout : M W unit :=
  st ← get_state;
  match st_val st with
  | InitedState => mret tt
  | ConnectedState conn =>
      timer_op (ts_expires (heartbeatTimeout conn)
                  (ExpiresAtNowPlus (heartbeatTimeoutSeconds conn)))
  end.

Variable call_fn : Fn → M W unit.

(** [State::HeartbeatTick]. *)
Definition HeartbeatTick (ec : error_code) : M W unit :=
  if ec_failed ec then mret tt else
  st ← get_state;
  match st_val st with
  | InitedState => mret tt
  | ConnectedState conn =>
      call_fn (heartbeatTick conn) ;;
      timer_op (ts_expires (heartbeatTimer conn) (ExpiresAfter (heartbeatInterval conn))) ;;
      timer_op (ts_async_wait (heartbeatTimer conn) CbHeartbeatTick)
  end.

(** The lambda of the heartbeat timeout in [SetConnected]. *)
Definition HeartbeatTimeout_done (heartbeatTimeoutCb : Fn) (ec : error_code) : M W unit :=
  if ec_failed ec then mret tt else call_fn heartbeatTimeoutCb.
End state.
Arguments Connected : clear implicits.
Arguments StateType : clear implicits.
Arguments State : clear implicits.
Arguments TimerCb : clear implicits.

(** ** The inverted dictionary *)

Section routes.
Context `{UnorderedIteration}.

Lemma invert_routes_Some l m c r :
  invert_routes l m !! c = Some r → m !! c = Some r ∨ (r, c) ∈ l.
Proof.
  revert m. induction l as [|[r' c'] l IH]; intros m; simpl; [by left|].
  intros [Hm|Hl]%IH; [|right; by right].
  destruct (m !! c') eqn:E; [by left|].
  apply lookup_insert_Some in Hm as [[<- <-]|[_ ?]]; [right; by left|by left].
Qed.

Lemma invert_routes_mono l m c r : m !! c = Some r → invert_routes l m !! c = Some r.
Proof.
  revert m. induction l as [|[r' c'] l IH]; intros m Hm; simpl; [done|].
  apply IH. destruct (m !! c') eqn:E; [done|].
  by rewrite lookup_insert_ne by congruence.
Qed.

Lemma invert_routes_is_Some l m c r : (r, c) ∈ l → is_Some (invert_routes l m !! c).
Proof.
  revert m. induction l as [|[r' c'] l IH]; intros m; simpl; [by intros ?%not_elem_of_nil|].
  rewrite elem_of_cons. intros [[= <- <-]|Hl]; [|by apply IH].
  destruct (m !! c) eqn:E.
  - eexists. by apply invert_routes_mono.
  - eexists. apply invert_routes_mono. by rewrite lookup_insert_eq.
Qed.

Lemma elem_of_iterate routes r c : (r, c) ∈ iterate routes ↔ routes !! r = Some c.
Proof. by rewrite iterate_perm, elem_of_map_to_list. Qed.

(** C39: the dictionary from codes to routes that a connection builds, whatever the order in
    which the hash map is walked: every entry is an entry of the server's dictionary read
    backwards, every code of the dictionary has a route, and when no two routes share a code
    the two dictionaries are inverse to each other. *)
Theorem make_codeToRoute_spec routes :
  (∀ c r, make_codeToRoute routes !! c = Some r → routes !! r = Some c) ∧
  (∀ r c, routes !! r = Some c → is_Some (make_codeToRoute routes !! c)) ∧
  ((∀ r1 r2 c, routes !! r1 = Some c → routes !! r2 = Some c → r1 = r2) →
   ∀ r c, make_codeToRoute routes !! c = Some r ↔ routes !! r = Some c).
Proof.
  assert (∀ c r, make_codeToRoute routes !! c = Some r → routes !! r = Some c) as Hsound.
  { intros c r [?|Hl]%invert_routes_Some; [by simplify_map_eq|]. by apply elem_of_iterate. }
  assert (∀ r c, routes !! r = Some c → is_Some (make_codeToRoute routes !! c)) as Hdom.
  { intros r c Hr. apply (invert_routes_is_Some _ _ c r). by apply elem_of_iterate. }
  split_and!; [done..|]. intros Hinj r c. split; [apply Hsound|].
  intros Hr. destruct (Hdom r c Hr) as [r' Hr']. rewrite Hr'. f_equal.
  eapply Hinj; [by apply Hsound|done].
Qed.
End routes.

#[export, refine] Instance default_iteration : UnorderedIteration | 100 :=
  {| iterate := map_to_list |}.
Proof. done. Defined.
