(* ===== verification/Json.v ===== *)
(** * The JSON values the connection reads

    rapidjson is a parameter: the class [RapidJson] has the queries the sources make on a
    [rapidjson::Value]. Member queries on a value that is not an object violate rapidjson's
    precondition: they fail its assertion, or are undefined when assertions are off. *)

From S2P Require Import Prelude Outcome.

Class RapidJson := {
  JValue : Type;
  (** [Document::Parse]; [None] is [HasParseError]. *)
  JParse : string → option JValue;
  JIsObject : JValue → bool;
  (** The members of an object, in document order. *)
  JMembers : JValue → list (string * JValue);
  (** [FindMember]. *)
  JFindMember : JValue → string → option JValue;
  (** [IsUint64] and [GetUint64], [IsString] and [GetString], [IsInt] and [GetInt]. *)
  JUint64 : JValue → option Z;
  JString : JValue → option string;
  JInt : JValue → option Z;
}.

(** [s.c_str()] read back as a C string: the characters before the first NUL. *)
Fixpoint c_str (s : string) : string :=
  match s with
  | EmptyString => EmptyString
  | String a s => if decide (a = Ascii.zero) then EmptyString else String a (c_str s)
  end.

Section json.
Context `{RapidJson, BuildMode} {W : Type}.

(** [RAPIDJSON_ASSERT(IsObject())]. *)
Definition require_object (v : JValue) : M W unit :=
  if JIsObject v then mret tt
  else if ndebug then undefined "member query on a JSON value that is not an object"
  else crash (AssertFailed "IsObject()").

Definition HasMember (v : JValue) (name : string) : M W bool :=
  require_object v ;; mret (bool_decide (is_Some (JFindMember v name))).

(** [v\[name\]], for a member that exists. *)
Definition Member (v : JValue) (name : string) : M W JValue :=
  require_object v ;;
  match JFindMember v name with
  | Some x => mret x
  | None => undefined "missing JSON member"
  end.

(** The loop over [doc[sys][dict].GetObject()]: the first pair of a name stays. *)
Fixpoint read_dict (members : list (string * JValue)) (routeDict : gmap string Z) : gmap string Z :=
  match members with
  | [] => routeDict
  | (name, value) :: members =>
      read_dict members
        (match JInt value with
         | Some code =>
             match routeDict !! c_str name with
             | Some _ => routeDict
             | None => <[c_str name := code]> routeDict
             end
         | None => routeDict
         end)
  end.
End json.

Section json_facts.
Context `{RapidJson}.

(** The code of a route: that of the first member with this name and an integer value. *)
Definition code_of (route : string) (members : list (string * JValue)) : option Z :=
  head (omap (λ m, if decide (c_str m.1 = route) then JInt m.2 else None) members).

Lemma read_dict_code members m route :
  read_dict members m !! route = match m !! route with Some c => Some c | None => code_of route members end.
Proof.
  unfold code_of. revert m. induction members as [|[name v] members IH]; intros m; simpl.
  { by destruct (m !! route). }
  rewrite IH. destruct (JInt v) as [c|] eqn:Ev; [|by case_decide].
  case_decide as Hr; [subst route|].
  - destruct (m !! c_str name) eqn:E; [by rewrite E|by rewrite lookup_insert_eq].
  - destruct (m !! c_str name) eqn:E; [done|]. by rewrite lookup_insert_ne by done.
Qed.
End json_facts.

Section json_effects.
Context `{RapidJson, BuildMode} {W : Type}.

Lemma pure_HasMember v name : pure_comp (HasMember v name : M W bool).
Proof. unfold HasMember, require_object. pure_tac. Qed.
Lemma pure_Member v name : pure_comp (Member v name : M W JValue).
Proof. unfold Member, require_object. pure_tac. Qed.
Lemma no_throw_HasMember v name : no_throw (HasMember v name : M W bool).
Proof. unfold HasMember, require_object. no_throw_tac. Qed.
Lemma no_throw_Member v name : no_throw (Member v name : M W JValue).
Proof. unfold Member, require_object. no_throw_tac. Qed.
End json_effects.

#[export] Hint Resolve pure_HasMember pure_Member : pure.
#[export] Hint Resolve no_throw_HasMember no_throw_Member : no_throw.
