(* ===== verification/Connection.v ===== *)
(** * The connection (include/pitaya/connection.h, src/connection.cpp,
    include/pitaya/request.h)

    One definition per method of [Connection] and per lambda the methods hand to others. A
    lambda is a constructor of [SendHandler], [ReceiveHandler], [ConnectHandler] or
    [PostedRequest] that carries what the lambda captures; the definition of its body is
    named after the method with a suffix. The client's callbacks are tokens: calling one is
    recorded in the trace. *)

From S2P Require Import Prelude Outcome Net Errors Events Gzip Message Packet ReadBuffer.
From S2P Require Import TcpPacketStream ConnState Json.

(** ** Requests *)

Inductive RequestStatus :=
| StatusOk
| StatusServerError
| StatusTimeout
| StatusReset
| StatusInternalError
| StatusNotConnectedError.

#[global] Instance RequestStatus_eq_dec : EqDecision RequestStatus.
Proof. solve_decision. Defined.

(** [operator<<(std::ostream&, RequestStatus)]. *)
Definition RequestStatus_name (s : RequestStatus) : string :=
  match s with
  | StatusOk => "Ok"
  | StatusServerError => "ServerError"
  | StatusTimeout => "Timeout"
  | StatusReset => "Reset"
  | StatusInternalError => "InternalError"
  | StatusNotConnectedError => "NotConnectedError"
  end.

(** A [RequestHandler] of the client. *)
Definition RequestHandler := nat.

(** [Request]: the handler and the timer of the timeout. *)
Record Request := { req_handler : RequestHandler; req_timer : nat }.

(** ** The lambdas *)

(** What [PostRequest] captures in the closure it posts. *)
Record PostedRequest := {
  pr_route : string;
  pr_data : list Z;
  pr_timeout : Z;
  pr_handler : RequestHandler;
}.

Inductive SendHandler :=
| HandshakeSent
| HandshakeAckSent (heartbeatInterval : Z) (serializer : string) (routeDict : gmap string Z)
| HeartbeatSent
| RequestSent (timeout : Z) (msg : Message) (handler : RequestHandler).

Inductive ReceiveHandler := HandshakeResponseReceived | PacketsReceived.

Inductive ConnectHandler := StartConnected (host port : string).

(** The two callbacks given to [State::SetConnected]. *)
Inductive HeartbeatFn := SendHeartbeat | HeartbeatTimedOut.

Abbreviation ConnTimerCb := (TimerCb HeartbeatFn).

(** ** The world *)

Inductive Thread := ClientThread | WorkerThread.

#[global] Instance Thread_eq_dec : EqDecision Thread.
Proof. solve_decision. Defined.

(** What the client observes. *)
Inductive Observation :=
| HandlerCalled (handler : RequestHandler) (status : RequestStatus) (data : list Z)
| ListenerCalled (listener : Listener) (ev : Event) (msg : string).

(** The requests that the client's callbacks make before they return. *)
Class Reaction := reaction : Observation → list PostedRequest.

(** The exceptions with which the client's callbacks end instead of returning. *)
Class Raising := raises : Observation → option exn.

(** Boost's resolver: the endpoints of a host, or the text of the error it throws. *)
Class Resolver := {
  Endpoints : Type;
  resolve : string → string → string + Endpoints;
}.

(** A bound on the iterations of [Decompress], see [Gzip]. *)
Class DecompressFuel := zlib_fuel : nat.

(** The packet stream as the connection uses it. *)
Abbreviation ConnIO := (StreamIO SendHandler ReceiveHandler ConnectHandler Endpoints).

Section connection.
Context `{BuildMode, BoostMessages, Zlib, Allocator, RapidJson, Resolver, DecompressFuel}.
Context `{!TimerService ConnTimerCb, !UnorderedIteration}.
Context {client : Reaction} {raising : Raising} {closing : Closing}.

(** A [Connection] and what surrounds it: [w_posted] are the closures of [PostRequest]
    that have not run, [w_dropped] the request handlers destroyed without a call,
    [w_thread] the thread that is running. *)
Record World := {
  w_reqId : Z;
  w_state : State HeartbeatFn;
  w_io : ConnIO;
  w_listeners : EventListeners;
  w_inFlight : gmap Z Request;
  w_timers : TS;
  w_posted : list PostedRequest;
  w_trace : list Observation;
  w_dropped : list RequestHandler;
  w_thread : Thread;
  w_workerThreadId : option Thread;
}.

Definition set_reqId (x : Z) (w : World) : World :=
  {| w_reqId := x; w_state := w_state w; w_io := w_io w; w_listeners := w_listeners w;
     w_inFlight := w_inFlight w; w_timers := w_timers w; w_posted := w_posted w;
     w_trace := w_trace w; w_dropped := w_dropped w; w_thread := w_thread w;
     w_workerThreadId := w_workerThreadId w |}.
Definition set_state (x : State HeartbeatFn) (w : World) : World :=
  {| w_reqId := w_reqId w; w_state := x; w_io := w_io w; w_listeners := w_listeners w;
     w_inFlight := w_inFlight w; w_timers := w_timers w; w_posted := w_posted w;
     w_trace := w_trace w; w_dropped := w_dropped w; w_thread := w_thread w;
     w_workerThreadId := w_workerThreadId w |}.
Definition set_io (x : ConnIO) (w : World) : World :=
  {| w_reqId := w_reqId w; w_state := w_state w; w_io := x; w_listeners := w_listeners w;
     w_inFlight := w_inFlight w; w_timers := w_timers w; w_posted := w_posted w;
     w_trace := w_trace w; w_dropped := w_dropped w; w_thread := w_thread w;
     w_workerThreadId := w_workerThreadId w |}.
Definition set_listeners (x : EventListeners) (w : World) : World :=
  {| w_reqId := w_reqId w; w_state := w_state w; w_io := w_io w; w_listeners := x;
     w_inFlight := w_inFlight w; w_timers := w_timers w; w_posted := w_posted w;
     w_trace := w_trace w; w_dropped := w_dropped w; w_thread := w_thread w;
     w_workerThreadId := w_workerThreadId w |}.
Definition set_inFlight (x : gmap Z Request) (w : World) : World :=
  {| w_reqId := w_reqId w; w_state := w_state w; w_io := w_io w; w_listeners := w_listeners w;
     w_inFlight := x; w_timers := w_timers w; w_posted := w_posted w;
     w_trace := w_trace w; w_dropped := w_dropped w; w_thread := w_thread w;
     w_workerThreadId := w_workerThreadId w |}.
Definition set_timers (x : TS) (w : World) : World :=
  {| w_reqId := w_reqId w; w_state := w_state w; w_io := w_io w; w_listeners := w_listeners w;
     w_inFlight := w_inFlight w; w_timers := x; w_posted := w_posted w;
     w_trace := w_trace w; w_dropped := w_dropped w; w_thread := w_thread w;
     w_workerThreadId := w_workerThreadId w |}.
Definition set_requests (x : list PostedRequest) (w : World) : World :=
  {| w_reqId := w_reqId w; w_state := w_state w; w_io := w_io w; w_listeners := w_listeners w;
     w_inFlight := w_inFlight w; w_timers := w_timers w; w_posted := x;
     w_trace := w_trace w; w_dropped := w_dropped w; w_thread := w_thread w;
     w_workerThreadId := w_workerThreadId w |}.
Definition add_trace (x : Observation) (w : World) : World :=
  {| w_reqId := w_reqId w; w_state := w_state w; w_io := w_io w; w_listeners := w_listeners w;
     w_inFlight := w_inFlight w; w_timers := w_timers w; w_posted := w_posted w;
     w_trace := w_trace w ++ [x]; w_dropped := w_dropped w; w_thread := w_thread w;
     w_workerThreadId := w_workerThreadId w |}.
Definition add_dropped (x : RequestHandler) (w : World) : World :=
  {| w_reqId := w_reqId w; w_state := w_state w; w_io := w_io w; w_listeners := w_listeners w;
     w_inFlight := w_inFlight w; w_timers := w_timers w; w_posted := w_posted w;
     w_trace := w_trace w; w_dropped := w_dropped w ++ [x]; w_thread := w_thread w;
     w_workerThreadId := w_workerThreadId w |}.
Definition set_thread (x : Thread) (w : World) : World :=
  {| w_reqId := w_reqId w; w_state := w_state w; w_io := w_io w; w_listeners := w_listeners w;
     w_inFlight := w_inFlight w; w_timers := w_timers w; w_posted := w_posted w;
     w_trace := w_trace w; w_dropped := w_dropped w; w_thread := x;
     w_workerThreadId := w_workerThreadId w |}.
Definition set_workerThreadId (x : option Thread) (w : World) : World :=
  {| w_reqId := w_reqId w; w_state := w_state w; w_io := w_io w; w_listeners := w_listeners w;
     w_inFlight := w_inFlight w; w_timers := w_timers w; w_posted := w_posted w;
     w_trace := w_trace w; w_dropped := w_dropped w; w_thread := w_thread w;
     w_workerThreadId := x |}.

#[export, refine] Instance lens_state : Lens World (State HeartbeatFn) :=
  {| view := w_state; set_view := set_state |}.
Proof. all: by repeat intros []. Defined.
#[export, refine] Instance lens_io : Lens World ConnIO :=
  {| view := w_io; set_view := set_io |}.
Proof. all: by repeat intros []. Defined.
#[export, refine] Instance lens_timers : Lens World TS :=
  {| view := w_timers; set_view := set_timers |}.
Proof. 1: done. all: by repeat intros []. Defined.

(** ** Calls of the client's callbacks *)

(** A callback is called, and posts its requests ([PostRequest] below). *)
Definition observe (o : Observation) (w : World) : World :=
  match reaction o with
  | [] => add_trace o w
  | rs => set_requests (w_posted w ++ rs) (add_trace o w)
  end.

Definition call_back (o : Observation) : M World unit :=
  match raises o with
  | None => modify (observe o)
  | Some e => modify (observe o) ;; throw e
  end.

Definition call_handler (h : RequestHandler) (status : RequestStatus) (data : list Z)
    : M World unit :=
  call_back (HandlerCalled h status data).

Definition call_listener (l : Listener) (ev : Event) (msg : string) : M World unit :=
  call_back (ListenerCalled l ev msg).

Definition Broadcast (ev : Event) (msg : string) : M World unit :=
  w ← get; EventListeners_Broadcast call_listener (w_listeners w) ev msg.

(** [assert(std::this_thread::get_id() == _workerThreadId)]. *)
Definition assert_worker : M World unit :=
  w ← get;
  cpp_assert "std::this_thread::get_id() == _workerThreadId"
    (bool_decide (w_workerThreadId w = Some (w_thread w))).

(** ** Errors *)

Definition Connection_HandshakeFailed (ec : error_code) : M World unit :=
  with_lock (SetInited ;; Broadcast EventConnectionFailed (ec_message ec)).

Definition Connection_ConnectionError (ec : error_code) : M World unit :=
  with_lock
    (st ← get_state;
     if IsConnected st then
       SetInited ;;
       Broadcast EventConnectionError (ec_message ec) ;;
       zoom (W := World) TcpPacketStream_Disconnect
     else mret tt).

Definition Connection_KickedFromServer : M World unit :=
  with_lock
    (st ← get_state;
     if IsConnected st then
       SetInited ;;
       Broadcast EventKicked "Kicked from server" ;;
       zoom (W := World) TcpPacketStream_Disconnect
     else mret tt).

(** ** Heartbeats *)

Definition call_fn (f : HeartbeatFn) : M World unit :=
  match f with
  | SendHeartbeat => zoom (W := World) (SendPacket NewHeartbeat HeartbeatSent)
  | HeartbeatTimedOut => Connection_ConnectionError (make_error_code HeartbeatTimeout)
  end.

Definition HeartbeatSent_done (ec : error_code) : M World unit :=
  if ec_failed ec then Connection_ConnectionError ec else mret tt.

(** ** Requests *)

(** [PostRequest]: everything happens in the closure it posts. *)
Definition Connection_PostRequest (route : string) (data : list Z) (timeout : Z)
    (handler : RequestHandler) : M World unit :=
  modify (λ w, set_requests
    (w_posted w ++ [{| pr_route := route; pr_data := data; pr_timeout := timeout;
                       pr_handler := handler |}]) w).

Definition PostRequest_run (r : PostedRequest) : M World unit :=
  st ← get_state;
  if negb (IsConnected st) then call_handler (pr_handler r) StatusNotConnectedError []
  else
    match st_val st with
    | InitedState =>
        cpp_assert "ptr" false ;; undefined "null pointer dereference"
    | ConnectedState ptr =>
        assert_worker ;;
        w ← get;
        let id := w_reqId w in
        modify (set_reqId (u64 (id + 1))) ;;
        let msg := Message_NewRequest id (pr_route r) (pr_data r) in
        packet ← NewData_message msg (routeToCode ptr);
        zoom (W := World) (SendPacket packet (RequestSent (pr_timeout r) msg (pr_handler r)))
    end.

(** The construction of a [Request]: its timer is armed. *)
Definition Request_new (handler : RequestHandler) (timeoutSeconds id : Z) : M World Request :=
  t ← timer_new;
  timer_op (ts_expires t (ExpiresAfter timeoutSeconds)) ;;
  timer_op (ts_async_wait t (CbRequestTimeout id)) ;;
  mret {| req_handler := handler; req_timer := t |}.

(** The destruction of a [Request]: its timer goes with it. *)
Definition Request_destroy (r : Request) : M World unit :=
  timer_op (ts_destroy (req_timer r)).

(** [_inFlightRequests.emplace]: an element whose key is taken is destroyed at once. *)
Definition inFlight_emplace (id : Z) (handler : RequestHandler) (timeout : Z) : M World unit :=
  r ← Request_new handler timeout id;
  w ← get;
  match w_inFlight w !! id with
  | Some _ => Request_destroy r ;; modify (add_dropped handler)
  | None => modify (set_inFlight (<[id := r]> (w_inFlight w)))
  end.

(** [_inFlightRequests.erase]. *)
Definition inFlight_erase (id : Z) : M World unit :=
  w ← get;
  match w_inFlight w !! id with
  | Some r => Request_destroy r ;; modify (set_inFlight (delete id (w_inFlight w)))
  | None => mret tt
  end.

Definition RequestSent_done (timeout : Z) (msg : Message) (handler : RequestHandler)
    (ec : error_code) : M World unit :=
  if ec_failed ec then call_handler handler StatusInternalError []
  else
    w ← get;
    cpp_assert "The request id should be unique"
      (bool_decide (w_inFlight w !! msg_id msg = None)) ;;
    inFlight_emplace (msg_id msg) handler timeout.

Definition Connection_ProcessRequestTimeout (id : Z) : M World unit :=
  w ← get;
  match w_inFlight w !! id with
  | None => mret tt
  | Some req => call_handler (req_handler req) StatusTimeout [] ;; inFlight_erase id
  end.

(** The lambda given to the timer of a request. *)
Definition RequestTimeout_done (id : Z) (ec : error_code) : M World unit :=
  if ec_failed ec then mret tt else Connection_ProcessRequestTimeout id.

(** ** Messages and packets *)

Definition Connection_ProcessMessage (msg : Message) : M World unit :=
  match msg_type msg with
  | MT_Response =>
      w ← get;
      match w_inFlight w !! msg_id msg with
      | None => mret tt
      | Some request =>
          (if msg_error msg
           then call_handler (req_handler request) StatusServerError (msg_data msg)
           else call_handler (req_handler request) StatusOk (msg_data msg)) ;;
          inFlight_erase (msg_id msg)
      end
  | MT_Push => mret tt
  | MT_Request => mret tt
  | MT_Notify => mret tt
  end.

Definition Connection_ProcessPacket (packet : Packet) : M World unit :=
  match pkt_type packet with
  | PT_Heartbeat => ExtendHeartbeatTimeout
  | PT_Data =>
      st ← get_state;
      if negb (IsConnected st) then Connection_ConnectionError (make_error_code WrongPacket)
      else
        match st_val st with
        | InitedState => cpp_assert "connectedState" false ;; undefined "null pointer dereference"
        | ConnectedState connectedState =>
            maybeMsg ← Message_Deserialize zlib_fuel (pkt_body packet) (codeToRoute connectedState);
            match maybeMsg with
            | None => Connection_ConnectionError (make_error_code InvalidMessage)
            | Some msg => Connection_ProcessMessage msg
            end
        end
  | PT_Kick => Connection_KickedFromServer
  | _ =>
      cpp_assert "Should not receive packets other than heartbeat, data and kick" false ;;
      Connection_ConnectionError (make_error_code WrongPacket)
  end.

Definition Connection_ReceivePackets : M World unit :=
  zoom (W := World) (ReceivePackets PacketsReceived).

Definition PacketsReceived_done (ec : error_code) (packets : list Packet) : M World unit :=
  if ec_failed ec then Connection_ConnectionError ec
  else
    cpp_assert "packets.size() == 1" (Z.of_nat (length packets) =? 1) ;;
    for_each packets Connection_ProcessPacket ;;
    Connection_ReceivePackets.

(** ** The handshake *)

Definition Connection_StartReceivingPackets (heartbeatInterval : Z) (serializer : string)
    (routeDict : gmap string Z) : M World unit :=
  with_lock
    (SetConnected heartbeatInterval serializer routeDict SendHeartbeat HeartbeatTimedOut ;;
     Broadcast EventConnected "Connection successful") ;;
  Connection_ReceivePackets.

Definition HandshakeAckSent_done (heartbeatInterval : Z) (serializer : string)
    (routeDict : gmap string Z) (ec : error_code) : M World unit :=
  if ec_failed ec then mret tt
  else Connection_StartReceivingPackets heartbeatInterval serializer routeDict.

(** The early returns of [SendHandshakeAck] before anything is read from the document. *)
Definition Connection_SendHandshakeAck (handshakeResponse : string) : M World unit :=
  let reject := Connection_ConnectionError (make_error_code InvalidHeartbeatJson) in
  match JParse (c_str handshakeResponse) with
  | None => reject
  | Some doc =>
    has_sys ← HasMember doc "sys";
    if negb has_sys then reject else
    sys ← Member doc "sys";
    has_heartbeat ← HasMember sys "heartbeat";
    if negb has_heartbeat then reject else
    heartbeat ← Member sys "heartbeat";
    match JUint64 heartbeat with
    | None => reject
    | Some seconds =>
      has_serializer ← HasMember sys "serializer";
      serializer ←
        (if negb has_serializer then mret "json"%string
         else v ← Member sys "serializer";
              match JString v with
              | None => mret "json"%string
              | Some s => mret (c_str s)
              end);
      has_dict ← HasMember sys "dict";
      routeDict ←
        (if (has_dict : bool) then
           v ← Member sys "dict";
           mret (if JIsObject v then read_dict (JMembers v) ∅ else ∅)
         else mret ∅);
      let heartbeatInterval := i64 seconds in
      zoom (W := World)
        (SendPacket NewHandshakeAck (HandshakeAckSent heartbeatInterval serializer routeDict))
    end
  end.

Definition Connection_ReceiveHandshakeResponse : M World unit :=
  assert_worker ;; zoom (W := World) (ReceivePackets HandshakeResponseReceived).

(** The text of a handshake packet, or [None] when [Decompress] reports a failure. *)
Definition handshake_text (body : list Z) : M World (option string) :=
  compressed ← IsCompressed body;
  if (compressed : bool) then
    match Decompress zlib_fuel 0 body with
    | None => crash FuelExhausted
    | Some d =>
        if negb (d_rc d =? 0) then mret None else
        match output_bytes d with
        | Some output => mret (Some (string_of_bytes output))
        | None => undefined "read of indeterminate bytes"
        end
    end
  else mret (Some (string_of_bytes body)).

Definition HandshakeResponseReceived_done (ec : error_code) (packets : list Packet)
    : M World unit :=
  if ec_failed ec then Connection_HandshakeFailed ec else
  cpp_assert "packets.size() > 0" (0 <? Z.of_nat (length packets)) ;;
  if 1 <? Z.of_nat (length packets) then
    Connection_HandshakeFailed (make_error_code TooManyPackets)
  else
    packet ← vec_at "packets" packets 0;
    if negb (bool_decide (pkt_type packet = PT_Handshake)) then
      Connection_HandshakeFailed (make_error_code WrongPacket)
    else
      handshakeResponse ← handshake_text (pkt_body packet);
      match handshakeResponse with
      | None => Connection_ConnectionError (make_error_code InvalidHandshakeCompression)
      | Some text => Connection_SendHandshakeAck text
      end.

(** The literal of [SendHandshake], written with apostrophes for the quotes. *)
Fixpoint with_quotes (s : string) : string :=
  match s with
  | EmptyString => EmptyString
  | String a s =>
      String (if decide (a = Ascii.ascii_of_nat 39) then Ascii.ascii_of_nat 34 else a)
        (with_quotes s)
  end.

Definition handshake_json : string :=
  with_quotes
    ("{'sys': {'platform': 'mac', 'libVersion': '0.3.5-release', "
     +:+ "'clientBuildNumber': '20', 'clientVersion': '2.1'}, 'user': {}}").

Definition Connection_SendHandshake : M World unit :=
  assert_worker ;;
  zoom (W := World) (SendPacket (NewHandshake handshake_json) HandshakeSent).

Definition HandshakeSent_done (ec : error_code) : M World unit :=
  if ec_failed ec then Connection_HandshakeFailed ec
  else Connection_ReceiveHandshakeResponse.

(** ** Start *)

Definition StartConnected_done (host port : string) (ec : error_code) : M World unit :=
  assert_worker ;;
  if ec_failed ec then Connection_HandshakeFailed ec else Connection_SendHandshake.

Definition Connection_Start (address : string) : M World unit :=
  w ← get;
  cpp_assert "std::this_thread::get_id() != _workerThreadId"
    (bool_decide (w_workerThreadId w ≠ Some (w_thread w))) ;;
  match SplitHostAndPort address with
  | None => mret tt
  | Some (host, port) =>
      catch_system
        (zoom (W := World) (TcpPacketStream_Connect resolve host port (StartConnected host port)))
        (λ what, throw (PitayaException ("Error starting the connection: " +:+ what)))
  end.

Definition Connection_AddEventListener (l : Listener) : M World unit :=
  modify (λ w, set_listeners (EventListeners_Add l (w_listeners w)) w).

(** [StartWorkerThread], up to the call of [_ioContext->run()]. *)
Definition Connection_StartWorkerThread : M World unit :=
  modify (λ w, set_workerThreadId (Some (w_thread w)) w).

(** The object after its constructor, before the worker thread runs. *)
Definition Connection_new : World := {|
  w_reqId := 1;
  w_state := State_new InitedState;
  w_io := StreamIO_new 2048;
  w_listeners := EventListeners_empty;
  w_inFlight := ∅;
  w_timers := ts_empty;
  w_posted := [];
  w_trace := [];
  w_dropped := [];
  w_thread := ClientThread;
  w_workerThreadId := None |}.

(** ** Calls of the lambdas *)

Definition call_send (h : SendHandler) (ec : error_code) : M World unit :=
  match h with
  | HandshakeSent => HandshakeSent_done ec
  | HandshakeAckSent interval serializer dict => HandshakeAckSent_done interval serializer dict ec
  | HeartbeatSent => HeartbeatSent_done ec
  | RequestSent timeout msg handler => RequestSent_done timeout msg handler ec
  end.

Definition call_receive (h : ReceiveHandler) (ec : error_code) (packets : list Packet)
    : M World unit :=
  match h with
  | HandshakeResponseReceived => HandshakeResponseReceived_done ec packets
  | PacketsReceived => PacketsReceived_done ec packets
  end.

Definition call_connect (h : ConnectHandler) (ec : error_code) : M World unit :=
  match h with StartConnected host port => StartConnected_done host port ec end.

Definition call_timer (cb : ConnTimerCb) (ec : error_code) : M World unit :=
  match cb with
  | CbHeartbeatTick => HeartbeatTick call_fn ec
  | CbHeartbeatTimeout f => HeartbeatTimeout_done call_fn f ec
  | CbRequestTimeout id => RequestTimeout_done id ec
  end.
End connection.

(** A client whose callbacks make no requests, and return: the one meant where no other is
    named. *)
#[export] Instance quiet_client : Reaction | 100 := λ _, [].
#[export] Instance callbacks_return : Raising | 100 := λ _, None.

(** ** Effects *)

Section connection_effects.
Context `{BuildMode, BoostMessages, Zlib, Allocator, RapidJson, Resolver, DecompressFuel}.
Context `{!TimerService ConnTimerCb, !UnorderedIteration}.

Lemma pure_assert_worker : pure_comp assert_worker.
Proof. unfold assert_worker. pure_tac. Qed.

Lemma pure_handshake_text body : pure_comp (handshake_text body).
Proof. unfold handshake_text. pure_tac. Qed.

Lemma call_listener_Ret l ev msg w :
  call_listener l ev msg w = Ret tt (add_trace (ListenerCalled l ev msg) w).
Proof. done. Qed.

(** Answering a request: its handler is called, and it leaves the map with its timer. *)
Lemma answer_Ret id r status data w :
  w_inFlight w !! id = Some r →
  (call_handler (req_handler r) status data ;; inFlight_erase id) w =
    Ret tt (set_inFlight (delete id (w_inFlight w))
              (set_timers (ts_destroy (req_timer r) (w_timers w))
                 (add_trace (HandlerCalled (req_handler r) status data) w))).
Proof.
  intros Hr. unfold inFlight_erase, call_handler. simpl.
  unfold mbind at 1, M_bind at 1. simpl. unfold mbind at 1, M_bind at 1. simpl. by rewrite Hr.
Qed.

Lemma timer_op_Ret f w : timer_op f w = Ret tt (set_timers (f (w_timers w)) w).
Proof. done. Qed.

Lemma timer_new_Ret w :
  timer_new w = Ret (ts_new (w_timers w)).1 (set_timers (ts_new (w_timers w)).2 w).
Proof. done. Qed.

Lemma get_state_Ret w : get_state w = Ret (w_state w) w.
Proof. done. Qed.

(** The [Request] built by [emplace] holds the handler. *)
Lemma Request_new_Ret handler timeout id w :
  ∃ t s, Request_new handler timeout id w =
    Ret {| req_handler := handler; req_timer := t |} (set_timers s w).
Proof. by do 2 eexists. Qed.

(** *** What does not throw *)

Lemma no_throw_SendPacket p h : no_throw (zoom (W := World) (SendPacket p h)).
Proof. apply no_throw_zoom. unfold SendPacket. no_throw_tac. Qed.

Lemma no_throw_ReceivePackets h : no_throw (zoom (W := World) (ReceivePackets h)).
Proof. apply no_throw_zoom. unfold ReceivePackets, ReadToBuffer, TcpSocket_Receive. no_throw_tac. Qed.

Lemma no_throw_get_state : no_throw (get_state : M World (State HeartbeatFn)).
Proof. done. Qed.

Lemma no_throw_timer_op f : no_throw (timer_op f : M World unit).
Proof. done. Qed.

Lemma no_throw_destroy_val : no_throw (destroy_val (W := World)).
Proof.
  unfold destroy_val, timer_op.
  apply no_throw_bind; [apply no_throw_get_state|]. no_throw_tac.
Qed.

Lemma no_throw_SetInited : no_throw (SetInited (W := World)).
Proof. apply no_throw_bind; [apply no_throw_destroy_val|]. intros. apply no_throw_modify. Qed.

Lemma no_throw_handshake_text body : no_throw (handshake_text body).
Proof. unfold handshake_text. no_throw_tac. Qed.

Lemma no_throw_inFlight_erase id : no_throw (inFlight_erase id).
Proof. unfold inFlight_erase, Request_destroy, timer_op. no_throw_tac. Qed.

Lemma no_throw_SetConnected n s d f g : no_throw (SetConnected (W := World) n s d f g).
Proof.
  apply no_throw_bind; [case_match; [apply no_throw_ret|apply no_throw_undefined]|intros _].
  apply no_throw_bind; [by repeat (apply no_throw_bind; [done|intros ?])|intros c].
  do 4 (apply no_throw_bind; [apply no_throw_timer_op|intros _]).
  apply no_throw_bind; [apply no_throw_destroy_val|intros _]. apply no_throw_modify.
Qed.

Lemma no_throw_assert_worker : no_throw assert_worker.
Proof. apply no_throw_bind; [apply no_throw_get|intros]. apply no_throw_assert. Qed.

Lemma no_throw_inFlight_emplace id h t : no_throw (inFlight_emplace id h t).
Proof.
  intros w e w'. unfold inFlight_emplace. destruct (Request_new_Ret h t id w) as (x & s & E). run E.
  rewrite (bind_Ret get _ _ _ _ eq_refl). by destruct (_ !! id).
Qed.

Lemma no_throw_ExtendHeartbeatTimeout : no_throw (ExtendHeartbeatTimeout (W := World)).
Proof. apply no_throw_bind; [apply no_throw_get_state|intros st]. by case_match. Qed.
End connection_effects.

#[export] Hint Resolve no_throw_SendPacket no_throw_ReceivePackets no_throw_get_state
  no_throw_timer_op no_throw_SetInited no_throw_handshake_text no_throw_inFlight_erase
  no_throw_SetConnected no_throw_assert_worker no_throw_inFlight_emplace
  no_throw_ExtendHeartbeatTimeout : no_throw.
#[export] Hint Resolve pure_assert_worker pure_handshake_text : pure.

(** *** The exceptions of the client and of the socket *)

Section unwinding.
Context `{BuildMode, BoostMessages, Zlib, Allocator, RapidJson, Resolver, DecompressFuel}.
Context `{!TimerService ConnTimerCb, !UnorderedIteration}.
Context {client : Reaction} {raising : Raising} {closing : Closing}.

(** The last thing that happened is that the socket could not be closed, or that a callback
    threw. *)
Definition close_failed (e : exn) (w : World) : Prop :=
  ∃ calls what, e = SystemError what ∧ io_calls (w_io w) = calls ++ [CallClose] ∧
    close_error calls = Some what.
Definition callback_threw (e : exn) (w : World) : Prop :=
  ∃ o, last (w_trace w) = Some o ∧ raises o = Some e.
Definition unwinding (e : exn) (w : World) : Prop := close_failed e w ∨ callback_threw e w.

Local Abbreviation throws := (throws unwinding).

Lemma throws_Disconnect : throws (zoom (W := World) TcpPacketStream_Disconnect).
Proof.
  intros w e w'. unfold zoom, TcpPacketStream_Disconnect, TcpSocket_Shutdown, TcpSocket_Close.
  unfold mbind, M_bind, modify, get. cbn. destruct (close_error _) as [what|] eqn:Ec; [|done].
  intros [= <- <-]. left. by eexists _, what.
Qed.

Lemma observe_last o (w : World) : last (w_trace (observe o w)) = Some o.
Proof. unfold observe. destruct (reaction o); simpl; by rewrite last_snoc. Qed.

Lemma throws_call_back o : throws (call_back o).
Proof.
  intros w e w'. unfold call_back. destruct (raises o) as [e'|] eqn:Er; [|done].
  intros [= <- <-]. right. exists o. split; [apply observe_last|done].
Qed.

(** The mutex is free again when an exception has left the scope of the lock. *)
Lemma throws_with_lock {A} (m : M World A) : throws m → throws (with_lock m).
Proof.
  intros Hm w e w'. unfold with_lock. case_match; [done|].
  unfold mbind at 1, M_bind at 1. simpl. destruct (m _) as [|e1 w1|] eqn:E; [done| |done].
  intros [= <- <-]. exact (Hm _ _ _ E).
Qed.

Lemma throws_Broadcast ev msg : throws (Broadcast ev msg).
Proof.
  unfold Broadcast, EventListeners_Broadcast. throws_tac. apply throws_call_back.
Qed.
End unwinding.

#[export] Hint Resolve throws_Disconnect throws_call_back throws_with_lock throws_Broadcast : throws.

Section connection_throws.
Context `{BuildMode, BoostMessages, Zlib, Allocator, RapidJson, Resolver, DecompressFuel}.
Context `{!TimerService ConnTimerCb, !UnorderedIteration}.
Context {client : Reaction} {raising : Raising} {closing : Closing}.
Local Abbreviation throws := (throws unwinding).

Lemma throws_HandshakeFailed ec : throws (Connection_HandshakeFailed ec).
Proof. apply throws_with_lock. throws_tac. Qed.

Lemma throws_ConnectionError ec : throws (Connection_ConnectionError ec).
Proof. apply throws_with_lock. throws_tac. Qed.

Lemma throws_KickedFromServer : throws Connection_KickedFromServer.
Proof. apply throws_with_lock. throws_tac. Qed.
#[local] Hint Resolve throws_HandshakeFailed throws_ConnectionError throws_KickedFromServer : throws.

Lemma throws_call_handler h s d : throws (call_handler h s d).
Proof. apply throws_call_back. Qed.
#[local] Hint Resolve throws_call_handler : throws.

Lemma throws_SendHandshakeAck text : throws (Connection_SendHandshakeAck text).
Proof. unfold Connection_SendHandshakeAck. throws_tac. Qed.

Lemma throws_ProcessMessage msg : throws (Connection_ProcessMessage msg).
Proof. unfold Connection_ProcessMessage. throws_tac. Qed.

Lemma throws_call_fn f : throws (call_fn f).
Proof. destruct f; simpl; throws_tac. Qed.
#[local] Hint Resolve throws_SendHandshakeAck throws_ProcessMessage throws_call_fn : throws.

Lemma throws_ProcessPacket packet : throws (Connection_ProcessPacket packet).
Proof. unfold Connection_ProcessPacket. throws_tac. Qed.
#[local] Hint Resolve throws_ProcessPacket : throws.

(** The handlers given to [ReceivePackets]. *)
Lemma throws_call_receive h ec packets : throws (call_receive h ec packets).
Proof.
  destruct h; simpl; unfold HandshakeResponseReceived_done, PacketsReceived_done,
    Connection_ReceivePackets; throws_tac.
Qed.

Lemma throws_call_timer cb ec : throws (call_timer cb ec).
Proof.
  destruct cb; simpl; unfold HeartbeatTick, HeartbeatTimeout_done, RequestTimeout_done,
    Connection_ProcessRequestTimeout; throws_tac.
Qed.

Lemma throws_call_send h ec : throws (call_send h ec).
Proof.
  destruct h; simpl; unfold HandshakeSent_done, Connection_ReceiveHandshakeResponse,
    HandshakeAckSent_done, Connection_StartReceivingPackets, Connection_ReceivePackets,
    HeartbeatSent_done, RequestSent_done; throws_tac.
  apply throws_with_lock. throws_tac.
Qed.

Lemma throws_call_connect h ec : throws (call_connect h ec).
Proof. destruct h. simpl. unfold StartConnected_done, Connection_SendHandshake. throws_tac. Qed.
End connection_throws.

(** *** When callbacks return and the socket closes, none of it throws *)

Section no_unwinding.
Context `{BuildMode, BoostMessages, Zlib, Allocator, RapidJson, Resolver, DecompressFuel}.
Context `{!TimerService ConnTimerCb, !UnorderedIteration}.

Lemma no_unwinding {A} (m : M World A) : throws unwinding m → no_throw m.
Proof. intros Hm. apply (no_throw_throws _ m Hm). by intros e w [(? & ? & ? & ? & ?)|(? & ? & ?)]. Qed.

Lemma no_throw_ProcessPacket packet : no_throw (Connection_ProcessPacket packet).
Proof. apply no_unwinding, throws_ProcessPacket. Qed.

Lemma no_throw_call_receive h ec packets : no_throw (call_receive h ec packets).
Proof. apply no_unwinding, throws_call_receive. Qed.
End no_unwinding.
