(* ===== verification/Client.v ===== *)
(** * The client object (include/pitaya.h, src/pitaya.cpp)

    [Client] owns one [Connection] and forwards to it; its state is the connection's. *)

From S2P Require Import Prelude Outcome Net Errors Events Gzip Message Packet ReadBuffer.
From S2P Require Import TcpPacketStream ConnState Json Connection.

Section client.
Context `{BuildMode, BoostMessages, Zlib, Allocator, RapidJson, Resolver, DecompressFuel}.
Context `{!TimerService ConnTimerCb, !UnorderedIteration}.

(** [Client::Client]: the constructor of the connection. *)
Definition Client_new : World := Connection_new.

Definition Client_Connect (address : string) : M World unit := Connection_Start address.

Definition Client_AddEventListener (listener : Listener) : M World unit :=
  Connection_AddEventListener listener.

(** The two overloads of [Client::Request]; [data] is empty in the shorter one. *)
Definition Client_Request_data (route : string) (data : list Z) (timeout : Z)
    (handler : RequestHandler) : M World unit :=
  Connection_PostRequest route data timeout handler.

Definition Client_Request (route : string) (timeout : Z) (handler : RequestHandler) : M World unit :=
  Connection_PostRequest route [] timeout handler.
End client.
