(* ===== verification/System.v ===== *)
(** * The running program

    The steps of a [Connection] and its environment. A label says what happens next: a call
    of the client, or the completion, on the worker thread, of one thing the connection is
    waiting for. The environment chooses the label: no order between pending completions is
    assumed, nor anything about the results they come with, except that a receive does not
    return more bytes than it was given room for, and that timers follow [TimerService]. *)

From S2P Require Import Prelude Outcome Net Errors Events Gzip Message Packet ReadBuffer.
From S2P Require Import TcpPacketStream ConnState Json Connection Client.

Section system.
Context `{BuildMode, BoostMessages, Zlib, Allocator, RapidJson, Resolver, DecompressFuel}.
Context `{!TimerService ConnTimerCb, !UnorderedIteration} {client : Reaction}.
Context {raising : Raising} {closing : Closing}.

Inductive label :=
| LStart (address : string)
| LAddListener (l : Listener)
| LRequest (route : string) (data : list Z) (timeout : Z) (handler : RequestHandler)
| LRunRequest (i : nat)
| LSendNext (i : nat)
| LSendDone (i : nat) (ec : error_code) (nwritten : Z)
| LReceiveDone (i : nat) (ec : error_code) (data : list Z)
| LConnectDone (i : nat) (ec : error_code)
| LTimer (t : nat) (cb : ConnTimerCb) (ec : error_code) (s : TS).

(** Take the [i]-th pending item of a list out of the world. *)
Definition take_pending {A} (pending : World → list A) (set : list A → World → World) (i : nat)
    : M World A :=
  w ← get;
  match pending w !! i with
  | Some x => modify (set (delete i (pending w))) ;; mret x
  | None => undefined "not pending"
  end.

Definition take_request := take_pending w_posted set_requests.
Definition take_posted := take_pending (λ w, io_posted (w_io w)) (λ l w, set_io (set_posted l (w_io w)) w).
Definition take_send := take_pending (λ w, io_sends (w_io w)) (λ l w, set_io (set_sends l (w_io w)) w).
Definition take_receive :=
  take_pending (λ w, io_receives (w_io w)) (λ l w, set_io (set_receives l (w_io w)) w).
Definition take_connect :=
  take_pending (λ w, io_connects (w_io w)) (λ l w, set_io (set_connects l (w_io w)) w).

Definition on_thread (t : Thread) (m : M World unit) : M World unit :=
  modify (set_thread t) ;; m.

Definition action (l : label) : M World unit :=
  match l with
  | LStart address => on_thread ClientThread (Client_Connect address)
  | LAddListener l => on_thread ClientThread (Client_AddEventListener l)
  | LRequest route data timeout handler =>
      on_thread ClientThread (Client_Request_data route data timeout handler)
  | LRunRequest i => on_thread WorkerThread (r ← take_request i; PostRequest_run r)
  | LSendNext i =>
      on_thread WorkerThread (h ← take_posted i; zoom (W := World) (SendNextPacket h))
  | LSendDone i ec nwritten =>
      on_thread WorkerThread
        (op ← take_send i;
         SendNextPacket_done (RH := ReceiveHandler) (CH := ConnectHandler) (EP := Endpoints)
           call_send (so_id op) (so_handler op) ec nwritten)
  | LReceiveDone i ec data =>
      on_thread WorkerThread
        (op ← take_receive i;
         socket_wrote (SH := SendHandler) (RH := ReceiveHandler) (CH := ConnectHandler)
           (EP := Endpoints) (ro_offset op) data ;;
         ReadToBuffer_done (SH := SendHandler) (CH := ConnectHandler) (EP := Endpoints)
           call_receive (ro_handler op) ec (Z.of_nat (length data)))
  | LConnectDone i ec =>
      on_thread WorkerThread (op ← take_connect i; Connect_done call_connect (co_handler op) ec)
  | LTimer t cb ec s =>
      on_thread WorkerThread (modify (set_timers s) ;; call_timer cb ec)
  end.

Definition enabled (w : World) (l : label) : Prop :=
  match l with
  | LStart _ | LAddListener _ | LRequest _ _ _ _ => True
  | LRunRequest i => is_Some (w_posted w !! i)
  | LSendNext i => is_Some (io_posted (w_io w) !! i)
  | LSendDone i _ _ => is_Some (io_sends (w_io w) !! i)
  | LReceiveDone i _ data =>
      bytes_wf data ∧ ∃ op, io_receives (w_io w) !! i = Some op ∧ Z.of_nat (length data) ≤ ro_size op
  | LConnectDone i _ => is_Some (io_connects (w_io w) !! i)
  | LTimer t cb ec s => ts_fire (w_timers w) t cb ec s
  end.

Definition is_client (l : label) : bool :=
  match l with LStart _ | LAddListener _ | LRequest _ _ _ _ => true | _ => false end.

(** An exception that leaves a completion ends the process ([std::terminate] in the worker
    thread); one that leaves a call of the client is the client's to catch. *)
Inductive step (w : World) (l : label) : World → Prop :=
| step_return w' : enabled w l → action l w = Ret tt w' → step w l w'
| step_throw e w' : is_client l = true → action l w = Throw e w' → step w l w'.

Inductive steps : World → list label → World → Prop :=
| steps_nil w : steps w [] w
| steps_snoc w ls w1 l w2 : steps w ls w1 → step w1 l w2 → steps w (ls ++ [l]) w2.

(** The members are initialised in the order of connection.h, so that the worker thread is
    started before [_workerThreadId] is initialised: its store of its id and the
    initialisation come in either order. Nothing else the worker thread does before the
    client's first call depends on the members that follow. *)
Definition initialise_id (w : World) : World := set_workerThreadId None w.
Definition store_id (w : World) : World :=
  match on_thread WorkerThread Connection_StartWorkerThread w with
  | Ret _ w' => set_thread (w_thread w) w'
  | _ => w
  end.

(** The connection after its constructor, with its worker thread running: the order the code
    relies on, and the other one. [Startup] compares them. *)
Definition initial : World := store_id (initialise_id Client_new).
Definition initial_overwritten : World := initialise_id (store_id Client_new).

(** The request handlers the client has given. *)
Definition requested_by (l : label) : list RequestHandler :=
  match l with LRequest _ _ _ h => [h] | _ => [] end.
Definition requested (ls : list label) : list RequestHandler := ls ≫= requested_by.

(** Executions by computation: of every label but the timers', whether it is enabled is
    decidable. *)
Definition enabledb (w : World) (l : label) : bool :=
  match l with
  | LStart _ | LAddListener _ | LRequest _ _ _ _ => true
  | LRunRequest i => bool_decide (i < length (w_posted w))%nat
  | LSendNext i => bool_decide (i < length (io_posted (w_io w)))%nat
  | LSendDone i _ _ => bool_decide (i < length (io_sends (w_io w)))%nat
  | LReceiveDone i _ data =>
      match io_receives (w_io w) !! i with
      | Some op => forallb (λ b, (0 <=? b) && (b <? 256)) data && (Z.of_nat (length data) <=? ro_size op)
      | None => false
      end
  | LConnectDone i _ => bool_decide (i < length (io_connects (w_io w)))%nat
  | LTimer _ _ _ _ => false
  end.

Fixpoint exec (ls : list label) (w : World) : option World :=
  match ls with
  | [] => Some w
  | l :: ls =>
      if enabledb w l then
        match action l w with Ret _ w' => exec ls w' | _ => None end
      else None
  end.

Lemma enabledb_spec w l : enabledb w l = true → enabled w l.
Proof.
  destruct l; simpl; try done; rewrite ?bool_decide_eq_true; try by apply lookup_lt_is_Some_2.
  destruct (_ !! _) as [op|] eqn:E; [|done].
  intros [Hb Hl%Z.leb_le]%andb_true_iff. split; [|by exists op].
  apply Forall_forall. intros b Hin. rewrite forallb_forall in Hb.
  specialize (Hb b ltac:(by apply list_elem_of_In)). unfold byte_wf. bool_to_prop. lia.
Qed.

Lemma steps_cons w l w1 ls w2 : step w l w1 → steps w1 ls w2 → steps w (l :: ls) w2.
Proof.
  intros Hl Hs. induction Hs as [w1|w1 ls w2 l' w3 Hs IH Hl'].
  - change [l] with ([] ++ [l]). eapply steps_snoc; [apply steps_nil|done].
  - change (l :: ls ++ [l']) with ((l :: ls) ++ [l']). eapply steps_snoc; [by apply IH|done].
Qed.

Lemma steps_app w ls1 w1 ls2 w2 : steps w ls1 w1 → steps w1 ls2 w2 → steps w (ls1 ++ ls2) w2.
Proof.
  intros Hs1 Hs2. induction Hs2 as [|w1 ls2 w2 l w3 _ IH Hl]; [by rewrite app_nil_r|].
  rewrite (assoc_L (++)). eapply steps_snoc; [by apply IH|done].
Qed.

Lemma steps_nil_inv w w' : steps w [] w' → w' = w.
Proof. intros Hs. inversion Hs as [|? ls]; [done|]. by destruct ls. Qed.

Lemma steps_app_inv w ls1 ls2 w' : steps w (ls1 ++ ls2) w' → ∃ w1, steps w ls1 w1 ∧ steps w1 ls2 w'.
Proof.
  revert w'. induction ls2 as [|l ls2 IH] using rev_ind; intros w' Hs.
  { rewrite app_nil_r in Hs. exists w'. by split; [|constructor]. }
  rewrite app_assoc in Hs. inversion Hs as [? E|? ls w1 l' ? Hs1 Hl]; [by destruct (ls1 ++ ls2)|].
  simplify_list_eq. destruct (IH _ Hs1) as (w2 & ? & ?). exists w2. split; [done|]. by econstructor.
Qed.

Lemma steps_cons_inv w l ls w' : steps w (l :: ls) w' → ∃ w1, step w l w1 ∧ steps w1 ls w'.
Proof.
  intros (w1 & Hs1 & Hs2)%(steps_app_inv w [l]). exists w1. split; [|done].
  inversion Hs1 as [|? ls' w0 l' ? Hs0 Hl E]. destruct ls' as [|? []]; simplify_list_eq.
  by rewrite (steps_nil_inv _ _ Hs0) in Hl.
Qed.

(** A label says which step is taken and with what result: there is one way to take it. *)
Lemma step_det w l w1 w2 : step w l w1 → step w l w2 → w1 = w2.
Proof. intros Hs1 Hs2. destruct Hs1, Hs2; congruence. Qed.

Lemma steps_det w ls w1 w2 : steps w ls w1 → steps w ls w2 → w1 = w2.
Proof.
  revert w. induction ls as [|l ls IH]; intros w Hs1 Hs2.
  { by rewrite (steps_nil_inv _ _ Hs1), (steps_nil_inv _ _ Hs2). }
  apply steps_cons_inv in Hs1 as (u1 & Hu1 & Hs1), Hs2 as (u2 & Hu2 & Hs2).
  rewrite (step_det _ _ _ _ Hu1 Hu2) in Hs1. by eapply IH.
Qed.

Lemma exec_steps ls w w' : exec ls w = Some w' → steps w ls w'.
Proof.
  revert w. induction ls as [|l ls IH]; intros w; simpl.
  - intros [= <-]. apply steps_nil.
  - destruct (enabledb w l) eqn:En; [|done]. destruct (action l w) as [[] w1| |] eqn:E; [|done..].
    intros Hls. eapply steps_cons; [apply step_return; [by apply enabledb_spec|done]|by apply IH].
Qed.

(** The state an execution from the start ends in. *)
Definition reached (ls : list label) : World := default initial (exec ls initial).

Lemma reached_steps ls :
  match exec ls initial with Some _ => true | None => false end = true → steps initial ls (reached ls).
Proof.
  unfold reached. destruct (exec ls initial) as [w|] eqn:E; [|done]. intros _. by apply exec_steps.
Qed.

Lemma take_pending_Ret {A} pending set i (w : World) (x : A) w' :
  take_pending pending set i w = Ret x w' →
  pending w !! i = Some x ∧ w' = set (delete i (pending w)) w.
Proof.
  unfold take_pending. intros (w0 & ? & [= <- <-] & E)%bind_Ret_inv.
  destruct (pending w !! i) as [y|]; [|done].
  apply bind_Ret_inv in E as ([] & ? & [= <-] & [= <- <-]). done.
Qed.

Lemma take_pending_eq {A} pending set i (w : World) (x : A) :
  pending w !! i = Some x → take_pending pending set i w = Ret x (set (delete i (pending w)) w).
Proof.
  intros Hx. unfold take_pending. run (eq_refl : get w = Ret w w). by rewrite Hx.
Qed.

(** The only call of the client that can throw leaves the connection as it was. *)
Lemma client_throw l w e w' :
  is_client l = true → action l w = Throw e w' →
  (∃ address, l = LStart address) ∧ w' = set_thread ClientThread w.
Proof.
  destruct l as [address| | | | | | | |]; try done; intros _ E; try done.
  split; [by eexists|]. revert E. simpl. unfold on_thread. rewrite (bind_Ret (modify _) _ _ _ _ eq_refl).
  unfold Client_Connect, Connection_Start. rewrite (bind_Ret get _ _ _ _ eq_refl).
  set (b := bool_decide _). unfold cpp_assert, mbind at 1, M_bind at 1.
  destruct (SplitHostAndPort address) as [[host port]|]; [|by destruct ndebug, b].
  unfold zoom, catch_system, TcpPacketStream_Connect, catch_system, throw. simpl.
  destruct ndebug, b; try done; simpl; destruct (resolve host port); simpl; by intros [= _ <-].
Qed.

(** One that returns has at most asked the socket to connect. *)
Lemma start_Ret address w w' :
  action (LStart address) w = Ret tt w' →
  w' = set_thread ClientThread w ∨
  ∃ op, w' = set_io (add_call CallConnect (set_connects (io_connects (w_io w) ++ [op]) (w_io w)))
               (set_thread ClientThread w).
Proof.
  cbn [action]. unfold on_thread. rewrite (bind_Ret (modify _) _ _ _ _ eq_refl).
  unfold Client_Connect, Connection_Start. rewrite (bind_Ret get _ _ _ _ eq_refl).
  intros ([] & w1 & E1 & E)%bind_Ret_inv. apply pure_assert in E1 as ->.
  destruct (SplitHostAndPort address) as [[host port]|]; [|injection E as <-; by left].
  revert E. unfold catch_system, zoom, TcpPacketStream_Connect, catch_system.
  destruct (resolve host port) as [what|ep]; [done|]. intros [= <-]. right. by eexists.
Qed.

Definition is_request (l : label) : bool := match l with LRequest _ _ _ _ => true | _ => false end.
Definition is_start (l : label) : bool := match l with LStart _ => true | _ => false end.
Definition is_run_request (l : label) : bool := match l with LRunRequest _ => true | _ => false end.
Definition is_send_next (l : label) : bool := match l with LSendNext _ => true | _ => false end.
Definition count_labels (f : label → bool) (ls : list label) : nat :=
  length (filter (λ l, f l = true) ls).

Lemma count_labels_app f ls ls' :
  count_labels f (ls ++ ls') = (count_labels f ls + count_labels f ls')%nat.
Proof. unfold count_labels. by rewrite filter_app, length_app. Qed.

Lemma count_labels_snoc f ls l :
  count_labels f (ls ++ [l]) = (count_labels f ls + if f l then 1 else 0)%nat.
Proof. rewrite count_labels_app. f_equal. unfold count_labels. rewrite filter_cons. by destruct (f l). Qed.
End system.

(** Run [on_thread WorkerThread] and the taking of the pending item. *)
Ltac take_item Hi :=
  cbn [action]; unfold on_thread, take_request, take_posted, take_send, take_receive, take_connect;
  rewrite (bind_Ret (modify _) _ _ _ _ eq_refl);
  erewrite (bind_Ret (take_pending _ _ _)) by (apply take_pending_eq; exact Hi).
