(* ===== verification/Flow.v ===== *)
(** * Accounting for what is pending

    Request handlers, request ids and the activity of the receive loop all move between
    the same places: posted closures, queued sends, outstanding operations, requests in
    flight, callbacks made. A [Weight] counts something in each of them; the class [Flow]
    says that no lambda of the program hands on more than it was given. From these local
    laws the file derives, once, how the total changes in a step of the whole program; the
    three instances are in [Handlers]. *)

From S2P Require Import Prelude Outcome Net Errors Events Gzip Message Packet ReadBuffer.
From S2P Require Import TcpPacketStream ConnState Json Connection Client System.

Record Weight := {
  wt_posted : PostedRequest → nat;
  wt_send : SendHandler → nat;
  wt_ignored : SendHandler → nat;
  wt_receive : ReceiveHandler → nat;
  wt_connect : ConnectHandler → nat;
  wt_flight : Z → Request → nat;
  wt_obs : Observation → nat;
  wt_dropped : RequestHandler → nat;
}.

(** The laws: each lambda, and each place, with what can come out of it. *)
Class Flow (R : relation nat) (wt : Weight) (new_id : Z → nat) := {
  flow_accounting : Accounting R;
  flow_ignored h : R (wt_ignored wt h) (wt_send wt h);
  flow_listener l ev msg : R (wt_obs wt (ListenerCalled l ev msg)) 0%nat;
  flow_heartbeat : R (wt_send wt HeartbeatSent) 0%nat;
  flow_heartbeat_sent : R 0%nat (wt_send wt HeartbeatSent);
  flow_connected h : R (wt_send wt HandshakeSent) (wt_connect wt h);
  flow_not_connected h : R 0%nat (wt_connect wt h);
  flow_handshake_sent : R (wt_receive wt HandshakeResponseReceived) (wt_send wt HandshakeSent);
  flow_handshake_not_sent : R 0%nat (wt_send wt HandshakeSent);
  flow_received h : R 0%nat (wt_receive wt h);
  flow_response_received n s d :
    R (wt_send wt (HandshakeAckSent n s d)) (wt_receive wt HandshakeResponseReceived);
  flow_ack_sent n s d : R (wt_receive wt PacketsReceived) (wt_send wt (HandshakeAckSent n s d));
  flow_ack_not_sent n s d : R 0%nat (wt_send wt (HandshakeAckSent n s d));
  flow_refused r s d : R (wt_obs wt (HandlerCalled (pr_handler r) s d)) (wt_posted wt r);
  flow_request r id :
    R (wt_send wt (RequestSent (pr_timeout r) (Message_NewRequest id (pr_route r) (pr_data r))
         (pr_handler r))) (wt_posted wt r + new_id id)%nat;
  flow_not_sent t m h s d : R (wt_obs wt (HandlerCalled h s d)) (wt_send wt (RequestSent t m h));
  flow_sent t m h x :
    R (wt_flight wt (msg_id m) {| req_handler := h; req_timer := x |}) (wt_send wt (RequestSent t m h));
  flow_taken t m h : R (wt_dropped wt h) (wt_send wt (RequestSent t m h));
  flow_answered id r s d : R (wt_obs wt (HandlerCalled (req_handler r) s d)) (wt_flight wt id r);
}.

Section flow.
Context `{BuildMode, BoostMessages, Zlib, Allocator, RapidJson, Resolver, DecompressFuel}.
Context `{!TimerService ConnTimerCb, !UnorderedIteration}.
Context (R : relation nat) (wt : Weight) (new_id : Z → nat) `{!Flow R wt new_id}.

#[local] Instance flow_rel : Accounting R := flow_accounting (wt := wt) (new_id := new_id).

Definition total_io (io : ConnIO) : nat :=
  (sum_list_with (wt_send wt) (io_posted io)
   + sum_list_with (λ op, wt_send wt (so_handler op)) (io_sends io)
   + sum_list_with (wt_ignored wt) (io_ignored io)
   + sum_list_with (λ op, wt_receive wt (ro_handler op)) (io_receives io)
   + sum_list_with (λ op, wt_connect wt (co_handler op)) (io_connects io))%nat.

Definition total_flight (m : gmap Z Request) : nat :=
  sum_list_with (λ p, wt_flight wt p.1 p.2) (map_to_list m).

Definition total (w : World) : nat :=
  (sum_list_with (wt_posted wt) (w_posted w) + total_flight (w_inFlight w)
   + sum_list_with (wt_obs wt) (w_trace w) + sum_list_with (wt_dropped wt) (w_dropped w)
   + total_io (w_io w))%nat.

(** ** Places *)

Lemma total_flight_insert m id r :
  m !! id = None → total_flight (<[id := r]> m) = (wt_flight wt id r + total_flight m)%nat.
Proof. intros Hid. unfold total_flight. by rewrite map_to_list_insert. Qed.

Lemma total_flight_delete m id r :
  m !! id = Some r → total_flight m = (wt_flight wt id r + total_flight (delete id m))%nat.
Proof. intros Hid. unfold total_flight. by rewrite <- (map_to_list_delete _ _ _ Hid). Qed.

(** A change of the state, the timers or the listeners is not counted. *)
Lemma adds_uncounted f : (∀ w, total (f w) = total w) → adds R total 0 (modify f).
Proof. intros Hf. apply adds_modify. intros w. by rewrite Hf, Nat.add_0_r. Qed.

Lemma adds_zoom_io {A} k (m : M ConnIO A) : adds R total_io k m → adds R total k (zoom (W := World) m).
Proof.
  intros Hm. apply (adds_zoom R total total_io); [done|]. intros w s Hs.
  unfold total. simpl. rewrite <- !(Nat.add_assoc _ _ k). by apply (accounting_mono_l R).
Qed.

Lemma adds_with_lock {A} k (m : M World A) : adds R total k m → adds R total k (with_lock m).
Proof.
  intros Hm w a w'. unfold with_lock. destruct (st_locked _); [done|].
  destruct ((set_locked true ;; m) w) as [b w1| |] eqn:E; [|done..].
  apply bind_Ret_inv in E as ([] & w0 & [= <-] & E). intros [= <- <-].
  apply Hm in E. exact E.
Qed.

(** ** The stream *)

Lemma adds_io_uncounted f : (∀ io, total_io (f io) = total_io io) → adds R total_io 0 (modify f).
Proof. intros Hf. apply adds_modify. intros w. by rewrite Hf, Nat.add_0_r. Qed.

Lemma adds_SendPacket p h : adds R total_io (wt_send wt h) (SendPacket p h).
Proof.
  unfold SendPacket. adds_seq_tac. destruct (_ <? _).
  - adds_seq_tac; [by apply adds_io_uncounted|].
    apply adds_modify; intros io'; unfold total_io; simpl.
    rewrite sum_list_with_app. simpl. apply reflexive_eq. lia.
  - apply adds_modify. intros io'. unfold total_io. simpl. rewrite sum_list_with_app. simpl.
    rewrite Nat.add_0_r.
    replace (_ + _ + _ + _ + wt_send wt h)%nat with
      (sum_list_with (wt_send wt) (io_posted io')
       + sum_list_with (λ op, wt_send wt (so_handler op)) (io_sends io')
       + (sum_list_with (wt_ignored wt) (io_ignored io') + wt_send wt h)
       + sum_list_with (λ op, wt_receive wt (ro_handler op)) (io_receives io')
       + sum_list_with (λ op, wt_connect wt (co_handler op)) (io_connects io'))%nat by lia.
    do 2 apply accounting_mono. do 2 apply (accounting_mono_l R).
    apply (flow_ignored (new_id := new_id)).
Qed.

Lemma adds_SendNextPacket h : adds R total_io (wt_send wt h) (SendNextPacket h).
Proof.
  unfold SendNextPacket. do 2 adds_seq_tac.
  destruct (packetSendQueue _); [adds_leaf|].
  do 2 (adds_seq_tac; [by apply adds_io_uncounted|]).
  rewrite <- (Nat.add_0_r (wt_send wt h)). apply adds_bind; [apply _| |].
  - apply adds_modify. intros io'. unfold total_io. simpl. rewrite sum_list_with_app. simpl.
    apply reflexive_eq. lia.
  - intros ?. do 2 adds_seq_tac. by apply adds_io_uncounted.
Qed.

Lemma adds_ReceivePackets h : adds R total_io (wt_receive wt h) (ReceivePackets h).
Proof.
  unfold ReceivePackets, ReadToBuffer. adds_seq_tac.
  apply adds_modify. intros io'. unfold total_io. simpl. rewrite sum_list_with_app. simpl.
  apply reflexive_eq. lia.
Qed.

Lemma adds_Connect host port h :
  adds R total_io (wt_connect wt h) (TcpPacketStream_Connect resolve host port h).
Proof.
  unfold TcpPacketStream_Connect, catch_system, throw. intros io a io'.
  destruct (resolve host port); [done|]. simpl. intros [= <- <-]. unfold total_io. simpl.
  rewrite sum_list_with_app. simpl. apply reflexive_eq. lia.
Qed.

Lemma adds_Disconnect : adds R total_io 0 TcpPacketStream_Disconnect.
Proof.
  unfold TcpPacketStream_Disconnect. adds_seq_tac; by apply adds_io_uncounted.
Qed.

(** ** The state and the client's callbacks *)

Lemma adds_timer_op f : adds R total 0 (timer_op f).
Proof. by apply adds_uncounted. Qed.

Lemma adds_timer_new : adds R total 0 (timer_new (W := World)).
Proof. intros w a w' [= <- <-]. by rewrite Nat.add_0_r. Qed.

Lemma adds_get_state : adds R total 0 get_state.
Proof. intros w a w' [= <- <-]. by rewrite Nat.add_0_r. Qed.

Lemma adds_set_val v : adds R total 0 (set_val v).
Proof. by apply adds_uncounted. Qed.

Lemma adds_destroy_val : adds R total 0 (destroy_val (W := World)).
Proof.
  unfold destroy_val. adds_seq_tac; [apply adds_get_state|].
  case_match; [adds_leaf|]. adds_seq_tac; apply adds_timer_op.
Qed.

Lemma adds_SetInited : adds R total 0 (SetInited (W := World)).
Proof. unfold SetInited. adds_seq_tac; [apply adds_destroy_val|apply adds_set_val]. Qed.

Lemma adds_Connected_new n t s d f : adds R total 0 (Connected_new (W := World) n t s d f).
Proof. unfold Connected_new. do 2 (adds_seq_tac; [apply adds_timer_new|]). adds_leaf. Qed.

Lemma adds_SetConnected n s d f g : adds R total 0 (SetConnected (W := World) n s d f g).
Proof.
  unfold SetConnected. adds_seq_tac; [case_match; adds_leaf|].
  adds_seq_tac; [apply adds_Connected_new|].
  do 4 (adds_seq_tac; [apply adds_timer_op|]).
  adds_seq_tac; [apply adds_destroy_val|apply adds_set_val].
Qed.

Lemma adds_ExtendHeartbeatTimeout : adds R total 0 (ExtendHeartbeatTimeout (W := World)).
Proof.
  unfold ExtendHeartbeatTimeout. adds_seq_tac; [apply adds_get_state|].
  case_match; [adds_leaf|apply adds_timer_op].
Qed.

Lemma adds_call_handler k h s d :
  R (wt_obs wt (HandlerCalled h s d)) k → adds R total k (call_handler h s d).
Proof.
  intros Hk. apply adds_modify. intros w. unfold total. simpl. rewrite sum_list_with_app. simpl.
  rewrite Nat.add_0_r.
  replace (_ + _ + _ + _ + _ + k)%nat with
    (sum_list_with (wt_posted wt) (w_posted w) + total_flight (w_inFlight w)
     + (sum_list_with (wt_obs wt) (w_trace w) + k)
     + sum_list_with (wt_dropped wt) (w_dropped w) + total_io (w_io w))%nat by lia.
  do 2 apply accounting_mono. by do 2 apply (accounting_mono_l R).
Qed.

Lemma adds_call_listener l ev msg : adds R total 0 (call_listener l ev msg).
Proof.
  apply adds_modify. intros w. unfold total. simpl. rewrite sum_list_with_app. simpl.
  rewrite !Nat.add_0_r.
  do 2 apply accounting_mono. apply (accounting_mono_l R).
  rewrite <- (Nat.add_0_r (sum_list_with _ (w_trace w))) at 2. apply (accounting_mono_l R).
  apply (flow_listener (new_id := new_id)).
Qed.

Lemma adds_Broadcast ev msg : adds R total 0 (Broadcast ev msg).
Proof.
  unfold Broadcast. adds_seq_tac. apply adds_for_each; [apply _|]. intros l.
  apply adds_call_listener.
Qed.

Lemma adds_assert_worker : adds R total 0 assert_worker.
Proof. apply adds_pure; [apply _|apply pure_assert_worker]. Qed.

Lemma adds_disconnected ev msg :
  adds R total 0
    (st ← get_state;
     if IsConnected st then
       SetInited ;; Broadcast ev msg ;; zoom (W := World) TcpPacketStream_Disconnect
     else mret tt).
Proof.
  adds_seq_tac; [apply adds_get_state|]. case_match; [|adds_leaf].
  adds_seq_tac; [apply adds_SetInited|]. adds_seq_tac; [apply adds_Broadcast|].
  apply adds_zoom_io, adds_Disconnect.
Qed.

Lemma adds_HandshakeFailed ec : adds R total 0 (Connection_HandshakeFailed ec).
Proof.
  apply adds_with_lock. adds_seq_tac; [apply adds_SetInited|apply adds_Broadcast].
Qed.

Lemma adds_ConnectionError ec : adds R total 0 (Connection_ConnectionError ec).
Proof. apply adds_with_lock, adds_disconnected. Qed.

Lemma adds_KickedFromServer : adds R total 0 Connection_KickedFromServer.
Proof. apply adds_with_lock, adds_disconnected. Qed.

Lemma adds_zoom_SendPacket p h : adds R total (wt_send wt h) (zoom (W := World) (SendPacket p h)).
Proof. apply adds_zoom_io, adds_SendPacket. Qed.

Lemma adds_call_fn f : adds R total 0 (call_fn f).
Proof.
  destruct f; [|apply adds_ConnectionError].
  eapply (adds_weaken R); [apply (flow_heartbeat (new_id := new_id))|apply adds_zoom_SendPacket].
Qed.

Lemma adds_HeartbeatTick ec : adds R total 0 (HeartbeatTick call_fn ec).
Proof.
  unfold HeartbeatTick. case_match; [adds_leaf|]. adds_seq_tac; [apply adds_get_state|].
  case_match; [adds_leaf|]. adds_seq_tac; [apply adds_call_fn|].
  adds_seq_tac; apply adds_timer_op.
Qed.

(** A computation that may give back less than it was given. *)
Lemma adds_none {A} k (m : M World A) : R 0%nat k → adds R total 0 m → adds R total k m.
Proof. intros. by eapply (adds_weaken R). Qed.

(** ** Requests *)

Lemma adds_PostRequest route data timeout h :
  adds R total (wt_posted wt {| pr_route := route; pr_data := data; pr_timeout := timeout;
                                pr_handler := h |})
    (Connection_PostRequest route data timeout h).
Proof.
  apply adds_modify. intros w. unfold total. simpl. rewrite sum_list_with_app. simpl.
  apply reflexive_eq. lia.
Qed.

Lemma adds_NewData msg dict : adds R total 0 (NewData_message msg dict : M World Packet).
Proof. apply adds_pure; [apply _|]. apply pure_NewData. Qed.

Lemma adds_PostRequest_run r w a w' :
  PostRequest_run r w = Ret a w' →
  (R (total w') (total w + (wt_posted wt r + new_id (w_reqId w)))%nat ∧
   w_reqId w' = u64 (w_reqId w + 1)) ∨
  (R (total w') (total w + wt_posted wt r)%nat ∧ w_reqId w' = w_reqId w).
Proof.
  unfold PostRequest_run. intros (st & w1 & [= <- <-] & E)%bind_Ret_inv.
  destruct (negb _).
  { right. split; [|by injection E as <- <-].
    eapply adds_call_handler; [|done]. apply (flow_refused (new_id := new_id)). }
  left. destruct (st_val _) as [|ptr].
  { by apply bind_Ret_inv in E as ([] & ? & _ & ?). }
  apply bind_Ret_inv in E as ([] & w1 & E1 & E).
  apply pure_assert_worker in E1 as ->.
  apply bind_Ret_inv in E as (w2 & ? & [= <- <-] & E).
  apply bind_Ret_inv in E as ([] & w2 & [= <-] & E).
  apply bind_Ret_inv in E as (packet & w3 & E1 & E). apply pure_NewData in E1 as ->.
  split; [|by apply zoom_Ret_inv in E as (? & _ & ->)].
  apply adds_zoom_SendPacket in E. etrans; [exact E|].
  apply (accounting_mono_l R), flow_request.
Qed.

Lemma adds_inFlight_emplace id handler timeout k :
  (∀ t, R (wt_flight wt id {| req_handler := handler; req_timer := t |}) k) →
  R (wt_dropped wt handler) k →
  adds R total k (inFlight_emplace id handler timeout).
Proof.
  intros Hflight Hdropped w a w'. unfold inFlight_emplace.
  destruct (Request_new_Ret handler timeout id w) as (t & s & E). run E.
  rewrite (bind_Ret get _ _ _ _ eq_refl). simpl. destruct (w_inFlight w !! id) eqn:Hid.
  - intros [= _ <-]. unfold total. simpl. rewrite sum_list_with_app. simpl. rewrite Nat.add_0_r.
    rewrite <- !Nat.add_assoc. do 4 apply (accounting_mono_l R).
    rewrite (Nat.add_comm (total_io _)).
    apply (accounting_mono (R := R)). exact Hdropped.
  - intros [= _ <-]. unfold total. simpl. rewrite total_flight_insert by done.
    rewrite (Nat.add_comm (wt_flight _ _ _)), !Nat.add_assoc.
    replace (_ + k)%nat with
      (sum_list_with (wt_posted wt) (w_posted w) + total_flight (w_inFlight w) + k
       + sum_list_with (wt_obs wt) (w_trace w) + sum_list_with (wt_dropped wt) (w_dropped w)
       + total_io (w_io w))%nat by lia.
    do 3 apply accounting_mono. by apply (accounting_mono_l R).
Qed.

(** An answered request leaves the map for the trace. *)
Lemma total_answer id r status data w a w' :
  w_inFlight w !! id = Some r →
  (call_handler (req_handler r) status data ;; inFlight_erase id) w = Ret a w' →
  R (total w') (total w).
Proof.
  intros Hr. rewrite (answer_Ret id r) by done. intros [= _ <-]. unfold total. simpl.
  rewrite sum_list_with_app. simpl. rewrite (total_flight_delete _ _ _ Hr), Nat.add_0_r.
  replace (_ + (wt_flight wt id r + _) + _ + _ + _)%nat with
    (sum_list_with (wt_posted wt) (w_posted w) + total_flight (delete id (w_inFlight w))
     + (sum_list_with (wt_obs wt) (w_trace w) + wt_flight wt id r)
     + sum_list_with (wt_dropped wt) (w_dropped w) + total_io (w_io w))%nat by lia.
  do 2 apply accounting_mono. do 2 apply (accounting_mono_l R).
  apply (flow_answered (new_id := new_id)).
Qed.

Lemma adds_ProcessRequestTimeout id : adds R total 0 (Connection_ProcessRequestTimeout id).
Proof.
  apply (adds_get_then R). intros w a w'. rewrite Nat.add_0_r.
  destruct (_ !! _) eqn:E; [by apply total_answer|]. by intros [= _ <-].
Qed.

Lemma adds_ProcessMessage msg : adds R total 0 (Connection_ProcessMessage msg).
Proof.
  unfold Connection_ProcessMessage. case_match; try adds_leaf.
  apply (adds_get_then R). intros w a w'. rewrite Nat.add_0_r.
  destruct (_ !! _) eqn:E; [|by intros [= _ <-]].
  case_match; by apply total_answer.
Qed.

Lemma adds_RequestSent_done t m h ec :
  adds R total (wt_send wt (RequestSent t m h)) (RequestSent_done t m h ec).
Proof.
  unfold RequestSent_done. case_match.
  - apply adds_call_handler, (flow_not_sent (new_id := new_id)).
  - do 2 adds_seq_tac. apply adds_inFlight_emplace.
    + intros x. apply (flow_sent (new_id := new_id)).
    + apply (flow_taken (new_id := new_id)).
Qed.

(** ** Packets and the handshake *)

Lemma adds_ProcessPacket packet : adds R total 0 (Connection_ProcessPacket packet).
Proof.
  unfold Connection_ProcessPacket.
  assert (adds R total 0 (cpp_assert "Should not receive packets other than heartbeat, data and kick"
    false ;; Connection_ConnectionError (make_error_code WrongPacket))) as Hother.
  { adds_seq_tac. apply adds_ConnectionError. }
  case_match; try exact Hother.
  - apply adds_ExtendHeartbeatTimeout.
  - adds_seq_tac; [apply adds_get_state|]. case_match; [apply adds_ConnectionError|].
    case_match; [adds_seq_tac; adds_leaf|].
    adds_seq_tac; [apply adds_pure; [apply _|apply pure_Deserialize]|].
    case_match; [apply adds_ProcessMessage|apply adds_ConnectionError].
  - apply adds_KickedFromServer.
Qed.

Lemma adds_zoom_ReceivePackets h :
  adds R total (wt_receive wt h) (zoom (W := World) (ReceivePackets h)).
Proof. apply adds_zoom_io, adds_ReceivePackets. Qed.

Lemma adds_PacketsReceived_done ec packets :
  adds R total (wt_receive wt PacketsReceived) (PacketsReceived_done ec packets).
Proof.
  unfold PacketsReceived_done. case_match.
  - apply adds_none; [apply (flow_received (new_id := new_id))|apply adds_ConnectionError].
  - adds_seq_tac. adds_seq_tac.
    + apply adds_for_each; [apply _|]. intros. apply adds_ProcessPacket.
    + apply adds_zoom_ReceivePackets.
Qed.

Lemma adds_StartReceivingPackets n s d :
  adds R total (wt_receive wt PacketsReceived) (Connection_StartReceivingPackets n s d).
Proof.
  unfold Connection_StartReceivingPackets. adds_seq_tac; [|apply adds_zoom_ReceivePackets].
  apply adds_with_lock. adds_seq_tac; [apply adds_SetConnected|apply adds_Broadcast].
Qed.

Lemma adds_SendHandshakeAck text :
  adds R total (wt_receive wt HandshakeResponseReceived) (Connection_SendHandshakeAck text).
Proof.
  assert (adds R total (wt_receive wt HandshakeResponseReceived)
    (Connection_ConnectionError (make_error_code InvalidHeartbeatJson))) as Hreject.
  { apply adds_none; [apply (flow_received (new_id := new_id))|apply adds_ConnectionError]. }
  unfold Connection_SendHandshakeAck. destruct (JParse _); [|exact Hreject].
  repeat first
    [ exact Hreject
    | lazymatch goal with |- adds _ _ _ (_ ≫= _) =>
        adds_seq_tac; [apply adds_pure; [apply _|by pure_tac]|] end
    | lazymatch goal with |- adds _ _ _ (zoom _) => fail | _ => case_match end ].
  eapply (adds_weaken R); [apply (flow_response_received (new_id := new_id))|].
  apply adds_zoom_SendPacket.
Qed.

Lemma adds_HandshakeResponseReceived_done ec packets :
  adds R total (wt_receive wt HandshakeResponseReceived) (HandshakeResponseReceived_done ec packets).
Proof.
  assert (∀ ec, adds R total (wt_receive wt HandshakeResponseReceived)
    (Connection_HandshakeFailed ec)) as Hfail.
  { intros. apply adds_none; [apply (flow_received (new_id := new_id))|apply adds_HandshakeFailed]. }
  unfold HandshakeResponseReceived_done. case_match; [apply Hfail|]. adds_seq_tac.
  case_match; [apply Hfail|]. adds_seq_tac. case_match; [apply Hfail|].
  adds_seq_tac; [apply adds_pure; [apply _|apply pure_handshake_text]|].
  case_match; [apply adds_SendHandshakeAck|].
  apply adds_none; [apply (flow_received (new_id := new_id))|apply adds_ConnectionError].
Qed.

(** ** The lambdas *)

Lemma adds_call_receive h ec packets : adds R total (wt_receive wt h) (call_receive h ec packets).
Proof.
  destruct h; [apply adds_HandshakeResponseReceived_done|apply adds_PacketsReceived_done].
Qed.

Lemma adds_call_send h ec : adds R total (wt_send wt h) (call_send h ec).
Proof.
  destruct h; simpl.
  - unfold HandshakeSent_done, Connection_ReceiveHandshakeResponse. case_match.
    + apply adds_none; [apply (flow_handshake_not_sent (new_id := new_id))|apply adds_HandshakeFailed].
    + adds_seq_tac; [apply adds_assert_worker|].
      eapply (adds_weaken R); [apply (flow_handshake_sent (new_id := new_id))|].
      apply adds_zoom_ReceivePackets.
  - unfold HandshakeAckSent_done. case_match.
    + apply adds_none; [apply (flow_ack_not_sent (new_id := new_id))|adds_leaf].
    + eapply (adds_weaken R); [apply (flow_ack_sent (new_id := new_id))|].
      apply adds_StartReceivingPackets.
  - unfold HeartbeatSent_done. apply adds_none; [apply (flow_heartbeat_sent (new_id := new_id))|].
    case_match; [apply adds_ConnectionError|adds_leaf].
  - apply adds_RequestSent_done.
Qed.

Lemma adds_call_connect h ec : adds R total (wt_connect wt h) (call_connect h ec).
Proof.
  destruct h. simpl. unfold StartConnected_done. adds_seq_tac; [apply adds_assert_worker|].
  case_match.
  - apply adds_none; [apply (flow_not_connected (new_id := new_id))|apply adds_HandshakeFailed].
  - unfold Connection_SendHandshake. adds_seq_tac; [apply adds_assert_worker|].
    eapply (adds_weaken R); [apply (flow_connected (new_id := new_id))|apply adds_zoom_SendPacket].
Qed.

Lemma adds_call_timer cb ec : adds R total 0 (call_timer cb ec).
Proof.
  destruct cb; simpl; [apply adds_HeartbeatTick|..].
  - unfold HeartbeatTimeout_done. case_match; [adds_leaf|apply adds_call_fn].
  - unfold RequestTimeout_done. case_match; [adds_leaf|apply adds_ProcessRequestTimeout].
Qed.

(** ** The completions of the stream *)

Lemma adds_stream_only {A} (m : M TcpPacketStream A) :
  adds R total 0 (zoom (W := World) (zoom (W := ConnIO) m)).
Proof.
  apply adds_zoom_io, (adds_zoom R total_io (λ _, 0%nat)); [|].
  - by intros s b s' _.
  - intros io s _. rewrite Nat.add_0_r. done.
Qed.

Lemma adds_SendNextPacket_done id h ec n :
  adds R total (wt_send wt h)
    (SendNextPacket_done (RH := ReceiveHandler) (CH := ConnectHandler) (EP := Endpoints)
       call_send id h ec n).
Proof.
  unfold SendNextPacket_done. case_match; [apply adds_call_send|].
  rewrite <- (Nat.add_0_r (wt_send wt h)). apply adds_bind; [apply _|apply adds_call_send|].
  intros _. by apply adds_uncounted.
Qed.

Lemma adds_ReadToBuffer_done h ec n :
  adds R total (wt_receive wt h)
    (ReadToBuffer_done (SH := SendHandler) (CH := ConnectHandler) (EP := Endpoints)
       call_receive h ec n).
Proof.
  unfold ReadToBuffer_done. case_match; [apply adds_call_receive|].
  adds_seq_tac. adds_seq_tac; [by apply adds_uncounted|]. do 2 adds_seq_tac.
  apply adds_catch_pitaya; [apply _|..]; [| |intros; apply adds_call_receive].
  - adds_seq_tac; [apply adds_stream_only|].
    case_match; [apply adds_zoom_ReceivePackets|apply adds_call_receive].
  - intros w e w' E. revert E. unfold mbind, M_bind.
    destruct (zoom _ w) as [pkts w1|e1 w1|] eqn:E1; [| |done].
    + intros E. exfalso. revert E. case_match; [apply no_throw_ReceivePackets|].
      apply no_throw_call_receive.
    + intros [= _ <-]. unfold zoom in E1. simpl in E1.
      destruct (ParsePacketsFromReadBuffer _); simplify_eq/=. done.
Qed.

(** ** A step of the program *)

(** Taking a pending item out of its list. *)
Lemma take_total {A} pending set (μ : World → nat) (k : A → nat) i w x w' :
  (∀ w l, μ (set l w) + sum_list_with k (pending w) = μ w + sum_list_with k l)%nat →
  take_pending pending set i w = Ret x w' → μ w = (μ w' + k x)%nat.
Proof.
  intros Hμ [Hi ->]%take_pending_Ret. specialize (Hμ w (delete i (pending w))).
  assert (sum_list_with k (pending w) = (k x + sum_list_with k (delete i (pending w)))%nat) as Hk.
  { by rewrite (delete_Permutation _ _ _ Hi) at 1. }
  lia.
Qed.

Lemma adds_take {A B} pending set (k : A → nat) i (f : A → M World B) :
  (∀ w l, total (set l w) + sum_list_with k (pending w) = total w + sum_list_with k l)%nat →
  (∀ x, adds R total (k x) (f x)) →
  adds R total 0 (take_pending pending set i ≫= f).
Proof.
  intros Hset Hf w b w' (x & w1 & E1 & E2)%bind_Ret_inv.
  apply (take_total _ _ total k) in E1; [|done]. rewrite Nat.add_0_r, E1. by eapply Hf.
Qed.

Ltac take_tac := intros; unfold total, total_io; simpl; lia.

Lemma adds_on_thread k t (m : M World unit) : adds R total k m → adds R total k (on_thread t m).
Proof. intros. unfold on_thread. adds_seq_tac; [by apply adds_uncounted|done]. Qed.

(** What a label brings into the program. *)
Definition inflow (l : label) : nat :=
  match l with
  | LStart address =>
      match SplitHostAndPort address with
      | Some (host, port) => wt_connect wt (StartConnected host port)
      | None => 0
      end
  | LRequest route data timeout handler =>
      wt_posted wt {| pr_route := route; pr_data := data; pr_timeout := timeout;
                      pr_handler := handler |}
  | _ => 0
  end.

Lemma adds_Start address : adds R total (inflow (LStart address)) (Connection_Start address).
Proof.
  unfold Connection_Start, inflow. do 2 adds_seq_tac.
  destruct (SplitHostAndPort address) as [[host port]|]; [|adds_leaf].
  intros w b w' E. eapply (adds_zoom_io _ _ (adds_Connect host port _)).
  revert E. unfold catch_system. destruct (zoom _ w) as [|[]|]; [done|done|done|done|done].
Qed.

(** Everything but the posted closure of a request, which may draw a new id. *)
Lemma adds_action l :
  (∀ i, l ≠ LRunRequest i) → adds R total (inflow l) (action l).
Proof.
  intros Hl. destruct l; simpl; try apply adds_on_thread.
  - apply adds_Start.
  - by apply adds_uncounted.
  - apply adds_PostRequest.
  - by destruct (Hl i).
  - eapply (adds_take _ _ (wt_send wt)); [take_tac|]. intros h.
    apply adds_zoom_io, adds_SendNextPacket.
  - eapply (adds_take _ _ (λ op, wt_send wt (so_handler op))); [take_tac|].
    intros op. apply adds_SendNextPacket_done.
  - eapply (adds_take _ _ (λ op, wt_receive wt (ro_handler op))); [take_tac|].
    intros op. adds_seq_tac; [by apply adds_uncounted|]. apply adds_ReadToBuffer_done.
  - eapply (adds_take _ _ (λ op, wt_connect wt (co_handler op))); [take_tac|].
    intros op. unfold Connect_done. case_match; apply adds_call_connect.
  - adds_seq_tac; [by apply adds_uncounted|]. apply adds_call_timer.
Qed.

Lemma total_run_request i w w' :
  action (LRunRequest i) w = Ret tt w' →
  (R (total w') (total w) ∧ w_reqId w' = w_reqId w) ∨
  (R (total w') (total w + new_id (w_reqId w))%nat ∧ w_reqId w' = u64 (w_reqId w + 1)).
Proof.
  simpl. unfold on_thread. rewrite (bind_Ret (modify _) _ _ _ _ eq_refl).
  intros (r & w1 & E1 & E2)%bind_Ret_inv. pose proof (take_pending_Ret _ _ _ _ _ _ E1) as [_ Hw1].
  apply (take_total _ _ total (wt_posted wt)) in E1; [|take_tac].
  change (total (set_thread WorkerThread w)) with (total w) in E1.
  assert (w_reqId w1 = w_reqId w) as Hid by (by rewrite Hw1).
  apply adds_PostRequest_run in E2. rewrite Hid in E2. rewrite E1.
  destruct E2 as [[E2 ?]|[E2 ?]]; [right|by left]. by rewrite <- Nat.add_assoc.
Qed.

(** A step adds what its label brings in, and the id of a request that was posted. *)
Lemma step_total w l w' :
  step w l w' →
  R (total w') (total w + inflow l)%nat ∨
  (is_run_request l = true ∧ R (total w') (total w + new_id (w_reqId w))%nat ∧
   w_reqId w' = u64 (w_reqId w + 1)).
Proof.
  intros [w1 _ E|e w1 Hc E].
  - destruct (decide (is_run_request l = true)) as [Hl|Hl].
    + destruct l; try done. apply total_run_request in E as [[E ?]|[E ?]]; [left|by right].
      by rewrite Nat.add_0_r.
    + left. eapply adds_action; [|exact E]. by intros i ->.
  - left. destruct (client_throw _ _ _ _ Hc E) as [[address ->] ->].
    change (total (set_thread ClientThread w)) with (total w). rewrite <- (Nat.add_0_r (total w)) at 1.
    apply (accounting_mono_l R). simpl. destruct (SplitHostAndPort address) as [[]|]; [|done].
    apply (flow_not_connected (new_id := new_id)).
Qed.

Lemma total_initial : total initial = 0%nat.
Proof. done. Qed.

(** When no ids are counted, the total is bounded by, or is, what came in. *)
Lemma steps_total ls w :
  (∀ id, new_id id = 0%nat) → steps initial ls w → R (total w) (sum_list_with inflow ls).
Proof.
  intros Hnew. remember initial as w0 eqn:Hw0. induction 1 as [w|w ls w1 l w2 Hs IH Hstep].
  { subst. by rewrite total_initial. }
  specialize (IH Hw0). rewrite sum_list_with_app. simpl. rewrite Nat.add_0_r.
  etrans; [|by apply accounting_mono]. apply step_total in Hstep as [?|(Hl & Ht & _)]; [done|].
  destruct l; try done. by rewrite Hnew in Ht.
Qed.
End flow.
