(* ===== verification/Stream.v ===== *)
(** * The packet stream at work

    Theorems about [TcpPacketStream]: the invariant of its two queues and of its read
    buffer; sending as a first-in first-out queue of packets with their handlers. *)

From S2P Require Import Prelude Outcome Errors Message Packet ReadBuffer TcpPacketStream.

Section invariant.
Context {SH RH CH EP : Type}.
Local Abbreviation IO := (StreamIO SH RH CH EP).

(** Every queued packet has one closure posted for it; a read is given the free end of the
    buffer. *)
Record stream_wf (io : IO) : Prop := {
  sw_queue : length (packetSendQueue (io_stream io)) = length (io_posted io);
  sw_bound : Z.of_nat (length (packetSendQueue (io_stream io))) ≤ kMaxQueuedPackets;
  sw_buffer : buffer_wf (io_stream io);
  sw_reads : Forall (λ op,
    ro_offset op = readBufferHead (io_stream io) ∧
    ro_size op = readBufferSize (io_stream io) - readBufferHead (io_stream io)) (io_receives io);
}.

(** The buffers being written have ids below the next one: no collision before 2^32 sends. *)
Definition write_ids_wf (io : IO) : Prop :=
  map_Forall (λ id _, 0 ≤ id < writeId (io_stream io)) (writeBuffers (io_stream io)).

(** The buffers given to the socket. *)
Definition sent_buffers (io : IO) : list (list Z) :=
  io_calls io ≫= λ c, match c with CallSend b => [b] | _ => [] end.

Lemma sent_buffers_call c (io : IO) :
  sent_buffers (add_call c io) = sent_buffers io ++ match c with CallSend b => [b] | _ => [] end.
Proof. unfold sent_buffers. simpl. rewrite bind_app. f_equal. destruct c; simpl; by rewrite ?app_nil_r. Qed.

Lemma stream_wf_new maxSize : 0 ≤ maxSize < 2 ^ 32 → stream_wf (StreamIO_new maxSize).
Proof.
  intros Hmax. split; simpl; [done|done| |constructor].
  split; unfold readBufferSize; simpl; rewrite ?length_replicate; try lia.
  apply Forall_replicate. by unfold byte_wf.
Qed.

(** ** SendPacket *)

(** While fewer than 50 packets are queued, [SendPacket] appends the packet and posts a
    closure with the handler, and nothing else changes. When 50 are queued the packet is
    dropped, and the handler is destroyed without ever being called. *)
Lemma SendPacket_spec (packet : Packet) (handler : SH) (io : IO) :
  let q := packetSendQueue (io_stream io) in
  if decide ((length q < 50)%nat) then
    SendPacket packet handler io =
      Ret tt (set_posted (io_posted io ++ [handler])
        (set_stream (set_packetSendQueue (q ++ [packet]) (io_stream io)) io))
  else SendPacket packet handler io = Ret tt (add_ignored handler io).
Proof.
  intros q. unfold SendPacket. run (eq_refl : get io = Ret io io). fold q. unfold kMaxQueuedPackets.
  case_decide.
  - rewrite (proj2 (Z.ltb_lt _ _)) by lia. done.
  - rewrite (proj2 (Z.ltb_ge _ _)) by lia. done.
Qed.

Lemma runs_SendPacket F packet (handler : SH) : runs stream_wf F (SendPacket packet handler : M IO _).
Proof.
  intros io [Hq Hb Hbuf Hr]. pose proof (SendPacket_spec packet handler io) as E. simpl in E.
  case_decide; rewrite E; [|done].
  split; simpl; [rewrite !length_app; simpl; lia| |by destruct Hbuf|done].
  rewrite length_app. unfold kMaxQueuedPackets. simpl. lia.
Qed.

(** ** Receives *)

Lemma ReceivePackets_Ret (handler : RH) (io : IO) :
  buffer_wf (io_stream io) →
  ReceivePackets handler io =
    let size := readBufferSize (io_stream io) - readBufferHead (io_stream io) in
    Ret tt (add_call (CallReceive size)
      (set_receives (io_receives io ++
         [{| ro_offset := readBufferHead (io_stream io); ro_size := size; ro_handler := handler |}]) io)).
Proof.
  intros [Hh Hs Hm _]. unfold ReceivePackets, ReadToBuffer. run (eq_refl : get io = Ret io io).
  by rewrite u64_small by lia.
Qed.

Lemma runs_ReceivePackets F (handler : RH) : runs stream_wf F (ReceivePackets handler : M IO _).
Proof.
  intros io [Hq Hb Hbuf Hr]. rewrite ReceivePackets_Ret by done.
  split; simpl; [done..|]. apply Forall_app. split; [done|]. by repeat constructor.
Qed.

Lemma runs_Disconnect F : runs stream_wf F (TcpPacketStream_Disconnect : M IO _).
Proof.
  apply runs_bind; [|intros _]; apply runs_modify; intros io [Hq Hb Hbuf Hr]; by split.
Qed.

Lemma runs_written F id :
  runs stream_wf F (modify (λ io : IO, set_stream
    (set_writeBuffers (delete id (writeBuffers (io_stream io)))
       (writeId (io_stream io)) (io_stream io)) io)).
Proof. apply runs_modify. intros io [Hq Hb Hbuf Hr]. split; [done|done|by destruct Hbuf|done]. Qed.

Lemma runs_Connect F (resolve : string → string → string + EP) host port (handler : CH) :
  runs stream_wf F (TcpPacketStream_Connect resolve host port handler : M IO _).
Proof.
  unfold TcpPacketStream_Connect. apply runs_catch_system; [|intros; apply runs_throw].
  destruct (resolve host port); [apply runs_throw|].
  apply runs_modify. intros io [Hq Hb Hbuf Hr]. by split.
Qed.

(** ** SendNextPacket *)

Context `{BuildMode}.

(** The state after a send: the front packet is on its way. *)
Definition sent_next (pkt : Packet) (q : list Packet) (handler : SH) (io : IO) : IO :=
  let id := writeId (io_stream io) in
  let stream := set_writeBuffers (<[id := frame pkt]> (writeBuffers (io_stream io))) (u32 (id + 1))
                  (set_packetSendQueue q (io_stream io)) in
  add_call (CallSend (frame pkt))
    (set_sends (io_sends io ++ [{| so_buffer := frame pkt; so_id := id; so_handler := handler |}])
       (set_stream stream io)).

(** The posted closure sends exactly the serialisation of the packet at the front of the
    queue, under a fresh id and with the closure's own handler, and keeps the bytes until the
    completion. The check on [_writeBuffers] looks at the next id, not at the one that is
    used: it fails, in a build with assertions, exactly when that one is taken. *)
Lemma SendNextPacket_spec (handler : SH) (io : IO) pkt q :
  packetSendQueue (io_stream io) = pkt :: q →
  SendNextPacket handler io =
    match writeBuffers (io_stream io) !! u32 (writeId (io_stream io) + 1) with
    | Some _ =>
        if ndebug then Ret tt (sent_next pkt q handler io)
        else Crash (AssertFailed "_writeBuffers.find(_writeId) == _writeBuffers.end()")
    | None => Ret tt (sent_next pkt q handler io)
    end.
Proof.
  intros Hq. unfold SendNextPacket. run (eq_refl : get io = Ret io io). rewrite Hq.
  run (cpp_assert_true "!_packetSendQueue.empty()" (negb (Z.of_nat (length (pkt :: q)) =? 0)) io eq_refl).
  unfold mbind, M_bind, TcpSocket_Send, modify, get. simpl.
  destruct (writeBuffers _ !! _) eqn:E.
  - rewrite bool_decide_eq_false_2, cpp_assert_false by congruence.
    by destruct ndebug.
  - by rewrite bool_decide_eq_true_2, cpp_assert_true by done.
Qed.

(** The closure at any place of the posted ones. *)
Lemma runs_SendNextPacket F (handler : SH) (io : IO) i :
  (F (AssertFailed "_writeBuffers.find(_writeId) == _writeBuffers.end()")) →
  stream_wf io → io_posted io !! i = Some handler →
  match SendNextPacket handler (set_posted (delete i (io_posted io)) io) with
  | Ret _ io' | Throw _ io' => stream_wf io'
  | Crash f => F f
  end.
Proof.
  intros HF [Hq Hb Hbuf Hr] Hi.
  assert (length (delete i (io_posted io)) = pred (length (io_posted io))) as Hlen.
  { rewrite length_delete by done. lia. }
  apply lookup_lt_Some in Hi. destruct (packetSendQueue (io_stream io)) as [|pkt q] eqn:Eq;
    [simpl in Hq; lia|].
  rewrite (SendNextPacket_spec _ _ pkt q) by done.
  assert (stream_wf (sent_next pkt q handler (set_posted (delete i (io_posted io)) io))) as Hwf.
  { simpl in Hq, Hb. split; simpl; [lia|lia|by destruct Hbuf|done]. }
  destruct (writeBuffers _ !! _); [by destruct ndebug|exact Hwf].
Qed.

(** The write ids count the packets that were given to the socket, until there are 2^32. *)
Definition write_ids_ok (io : IO) : Prop :=
  2 ^ 32 - 1 ≤ Z.of_nat (length (sent_buffers io)) ∨
  write_ids_wf io ∧ writeId (io_stream io) = Z.of_nat (length (sent_buffers io)).

Lemma write_ids_new maxSize : write_ids_ok (StreamIO_new maxSize).
Proof. right. split; [by intros ?|done]. Qed.

Lemma write_ids_stream s (io : IO) :
  writeBuffers s ⊆ writeBuffers (io_stream io) → writeId s = writeId (io_stream io) →
  write_ids_ok io → write_ids_ok (set_stream s io).
Proof.
  intros Hsub Hid [?|[Hids Hcount]]; [by left|right]. split; [|by rewrite <- Hid in Hcount].
  intros id buf Hbuf. change (0 ≤ id < writeId s). rewrite Hid. apply (Hids id buf).
  exact (lookup_weaken _ _ _ _ Hbuf Hsub).
Qed.

(** A call that is not a send, and whatever does not touch the calls and the buffers. *)
Lemma write_ids_call c (io : IO) : (∀ b, c ≠ CallSend b) → write_ids_ok io → write_ids_ok (add_call c io).
Proof.
  intros Hc. unfold write_ids_ok. rewrite sent_buffers_call, length_app.
  assert (length match c with CallSend b => [b] | _ => [] end = 0%nat) as -> by (destruct c; naive_solver).
  rewrite Nat.add_0_r. done.
Qed.

(** No buffer is met again: the assertion of [SendNextPacket] holds. *)
Lemma write_ids_free (io : IO) :
  write_ids_ok io → Z.of_nat (length (sent_buffers io)) < 2 ^ 32 - 1 →
  writeBuffers (io_stream io) !! u32 (writeId (io_stream io) + 1) = None.
Proof.
  intros [?|[Hids Hid]] Hlt; [lia|]. rewrite u32_small by lia.
  destruct (_ !! _) as [buf|] eqn:E; [|done]. apply Hids in E. lia.
Qed.

Lemma write_ids_send_next (handler : SH) (io : IO) :
  write_ids_ok io → ends write_ids_ok (λ _, True) (SendNextPacket handler io).
Proof.
  intros Hio. destruct (packetSendQueue (io_stream io)) as [|pkt q] eqn:Hq.
  { unfold SendNextPacket. rewrite (bind_Ret get _ _ _ _ eq_refl), Hq.
    unfold cpp_assert. simpl. by destruct ndebug. }
  rewrite (SendNextPacket_spec _ _ pkt q) by done.
  assert (write_ids_ok (sent_next pkt q handler io)) as Hnext; [|by destruct (_ !! _), ndebug].
  unfold write_ids_ok, sent_next. rewrite sent_buffers_call, length_app. simpl.
  change (sent_buffers (set_sends _ (set_stream _ io))) with (sent_buffers io).
  destruct Hio as [?|[Hids Hid]]; [left; lia|].
  destruct (decide (2 ^ 32 - 1 ≤ Z.of_nat (length (sent_buffers io)) + 1)); [left; lia|right].
  rewrite u32_small by lia. split; [|lia]. unfold write_ids_wf in *. simpl.
  apply map_Forall_insert_2; [lia|]. eapply map_Forall_impl; [exact Hids|]. simpl. lia.
Qed.
End invariant.


(** ** Sending is first in, first out

    The specification of the sending half: a bounded queue of packets with their handlers.
    What has been given to the socket is a list of buffers, each with its handler. *)

Section fifo.
Context {SH RH CH EP : Type} `{BuildMode}.
Local Abbreviation IO := (StreamIO SH RH CH EP).

Record Outbox := {
  ob_queue : list (Packet * SH);
  ob_sent : list (list Z * SH);
  ob_refused : list SH;
}.

Inductive send_op := OpSend (packet : Packet) (handler : SH) | OpNext.

(** What an operation does to the abstract queue; [None] when it is not possible. *)
Definition outbox_step (op : send_op) (b : Outbox) : option Outbox :=
  match op with
  | OpSend packet handler =>
      Some (if decide (length (ob_queue b) < 50)%nat
            then {| ob_queue := ob_queue b ++ [(packet, handler)]; ob_sent := ob_sent b;
                    ob_refused := ob_refused b |}
            else {| ob_queue := ob_queue b; ob_sent := ob_sent b;
                    ob_refused := ob_refused b ++ [handler] |})
  | OpNext =>
      match ob_queue b with
      | [] => None
      | (packet, handler) :: q =>
          Some {| ob_queue := q; ob_sent := ob_sent b ++ [(frame packet, handler)];
                  ob_refused := ob_refused b |}
      end
  end.

Fixpoint outbox_run (ops : list send_op) (b : Outbox) : option Outbox :=
  match ops with
  | [] => Some b
  | op :: ops => b' ← outbox_step op b; outbox_run ops b'
  end.

(** The same operations of the stream; the io context runs posted closures in the order in
    which they were posted. *)
Definition stream_op (op : send_op) : M IO unit :=
  match op with
  | OpSend packet handler => SendPacket packet handler
  | OpNext =>
      io ← get;
      match io_posted io with
      | [] => undefined "no closure is posted"
      | handler :: l => modify (set_posted l) ;; SendNextPacket handler
      end
  end.

Definition stream_ops (ops : list send_op) : M IO unit := for_each ops stream_op.

(** The abstract state of a stream. *)
Definition outbox_of (io : IO) : Outbox :=
  {| ob_queue := zip (packetSendQueue (io_stream io)) (io_posted io);
     ob_sent := (λ op, (so_buffer op, so_handler op)) <$> io_sends io;
     ob_refused := io_ignored io |}.

Definition is_next (op : send_op) : bool := match op with OpNext => true | _ => false end.
Definition count_next (ops : list send_op) : nat := length (filter (λ op, is_next op = true) ops).

(** What the refinement needs of the stream: [n] more sends do not wrap the write id. *)
Record sending_wf (n : nat) (io : IO) : Prop := {
  sd_queue : length (packetSendQueue (io_stream io)) = length (io_posted io);
  sd_ids : write_ids_wf io;
  sd_id : 0 ≤ writeId (io_stream io) ∧ writeId (io_stream io) + Z.of_nat n < 2 ^ 32;
}.

Lemma outbox_queue_length io n :
  sending_wf n io → length (ob_queue (outbox_of io)) = length (packetSendQueue (io_stream io)).
Proof. intros [Hq _ _]. simpl. rewrite length_zip, Hq. lia. Qed.

(** One operation of the stream does what the specification says. *)
Lemma stream_op_refines op io n b :
  sending_wf ((if is_next op then 1 else 0) + n)%nat io →
  outbox_step op (outbox_of io) = Some b →
  ∃ io', stream_op op io = Ret tt io' ∧ sending_wf n io' ∧ outbox_of io' = b.
Proof.
  intros Hwf. pose proof (outbox_queue_length _ _ Hwf) as Hlen. destruct Hwf as [Hq Hids Hid].
  destruct op as [packet handler|]; unfold outbox_step, stream_op.
  - rewrite Hlen. intros [= <-]. pose proof (SendPacket_spec packet handler io) as E. simpl in E.
    case_decide; rewrite E; eexists; (split; [done|]).
    + split; [split; simpl; [rewrite !length_app; simpl; lia|exact Hids|done]|].
      unfold outbox_of. simpl. by rewrite zip_with_app.
    + by split.
  - simpl in Hid. destruct (io_posted io) as [|handler l] eqn:Ep.
    { simpl. by rewrite Ep, zip_with_nil_r. }
    destruct (packetSendQueue (io_stream io)) as [|pkt q] eqn:Eq; [done|].
    unfold outbox_of. simpl. rewrite Ep, Eq. simpl. intros [= <-].
    run (eq_refl : get io = Ret io io). rewrite Ep.
    run (eq_refl : modify (set_posted l) io = Ret tt (set_posted l io)).
    rewrite (SendNextPacket_spec _ _ pkt q) by done. simpl.
    rewrite u32_small by lia.
    destruct (writeBuffers _ !! _) as [buf|] eqn:E.
    { apply Hids in E. lia. }
    eexists; split; [done|]. split.
    + split; simpl; [simpl in Hq; lia| |rewrite u32_small; lia].
      unfold write_ids_wf in *. simpl. rewrite u32_small by lia.
      apply map_Forall_insert_2; [lia|]. eapply map_Forall_impl; [exact Hids|]. simpl. lia.
    + unfold outbox_of. simpl. by rewrite fmap_app.
Qed.

(** C9: the sending half of the stream implements a bounded queue: over any sequence of calls
    of [SendPacket] and of posted closures, as long as fewer than 2^32 packets are sent, the
    stream never fails, the socket gets exactly the serialisations of the packets that were
    accepted, in the order of the calls, each with the handler of its own call, and a packet
    is refused exactly when 50 are waiting. *)
Theorem stream_refines_outbox ops io b :
  sending_wf (count_next ops) io →
  outbox_run ops (outbox_of io) = Some b →
  ∃ io', stream_ops ops io = Ret tt io' ∧ outbox_of io' = b.
Proof.
  unfold stream_ops. revert io. induction ops as [|op ops IH]; intros io Hwf; simpl.
  { intros [= <-]. by exists io. }
  intros (b1 & Hb1 & Hrun)%bind_Some.
  assert (sending_wf ((if is_next op then 1 else 0) + count_next ops)%nat io) as Hwf'.
  { destruct Hwf. split; [done..|]. by destruct op. }
  destruct (stream_op_refines op io _ b1 Hwf' Hb1) as (io1 & E1 & Hwf1 & <-).
  destruct (IH io1 Hwf1 Hrun) as (io' & E & Hio'). exists io'. split; [|done]. by run E1.
Qed.
End fifo.
Arguments Outbox : clear implicits.
Arguments send_op : clear implicits.
