(* ===== verification/Receive.v ===== *)
(** * Receiving: the bytes of the server, however they are cut into reads

    The buffer after a read; a completion of [ReadToBuffer] on a well-formed stream; and
    the whole receiving half at work, with a handler that keeps the packets it is given
    and asks for more, on a source of bytes that is read in pieces of any size. *)

From S2P Require Import Prelude Outcome Errors Message Packet ReadBuffer TcpPacketStream Stream.

(** ** The buffer after a read *)

(** The stream after the socket has written [data] at the head, and the head has moved. *)
Definition wrote (data : list Z) (s : TcpPacketStream) : TcpPacketStream :=
  set_readBuffer (readBufferHead s + Z.of_nat (length data))
    (list_inserts (Z.to_nat (readBufferHead s)) data (readBuffer s)) s.

Lemma wrote_wf data s :
  buffer_wf s → bytes_wf data → Z.of_nat (length data) ≤ readBufferSize s - readBufferHead s →
  buffer_wf (wrote data s) ∧ valid_bytes (wrote data s) = valid_bytes s ++ data.
Proof.
  intros [Hhead Hsize Hsmall Hwf] Hdata Hroom. unfold readBufferSize in *.
  set (h := Z.to_nat (readBufferHead s)).
  pose proof (list_insert_range_split (readBuffer s) h (length data) ltac:(lia)) as Hsplit.
  assert (length (take h (readBuffer s)) = h) as Hh by (rewrite length_take; lia).
  assert (list_inserts h data (readBuffer s) =
    take h (readBuffer s) ++ data ++ drop (h + length data) (readBuffer s)) as Hins.
  { rewrite Hsplit at 1. apply list_inserts_write; [done|].
    rewrite length_take, length_drop. lia. }
  split.
  - split; unfold readBufferSize; simpl; fold h; rewrite ?length_inserts; [lia|done|done|].
    rewrite Hins. repeat apply bytes_wf_app; auto with bytes.
  - unfold valid_bytes, wrote. simpl. fold h. rewrite Hins, app_assoc.
    rewrite take_app_le by (rewrite length_app, Hh; lia).
    rewrite take_ge by (rewrite length_app, Hh; lia). done.
Qed.

(** ** Prefixes of a sequence of packets *)

Lemma frame_bytes_wf p : receivable p → bytes_wf (frame p).
Proof. intros [Hb _]. unfold frame. apply Packet_SerializeInto_wf; [constructor|done]. Qed.

Lemma frames_bytes_wf ps : Forall receivable ps → bytes_wf (frames ps).
Proof.
  induction 1; [constructor|]. rewrite frames_cons. apply bytes_wf_app; [by apply frame_bytes_wf|done].
Qed.

(** A strict prefix of a packet is incomplete. *)
Lemma strict_prefix_incomplete p rest t :
  receivable p → rest ++ t = frame p → t ≠ [] → incomplete rest.
Proof.
  intros (_ & Hshort & _) Ht Hne. rewrite frame_eq in Ht.
  pose proof (header_length_header p _ _ _ _ eq_refl Hshort) as Hlen.
  destruct rest as [|b0 [|b1 [|b2 [|b3 body]]]]; try done.
  unfold header in Ht. simpl in Ht. injection Ht as -> -> -> -> Hbody. split.
  - rewrite PacketTypeFromByte_to_byte. by eexists.
  - rewrite Hlen, <- Hbody, length_app. destruct t; [done|]. simpl. lia.
Qed.

(** Any bytes the server has sent so far are some whole packets and a strict prefix of the
    next one. *)
Lemma frames_split ps bs t :
  Forall receivable ps → bs ++ t = frames ps →
  ∃ qs ps' rest, ps = qs ++ ps' ∧ bs = frames qs ++ rest ∧ rest ++ t = frames ps' ∧
    incomplete rest ∧
    match ps' with [] => rest = [] | p :: _ => (length rest < length (frame p))%nat end.
Proof.
  intros Hps. revert bs. induction Hps as [|p ps Hp Hps IH]; intros bs Hbs.
  { apply app_eq_nil in Hbs as [-> ->]. by exists [], [], []. }
  rewrite frames_cons in Hbs.
  destruct (decide (length bs < length (frame p))%nat) as [Hlt|Hge].
  - exists [], (p :: ps), bs. split_and!; [done..| |done].
    apply (strict_prefix_incomplete p bs (drop (length bs) (frame p))); [done| |].
    + apply (f_equal (take (length bs))) in Hbs.
      rewrite take_app_length, take_app_le in Hbs by lia. rewrite Hbs at 1. by rewrite take_drop.
    + intros E%(f_equal length). rewrite length_drop in E. cbn [length] in E. lia.
  - assert (bs = frame p ++ drop (length (frame p)) bs) as Hbs'.
    { rewrite <- (take_drop (length (frame p)) bs) at 1. f_equal.
      apply (f_equal (take (length (frame p)))) in Hbs.
      rewrite take_app_length, take_app_le in Hbs by lia. done. }
    rewrite Hbs', <- app_assoc in Hbs. apply app_inv_head in Hbs.
    destruct (IH _ Hbs) as (qs & ps' & rest & -> & E & Ht & Hinc & Hm).
    exists (p :: qs), ps', rest. split_and!; [done| |done..].
    rewrite Hbs', E, frames_cons. by rewrite <- app_assoc.
Qed.

(** ** A completion of a read *)

Section completion.
Context {SH RH CH EP W : Type} `{Lens W (StreamIO SH RH CH EP)} `{BuildMode}.
Context (call_receive : RH → error_code → list Packet → M W unit).
Local Abbreviation IO := (StreamIO SH RH CH EP).

Definition with_stream (s : TcpPacketStream) (w : W) : W := set_view (set_stream s (view w)) w.

(** What the lambda of [ReadToBuffer] does with [data], on a well-formed stream that had
    room for it, past the assertion that there is some: it moves the head and parses; then the handler gets the packets, or there
    is another read, or the handler gets the error. *)
Lemma ReadToBuffer_done_eq (handler : RH) ec (data : list Z) (w : W) :
  let s := io_stream (view w) in
  buffer_wf s → bytes_wf data → ndebug = true ∨ data ≠ [] → ec_failed ec = false →
  Z.of_nat (length data) ≤ readBufferSize s - readBufferHead s →
  (socket_wrote (SH := SH) (RH := RH) (CH := CH) (EP := EP) (readBufferHead s) data ;;
   ReadToBuffer_done (SH := SH) (CH := CH) (EP := EP) call_receive handler ec
     (Z.of_nat (length data))) w =
    catch_pitaya
      (λ _, match ParsePacketsFromReadBuffer (wrote data s) with
            | Ret packets s' =>
                (if Z.of_nat (length packets) =? 0 then zoom (ReadToBuffer handler)
                 else call_receive handler ec_success packets) (with_stream s' w)
            | Throw e s' => Throw e (with_stream s' w)
            | Crash f => Crash f
            end)
      (λ _, call_receive handler (make_error_code InvalidPacketType) []) w.
Proof.
  intros s Hwf Hdata Hne Hec Hroom. destruct (wrote_wf data s Hwf Hdata Hroom) as [Hwf' _].
  set (s0 := set_readBuffer (readBufferHead s)
               (list_inserts (Z.to_nat (readBufferHead s)) data (readBuffer s)) s).
  assert (socket_wrote (readBufferHead s) data w = Ret tt (with_stream s0 w)) as E0 by done.
  assert (cpp_assert "bytesRead > 0" (0 <? Z.of_nat (length data)) (with_stream s0 w)
    = Ret tt (with_stream s0 w)) as Hpos.
  { unfold cpp_assert. destruct Hne as [->|Hne]; [done|]. destruct ndebug; [done|].
    by destruct data. }
  run E0. unfold ReadToBuffer_done. rewrite Hec. run Hpos.
  assert (zoom (modify (λ io : IO, set_stream
      (set_readBuffer (u64 (readBufferHead (io_stream io) + Z.of_nat (length data)))
         (readBuffer (io_stream io)) (io_stream io)) io)) (with_stream s0 w)
    = Ret tt (with_stream (wrote data s) w)) as E1.
  { unfold zoom, modify, with_stream. rewrite !view_set, set_set. simpl.
    destruct Hwf. unfold wrote. rewrite u64_small by lia. done. }
  run E1. run (eq_refl : get (with_stream (wrote data s) w) = Ret _ _).
  assert (io_stream (view (with_stream (wrote data s) w)) = wrote data s) as Hview.
  { unfold with_stream. by rewrite view_set. }
  rewrite Hview. run (cpp_assert_true "_readBufferHead <= _readBuffer.size()"
    (readBufferHead (wrote data s) <=? readBufferSize (wrote data s)) (with_stream (wrote data s) w)
    ltac:(apply Z.leb_le, (buffer_head _ Hwf'))).
  assert (zoom (zoom (W := IO) ParsePacketsFromReadBuffer) (with_stream (wrote data s) w) =
    match ParsePacketsFromReadBuffer (wrote data s) with
    | Ret packets s' => Ret packets (with_stream s' w)
    | Throw e s' => Throw e (with_stream s' w)
    | Crash f => Crash f
    end) as Hparse.
  { unfold zoom at 1 2. change (view (view ?x)) with (io_stream (view x)). rewrite Hview.
    unfold with_stream. destruct (ParsePacketsFromReadBuffer _); simpl;
      by rewrite ?view_set, ?set_set. }
  unfold catch_pitaya, mbind, M_bind. rewrite Hparse.
  by destruct (ParsePacketsFromReadBuffer (wrote data s)).
Qed.
End completion.


(** ** The receiving half at work *)

Section sink.
Context {SH CH EP : Type} `{BuildMode}.
Local Abbreviation IO := (StreamIO SH unit CH EP).

(** A stream with one handler, which keeps the packets it gets and starts another read, and
    which counts the errors. *)
Record Sink := { sk_io : IO; sk_got : list Packet; sk_errors : nat }.

#[export, refine] Instance lens_sink : Lens Sink IO :=
  {| view := sk_io;
     set_view io k := {| sk_io := io; sk_got := sk_got k; sk_errors := sk_errors k |} |}.
Proof. all: by repeat intros []. Defined.

Definition sink_receive (h : unit) (ec : error_code) (packets : list Packet) : M Sink unit :=
  if ec_failed ec then
    modify (λ k, {| sk_io := sk_io k; sk_got := sk_got k; sk_errors := S (sk_errors k) |})
  else
    modify (λ k, {| sk_io := sk_io k; sk_got := sk_got k ++ packets; sk_errors := sk_errors k |}) ;;
    zoom (ReceivePackets h).

(** The socket completes the outstanding read with [data]. *)
Definition receive_chunk (op : ReceiveOp unit) (data : list Z) : M Sink unit :=
  zoom (modify (set_receives (RH := unit) [])) ;;
  socket_wrote (SH := SH) (CH := CH) (EP := EP) (RH := unit) (ro_offset op) data ;;
  ReadToBuffer_done (SH := SH) (CH := CH) (EP := EP) sink_receive (ro_handler op) ec_success
    (Z.of_nat (length data)).

(** Read [source] in pieces: each read gets at most [n] bytes, at most the room it was given,
    and completes only when there is something to read. The bytes not read are returned. *)
Fixpoint pump (sizes : list nat) (source : list Z) : M Sink (list Z) :=
  match sizes with
  | [] => mret source
  | n :: sizes =>
      k ← get;
      match io_receives (sk_io k) with
      | [op] =>
          let count := Nat.min n (Z.to_nat (ro_size op)) in
          match take count source with
          | [] => pump sizes source
          | data => receive_chunk op data ;; pump sizes (drop count source)
          end
      | _ => undefined "no read is outstanding"
      end
  end.

(** A sink that has got some packets, with [rest] in the buffer, waiting for more. *)
Record receiving (got : list Packet) (rest : list Z) (k : Sink) : Prop := {
  rc_got : sk_got k = got;
  rc_errors : sk_errors k = 0%nat;
  rc_wf : buffer_wf (io_stream (sk_io k));
  rc_rest : valid_bytes (io_stream (sk_io k)) = rest;
  rc_head : readBufferHead (io_stream (sk_io k)) = Z.of_nat (length rest);
  rc_read : io_receives (sk_io k) =
    [{| ro_offset := Z.of_nat (length rest);
        ro_size := readBufferSize (io_stream (sk_io k)) - Z.of_nat (length rest);
        ro_handler := tt |}];
}.

Definition sink_size (k : Sink) : Z := readBufferMaxSize (io_stream (sk_io k)).

(** What follows a parse: the packets are kept, if any, and there is another read. *)
Lemma sink_next packets k :
  buffer_wf (io_stream (sk_io k)) →
  (if Z.of_nat (length packets) =? 0 then zoom (ReadToBuffer tt)
   else sink_receive tt ec_success packets) k =
    Ret tt {| sk_io :=
      (let s := io_stream (sk_io k) in
       let size := readBufferSize s - readBufferHead s in
       add_call (CallReceive size)
         (set_receives (io_receives (sk_io k) ++
            [{| ro_offset := readBufferHead s; ro_size := size; ro_handler := tt |}]) (sk_io k)));
      sk_got := sk_got k ++ packets; sk_errors := sk_errors k |}.
Proof.
  intros Hwf. assert (∀ k, buffer_wf (io_stream (sk_io k)) →
    zoom (ReadToBuffer tt) k = Ret tt {| sk_io :=
      (let s := io_stream (sk_io k) in
       let size := readBufferSize s - readBufferHead s in
       add_call (CallReceive size)
         (set_receives (io_receives (sk_io k) ++
            [{| ro_offset := readBufferHead s; ro_size := size; ro_handler := tt |}]) (sk_io k)));
      sk_got := sk_got k; sk_errors := sk_errors k |}) as Hread.
  { intros k1 Hk1. unfold zoom. change (ReadToBuffer tt) with (ReceivePackets (SH := SH) (CH := CH) (EP := EP) tt).
    by rewrite (ReceivePackets_Ret tt (view k1)). }
  destruct packets as [|p packets]; [by rewrite app_nil_r; apply Hread|].
  unfold sink_receive. rewrite ec_failed_success.
  etransitivity; [by apply (Hread {| sk_io := sk_io k; sk_got := sk_got k ++ p :: packets;
                                     sk_errors := sk_errors k |})|done].
Qed.

(** A piece of the bytes: the packets it completes are delivered, in order. A build without
    assertions takes a piece of no bytes as well. *)
Lemma receive_chunk_delivers got rest data qs rest' op k :
  receiving got rest k → io_receives (sk_io k) = [op] → bytes_wf data → ndebug = true ∨ data ≠ [] →
  Z.of_nat (length data) ≤ ro_size op →
  rest ++ data = frames qs ++ rest' → Forall receivable qs → incomplete rest' →
  ∃ k', receive_chunk op data k = Ret tt k' ∧ receiving (got ++ qs) rest' k' ∧
    sink_size k' = sink_size k.
Proof.
  intros [Hgot Herr Hwf Hrest Hhead Hread] Hop Hdata Hne Hroom Hsplit Hqs Hinc.
  rewrite Hread in Hop. injection Hop as <-. simpl in Hroom. unfold receive_chunk. cbn [ro_offset ro_handler].
  set (k0 := {| sk_io := set_receives [] (sk_io k); sk_got := sk_got k; sk_errors := sk_errors k |}).
  run (eq_refl : zoom (modify (set_receives [])) k = Ret tt k0).
  set (s := io_stream (sk_io k)) in *.
  pose proof (ReadToBuffer_done_eq sink_receive tt ec_success data k0) as E.
  change (io_stream (view k0)) with s in E. cbv zeta in E.
  rewrite <- Hhead, E by (done || lia). clear E.
  destruct (wrote_wf data s Hwf Hdata ltac:(lia)) as [Hwf' Hvalid].
  rewrite Hrest, Hsplit in Hvalid.
  destruct (parse_frames (wrote data s) qs rest' Hwf' Hvalid Hqs Hinc)
    as (s' & Hparse & Hwf2 & Hv2 & Hh2 & _).
  assert (readBufferMaxSize s' = readBufferMaxSize s ∧ readBufferSize s' = readBufferSize s) as [Hmax Hsize].
  { pose proof (parse_safe (wrote data s) Hwf') as Hsafe. rewrite Hparse in Hsafe.
    destruct Hsafe as (_ & _ & b & Hs'). split; [by rewrite Hs'|].
    rewrite (buffer_size _ Hwf2), (buffer_size _ Hwf), Hs'. done. }
  unfold catch_pitaya. rewrite Hparse, sink_next by done. eexists. split; [done|].
  split; [|exact Hmax]. split; simpl; [by rewrite Hgot|done..|]. by rewrite Hh2, Hsize.
Qed.

(** A read that gets nothing: the source is empty, for there was room. *)
Lemma nothing_left got rest source ps' k n :
  receiving got rest k → Forall (λ p, Z.of_nat (length (frame p)) ≤ sink_size k) ps' →
  rest ++ source = frames ps' →
  match ps' with [] => rest = [] | p :: _ => (length rest < length (frame p))%nat end → (0 < n)%nat →
  take (n `min` Z.to_nat (readBufferSize (io_stream (sk_io k)) - Z.of_nat (length rest))) source = [] →
  source = [].
Proof.
  intros Hk Hfit Hbytes Hshort Hn Htake. destruct source as [|b source]; [done|]. exfalso.
  destruct ps' as [|p ps']; [subst rest; done|].
  apply Forall_cons in Hfit as [Hfit _]. unfold sink_size in Hfit.
  rewrite (buffer_size _ (rc_wf _ _ _ Hk)) in Htake.
  destruct n as [|n]; [lia|]. destruct (Z.to_nat _) eqn:E in Htake; [lia|]. done.
Qed.

(** The induction behind [pump_delivers_all], from any sink. *)
Lemma pump_from sizes ps got rest source ps' k :
  receiving got rest k → ps = got ++ ps' → Forall receivable ps →
  Forall (λ p, Z.of_nat (length (frame p)) ≤ sink_size k) ps →
  rest ++ source = frames ps' → incomplete rest →
  match ps' with [] => rest = [] | p :: _ => (length rest < length (frame p))%nat end →
  Forall (λ n, 0 < n)%nat sizes →
  ∃ left k' got' rest' ps'',
    pump sizes source k = Ret left k' ∧ receiving got' rest' k' ∧
    ps = got' ++ ps'' ∧ rest' ++ left = frames ps'' ∧
    match ps'' with [] => rest' = [] | p :: _ => (length rest' < length (frame p))%nat end ∧
    ((length source ≤ length sizes)%nat → left = [] ∧ got' = ps).
Proof.
  revert got rest source ps' k. induction sizes as [|n sizes IH];
    intros got rest source ps' k Hk Hps Hrecv Hfit Hbytes Hinc Hshort Hsizes.
  { exists source, k, got, rest, ps'. split_and!; [done..|]. simpl.
    destruct source; [intros _|simpl; lia]. split; [done|].
    destruct ps' as [|p ps']; [by rewrite Hps, app_nil_r|].
    exfalso. rewrite app_nil_r in Hbytes. subst rest. rewrite frames_cons, length_app in Hshort. lia. }
  apply Forall_cons in Hsizes as [Hn Hsizes]. simpl pump.
  run (eq_refl : get k = Ret k k). pose proof (rc_read _ _ _ Hk) as Hread. rewrite Hread. cbn [ro_size].
  set (room := Z.to_nat _). set (op := Build_ReceiveOp _ _ _ _).
  assert (Forall receivable ps' ∧ Forall (λ p, Z.of_nat (length (frame p)) ≤ sink_size k) ps') as [Hr' Hf'].
  { subst ps. apply Forall_app in Hrecv as [_ ?], Hfit as [_ ?]. done. }
  destruct (take (n `min` room) source) as [|b data'] eqn:Htake.
  - (* Nothing to read: the source is empty. *)
    apply (nothing_left got rest source ps' k n) in Htake as ->; [|done..].
    destruct (IH got rest [] ps' k) as (left & k' & got' & rest' & ps'' & E & ? & ? & ? & ? & Hall); try done.
    exists left, k', got', rest', ps''. split_and!; try done. intros _. apply Hall. simpl. lia.
  - cbv iota. rewrite <- Htake. set (count := (n `min` room)%nat) in *.
    assert (count ≤ room)%nat as Hcount by lia. clearbody count.
    set (data := take count source) in *.
    assert (data ≠ []) as Hne by (by rewrite Htake).
    assert (source = data ++ drop count source) as Hsource by (symmetry; apply take_drop).
    rewrite Hsource, app_assoc in Hbytes.
    destruct (frames_split ps' (rest ++ data) (drop count source) Hr' Hbytes)
      as (qs & ps'' & rest' & -> & Hsplit & Hleft & Hinc' & Hshort').
    assert (bytes_wf data) as Hdata.
    { unfold data. apply bytes_wf_take. apply frames_bytes_wf in Hr'. rewrite <- Hbytes in Hr'.
      rewrite <- app_assoc, <- Hsource in Hr'. by apply Forall_app in Hr' as [_ ?]. }
    apply Forall_app in Hr' as [Hqs Hr''].
    destruct (receive_chunk_delivers got rest data qs rest' op k) as (k1 & E1 & Hk1 & Hs1); try done; [by right| |].
    { unfold data. rewrite length_take. unfold op. cbn [ro_size].
      pose proof (buffer_head _ (rc_wf _ _ _ Hk)). rewrite (rc_head _ _ _ Hk) in *. unfold room in *. lia. }
    destruct (IH (got ++ qs) rest' (drop count source) ps'' k1)
      as (left & k' & got' & rest2 & ps3 & E2 & ? & ? & ? & ? & Hall); try done.
    { by rewrite <- app_assoc. }
    { by rewrite Hs1. }
    exists left, k', got', rest2, ps3. split_and!; try done; [by run E1|].
    intros Hlen. apply Hall. rewrite Hsource, length_app in Hlen. simpl in Hlen.
    destruct data; [done|]. simpl in Hlen. lia.
Qed.

(** A stream of [maxSize] bytes just after its first [ReceivePackets]. *)
Definition sink_start (maxSize : Z) : Sink :=
  let k := {| sk_io := StreamIO_new maxSize; sk_got := []; sk_errors := 0 |} in
  match zoom (ReceivePackets tt) k with Ret _ k' => k' | _ => k end.

Lemma receiving_start maxSize :
  0 ≤ maxSize < 2 ^ 32 → receiving [] [] (sink_start maxSize) ∧ sink_size (sink_start maxSize) = maxSize.
Proof.
  intros Hmax. pose proof (stream_wf_new (SH := SH) (RH := unit) (CH := CH) (EP := EP) maxSize Hmax) as Hwf.
  unfold sink_start, zoom. rewrite ReceivePackets_Ret by apply Hwf. split; [|done].
  split; try done. simpl. by destruct (sw_buffer _ Hwf).
Qed.

(** C3: the client receives the packets the server sent, all of them and in order, however
    TCP cuts the bytes. When every packet fits in the read buffer, then over any reads of the
    concatenated serialisations, of any sizes, nothing fails and no error is reported; the
    packets delivered are always the first ones, and what is in the buffer is a strict prefix
    of the next one; once there have been as many reads as there are bytes, everything has
    been delivered. *)
Theorem pump_delivers_all maxSize sizes ps :
  0 ≤ maxSize < 2 ^ 32 → Forall receivable ps →
  Forall (λ p, Z.of_nat (length (frame p)) ≤ maxSize) ps → Forall (λ n, 0 < n)%nat sizes →
  ∃ left k ps',
    pump sizes (frames ps) (sink_start maxSize) = Ret left k ∧ sk_errors k = 0%nat ∧
    ps = sk_got k ++ ps' ∧ valid_bytes (io_stream (sk_io k)) ++ left = frames ps' ∧
    match ps' with
    | [] => valid_bytes (io_stream (sk_io k)) = []
    | p :: _ => (length (valid_bytes (io_stream (sk_io k))) < length (frame p))%nat
    end ∧
    ((length (frames ps) ≤ length sizes)%nat → left = [] ∧ sk_got k = ps).
Proof.
  intros Hmax Hrecv Hfit Hsizes. destruct (receiving_start maxSize Hmax) as [Hk Hsize].
  destruct (pump_from sizes ps [] [] (frames ps) ps (sink_start maxSize))
    as (left & k & got & rest & ps' & E & [<- ? ? <- _ _] & Hps & Hleft & Hshort & Hall);
    try done; [|by exists left, k, ps'].
  destruct ps as [|p ps]; [done|]. rewrite length_frame. simpl. lia.
Qed.

(** Part of an oversize packet is never one: the read that brings more of it fits. *)
Lemma oversize_incomplete p rest data source more size :
  receivable p → Z.of_nat (length rest) + Z.of_nat (length data) ≤ size →
  size < Z.of_nat (length (frame p)) → (rest ++ data) ++ source = frame p ++ more →
  incomplete (rest ++ data).
Proof.
  intros Hp Hroom Hbig Hbytes.
  apply (strict_prefix_incomplete p _ (drop (length (rest ++ data)) (frame p))); [done| |].
  - apply (f_equal (take (length (rest ++ data)))) in Hbytes.
    rewrite take_app_length, take_app_le in Hbytes by (rewrite length_app; lia).
    rewrite Hbytes at 1. apply take_drop.
  - intros E%(f_equal length). rewrite length_drop, length_app in E. cbn [length] in E. lia.
Qed.

(** However much has been read of it, from any sink; each read of at least one byte, of those
    that are left, gets something while there is room. *)
Lemma oversize_pump maxSize sizes p more rest source k :
  receivable p → maxSize < Z.of_nat (length (frame p)) → bytes_wf more →
  receiving [] rest k → sink_size k = maxSize → rest ++ source = frame p ++ more →
  ∃ left k' rest', pump sizes source k = Ret left k' ∧ receiving [] rest' k' ∧
    sink_size k' = maxSize ∧ rest' ++ left = frame p ++ more ∧
    (Forall (λ n, 0 < n)%nat sizes →
     maxSize `min` Z.of_nat (length rest + length sizes) ≤ Z.of_nat (length rest')).
Proof.
  intros Hp Hbig Hmore. revert rest source k.
  induction sizes as [|n sizes IH]; intros rest source k Hk Hsize Hbytes.
  { exists source, k, rest. split_and!; try done. intros _. simpl. lia. }
  simpl pump. run (eq_refl : get k = Ret k k). rewrite (rc_read _ _ _ Hk). cbn [ro_size].
  set (room := Z.to_nat _). set (op := Build_ReceiveOp _ _ _ _).
  pose proof (buffer_head _ (rc_wf _ _ _ Hk)) as Hhead. rewrite (rc_head _ _ _ Hk) in Hhead.
  pose proof (buffer_size _ (rc_wf _ _ _ Hk)) as Hbuf. unfold sink_size in Hsize.
  destruct (take (n `min` room) source) as [|b data'] eqn:Htake.
  { destruct (IH rest source k Hk Hsize Hbytes) as (left & k' & rest' & E & Hk' & Hs' & Hb' & Hfull).
    exists left, k', rest'. split_and!; try done. intros [Hn Hsizes]%Forall_cons.
    specialize (Hfull Hsizes). apply (f_equal length) in Hbytes, Htake.
    rewrite length_take in Htake. rewrite !length_app in Hbytes. unfold room in Htake. simpl in *. lia. }
  cbv iota. rewrite <- Htake. set (count := (n `min` room)%nat) in *.
  assert (count ≤ room)%nat as Hcount by lia. clearbody count.
  set (data := take count source) in *.
  assert (source = data ++ drop count source) as Hsource by (symmetry; apply take_drop).
  rewrite Hsource, app_assoc in Hbytes.
  assert (Z.of_nat (length data) ≤ ro_size op) as Hroom.
  { unfold data. rewrite length_take. unfold op. cbn [ro_size]. unfold room in *. lia. }
  assert (bytes_wf (rest ++ data)) as [_ Hdata]%Forall_app.
  { assert (bytes_wf (frame p ++ more)) as Hall
      by (apply bytes_wf_app; [by apply frame_bytes_wf|done]).
    rewrite <- Hbytes in Hall. by apply Forall_app in Hall as [? _]. }
  destruct (receive_chunk_delivers [] rest data [] (rest ++ data) op k)
    as (k1 & E1 & Hk1 & Hs1); try done; [by rewrite (rc_read _ _ _ Hk)|by right; rewrite Htake| |].
  { unfold op in Hroom. cbn [ro_size] in Hroom.
    apply (oversize_incomplete p rest data (drop count source) more maxSize); done || lia. }
  destruct (IH (rest ++ data) (drop count source) k1) as (left & k' & rest' & E & Hk' & Hs' & Hb' & Hfull);
    [done|by rewrite Hs1|done|].
  exists left, k', rest'. split_and!; try done; [by run E1|]. intros [_ Hsizes]%Forall_cons.
  specialize (Hfull Hsizes). rewrite Htake, length_app in Hfull. simpl in *. lia.
Qed.

(** The completion of a read of no bytes, for part of an oversize packet: a build with
    assertions stops, another one reads again, and nothing else has changed. *)
Lemma receive_nothing p rest source more op k :
  receiving [] rest k → io_receives (sk_io k) = [op] → receivable p →
  sink_size k < Z.of_nat (length (frame p)) → rest ++ source = frame p ++ more →
  if ndebug then ∃ k', receive_chunk op [] k = Ret tt k' ∧ receiving [] rest k' ∧ sink_size k' = sink_size k
  else receive_chunk op [] k = Crash (AssertFailed "bytesRead > 0").
Proof.
  intros Hk Hop Hp Hbig Hbytes. destruct ndebug eqn:Hnd.
  - pose proof (buffer_head _ (rc_wf _ _ _ Hk)) as Hhead. rewrite (rc_head _ _ _ Hk) in Hhead.
    pose proof (buffer_size _ (rc_wf _ _ _ Hk)) as Hbuf.
    destruct (receive_chunk_delivers [] rest [] [] rest op k) as (k' & ? & ? & ?);
      [done..|by left| | |constructor| |by exists k'].
    + pose proof (rc_read _ _ _ Hk) as E. rewrite Hop in E. injection E as ->. simpl. lia.
    + by rewrite app_nil_r.
    + rewrite <- (app_nil_r rest). apply (oversize_incomplete p rest [] source more (sink_size k)); try done.
      * simpl. unfold sink_size. lia.
      * by rewrite app_nil_r.
  - unfold receive_chunk, ReadToBuffer_done, cpp_assert. by rewrite ec_failed_success, Hnd.
Qed.

(** C35: a packet longer than the read buffer is never delivered, nor is anything after it,
    however many reads there are, and no error is reported. When each read gets at least a
    byte of those that are left, then after as many reads as the buffer has bytes the buffer
    is full of the packet, and the outstanding read is for no bytes at all. Its completion,
    with no bytes, stops a build with assertions, and leaves any other where it was, with the
    same read for no bytes outstanding. *)
Theorem oversize_never_delivered maxSize sizes p more :
  0 ≤ maxSize < 2 ^ 32 → receivable p → maxSize < Z.of_nat (length (frame p)) → bytes_wf more →
  ∃ left k op,
    pump sizes (frame p ++ more) (sink_start maxSize) = Ret left k ∧
    sk_got k = [] ∧ sk_errors k = 0%nat ∧
    valid_bytes (io_stream (sk_io k)) ++ left = frame p ++ more ∧
    io_receives (sk_io k) = [op] ∧
    ro_size op = maxSize - Z.of_nat (length (valid_bytes (io_stream (sk_io k)))) ∧
    (Forall (λ n, 0 < n)%nat sizes → maxSize ≤ Z.of_nat (length sizes) →
     valid_bytes (io_stream (sk_io k)) = take (Z.to_nat maxSize) (frame p) ∧ ro_size op = 0 ∧
     if ndebug then
       ∃ k', receive_chunk op [] k = Ret tt k' ∧ sk_got k' = [] ∧ sk_errors k' = 0%nat ∧
         valid_bytes (io_stream (sk_io k')) = valid_bytes (io_stream (sk_io k)) ∧
         io_receives (sk_io k') = [op]
     else receive_chunk op [] k = Crash (AssertFailed "bytesRead > 0")).
Proof.
  intros Hmax Hp Hbig Hmore. destruct (receiving_start maxSize Hmax) as [Hk Hsize].
  destruct (oversize_pump maxSize sizes p more [] (frame p ++ more) (sink_start maxSize))
    as (left & k & rest & E & Hk' & Hs' & Hb & Hfull); try done.
  pose proof (rc_read _ _ _ Hk') as Hr. pose proof (buffer_size _ (rc_wf _ _ _ Hk')) as Hbuf.
  pose proof (buffer_head _ (rc_wf _ _ _ Hk')) as Hhead. rewrite (rc_head _ _ _ Hk') in Hhead.
  unfold sink_size in Hs'. eexists left, k, _. rewrite (rc_rest _ _ _ Hk').
  split_and!; [done|apply Hk'|apply Hk'|done|exact Hr|cbn [ro_size]; lia|].
  intros Hsizes Hlen. specialize (Hfull Hsizes). simpl in Hfull.
  assert (Z.of_nat (length rest) = maxSize) as Hrest by lia. cbn [ro_size]. split_and!; [|lia|].
  - apply (f_equal (take (Z.to_nat maxSize))) in Hb. rewrite <- Hrest, Nat2Z.id in Hb |- *.
    rewrite take_app_length, take_app_le in Hb by lia. done.
  - pose proof (receive_nothing p rest left more _ k Hk' Hr Hp ltac:(unfold sink_size; lia) Hb) as Hn.
    destruct ndebug; [|done]. destruct Hn as (k' & E' & Hk2 & Hs2). exists k'.
    split_and!; [done|apply Hk2|apply Hk2|apply Hk2|]. rewrite (rc_read _ _ _ Hk2).
    pose proof (buffer_size _ (rc_wf _ _ _ Hk2)). unfold sink_size in Hs2. do 2 f_equal. lia.
Qed.
End sink.
