(* ===== verification/Requests.v ===== *)
(** * Requests: what each of their lambdas does

    The behaviour of [PostRequest], of the completion of its send, of an answer and of a
    timeout, on every branch. *)

From S2P Require Import Prelude Outcome Net Errors Events Gzip Message Packet ReadBuffer.
From S2P Require Import TcpPacketStream ConnState Json Connection Client System Stream.

Section requests.
Context `{BuildMode, BoostMessages, Zlib, Allocator, RapidJson, Resolver, DecompressFuel}.
Context `{!TimerService ConnTimerCb, !UnorderedIteration}.

(** The bytes of a request on the wire, after the header of the packet: the flag, the id in
    base 128, and the code of the route. *)
Definition request_body (id_bytes : list Z) (code : Z) : list Z :=
  1 :: id_bytes ++ [u8 (Z.land (Z.shiftr code 8) 255); u8 (Z.land code 255)].

Lemma NewData_request id route data dict code (w : World) :
  0 ≤ id < 2 ^ 64 → dict !! route = Some code →
  ∃ bs, (∀ w' : World, encode_id id w' = Ret bs w') ∧
    NewData_message (Message_NewRequest id route data) dict w =
      Ret {| pkt_type := PT_Data; pkt_body := request_body bs code |} w.
Proof.
  intros Hid Hcode.
  destruct (SerializeInto_request (Message_NewRequest id route data) [] dict code w)
    as (bs & Hbs & E); [done..|].
  exists bs. split; [exact Hbs|]. unfold NewData_message.
  change (pkt_body Packet_default) with (@nil Z). run E.
  done.
Qed.

(** A packet of a request: no other packet is ever made of a message. *)
Definition request_packet (p : Packet) : Prop :=
  ∃ id bs code, 0 ≤ id < 2 ^ 64 ∧ encode_id_loop 10 id = Some bs ∧
    p = {| pkt_type := PT_Data; pkt_body := request_body bs code |}.

Lemma NewData_request_packet id route data dict (w w' : World) p :
  NewData_message (Message_NewRequest id route data) dict w = Ret p w' → request_packet p.
Proof.
  assert (NewData_message (W := World) (Message_NewRequest id route data) dict =
    NewData_message (Message_NewRequest (u64 id) route data) dict) as ->.
  { unfold NewData_message, Message_SerializeInto. cbn [msg_id Message_NewRequest].
    by rewrite (u64_small (u64 id)) by apply u64_range. }
  destruct (dict !! route) as [code|] eqn:Hcode.
  - destruct (NewData_request (u64 id) route data dict code w (u64_range id) Hcode) as (bs & Hbs & ->).
    intros [= <- _]. exists (u64 id), bs, code. split; [apply u64_range|]. split; [|done].
    specialize (Hbs w). unfold encode_id in Hbs. destruct (encode_id_loop 10 _); [|done].
    by injection Hbs as ->.
  - unfold NewData_message. intros E. erewrite bind_Throw in E; [done|]. apply SerializeInto_throws; [apply u64_range|done].
Qed.

Lemma assert_worker_Ret w : w_workerThreadId w = Some (w_thread w) → assert_worker w = Ret tt w.
Proof.
  intros Hw. unfold assert_worker. rewrite (bind_Ret get _ _ _ _ eq_refl).
  by apply cpp_assert_true, bool_decide_eq_true_2.
Qed.

(** On an established connection, with a route that has a code. *)
Lemma PostRequest_run_connected r w c code :
  w_workerThreadId w = Some (w_thread w) → 0 ≤ w_reqId w < 2 ^ 64 →
  st_val (w_state w) = ConnectedState c → routeToCode c !! pr_route r = Some code →
  ∃ bs, (∀ w' : World, encode_id (w_reqId w) w' = Ret bs w') ∧
  PostRequest_run r w =
    zoom (W := World)
      (SendPacket {| pkt_type := PT_Data; pkt_body := request_body bs code |}
         (RequestSent (pr_timeout r)
            (Message_NewRequest (w_reqId w) (pr_route r) (pr_data r)) (pr_handler r)))
      (set_reqId (u64 (w_reqId w + 1)) w).
Proof.
  intros Hw Hid Hst Hcode. unfold PostRequest_run. rewrite (bind_Ret _ _ _ _ _ (get_state_Ret w)).
  unfold IsConnected. rewrite Hst. cbn [negb].
  rewrite (bind_Ret _ _ _ _ _ (assert_worker_Ret w Hw)), (bind_Ret get _ _ _ _ eq_refl).
  set (w1 := set_reqId (u64 (w_reqId w + 1)) w).
  rewrite (bind_Ret (modify _) _ w tt w1) by done. cbv zeta.
  destruct (NewData_request (w_reqId w) (pr_route r) (pr_data r) _ code w1 Hid Hcode) as (bs & Hbs & E).
  exists bs. split; [exact Hbs|]. by run E.
Qed.

(** C27: the closure of a request, on the worker thread. Without a connection the handler is
    called at once with NotConnectedError. With one, and a route the server has given a code,
    one Data packet is handed to the stream, with the next id; its body is the flag, the id
    and the code, and nothing of the data of the request. With any other route
    [std::out_of_range] leaves the closure, and the handler is not called. *)
Theorem PostRequest_run_spec r w :
  w_workerThreadId w = Some (w_thread w) → 0 ≤ w_reqId w < 2 ^ 64 →
  match st_val (w_state w) with
  | InitedState =>
      PostRequest_run r w =
        Ret tt (add_trace (HandlerCalled (pr_handler r) StatusNotConnectedError []) w)
  | ConnectedState c =>
      match routeToCode c !! pr_route r with
      | Some code =>
          ∃ bs, (∀ w' : World, encode_id (w_reqId w) w' = Ret bs w') ∧
          PostRequest_run r w =
            zoom (W := World)
              (SendPacket {| pkt_type := PT_Data; pkt_body := request_body bs code |}
                 (RequestSent (pr_timeout r)
                    (Message_NewRequest (w_reqId w) (pr_route r) (pr_data r)) (pr_handler r)))
              (set_reqId (u64 (w_reqId w + 1)) w)
      | None => PostRequest_run r w = Throw StdOutOfRange (set_reqId (u64 (w_reqId w + 1)) w)
      end
  end.
Proof.
  intros Hw Hid. destruct (st_val (w_state w)) as [|c] eqn:Hst.
  { unfold PostRequest_run. rewrite (bind_Ret _ _ _ _ _ (get_state_Ret w)).
    unfold IsConnected. by rewrite Hst. }
  destruct (routeToCode c !! pr_route r) as [code|] eqn:Hcode; [by apply (PostRequest_run_connected r w c)|].
  unfold PostRequest_run. rewrite (bind_Ret _ _ _ _ _ (get_state_Ret w)).
  unfold IsConnected. rewrite Hst. cbn [negb].
  rewrite (bind_Ret _ _ _ _ _ (assert_worker_Ret w Hw)), (bind_Ret get _ _ _ _ eq_refl).
  rewrite (bind_Ret (modify _) _ w tt (set_reqId (u64 (w_reqId w + 1)) w)) by done.
  apply bind_Throw. unfold NewData_message. apply bind_Throw. by apply SerializeInto_throws.
Qed.

(** The timers when the timeout of the request [id] has been armed. *)
Definition request_armed (t id : Z) (s : TS) : TS :=
  ts_async_wait (ts_new s).1 (CbRequestTimeout id)
    (ts_expires (ts_new s).1 (ExpiresAfter t) (ts_new s).2).

Lemma RequestSent_done_Ret t m h w :
  w_inFlight w !! msg_id m = None →
  RequestSent_done t m h ec_success w =
    Ret tt (set_inFlight
              (<[msg_id m := {| req_handler := h; req_timer := (ts_new (w_timers w)).1 |}]> (w_inFlight w))
              (set_timers (request_armed t (msg_id m) (w_timers w)) w)).
Proof.
  intros Hid. unfold RequestSent_done. rewrite ec_failed_success, (bind_Ret get _ _ _ _ eq_refl).
  rewrite (bind_Ret _ _ _ _ _ (cpp_assert_true _ _ w (bool_decide_eq_true_2 _ Hid))).
  unfold inFlight_emplace.
  rewrite (bind_Ret (Request_new h t (msg_id m)) _ w {| req_handler := h; req_timer := (ts_new (w_timers w)).1 |}
             (set_timers (request_armed t (msg_id m) (w_timers w)) w)) by done.
  rewrite (bind_Ret get _ _ _ _ eq_refl). cbn [w_inFlight set_timers]. by rewrite Hid.
Qed.

(** The completion of a send puts the request in flight, under its own id, with a new
    timer that has exactly one wait, for the timeout of that id; the handler is not called.
    When the send failed the handler is called with InternalError and nothing is in flight. *)
Lemma RequestSent_done_spec t m h ec w :
  w_inFlight w !! msg_id m = None →
  if ec_failed ec then
    RequestSent_done t m h ec w = Ret tt (add_trace (HandlerCalled h StatusInternalError []) w)
  else
    ∃ timer ts, RequestSent_done t m h ec w =
      Ret tt (set_inFlight (<[msg_id m := {| req_handler := h; req_timer := timer |}]> (w_inFlight w))
                (set_timers ts w)) ∧
      ¬ ts_alive (w_timers w) timer ∧
      ts_waiting ts timer = [CbRequestTimeout (msg_id m)] ∧
      ∀ timer', timer' ≠ timer → ts_waiting ts timer' = ts_waiting (w_timers w) timer'.
Proof.
  intros Hid. destruct (ec_failed ec) eqn:Hec; [unfold RequestSent_done; by rewrite Hec|].
  exists (ts_new (w_timers w)).1, (request_armed t (msg_id m) (w_timers w)). split_and!.
  - rewrite <- (RequestSent_done_Ret t m h w Hid). unfold RequestSent_done. by rewrite Hec.
  - apply ts_new_fresh.
  - unfold request_armed. by rewrite ts_async_wait_waiting, decide_True, ts_expires_waiting, decide_True.
  - intros timer' Hne. unfold request_armed. rewrite ts_async_wait_waiting, decide_False by done.
    rewrite ts_expires_waiting, decide_False by done. by rewrite ts_new_waiting, decide_False.
Qed.

(** ** Answers *)

(** The request [id] has been answered: its handler was called, it is not in flight any more,
    and its timer is gone. *)
Definition answered (id : Z) (r : Request) (status : RequestStatus) (data : list Z) (w : World) : World :=
  set_inFlight (delete id (w_inFlight w))
    (set_timers (ts_destroy (req_timer r) (w_timers w))
       (add_trace (HandlerCalled (req_handler r) status data) w)).

Lemma ProcessMessage_Ret msg w :
  msg_type msg = MT_Response →
  Connection_ProcessMessage msg w =
    Ret tt match w_inFlight w !! msg_id msg with
           | Some r => answered (msg_id msg) r (if msg_error msg then StatusServerError else StatusOk)
                         (msg_data msg) w
           | None => w
           end.
Proof.
  intros Hty. unfold Connection_ProcessMessage. rewrite Hty, (bind_Ret get _ _ _ _ eq_refl).
  destruct (w_inFlight w !! msg_id msg) as [r|] eqn:Hr; [|done].
  destruct (msg_error msg); by apply answer_Ret.
Qed.

Lemma RequestTimeout_Ret id ec w :
  RequestTimeout_done id ec w =
    Ret tt (if ec_failed ec then w
            else match w_inFlight w !! id with
                 | Some r => answered id r StatusTimeout [] w
                 | None => w
                 end).
Proof.
  unfold RequestTimeout_done. destruct (ec_failed ec); [done|].
  unfold Connection_ProcessRequestTimeout. rewrite (bind_Ret get _ _ _ _ eq_refl).
  destruct (w_inFlight w !! id) as [r|] eqn:Hr; [by apply answer_Ret|done].
Qed.

(** A response answers the request in flight with its id, and only that one: the handler
    is called once, with Ok or ServerError and the data of the message, the request leaves
    the map, and no wait of its timer is left. A response whose id is not in flight, as one
    that arrives before the completion of the send, changes nothing; so do messages that are
    not responses. *)
Lemma ProcessMessage_spec msg w :
  (msg_type msg ≠ MT_Response → Connection_ProcessMessage msg w = Ret tt w) ∧
  (msg_type msg = MT_Response → w_inFlight w !! msg_id msg = None →
   Connection_ProcessMessage msg w = Ret tt w) ∧
  (∀ r, msg_type msg = MT_Response → w_inFlight w !! msg_id msg = Some r →
   ∃ w', Connection_ProcessMessage msg w = Ret tt w' ∧
     w_trace w' = w_trace w ++
       [HandlerCalled (req_handler r) (if msg_error msg then StatusServerError else StatusOk) (msg_data msg)] ∧
     w_inFlight w' = delete (msg_id msg) (w_inFlight w) ∧
     ts_waiting (w_timers w') (req_timer r) = [] ∧
     w_io w' = w_io w ∧ w_state w' = w_state w).
Proof.
  split_and!.
  - intros Hty. unfold Connection_ProcessMessage. by destruct (msg_type msg).
  - intros Hty Hr. by rewrite ProcessMessage_Ret, Hr by done.
  - intros r Hty Hr. eexists. rewrite ProcessMessage_Ret, Hr by done. split; [done|].
    split_and!; try done. simpl. by rewrite ts_destroy_waiting, decide_True.
Qed.

(** C26: a request is answered by what comes first, and by nothing else: after a response, the
    timeout of the same request and a second response change nothing; after a timeout, a late
    response changes nothing. *)
Theorem answered_once msg msg' ec w :
  msg_type msg = MT_Response → msg_type msg' = MT_Response → msg_id msg' = msg_id msg →
  (Connection_ProcessMessage msg ;; RequestTimeout_done (msg_id msg) ec) w = Connection_ProcessMessage msg w ∧
  (Connection_ProcessMessage msg ;; Connection_ProcessMessage msg') w = Connection_ProcessMessage msg w ∧
  (RequestTimeout_done (msg_id msg) ec_success ;; Connection_ProcessMessage msg) w =
    RequestTimeout_done (msg_id msg) ec_success w.
Proof.
  intros Hty Hty' Hid.
  assert (∀ r s d w, w_inFlight (answered (msg_id msg) r s d w) !! msg_id msg = None) as Hgone.
  { intros. simpl. apply lookup_delete_eq. }
  split_and!.
  - rewrite (bind_Ret _ _ _ _ _ (ProcessMessage_Ret msg w Hty)), ProcessMessage_Ret, RequestTimeout_Ret by done.
    destruct (ec_failed ec); [done|].
    destruct (w_inFlight w !! msg_id msg) eqn:E; [by rewrite Hgone|by rewrite E].
  - rewrite (bind_Ret _ _ _ _ _ (ProcessMessage_Ret msg w Hty)), !ProcessMessage_Ret, Hid by done.
    destruct (w_inFlight w !! msg_id msg) eqn:E; [by rewrite Hgone|by rewrite E].
  - rewrite (bind_Ret _ _ _ _ _ (RequestTimeout_Ret _ _ _)), ProcessMessage_Ret, RequestTimeout_Ret by done.
    rewrite ec_failed_success.
    destruct (w_inFlight w !! msg_id msg) eqn:E; [by rewrite Hgone|by rewrite E].
Qed.
End requests.
