(* ===== verification/Frame.v ===== *)
(** * Invariants of the world, and the faults that remain

    [Framed P F] is the interface between the connection and an invariant [P] of its world:
    it lists the few operations that change something, and asks that each keeps [P] and
    crashes only with a fault of [F]. [Sending P F] adds the packets, the read and the change of
    state of the handshake, which some invariants cannot allow at any time. Everything else the lambdas of the program do is control flow, and the file proves once
    that all of them keep [P]. *)

From S2P Require Import Prelude Outcome Net Errors Events Gzip Message Packet ReadBuffer.
From S2P Require Import TcpPacketStream ConnState Json Connection Client System Stream Requests.

(** The faults that depend on what the server sends and on what the libraries do. *)
Inductive environment_fault : fault → Prop :=
(* A receive that completes with no error and no byte: the room it was given was 0. *)
| fault_no_room : environment_fault (AssertFailed "bytesRead > 0")
(* The server has sent two packets that were received together. *)
| fault_many_packets : environment_fault (AssertFailed "packets.size() == 1")
(* A handshake after the handshake. *)
| fault_wrong_packet :
    environment_fault (AssertFailed "Should not receive packets other than heartbeat, data and kick")
(* A heartbeat or a kick with a body, or an ack of the handshake. *)
| fault_body : environment_fault (AssertFailed "length == 0")
| fault_ack : environment_fault (AssertFailed "Unexpected packet type from server")
(* A handshake response whose value, or whose member [sys], is not an object. *)
| fault_json : environment_fault (AssertFailed "IsObject()")
| fault_json_release :
    environment_fault (UndefinedBehaviour "member query on a JSON value that is not an object")
(* A heartbeat interval whose triple does not fit. *)
| fault_heartbeat :
    environment_fault (UndefinedBehaviour "signed overflow of heartbeatInterval * kHeartbeatFactor")
(* Messages that end too early, or with too long an id: [buf] is the body of the message. *)
| fault_message_read : environment_fault (index_out_of_range "buf")
| fault_message_range : environment_fault (invalid_range "buf")
| fault_message_id : environment_fault (UndefinedBehaviour "shift exceeds the width of uint64_t")
(* What [Decompress] leaves behind after an error. *)
| fault_output : environment_fault (UndefinedBehaviour "read of indeterminate bytes")
(* A loop that does not end: of the parser on an ack in a build without assertions, of
   [Decompress] on an input that makes no progress. *)
| fault_loop : environment_fault FuelExhausted.

Create HintDb faults.
#[export] Hint Constructors environment_fault : faults.

Section frame.
Context `{BuildMode, BoostMessages, Zlib, Allocator, RapidJson, Resolver, DecompressFuel}.
Context `{!TimerService ConnTimerCb, !UnorderedIteration}.

(** The two uses of the heartbeat timers outside [State::SetConnected], for an invariant that
    does not look at the timers. *)
Lemma runs_any_tick (P : World → Prop) F ec :
  (∀ f, runs P F (timer_op f : M World unit)) →
  runs P F (zoom (W := World) (SendPacket NewHeartbeat HeartbeatSent)) →
  (∀ ec, runs P F (Connection_ConnectionError ec)) →
  runs P F (HeartbeatTick call_fn ec).
Proof.
  intros Htimer Hsend Herror. unfold HeartbeatTick. case_match; [apply runs_ret|].
  apply runs_bind; [by intros w Hw|intros st]. case_match; [apply runs_ret|].
  apply runs_bind; [by destruct (heartbeatTick _); simpl|intros _].
  apply runs_bind; [|intros _]; apply Htimer.
Qed.

Lemma runs_any_extend (P : World → Prop) F :
  (∀ f, runs P F (timer_op f : M World unit)) → runs P F (ExtendHeartbeatTimeout (W := World)).
Proof.
  intros Htimer. apply runs_bind; [by intros w Hw|intros st]. case_match; [apply runs_ret|apply Htimer].
Qed.

Class Framed (P : World → Prop) (F : fault → Prop) := {
  fr_allowed f : environment_fault f → F f;
  fr_worker w : P w → w_workerThreadId w = Some (w_thread w);
  fr_handler h s d : runs P F (call_handler h s d);
  fr_emplace id h t w :
    w_inFlight w !! id = None → P w → ends P F (inFlight_emplace id h t w);
  fr_erase id : runs P F (inFlight_erase id);
  fr_tick ec : runs P F (HeartbeatTick call_fn ec);
  fr_extend : runs P F (ExtendHeartbeatTimeout (W := World));
  fr_failed ec : runs P F (Connection_HandshakeFailed ec);
  fr_error ec : runs P F (Connection_ConnectionError ec);
  fr_kicked : runs P F Connection_KickedFromServer;
  fr_request p t m h :
    request_packet p → runs P F (zoom (W := World) (SendPacket p (RequestSent t m h)));
  fr_listen : runs P F (zoom (W := World) (ReceivePackets PacketsReceived));
  fr_written id :
    runs P F (zoom (W := World) (modify (λ io : ConnIO, set_stream
      (set_writeBuffers (delete id (writeBuffers (io_stream io)))
         (writeId (io_stream io)) (io_stream io)) io)));
}.

Class Sending (P : World → Prop) (F : fault → Prop) := {
  sd_handshake : runs P F (zoom (W := World) (SendPacket (NewHandshake handshake_json) HandshakeSent));
  sd_ack n s d : runs P F (zoom (W := World) (SendPacket NewHandshakeAck (HandshakeAckSent n s d)));
  sd_heartbeat : runs P F (zoom (W := World) (SendPacket NewHeartbeat HeartbeatSent));
  sd_receive : runs P F (zoom (W := World) (ReceivePackets HandshakeResponseReceived));
  sd_started n s d : runs P F (Connection_StartReceivingPackets n s d);
}.

Lemma sending_any (P : World → Prop) F :
  (∀ p h, runs P F (zoom (W := World) (SendPacket p h))) →
  (∀ h, runs P F (zoom (W := World) (ReceivePackets h))) →
  (∀ n s d, runs P F (Connection_StartReceivingPackets n s d)) → Sending P F.
Proof. by split. Qed.

Context (P : World → Prop) (F : fault → Prop) `{!Framed P F}.

Local Ltac fault := apply fr_allowed; auto with faults nocore.

(** Follow the control flow; leaves are the operations of the class and the faults. *)
Local Ltac frame :=
  repeat lazymatch goal with
  | |- ∀ _, _ => intros ?
  | |- runs _ _ (mret _) => apply runs_ret
  | |- runs _ _ get => apply runs_get
  | |- runs _ _ (call_handler _ _ _) => apply fr_handler
  | |- runs _ _ (inFlight_erase _) => apply fr_erase
  | |- runs _ _ (HeartbeatTick _ _) => apply fr_tick
  | |- runs _ _ ExtendHeartbeatTimeout => apply fr_extend
  | |- runs _ _ (Connection_HandshakeFailed _) => apply fr_failed
  | |- runs _ _ (Connection_ConnectionError _) => apply fr_error
  | |- runs _ _ Connection_KickedFromServer => apply fr_kicked
  | |- runs _ _ (zoom (ReceivePackets PacketsReceived)) => apply fr_listen
  | |- runs _ _ (zoom (modify _)) => apply fr_written
  | |- runs _ _ (undefined _) => apply runs_undefined; fault
  | |- runs _ _ (crash _) => apply runs_crash; fault
  | |- runs _ _ (vec_at _ _ _) => apply runs_vec_at; fault
  | |- runs _ _ (vec_range _ _ _ _) => apply runs_vec_range; fault
  | |- runs _ _ (_ ≫= _) => apply runs_bind
  | |- runs _ _ (cpp_assert _ _) => apply runs_assert; left; fault
  | |- runs _ _ (match _ with _ => _ end) => case_match
  end.

Lemma runs_get_state : runs P F (get_state : M World _).
Proof. by intros w Hw. Qed.

Lemma runs_assert_worker : runs P F assert_worker.
Proof.
  apply runs_get_then. intros w Hw. rewrite cpp_assert_true; [done|].
  apply bool_decide_eq_true_2. by eapply fr_worker.
Qed.

(** A look at the state, with what it was. *)
Lemma runs_get_state_then {A} (f : State HeartbeatFn → M World A) :
  (∀ st, runs P F (f st)) → runs P F (get_state ≫= f).
Proof. apply runs_bind, runs_get_state. Qed.

Lemma runs_start_read `{!Sending P F} h : runs P F (zoom (W := World) (ReceivePackets h)).
Proof. destruct h; [apply sd_receive|apply fr_listen]. Qed.

(** ** Timers *)

Lemma runs_call_fn `{!Sending P F} f : runs P F (call_fn f).
Proof. destruct f; [apply sd_heartbeat|apply fr_error]. Qed.

Lemma runs_call_timer cb ec :
  (∀ f, cb = CbHeartbeatTimeout f → runs P F (call_fn f)) → runs P F (call_timer cb ec).
Proof.
  destruct cb; intros Hf; simpl; unfold HeartbeatTimeout_done, RequestTimeout_done,
    Connection_ProcessRequestTimeout; frame; auto.
Qed.

(** ** Packets *)

Lemma runs_decode_id_loop bs i off id : runs P F (decode_id_loop bs i off id : M World _).
Proof.
  revert i id. induction bs as [|b bs IH]; intros i id; simpl; [apply runs_ret|].
  case_match; [frame|]. case_match; [apply runs_ret|apply IH].
Qed.

Lemma runs_Deserialize fuel buf codes : runs P F (Message_Deserialize fuel buf codes : M World _).
Proof.
  unfold Message_Deserialize, decode_route, decode_body.
  frame. all: try apply runs_decode_id_loop.
Qed.

Lemma runs_ProcessMessage msg : runs P F (Connection_ProcessMessage msg).
Proof. unfold Connection_ProcessMessage. frame. Qed.

Lemma runs_ProcessPacket packet : runs P F (Connection_ProcessPacket packet).
Proof.
  unfold Connection_ProcessPacket. case_match; try solve [frame].
  - apply runs_get_state_then. intros st. unfold IsConnected.
    destruct (st_val st) as [|c]; simpl; [apply fr_error|].
    apply runs_bind; [apply runs_Deserialize|]. intros [msg|]; [apply runs_ProcessMessage|apply fr_error].
Qed.

Lemma runs_PacketsReceived_done ec packets : runs P F (PacketsReceived_done ec packets).
Proof.
  unfold PacketsReceived_done, Connection_ReceivePackets. case_match; [apply fr_error|].
  apply runs_bind; [frame|]. intros _. apply runs_bind; [|frame].
  apply runs_for_each, runs_ProcessPacket.
Qed.

(** ** The handshake *)

Lemma runs_require_object v : runs P F (require_object v : M World unit).
Proof. unfold require_object. frame. Qed.

Lemma runs_HasMember_then {A} v name (f : bool → M World A) :
  (∀ b, (b = true → is_Some (JFindMember v name)) → runs P F (f b)) →
  runs P F (HasMember v name ≫= f).
Proof.
  intros Hf. apply runs_bind_eq.
  { apply runs_bind; [apply runs_require_object|frame]. }
  intros w b w' _ ([] & w1 & _ & [= <- _])%bind_Ret_inv. apply Hf.
  by rewrite bool_decide_eq_true.
Qed.

Lemma runs_Member v name : is_Some (JFindMember v name) → runs P F (Member v name : M World _).
Proof.
  intros [x Hx]. apply runs_bind; [apply runs_require_object|]. intros _. rewrite Hx. apply runs_ret.
Qed.

Lemma runs_SendHandshakeAck `{!Sending P F} text : runs P F (Connection_SendHandshakeAck text).
Proof.
  unfold Connection_SendHandshakeAck. destruct (JParse _) as [doc|]; [|apply fr_error].
  apply runs_HasMember_then. intros [] Hsys; [simpl|apply fr_error].
  apply runs_bind; [apply runs_Member; auto|]. intros sys.
  apply runs_HasMember_then. intros [] Hheartbeat; [simpl|apply fr_error].
  apply runs_bind; [apply runs_Member; auto|]. intros heartbeat.
  destruct (JUint64 _); [|apply fr_error].
  apply runs_HasMember_then. intros b Hser. apply runs_bind.
  { destruct b; [simpl|apply runs_ret]. apply runs_bind; [apply runs_Member; auto|].
    intros v. case_match; apply runs_ret. }
  intros ser. apply runs_HasMember_then. intros b' Hdict. apply runs_bind.
  { destruct b'; [|apply runs_ret]. apply runs_bind; [apply runs_Member; auto|].
    intros v. apply runs_ret. }
  intros dict. apply sd_ack.
Qed.

(** The two bytes that are looked at are there. *)
Lemma runs_IsCompressed data : runs P F (IsCompressed data : M World bool).
Proof.
  unfold IsCompressed. case_match; [apply runs_ret|].
  destruct data as [|d0 [|d1 data]]; [done..|].
  do 2 (apply runs_bind; [apply runs_ret|intros ?]). apply runs_ret.
Qed.

Lemma runs_handshake_text body : runs P F (handshake_text body).
Proof.
  unfold handshake_text. apply runs_bind; [apply runs_IsCompressed|]. frame.
Qed.

Lemma runs_HandshakeResponseReceived_done `{!Sending P F} ec packets :
  ec_failed ec = true ∨ packets ≠ [] → runs P F (HandshakeResponseReceived_done ec packets).
Proof.
  intros Hp. unfold HandshakeResponseReceived_done. case_match; [apply fr_failed|].
  destruct packets as [|p packets]; [naive_solver|].
  apply runs_bind; [by apply runs_assert; right|]. intros _. case_match; [apply fr_failed|].
  apply runs_bind; [apply runs_ret|]. intros packet. case_match; [apply fr_failed|].
  apply runs_bind; [apply runs_handshake_text|].
  intros [text|]; [apply runs_SendHandshakeAck|apply fr_error].
Qed.

(** ** The lambdas *)

Lemma runs_call_receive `{!Sending P F} h ec packets :
  ec_failed ec = true ∨ packets ≠ [] → runs P F (call_receive h ec packets).
Proof.
  intros. destruct h; [by apply runs_HandshakeResponseReceived_done|apply runs_PacketsReceived_done].
Qed.

(** A request that has been sent enters the map: its id must not be there. *)
Definition fresh_id (h : SendHandler) (w : World) : Prop :=
  match h with
  | RequestSent _ msg _ => w_inFlight w !! msg_id msg = None
  | _ => True
  end.

Lemma ends_RequestSent_done t m h ec w :
  w_inFlight w !! msg_id m = None → P w → ends P F (RequestSent_done t m h ec w).
Proof.
  intros Hid Hw. unfold RequestSent_done. case_match; [by apply fr_handler|].
  run (eq_refl : get w = Ret w w).
  run (cpp_assert_true "The request id should be unique"
         (bool_decide (w_inFlight w !! msg_id m = None)) w (bool_decide_eq_true_2 _ Hid)).
  by apply fr_emplace.
Qed.

(** What the handlers of an established connection do. *)
Lemma ends_call_established h ec w :
  h ≠ HandshakeSent →
  (∀ n s d, h = HandshakeAckSent n s d → runs P F (Connection_StartReceivingPackets n s d)) →
  fresh_id h w → P w → ends P F (call_send h ec w).
Proof.
  destruct h as [|n s d| |t m r]; simpl; intros Hne Hack Hid; [done| | |by apply ends_RequestSent_done].
  - unfold HandshakeAckSent_done. case_match; [by intros Hw|by apply Hack].
  - unfold HeartbeatSent_done. case_match; [apply fr_error|by intros Hw].
Qed.

Lemma runs_HandshakeSent_done `{!Sending P F} ec : runs P F (HandshakeSent_done ec).
Proof.
  unfold HandshakeSent_done, Connection_ReceiveHandshakeResponse.
  case_match; [apply fr_failed|].
  apply runs_bind; [apply runs_assert_worker|intros _; apply sd_receive].
Qed.

Lemma ends_call_send `{!Sending P F} h ec w : fresh_id h w → P w → ends P F (call_send h ec w).
Proof.
  destruct h; intros Hid Hw; [by apply runs_HandshakeSent_done|apply ends_call_established; try done..].
  intros n s d _. apply sd_started.
Qed.

Lemma runs_call_connect `{!Sending P F} h ec : runs P F (call_connect h ec).
Proof.
  destruct h. simpl. unfold StartConnected_done, Connection_SendHandshake.
  apply runs_bind; [apply runs_assert_worker|]. intros _. case_match; [apply fr_failed|].
  apply runs_bind; [apply runs_assert_worker|intros _; apply sd_handshake].
Qed.

Lemma ends_SendNextPacket_done id h ec n w :
  fresh_id h w → P w → (∀ ec, ends P F (call_send h ec w)) →
  ends P F (SendNextPacket_done (RH := ReceiveHandler) (CH := ConnectHandler) (EP := Endpoints)
              call_send id h ec n w).
Proof.
  intros Hid Hw Hcall. unfold SendNextPacket_done. case_match; [apply Hcall|].
  eapply ends_bind; [apply Hcall| |done]. intros [] w' Hw' _. by apply fr_written.
Qed.
End frame.

(** ** A completed read

    [P] holds once the read is no longer outstanding, whatever is in its buffer; the handler,
    or another read, leads to [Q]. *)

Section completed_read.
Context `{BuildMode, BoostMessages, Zlib, Allocator, RapidJson, Resolver, DecompressFuel}.
Context `{!TimerService ConnTimerCb, !UnorderedIteration}.
Context (P Q : World → Prop) (h : ReceiveHandler).
Hypothesis P_stream : ∀ s w,
  same_sending (io_stream (w_io w)) s → P w → P (set_io (set_stream s (w_io w)) w).
Hypothesis P_call : ∀ ec packets w,
  ec_failed ec = true ∨ packets ≠ [] → P w → ends Q (λ _, True) (call_receive h ec packets w).
Hypothesis P_again : ∀ w, P w → ends Q (λ _, True) (zoom (W := World) (ReadToBuffer h) w).

Lemma runs_P_stream (f : ConnIO → TcpPacketStream) :
  (∀ io, same_sending (io_stream io) (f io)) →
  runs P (λ _, True) (zoom (W := World) (modify (λ io, set_stream (f io) io))).
Proof. intros Hf w Hw. by apply P_stream. Qed.

Lemma ends_completed_read off ec data w :
  P w →
  ends Q (λ _, True)
    ((socket_wrote (SH := SendHandler) (RH := ReceiveHandler) (CH := ConnectHandler)
        (EP := Endpoints) off data ;;
      ReadToBuffer_done (SH := SendHandler) (CH := ConnectHandler) (EP := Endpoints)
        call_receive h ec (Z.of_nat (length data))) w).
Proof.
  intros Hw. apply (ends_then P); [done|by apply runs_P_stream|]. clear w Hw.
  intros _ w Hw. unfold ReadToBuffer_done.
  destruct (ec_failed ec) eqn:Hec; [by apply P_call; [left|]|].
  apply (ends_then P); [apply no_throw_assert|by apply runs_assert; [left|]|].
  clear w Hw. intros _ w Hw. apply (ends_then P); [done|by apply runs_P_stream|].
  clear w Hw. intros _ w Hw. apply (ends_then P); [done|done|].
  clear w Hw. intros w0 w Hw. apply (ends_then P); [apply no_throw_assert|by apply runs_assert; [left|]|].
  clear w Hw w0. intros _ w Hw. unfold catch_pitaya, mbind at 1, M_bind at 1, zoom at 1 2.
  change (view w) with (w_io w). change (view (w_io w)) with (io_stream (w_io w)).
  assert (ends (same_sending (io_stream (w_io w))) (λ _, True)
    (ParsePacketsFromReadBuffer (io_stream (w_io w)))) as Hsame by by apply runs_parse_loop.
  destruct (ParsePacketsFromReadBuffer _) as [packets s|e s|] eqn:Ep; [| |done];
    apply (P_stream s) in Hw; try done.
  - apply (ends_catch_pitaya Q _ (if _ =? 0 then _ else _) _
      (set_io (set_stream s (w_io w)) w)); destruct (Z.of_nat (length packets) =? 0) eqn:Hlen.
    + apply (no_throw_ReceivePackets h).
    + apply no_throw_call_receive.
    + by apply P_again.
    + apply P_call; [right|done]. by intros ->.
  - unfold ParsePacketsFromReadBuffer in Ep. apply parse_loop_exn in Ep as [what ->].
    by apply P_call; [left|].
Qed.
End completed_read.

(** ** A step of the worker thread

    For an invariant alone, whatever the faults. Beyond [Framed] it must not depend on what
    a completion takes out of the pending work; a completed read is left to the invariant. *)

Section worker_step.
Context `{BuildMode, BoostMessages, Zlib, Allocator, RapidJson, Resolver, DecompressFuel}.
Context `{!TimerService ConnTimerCb, !UnorderedIteration}.

(** What the accounts of [Handlers] say about the step. *)
Definition accounts_ok (w : World) (l : label) : Prop :=
  match l with
  | LSendDone i _ _ => ∀ op, io_sends (w_io w) !! i = Some op → fresh_id (so_handler op) w
  | LReceiveDone i _ _ => ∀ op, io_receives (w_io w) !! i = Some op → io_receives (w_io w) = [op]
  | _ => True
  end.

Lemma runs_PostRequest_run (P : World → Prop) `{!Framed P (λ _, True)} r :
  (∀ n w, P w → P (set_reqId n w)) → runs P (λ _, True) (PostRequest_run r).
Proof.
  intros HreqId. apply (runs_get_state_then P _). intros st.
  case_match; [apply (fr_handler (P := P))|].
  case_match; [apply runs_bind; [by apply runs_assert; left|by intros _ w _]|].
  apply runs_bind; [apply (runs_assert_worker P _)|intros _].
  apply runs_bind; [apply runs_get|intros w].
  apply runs_bind; [apply runs_modify, HreqId|intros _].
  apply runs_bind_eq; [apply runs_NewData|intros w1 packet w2 _ E].
  by eapply (fr_request (P := P)), NewData_request_packet.
Qed.

Class Stepped (P : World → Prop) := {
  sp_framed :: Framed P (λ _, True);
  sp_sending :: Sending P (λ _, True);
  sp_reqId n w : P w → P (set_reqId n w);
  sp_posted l w : P w → P (set_io (set_posted l (w_io w)) w);
  sp_sends l w : P w → P (set_io (set_sends l (w_io w)) w);
  sp_connects l w : P w → P (set_io (set_connects l (w_io w)) w);
  sp_send_next h : runs P (λ _, True) (zoom (W := World) (SendNextPacket h));
}.

Context (P : World → Prop) `{!Stepped P}.


(** The thread is the worker's; the closure of a request has left the posted ones. *)
Definition taken (w : World) (l : label) : World :=
  match l with
  | LRunRequest i => set_requests (delete i (w_posted w)) (set_thread WorkerThread w)
  | _ => set_thread WorkerThread w
  end.

Lemma ends_worker_step l w :
  P (taken w l) → enabled w l → is_client l = false → accounts_ok w l →
  (∀ i ec data, l = LReceiveDone i ec data → ends P (λ _, True) (action l w)) →
  (∀ t cb ec s, l = LTimer t cb ec s → ends P (λ _, True) (action l w)) →
  ends P (λ _, True) (action l w).
Proof.
  intros Hw Hen Hc Hok Hreceive Htimer.
  destruct l as [| | |i|i|i ec nw|i ec data|i ec|t cb ec s]; try done;
    [..|by eapply Hreceive| |by eapply Htimer].
  - destruct Hen as [r Hi]. take_item Hi. by apply (runs_PostRequest_run P); [apply sp_reqId|].
  - destruct Hen as [h Hi]. take_item Hi. by apply sp_send_next, (sp_posted _ (set_thread _ w)).
  - destruct Hen as [op Hi]. take_item Hi.
    assert (P (set_io (set_sends (delete i (io_sends (w_io w))) (w_io w)) (set_thread WorkerThread w)))
      as Hw' by by apply (sp_sends _ (set_thread _ w)).
    assert (fresh_id (so_handler op) (set_io (set_sends (delete i (io_sends (w_io w))) (w_io w))
      (set_thread WorkerThread w))) as Hid by (specialize (Hok op Hi); by destruct (so_handler op)).
    apply ends_SendNextPacket_done; [apply _|done..|]. intros ec'. by apply (ends_call_send P _).
  - destruct Hen as [op Hi]. take_item Hi. unfold Connect_done.
    case_match; by apply (runs_call_connect P _), (sp_connects _ (set_thread _ w)).
Qed.

(** A timer, when the invariant does not look at the timers. *)
Lemma ends_any_timer t cb ec s w :
  (∀ s w, P w → P (set_timers s w)) → P (set_thread WorkerThread w) →
  ends P (λ _, True) (action (LTimer t cb ec s) w).
Proof.
  intros Htimers Hw. cbn [action]. unfold on_thread.
  do 2 rewrite (bind_Ret (modify _) _ _ _ _ eq_refl).
  apply (runs_call_timer P _); [|by apply Htimers]. intros f _. apply (runs_call_fn P _).
Qed.

(** A completed read, when the invariant does not look at the stream. *)
Section any_io.
Hypothesis P_io : ∀ io w, P w → P (set_io io w).
Hypothesis P_timers : ∀ s w, P w → P (set_timers s w).

Lemma runs_any_zoom {A} (m : M ConnIO A) : runs P (λ _, True) (zoom (W := World) m).
Proof. intros w Hw. unfold zoom. destruct (m _); [by apply P_io..|done]. Qed.

Lemma runs_any_receive off h ec data :
  runs P (λ _, True)
    (socket_wrote (SH := SendHandler) (RH := ReceiveHandler) (CH := ConnectHandler)
       (EP := Endpoints) off data ;;
     ReadToBuffer_done (SH := SendHandler) (CH := ConnectHandler) (EP := Endpoints)
       call_receive h ec (Z.of_nat (length data))).
Proof.
  intros w Hw. apply (ends_completed_read P P); [intros; by apply P_io| | |done].
  - intros ec' packets w' Hp. by apply (runs_call_receive P _).
  - apply runs_any_zoom.
Qed.

Lemma ends_any_step l w :
  P (taken w l) → enabled w l → is_client l = false → accounts_ok w l →
  ends P (λ _, True) (action l w).
Proof.
  intros Hw Hen Hc Hok. apply ends_worker_step; [done..| |].
  - intros i ec data ->. destruct Hen as (_ & op & Hi & _). take_item Hi. by apply runs_any_receive, P_io.
  - intros t cb ec s ->. by apply ends_any_timer.
Qed.
End any_io.
End worker_step.
