(* ===== verification/Handlers.v ===== *)
(** * Request handlers, request ids, and the receive loop

    Three things are counted with [Flow]: the places of one request handler, the places of
    one request id, and what can still start a read. The theorems: no request handler is
    lost or called twice; ids are not reused while they are in use. *)

From S2P Require Import Prelude Outcome Net Errors Events Gzip Message Packet ReadBuffer.
From S2P Require Import TcpPacketStream ConnState Json Connection Client System Flow.

Definition one (b : bool) : nat := if b then 1%nat else 0%nat.

(** ** The handlers *)

(** The request handler that a send handler of the program holds. *)
Definition handler_of (h : SendHandler) : list RequestHandler :=
  match h with RequestSent _ _ handler => [handler] | _ => [] end.
Definition handler_called (o : Observation) : list RequestHandler :=
  match o with HandlerCalled handler _ _ => [handler] | ListenerCalled _ _ _ => [] end.

Section handlers.
Context `{BuildMode, BoostMessages, Zlib, Allocator, RapidJson, Resolver, DecompressFuel}.
Context `{!TimerService ConnTimerCb, !UnorderedIteration}.

(** The handlers that have been called, once for each call. *)
Definition called (w : World) : list RequestHandler := w_trace w ≫= handler_called.

(** The handlers of the requests under way: posted, queued, being sent, awaiting an answer. *)
Definition waiting (w : World) : list RequestHandler :=
  (pr_handler <$> w_posted w) ++
  (io_posted (w_io w) ≫= handler_of) ++
  (io_sends (w_io w) ≫= λ op, handler_of (so_handler op)) ++
  (req_handler <$> (map_to_list (w_inFlight w)).*2).

(** The handlers destroyed without a call: their packet was refused by a full queue, or their
    id was taken. *)
Definition discarded (w : World) : list RequestHandler :=
  (io_ignored (w_io w) ≫= handler_of) ++ w_dropped w.

Section token.
Context (h : RequestHandler).

Definition token_wt : Weight := {|
  wt_posted r := one (bool_decide (pr_handler r = h));
  wt_send s := count_occ Nat.eq_dec (handler_of s) h;
  wt_ignored s := count_occ Nat.eq_dec (handler_of s) h;
  wt_receive _ := 0%nat;
  wt_connect _ := 0%nat;
  wt_flight _ r := one (bool_decide (req_handler r = h));
  wt_obs o := count_occ Nat.eq_dec (handler_called o) h;
  wt_dropped x := one (bool_decide (x = h));
|}.

Lemma count_one (x : RequestHandler) : count_occ Nat.eq_dec [x] h = one (bool_decide (x = h)).
Proof. simpl. destruct (Nat.eq_dec x h); by case_bool_decide. Qed.

#[export] Instance token_flow : Flow eq token_wt (λ _, 0%nat).
Proof.
  split; intros; rewrite ?Nat.add_0_r; try apply _; try done;
    cbn [token_wt wt_posted wt_send wt_obs wt_flight wt_dropped handler_of handler_called];
    by rewrite count_one.
Qed.

Lemma count_bind {A} (f : A → list RequestHandler) l :
  sum_list_with (λ x, count_occ Nat.eq_dec (f x) h) l = count_occ Nat.eq_dec (l ≫= f) h.
Proof. induction l; simpl; [done|]. rewrite count_occ_app. by f_equal. Qed.

Lemma count_fmap {A} (f : A → RequestHandler) l :
  sum_list_with (λ x, one (bool_decide (f x = h))) l = count_occ Nat.eq_dec (f <$> l) h.
Proof.
  induction l as [|x l IH]; simpl; [done|]. rewrite IH. destruct (Nat.eq_dec (f x) h); by case_bool_decide.
Qed.

Lemma total_token w :
  total token_wt w = count_occ Nat.eq_dec (called w ++ waiting w ++ discarded w) h.
Proof.
  unfold total, total_io, total_flight, called, waiting, discarded. simpl.
  rewrite !count_occ_app, <- !count_bind, <- list_fmap_compose.
  rewrite <- (count_fmap pr_handler), <- (count_fmap (req_handler ∘ snd)). unfold compose.
  assert (∀ l : list (ReceiveOp ReceiveHandler), sum_list_with (λ _, 0%nat) l = 0%nat) as ->.
  { induction l; [done|by simpl]. }
  assert (∀ l : list (ConnectOp ConnectHandler Endpoints), sum_list_with (λ _, 0%nat) l = 0%nat) as ->.
  { induction l; [done|by simpl]. }
  pose proof (count_fmap (λ x, x) (w_dropped w)) as Hd.
  pose proof (list_fmap_id (w_dropped w) : (λ x, x) <$> w_dropped w = _) as Hid.
  rewrite Hid in Hd. rewrite Hd. unfold RequestHandler. simpl. lia.
Qed.

Lemma inflow_token ls : sum_list_with (inflow token_wt) ls = count_occ Nat.eq_dec (requested ls) h.
Proof.
  unfold requested. rewrite <- count_bind. induction ls as [|l ls IH]; [done|]. simpl. rewrite IH.
  f_equal. destruct l; simpl; try done; [by destruct (SplitHostAndPort _) as [[]|]|].
  destruct (Nat.eq_dec _ _); by case_bool_decide.
Qed.
End token.

Lemma handlers_permutation ls w :
  steps initial ls w → requested ls ≡ₚ called w ++ waiting w ++ discarded w.
Proof.
  intros Hs. apply Permutation_count_occ with (eq_dec := Nat.eq_dec). intros h.
  rewrite <- inflow_token, <- total_token. symmetry.
  by apply (steps_total eq (token_wt h) (λ _, 0%nat)).
Qed.

(** C1: no request handler is lost, and none is duplicated. After any sequence of steps, in
    any order of the completions and with any results, the handlers given to [PostRequest]
    are exactly those that have been called, once for each call, those of the requests still
    under way, and those destroyed without a call. *)
Theorem handlers_conserved ls w :
  steps initial ls w → requested ls ≡ₚ called w ++ waiting w ++ discarded w.
Proof. apply handlers_permutation. Qed.

(** C2: a handler given once is called at most once, and never while its request is still
    under way; and when nothing is under way and nothing was destroyed, every handler has
    been called exactly once. *)
Theorem handlers_called_once ls w :
  steps initial ls w → NoDup (requested ls) →
  NoDup (called w) ∧ (∀ h, h ∈ called w → (h ∉ waiting w) ∧ h ∈ requested ls) ∧
  (waiting w = [] → discarded w = [] → called w ≡ₚ requested ls).
Proof.
  intros Hs Hnd. pose proof (handlers_permutation ls w Hs) as Hperm. rewrite Hperm in Hnd.
  apply NoDup_app in Hnd as (Hc & Hdisj & _). split_and!; [done| |].
  - intros h Hh. split; [|rewrite Hperm; set_solver].
    intros Hw. apply (Hdisj h Hh). set_solver.
  - intros Hw Hd. by rewrite Hperm, Hw, Hd, !app_nil_r.
Qed.

(** ** The receive loop *)

(** A read, or a step of the handshake that ends in one. *)
Definition activity_wt : Weight := {|
  wt_posted _ := 0%nat;
  wt_send s := match s with HandshakeSent | HandshakeAckSent _ _ _ => 1%nat | _ => 0%nat end;
  wt_ignored _ := 0%nat;
  wt_receive _ := 1%nat;
  wt_connect _ := 1%nat;
  wt_flight _ _ := 0%nat;
  wt_obs _ := 0%nat;
  wt_dropped _ := 0%nat;
|}.

#[export] Instance activity_flow : Flow le activity_wt (λ _, 0%nat).
Proof. split; intros; simpl; try apply _; repeat case_match; lia. Qed.

Lemma inflow_activity ls : (sum_list_with (inflow activity_wt) ls ≤ count_labels is_start ls)%nat.
Proof.
  unfold count_labels. induction ls as [|l ls IH]; [done|].
  rewrite filter_cons. destruct l; simpl; try exact IH.
  destruct (SplitHostAndPort _) as [[]|]; lia.
Qed.

Lemma activity_starts ls w : steps initial ls w → (total activity_wt w ≤ count_labels is_start ls)%nat.
Proof.
  intros Hs. etrans; [|apply inflow_activity]. by apply (steps_total le activity_wt (λ _, 0%nat)).
Qed.

Lemma length_receives w : (length (io_receives (w_io w)) ≤ total activity_wt w)%nat.
Proof.
  assert (∀ l : list (ReceiveOp ReceiveHandler), sum_list_with (λ _, 1%nat) l = length l) as Hl.
  { induction l; [done|by simpl; f_equal]. }
  unfold total, total_io. simpl. rewrite Hl. lia.
Qed.

(** ** The request ids *)

Section ids.
Context (i : Z).

Definition id_of (h : SendHandler) : nat :=
  match h with RequestSent _ msg _ => one (bool_decide (msg_id msg = i)) | _ => 0%nat end.

Definition id_wt : Weight := {|
  wt_posted _ := 0%nat;
  wt_send := id_of;
  wt_ignored _ := 0%nat;
  wt_receive _ := 0%nat;
  wt_connect _ := 0%nat;
  wt_flight id _ := one (bool_decide (id = i));
  wt_obs _ := 0%nat;
  wt_dropped _ := 0%nat;
|}.

#[export] Instance id_flow : Flow le id_wt (λ id, one (bool_decide (id = i))).
Proof. split; intros; simpl; try apply _; repeat case_match; simpl in *; try done; lia. Qed.

Lemma inflow_id l : inflow id_wt l = 0%nat.
Proof. destruct l; simpl; try done. by destruct (SplitHostAndPort _) as [[]|]. Qed.

Lemma total_id_send w j op :
  io_sends (w_io w) !! j = Some op →
  (id_of (so_handler op) + total_flight id_wt (w_inFlight w) ≤ total id_wt w)%nat.
Proof.
  intros Hj. unfold total, total_io.
  assert (id_of (so_handler op) ≤ sum_list_with (λ op, id_of (so_handler op)) (io_sends (w_io w)))%nat.
  { apply (sum_list_with_in op (λ op, id_of (so_handler op))). by eapply list_elem_of_lookup_2. }
  simpl. lia.
Qed.

Lemma total_flight_id m : total_flight id_wt m = 0%nat → m !! i = None.
Proof.
  intros Hm. destruct (m !! i) as [r|] eqn:E; [|done].
  rewrite (total_flight_delete id_wt _ _ _ E) in Hm. simpl in Hm. by rewrite bool_decide_eq_true_2 in Hm.
Qed.
End ids.

(** Every id is in one place at most, and those not given yet in none. *)
Definition ids_wf (w : World) : Prop :=
  (∀ i, total (id_wt i) w ≤ 1)%nat ∧ (∀ i, w_reqId w ≤ i → total (id_wt i) w = 0%nat).

Lemma ids_wf_fresh w j op :
  ids_wf w → io_sends (w_io w) !! j = Some op →
  match so_handler op with RequestSent _ msg _ => w_inFlight w !! msg_id msg = None | _ => True end.
Proof.
  intros [Hone _] Hj. destruct (so_handler op) as [| | |t msg h] eqn:E; try done.
  apply total_flight_id. pose proof (total_id_send (msg_id msg) w j op Hj) as Hle. rewrite E in Hle.
  simpl in Hle. rewrite bool_decide_eq_true_2 in Hle by done. simpl in Hle.
  specialize (Hone (msg_id msg)). lia.
Qed.

(** A step keeps that, as long as the counter of the ids does not wrap. *)
Lemma ids_wf_step w l w' :
  ids_wf w → step w l w' → 0 ≤ w_reqId w → w_reqId w + 1 < 2 ^ 64 →
  w_reqId w ≤ w_reqId w' → ids_wf w'.
Proof.
  intros [Hone Hnew] Hstep Hpos Hsmall Hmono.
  assert (∀ i, (total (id_wt i) w' ≤ total (id_wt i) w)%nat ∨
    (total (id_wt i) w' ≤ total (id_wt i) w + one (bool_decide (w_reqId w = i)))%nat ∧
    w_reqId w' = w_reqId w + 1) as Htotal.
  { intros i. pose proof (step_total le (id_wt i) (λ id, one (bool_decide (id = i))) _ _ _ Hstep) as Ht.
    rewrite inflow_id, Nat.add_0_r in Ht. destruct Ht as [?|(_ & ? & Hid)]; [by left|right].
    by rewrite u64_small in Hid by lia. }
  split; intros i.
  - destruct (Htotal i) as [Ht|[Ht _]]; [specialize (Hone i); lia|].
    case_bool_decide as Hi; simpl in Ht; [|specialize (Hone i); lia].
    rewrite (Hnew i) in Ht by lia. lia.
  - intros Hi. destruct (Htotal i) as [Ht|[Ht Hid]]; [rewrite (Hnew i) in Ht by lia; lia|].
    rewrite bool_decide_eq_false_2 in Ht by lia. rewrite (Hnew i) in Ht by lia. simpl in Ht. lia.
Qed.
End handlers.
