(* ===== verification/Invariants.v ===== *)
(** * The invariant of the running program, and the faults that remain

    Instances of [Framed]: an invariant that does not look at the state, the timers, the
    requests or the trace only has to be kept by the operations of the packet stream. The
    main one says that the mutex is free between steps, that the worker thread runs every
    completion, and that the packet stream is well formed. *)

From S2P Require Import Prelude Outcome Net Errors Events Gzip Message Packet ReadBuffer.
From S2P Require Import TcpPacketStream ConnState Json Connection Client System Stream Receive Flow Requests Frame Handlers.

Section invariants.
Context `{BuildMode, BoostMessages, Zlib, Allocator, RapidJson, Resolver, DecompressFuel}.
Context `{!TimerService ConnTimerCb, !UnorderedIteration}.

Definition unlocked (w : World) : Prop := st_locked (w_state w) = false.

(** An invariant that is about the packet stream, the ids and the threads only. *)
Class Untouched (J : World → Prop) (F : fault → Prop) := {
  un_trace o w : J w → J (add_trace o w);
  un_flight m w : J w → J (set_inFlight m w);
  un_timers s w : J w → J (set_timers s w);
  un_state st w : J w → J (set_state st w);
  un_worker w : J w → w_workerThreadId w = Some (w_thread w);
  un_allowed f : environment_fault f → F f;
  un_request p t m h :
    request_packet p → runs J F (zoom (W := World) (SendPacket p (RequestSent t m h)));
  un_heartbeat : runs J F (zoom (W := World) (SendPacket NewHeartbeat HeartbeatSent));
  un_listen : runs J F (zoom (W := World) (ReceivePackets PacketsReceived));
  un_disconnect : runs J F (zoom (W := World) TcpPacketStream_Disconnect);
  un_written id :
    runs J F (zoom (W := World) (modify (λ io : ConnIO, set_stream
      (set_writeBuffers (delete id (writeBuffers (io_stream io)))
         (writeId (io_stream io)) (io_stream io)) io)));
}.

Section untouched.
Context (J : World → Prop) (F : fault → Prop) `{!Untouched J F}.

(** [J], with the mutex as [b] says. *)
Definition locked_is (b : bool) (w : World) : Prop := J w ∧ st_locked (w_state w) = b.

Lemma runs_locked_modify b f :
  (∀ w, J w → J (f w)) → (∀ w, st_locked (w_state (f w)) = st_locked (w_state w)) →
  runs (locked_is b) F (modify f).
Proof. intros HJ Hl. apply runs_modify. intros w [Hw Hb]. split; [by apply HJ|by rewrite Hl]. Qed.

Lemma runs_locked_zoom {A} b (m : M ConnIO A) :
  runs J F (zoom (W := World) m) → runs (locked_is b) F (zoom (W := World) m).
Proof.
  intros Hm w [Hw Hb]. specialize (Hm w Hw). unfold zoom in *. destruct (m _); [by split..|done].
Qed.

Lemma runs_timer_op b f : runs (locked_is b) F (timer_op f : M World unit).
Proof. apply runs_locked_modify; [intros; by apply un_timers|done]. Qed.

Lemma runs_timer_new b : runs (locked_is b) F (timer_new : M World nat).
Proof. intros w [Hw Hb]. split; [by apply un_timers|done]. Qed.

Lemma runs_SetInited b : runs (locked_is b) F (SetInited (W := World)).
Proof.
  apply runs_bind; [|intros _; apply runs_locked_modify; [intros; by apply un_state|done]].
  apply runs_bind; [by intros w Hw|]. intros st. case_match; [apply runs_ret|].
  apply runs_bind; [|intros _]; apply runs_timer_op.
Qed.

Lemma runs_SetConnected b n s d f g : runs (locked_is b) F (SetConnected (W := World) n s d f g).
Proof.
  unfold SetConnected. apply runs_bind.
  { case_match; [apply runs_ret|]. apply runs_undefined, un_allowed, fault_heartbeat. }
  intros _. apply runs_bind; [|intros c].
  { apply runs_bind; [apply runs_timer_new|intros t].
    apply runs_bind; [apply runs_timer_new|intros t']. apply runs_ret. }
  do 4 (apply runs_bind; [apply runs_timer_op|intros _]).
  apply runs_bind; [|intros _; apply runs_locked_modify; [intros; by apply un_state|done]].
  apply runs_bind; [by intros w Hw|]. intros st. case_match; [apply runs_ret|].
  apply runs_bind; [|intros _]; apply runs_timer_op.
Qed.

Lemma runs_Broadcast b ev msg : runs (locked_is b) F (Broadcast ev msg).
Proof.
  apply runs_bind; [apply runs_get|]. intros w. apply runs_for_each. intros l.
  apply runs_locked_modify; [intros; by apply un_trace|done].
Qed.

Lemma runs_with_lock {A} (m : M World A) :
  runs (locked_is true) F m → runs (locked_is false) F (with_lock m).
Proof.
  intros Hm w [Hw Hb]. unfold with_lock. change (view w) with (w_state w). rewrite Hb.
  set (w1 := set_state {| st_locked := true; st_val := st_val (w_state w) |} w).
  assert (locked_is true w1) as Hw1 by (split; [by apply un_state|done]).
  rewrite (bind_Ret (set_locked true) (λ _, m) w tt w1) by done. specialize (Hm w1 Hw1).
  destruct (m w1) as [a w2|e w2|f]; [..|done]; destruct Hm as [Hw2 _]; split;
    [by apply un_state|done|by apply un_state|done].
Qed.

Lemma runs_disconnected ev msg :
  runs (locked_is true) F
    (st ← get_state;
     if IsConnected st then
       SetInited ;; Broadcast ev msg ;; zoom (W := World) TcpPacketStream_Disconnect
     else mret tt).
Proof.
  apply runs_bind; [by intros w Hw|]. intros st. case_match; [|apply runs_ret].
  apply runs_bind; [apply runs_SetInited|intros _].
  apply runs_bind; [apply runs_Broadcast|intros _].
  apply runs_locked_zoom, un_disconnect.
Qed.

#[export] Instance framed_untouched : Framed (locked_is false) F.
Proof.
  split.
  - apply un_allowed.
  - intros w [Hw _]. by eapply un_worker.
  - intros h s d. apply runs_locked_modify; [intros; by apply un_trace|done].
  - intros id h t w Hid [Hw Hb]. unfold inFlight_emplace.
    destruct (Request_new_Ret h t id w) as (x & s & E). run E.
    run (eq_refl : get (set_timers s w) = Ret _ _). cbn [w_inFlight set_timers]. rewrite Hid.
    split; [by apply un_flight, un_timers|done].
  - intros id. unfold inFlight_erase, Request_destroy. apply runs_bind; [apply runs_get|].
    intros w. case_match; [|apply runs_ret]. apply runs_bind; [apply runs_timer_op|intros _].
    apply runs_locked_modify; [intros; by apply un_flight|done].
  - intros ec. apply runs_any_tick; [apply runs_timer_op|apply runs_locked_zoom, un_heartbeat|].
    intros ec'. apply runs_with_lock, runs_disconnected.
  - apply runs_any_extend, runs_timer_op.
  - intros ec. apply runs_with_lock. apply runs_bind; [apply runs_SetInited|intros _].
    apply runs_Broadcast.
  - intros ec. apply runs_with_lock, runs_disconnected.
  - apply runs_with_lock, runs_disconnected.
  - intros p t m h Hp. by apply runs_locked_zoom, un_request.
  - apply runs_locked_zoom, un_listen.
  - intros id. apply runs_locked_zoom, un_written.
Qed.

Lemma runs_started n s d : runs (locked_is false) F (Connection_StartReceivingPackets n s d).
Proof.
  apply runs_bind; [|intros _; apply runs_locked_zoom, un_listen].
  apply runs_with_lock. apply runs_bind; [apply runs_SetConnected|intros _]. apply runs_Broadcast.
Qed.

Lemma sending_locked :
  (∀ p h, runs J F (zoom (W := World) (SendPacket p h))) →
  (∀ h, runs J F (zoom (W := World) (ReceivePackets h))) → Sending (locked_is false) F.
Proof. intros Hsend Hread. apply sending_any; intros; [by apply runs_locked_zoom..|apply runs_started]. Qed.
End untouched.

(** Between two operations of the worker thread. *)
Definition on_worker (w : World) : Prop := w_thread w = WorkerThread ∧ w_workerThreadId w = Some WorkerThread.

Lemma on_worker_zoom {A} (m : M ConnIO A) : runs on_worker (λ _, True) (zoom (W := World) m).
Proof. intros w Hw. unfold zoom. by destruct (m _). Qed.

#[export] Instance untouched_on_worker : Untouched on_worker (λ _, True).
Proof. split; try done; try (intros; apply on_worker_zoom). intros w [-> ->]. done. Qed.

(** ** The write ids *)

Definition ids_counted (w : World) : Prop := write_ids_ok (w_io w) ∧ on_worker w.

Lemma counted_zoom {A} (m : M ConnIO A) :
  runs write_ids_ok (λ _, True) m → runs ids_counted (λ _, True) (zoom (W := World) m).
Proof. intros Hm. eapply runs_zoom; [exact Hm|by intros w []|]. by intros w io [] Hio. Qed.

Lemma counted_send p h : runs ids_counted (λ _, True) (zoom (W := World) (SendPacket p h)).
Proof.
  apply counted_zoom. apply runs_bind; [apply runs_get|intros io]. cbv zeta. case_match; [|by apply runs_modify].
  apply runs_bind; [|intros _; by apply runs_modify]. apply runs_modify. intros io'. by apply write_ids_stream.
Qed.

Lemma counted_read h : runs ids_counted (λ _, True) (zoom (W := World) (ReceivePackets h)).
Proof.
  apply counted_zoom. apply runs_bind; [apply runs_get|intros io]. apply runs_modify.
  intros io' Hio. by apply write_ids_call.
Qed.

#[export] Instance untouched_counted : Untouched ids_counted (λ _, True).
Proof.
  split; try done.
  - by intros w [_ [-> ->]].
  - intros. apply counted_send.
  - apply counted_send.
  - apply counted_read.
  - apply counted_zoom. apply runs_bind; [|intros _]; apply runs_modify; intros io; by apply write_ids_call.
  - intros id. apply counted_zoom, runs_modify. intros io. apply write_ids_stream; [apply delete_subseteq|done].
Qed.

Abbreviation counted := (locked_is ids_counted false).

#[export] Instance sending_counted : Sending counted (λ _, True).
Proof. apply (sending_locked ids_counted _); intros; [apply counted_send|apply counted_read]. Qed.

#[export] Instance stepped_counted : Stepped counted.
Proof.
  split; [apply _|apply _|by intros ? w [[? ?] ?]; split..|].
  intros h. apply runs_locked_zoom, counted_zoom. intros io. apply write_ids_send_next.
Qed.

(** Every step of the worker thread. *)
Lemma counted_step l w :
  counted (set_thread WorkerThread w) → enabled w l → is_client l = false → accounts_ok w l →
  ends counted (λ _, True) (action l w).
Proof.
  intros Hw Hen Hc Hok. apply (ends_worker_step counted); [|done..| |].
  - destruct Hw as [[? ?] ?]. destruct l; done.
  - intros i ec data ->. destruct Hen as (_ & op & Hi & _). take_item Hi.
    apply (ends_completed_read counted counted); [| | |by destruct Hw as [[? ?] ?]].
    + intros s w1 (_ & Hb & Hid) [[Hio Hw1] Hl]. split; [split; [|done]|done].
      apply write_ids_stream; [by rewrite Hb|done|done].
    + intros ec' packets w1 Hp. by apply (runs_call_receive counted _).
    + apply (runs_start_read counted _).
  - intros t cb ec s ->. apply (ends_any_timer counted); [by intros ? ? [[? ?] ?]|done].
Qed.

(** ** The main invariant *)

(** Between two steps; [n] is the next request id. *)
Record system_wf (n : Z) (w : World) : Prop := {
  sy_worker : w_workerThreadId w = Some WorkerThread;
  sy_unlocked : st_locked (w_state w) = false;
  sy_id : w_reqId w = n;
  sy_dropped : w_dropped w = [];
  sy_stream : stream_wf (w_io w);
}.

(** While the worker thread runs a completion. *)
Record running (n : Z) (w : World) : Prop := {
  ru_thread : w_thread w = WorkerThread;
  ru_worker : w_workerThreadId w = Some WorkerThread;
  ru_id : w_reqId w = n;
  ru_dropped : w_dropped w = [];
  ru_stream : stream_wf (w_io w);
}.

Lemma running_zoom {A} n F (m : M ConnIO A) :
  runs stream_wf F m → runs (running n) F (zoom (W := World) m).
Proof.
  intros Hm. eapply runs_zoom; [exact Hm|by intros w []|]. intros w io [] Hio. by split.
Qed.

#[export] Instance untouched_running n : Untouched (running n) environment_fault.
Proof.
  split.
  1-4: by intros ? w []; split.
  - intros w []. congruence.
  - done.
  - intros. apply running_zoom, runs_SendPacket.
  - apply running_zoom, runs_SendPacket.
  - apply running_zoom, runs_ReceivePackets.
  - apply running_zoom, runs_Disconnect.
  - intros. apply running_zoom, runs_written.
Qed.

#[export] Instance sending_running n : Sending (locked_is (running n) false) environment_fault.
Proof.
  apply (sending_locked (running n) _); intros; apply running_zoom; [apply runs_SendPacket|apply runs_ReceivePackets].
Qed.

Abbreviation busy n := (locked_is (running n) false).

Lemma busy_wf n w : busy n w → system_wf n w.
Proof. intros [[] ?]. by split. Qed.

Lemma ends_wf {A} n F (o : outcome World A) : ends (busy n) F o → ends (system_wf n) F o.
Proof. destruct o; simpl; [apply busy_wf..|done]. Qed.

Lemma wf_busy n w : system_wf n w → busy n (set_thread WorkerThread w).
Proof. intros []. split; [by split|done]. Qed.

(** Taking a pending item keeps the stream well formed; its own place is elsewhere. *)
Lemma busy_set_io n io w : stream_wf io → busy n w → busy n (set_io io w).
Proof. intros Hio [[] ?]. split; [by split|done]. Qed.

(** ** A receive completes *)

(** Another buffer and another head leave what is about the rest. *)
Lemma busy_with_stream n s w :
  busy n w → io_receives (w_io w) = [] → buffer_wf s →
  packetSendQueue s = packetSendQueue (io_stream (w_io w)) → busy n (with_stream s w).
Proof.
  intros Hw Hnone Hs Hq. destruct (ru_stream _ _ (proj1 Hw)) as [Hq1 Hq2 _ _].
  apply busy_set_io; [|done]. split; simpl; [by rewrite Hq|by rewrite Hq|done|by rewrite Hnone].
Qed.

(** The bytes are in the buffer, and the head has not moved. *)
Lemma landed_wf data s :
  buffer_wf s → bytes_wf data → Z.of_nat (length data) ≤ readBufferSize s - readBufferHead s →
  buffer_wf (set_readBuffer (readBufferHead s)
    (list_inserts (Z.to_nat (readBufferHead s)) data (readBuffer s)) s).
Proof.
  intros Hbuf Hdata Hroom. destruct (wrote_wf data s Hbuf Hdata Hroom) as [[_ W2 _ W4] _].
  destruct Hbuf as [H1' H2' H3' H4'].
  split; simpl; try done; unfold readBufferSize in *; simpl; by rewrite ?length_inserts.
Qed.

(** What follows the parser: another read, or the packets to their handler. *)
Lemma ends_dispatch n h packets k w :
  busy n w →
  ends (busy n) environment_fault
    (catch_pitaya (if Z.of_nat (length packets) =? 0 then zoom (W := World) (ReadToBuffer h)
                   else call_receive h ec_success packets) k w).
Proof.
  intros Hw. apply ends_catch_pitaya; destruct (Z.of_nat (length packets) =? 0) eqn:Hlen.
  - apply (no_throw_ReceivePackets h).
  - apply no_throw_call_receive.
  - by apply (runs_start_read (busy n) environment_fault h).
  - apply (runs_call_receive (busy n) environment_fault h); [right|done]. by intros ->.
Qed.

(** A read that completes without an error, past the assertion that there are bytes. *)
Lemma ends_receive_bytes n w op ec data :
  busy n w → io_receives (w_io w) = [] → bytes_wf data →
  ro_offset op = readBufferHead (io_stream (w_io w)) →
  Z.of_nat (length data) ≤ readBufferSize (io_stream (w_io w)) - readBufferHead (io_stream (w_io w)) →
  ec_failed ec = false → ndebug = true ∨ data ≠ [] →
  ends (busy n) environment_fault
    ((socket_wrote (SH := SendHandler) (RH := ReceiveHandler) (CH := ConnectHandler)
        (EP := Endpoints) (ro_offset op) data ;;
      ReadToBuffer_done (SH := SendHandler) (CH := ConnectHandler) (EP := Endpoints)
        call_receive (ro_handler op) ec (Z.of_nat (length data))) w).
Proof.
  intros Hw Hnone Hdata Hoff Hroom Hec Hne. rewrite Hoff.
  pose proof (sw_buffer _ (ru_stream _ _ (proj1 Hw))) as Hbuf.
  destruct (wrote_wf data _ Hbuf Hdata Hroom) as [Hwrote _].
  pose proof (ReadToBuffer_done_eq call_receive (ro_handler op) ec data w) as E.
  change (io_stream (view w)) with (io_stream (w_io w)) in E. cbv zeta in E. rewrite E by done. clear E.
  pose proof (parse_safe _ Hwrote) as Hsafe. unfold catch_pitaya at 1.
  destruct (ParsePacketsFromReadBuffer _) as [packets s|e s|f].
  - destruct Hsafe as (Hs & _ & b & Hb). apply (ends_dispatch n (ro_handler op) packets).
    apply busy_with_stream; [done..|by rewrite Hb].
  - destruct Hsafe as [-> ->]. apply (runs_call_receive _ _); [by left|]. by apply busy_with_stream.
  - destruct f as [what|what| |]; try done; [|apply fault_loop].
    destruct Hsafe as [_ [->| ->]]; constructor.
Qed.

Lemma ends_receive_done n w op ec data :
  busy n w → io_receives (w_io w) = [] → bytes_wf data →
  ro_offset op = readBufferHead (io_stream (w_io w)) →
  Z.of_nat (length data) ≤ readBufferSize (io_stream (w_io w)) - readBufferHead (io_stream (w_io w)) →
  ends (busy n) environment_fault
    ((socket_wrote (SH := SendHandler) (RH := ReceiveHandler) (CH := ConnectHandler)
        (EP := Endpoints) (ro_offset op) data ;;
      ReadToBuffer_done (SH := SendHandler) (CH := ConnectHandler) (EP := Endpoints)
        call_receive (ro_handler op) ec (Z.of_nat (length data))) w).
Proof.
  intros Hw Hnone Hdata Hoff Hroom.
  destruct (ec_failed ec) eqn:Hec; [|destruct (decide (ndebug = true ∨ data ≠ []))];
    [|by apply ends_receive_bytes|]; rewrite Hoff;
    set (s := set_readBuffer (readBufferHead (io_stream (w_io w)))
      (list_inserts (Z.to_nat (readBufferHead (io_stream (w_io w)))) data
         (readBuffer (io_stream (w_io w)))) (io_stream (w_io w)));
    rewrite (bind_Ret (socket_wrote _ data) _ w tt (with_stream s w)) by done;
    unfold ReadToBuffer_done; rewrite Hec.
  - apply (runs_call_receive _ _ (ro_handler op) ec []); [by left|].
    apply busy_with_stream; [done..| |done].
    apply landed_wf; [apply (sw_buffer _ (ru_stream _ _ (proj1 Hw)))|done..].
  - rewrite (bind_Crash (cpp_assert "bytesRead > 0" _) _ _ (AssertFailed "bytesRead > 0"));
      [apply fault_no_room|]. unfold cpp_assert. destruct ndebug; [naive_solver|]. destruct data; naive_solver.
Qed.

Lemma busy_taken_send n l w :
  busy n (set_thread WorkerThread w) →
  busy n (set_io (set_sends l (w_io w)) (set_thread WorkerThread w)).
Proof.
  intros Hw. apply (busy_set_io n _ (set_thread WorkerThread w)); [|done].
  destruct (ru_stream _ _ (proj1 Hw)) as [? ? Hb ?]. by split.
Qed.

(** ** A step *)

(** A packet is sent: the only fault is a write id that is in use. *)
Lemma ends_send_next F n i w :
  system_wf n w → enabled w (LSendNext i) →
  F (AssertFailed "_writeBuffers.find(_writeId) == _writeBuffers.end()") →
  ends (system_wf n) F (action (LSendNext i) w).
Proof.
  intros Hw [h Hi] HF. pose proof (wf_busy n w Hw) as Hbusy. pose proof (sy_stream _ _ Hw) as Hst.
  take_item Hi. apply ends_wf.
  pose proof (runs_SendNextPacket F h (w_io w) i HF Hst Hi) as Hs.
  unfold zoom. change (view (set_io ?io (set_thread WorkerThread w))) with io.
  cbn [w_io set_thread]. destruct (SendNextPacket _ _) as [[] io|e io|f]; [..|done];
    by apply (busy_set_io n io (set_thread WorkerThread w)).
Qed.

(** And none when the next id is free. *)
Lemma send_next_safe n i w :
  system_wf n w → enabled w (LSendNext i) →
  writeBuffers (io_stream (w_io w)) !! u32 (writeId (io_stream (w_io w)) + 1) = None →
  ∀ f, action (LSendNext i) w ≠ Crash f.
Proof.
  intros Hw [h Hi] Hfree f. pose proof (sw_queue _ (sy_stream _ _ Hw)) as Hq.
  apply lookup_lt_Some in Hi as Hlt. take_item Hi.
  unfold zoom. change (view (set_io ?io (set_thread WorkerThread w))) with io. cbn [w_io set_thread].
  destruct (packetSendQueue (io_stream (w_io w))) as [|pkt q] eqn:E; [simpl in Hq; lia|].
  rewrite (SendNextPacket_spec _ _ pkt q) by exact E. cbn [io_stream set_posted]. by rewrite Hfree.
Qed.

Lemma ends_action n l w :
  system_wf n w → enabled w l → accounts_ok w l → is_run_request l = false → is_send_next l = false →
  ends (system_wf n) environment_fault (action l w).
Proof.
  intros Hw Hen Hok Hl Hl'. pose proof (wf_busy n w Hw) as Hbusy. pose proof Hw as [Hwk Hun Hid Hdr Hst].
  destruct l as [address|ls|r d t h|i|i|i ec nw|i ec data|i ec|t cb ec s]; try done.
  - cbn [action]. unfold on_thread. rewrite (bind_Ret (modify _) _ _ _ _ eq_refl).
    unfold Client_Connect, Connection_Start. rewrite (bind_Ret get _ _ _ _ eq_refl).
    rewrite (bind_Ret (cpp_assert _ _) _ _ _ _ (cpp_assert_true _ _ _ (bool_decide_eq_true_2
      (w_workerThreadId (set_thread ClientThread w) ≠ Some ClientThread) ltac:(simpl; congruence)))).
    assert (system_wf n (set_thread ClientThread w)) as Hw' by by split.
    destruct (SplitHostAndPort address) as [[host port]|]; [|done].
    eapply (runs_catch_system (system_wf n)); [|intros; apply runs_throw|exact Hw'].
    eapply runs_zoom; [apply runs_Connect|by intros ? []|]. intros ?? [] ?. by split.
  - destruct Hen as [op Hi]. take_item Hi. apply ends_wf.
    apply ends_SendNextPacket_done; [apply _| | |].
    + specialize (Hok op Hi). by destruct (so_handler op).
    + by apply (busy_taken_send n _ w).
    + intros ec'. apply (ends_call_send (busy n) _); [|by apply (busy_taken_send n _ w)].
      specialize (Hok op Hi). by destruct (so_handler op).
  - destruct Hen as (Hdata & op & Hi & Hroom). take_item Hi. apply ends_wf.
    specialize (Hok op Hi). pose proof (sw_reads _ Hst) as Hreads. rewrite Hok in Hreads.
    apply Forall_cons in Hreads as [[Hoff Hsize] _].
    assert (delete i (io_receives (w_io w)) = []) as Hdel.
    { rewrite Hok in Hi |- *. by destruct i as [|[]]. }
    apply ends_receive_done; [|exact Hdel|done|done|].
    + apply busy_set_io; [|done]. destruct Hst as [? ? Hb ?]. split; try done. simpl. by rewrite Hdel.
    + rewrite Hsize in Hroom. exact Hroom.
  - destruct Hen as [op Hi]. take_item Hi. apply ends_wf.
    assert (busy n (set_io (set_connects (delete i (io_connects (w_io w))) (w_io w))
      (set_thread WorkerThread w))) as Hb'.
    { apply busy_set_io; [|done]. destruct Hst. by split. }
    unfold Connect_done. case_match; by apply (runs_call_connect (busy n) _).
  - cbn [action]. unfold on_thread. do 2 rewrite (bind_Ret (modify _) _ _ _ _ eq_refl).
    apply ends_wf. apply (runs_call_timer (busy n) _); [intros f _; apply (runs_call_fn (busy n) _)|].
    destruct Hbusy as [[] ?]. split; [by split|done].
Qed.

(** The closure of a request also draws an id. *)
Lemma ends_run_request n i w :
  system_wf n w → enabled w (LRunRequest i) →
  ends (λ w', ∃ n', (n' = n ∨ n' = u64 (n + 1)) ∧ system_wf n' w') environment_fault
    (action (LRunRequest i) w).
Proof.
  intros Hw [r Hi]. pose proof (wf_busy n w Hw) as Hbusy. take_item Hi.
  set (w1 := set_requests _ _). assert (busy n w1) as Hw1.
  { destruct Hbusy as [[] ?]. split; [by split|done]. }
  clearbody w1. clear Hi Hw Hbusy w.
  assert (∀ n' (o : outcome World unit), (n' = n ∨ n' = u64 (n + 1)) → ends (busy n') environment_fault o →
    ends (λ w', ∃ n', (n' = n ∨ n' = u64 (n + 1)) ∧ system_wf n' w') environment_fault o) as Hends.
  { intros n' o Hn' Ho. destruct o; simpl in *; [..|done]; exists n'; split; try done; by apply busy_wf. }
  unfold PostRequest_run. rewrite (bind_Ret get_state _ _ _ _ eq_refl). unfold IsConnected.
  change (view w1) with (w_state w1). destruct (st_val (w_state w1)) as [|c]; cbn [negb]; cbv iota.
  { apply (Hends n); [by left|]. by apply (fr_handler (P := busy n)). }
  pose proof (runs_assert_worker (busy n) environment_fault w1 Hw1) as Ha.
  destruct (assert_worker w1) as [[] w2|e w2|f] eqn:E; simpl in Ha.
  - run E. apply pure_assert_worker in E as ->. rewrite (bind_Ret get _ _ _ _ eq_refl).
    rewrite (bind_Ret (modify _) _ _ _ _ eq_refl). rewrite (ru_id _ _ (proj1 Hw1)).
    apply (Hends (u64 (n + 1))); [by right|].
    assert (busy (u64 (n + 1)) (set_reqId (u64 (n + 1)) w1)) as Hw2.
    { destruct Hw1 as [[] ?]. split; [by split|done]. }
    revert Hw2. apply (runs_bind_eq (busy _)); [apply runs_NewData|].
    intros w3 packet w4 _ Ep. by eapply (fr_request (P := busy _)), NewData_request_packet.
  - rewrite (bind_Throw _ _ _ _ _ E). apply (Hends n); [by left|done].
  - rewrite (bind_Crash _ _ _ _ E). by apply (Hends n); [left|].
Qed.
End invariants.
