(* ===== verification/Safety.v ===== *)
(** * Safety of the running program

    The theorems about all executions that the accounts of [Handlers] and the invariant of
    [Invariants] give together: what holds between two steps, which faults a step can
    end in (in the plain surroundings; [Startup] has the theorem for all), and that request
    ids in use are distinct. They are about the runs in which the
    client calls [Start] once and makes fewer than 2^64 - 2 requests. *)

From S2P Require Import Prelude Outcome Net Errors Events Gzip Message Packet ReadBuffer.
From S2P Require Import TcpPacketStream ConnState Json Connection Client System Stream Receive Flow Frame.
From S2P Require Import Handlers Invariants.

Section safety.
Context `{BuildMode, BoostMessages, Zlib, Allocator, RapidJson, Resolver, DecompressFuel}.
Context `{!TimerService ConnTimerCb, !UnorderedIteration}.

(** One [Start], and fewer requests than there are ids. *)
Definition ordinary (ls : list label) : Prop :=
  (count_labels is_start ls ≤ 1)%nat ∧ Z.of_nat (count_labels is_run_request ls) < 2 ^ 64 - 2.

Lemma ordinary_prefix ls ls' : ordinary (ls ++ ls') → ordinary ls.
Proof. unfold ordinary. rewrite !count_labels_app. lia. Qed.

Lemma system_wf_initial : system_wf 1 initial.
Proof. split; try done. by apply (stream_wf_new 2048); lia. Qed.

Lemma ids_wf_initial : ids_wf initial.
Proof. split; intros; rewrite total_initial; lia. Qed.

Lemma accounts_hold ls w l :
  (count_labels is_start ls ≤ 1)%nat → steps initial ls w → ids_wf w → accounts_ok w l.
Proof.
  intros Hone Hs Hids. destruct l; try done; intros op Hi.
  - pose proof (ids_wf_fresh w i op Hids Hi). by destruct (so_handler op).
  - pose proof (activity_starts _ _ Hs). pose proof (length_receives w).
    destruct (io_receives (w_io w)) as [|op' [|]]; simpl in *; [done| |lia].
    destruct i; by simplify_eq/=.
Qed.

Lemma reachable_wf ls w :
  ordinary ls → steps initial ls w →
  ∃ n, 1 ≤ n ≤ 1 + Z.of_nat (count_labels is_run_request ls) ∧ system_wf n w ∧ ids_wf w.
Proof.
  intros Hord Hs. remember initial as w0 eqn:Hw0.
  induction Hs as [w|w ls w1 l w2 Hs IH Hstep].
  { subst. exists 1. split; [done|]. split; [apply system_wf_initial|apply ids_wf_initial]. }
  destruct (IH (ordinary_prefix _ _ Hord) Hw0) as (n & Hn & Hwf & Hids). subst w.
  pose proof (accounts_hold ls w1 l (proj1 (ordinary_prefix _ _ Hord)) Hs Hids) as Hacc.
  assert (∃ n', (n' = n ∨ is_run_request l = true ∧ n' = u64 (n + 1)) ∧ system_wf n' w2)
    as (n' & Hn' & Hwf').
  { inversion Hstep as [w' Hen E|e w' Hc E]; subst.
    - destruct (is_run_request l) eqn:Hl.
      + destruct l; try done. pose proof (ends_run_request n i w1 Hwf Hen) as He. rewrite E in He.
        destruct He as (n' & [->| ->] & He); eauto.
      + destruct (is_send_next l) eqn:Hl'.
        * destruct l; try done. pose proof (ends_send_next (λ _, True) n i w1 Hwf Hen I) as He.
          rewrite E in He. eauto.
        * pose proof (ends_action n l w1 Hwf Hen Hacc Hl Hl') as He. rewrite E in He. eauto.
    - destruct (client_throw _ _ _ _ Hc E) as [_ ->]. exists n. split; [by left|].
      destruct Hwf. by split. }
  destruct Hord as [_ Hcount]. rewrite count_labels_snoc in Hcount |- *.
  assert (n' = n ∨ is_run_request l = true ∧ n' = n + 1) as Hn''.
  { destruct Hn' as [?|[Hl ?]]; [by left|]. rewrite Hl in Hcount.
    rewrite u64_small in * by lia. by right. }
  exists n'. split; [destruct Hn'' as [?|[-> ?]]; [|lia]; destruct (is_run_request l); lia|].
  split; [done|]. pose proof (sy_id _ _ Hwf) as Hid. pose proof (sy_id _ _ Hwf') as Hid'.
  apply (ids_wf_step w1 l w2); try done; destruct (is_run_request l); lia.
Qed.

(** Induction over the steps of an ordinary execution, with what its accounts say. A [Start]
    that throws changes nothing but the thread. *)
Lemma ordinary_trace_ind (I : list label → World → Prop) :
  I [] initial →
  (∀ ls address w, ordinary (ls ++ [LStart address]) → I ls w →
     I (ls ++ [LStart address]) (set_thread ClientThread w)) →
  (∀ ls l w w', ordinary (ls ++ [l]) → steps initial ls w → enabled w l → accounts_ok w l →
     action l w = Ret tt w' → I ls w → I (ls ++ [l]) w') →
  ∀ ls w, ordinary ls → steps initial ls w → I ls w.
Proof.
  intros Hinit Hthread Hstep ls w Hord Hs. remember initial as wi eqn:Hwi.
  induction Hs as [w|w ls w1 l w2 Hs IH Hl]; [by subst|]. subst w.
  pose proof (ordinary_prefix _ _ Hord) as Hord'. specialize (IH eq_refl Hinit Hstep Hord').
  destruct (reachable_wf _ _ Hord' Hs) as (_ & _ & _ & Hids).
  pose proof (accounts_hold _ w1 l (proj1 Hord') Hs Hids) as Hok.
  inversion Hl as [? Hen E|? ? Hc E]; subst; [by eapply Hstep|].
  destruct (client_throw _ _ _ _ Hc E) as [[address ->] ->]. by apply Hthread.
Qed.

Lemma ordinary_ind (I : World → Prop) :
  I initial → (∀ t w, I w → I (set_thread t w)) →
  (∀ ls l w w', ordinary ls → steps initial ls w → enabled w l → accounts_ok w l →
     action l w = Ret tt w' → I w → I w') →
  ∀ ls w, ordinary ls → steps initial ls w → I w.
Proof.
  intros Hinit Hthread Hstep. apply (ordinary_trace_ind (λ _, I)); [done|by intros; apply Hthread|].
  intros ls l w w' Hord%ordinary_prefix. by apply Hstep.
Qed.

(** C14: between two steps, in every execution: the mutex of the state is free; at most 50
    packets are queued, each with exactly one closure posted to send it; at most one read is
    outstanding, and it was given exactly the free end of a well-formed buffer; and no
    request handler was ever destroyed because its id was taken. *)
Theorem reachable_invariant ls w :
  ordinary ls → steps initial ls w →
  st_locked (w_state w) = false ∧
  length (packetSendQueue (io_stream (w_io w))) = length (io_posted (w_io w)) ∧
  (length (packetSendQueue (io_stream (w_io w))) ≤ 50)%nat ∧
  buffer_wf (io_stream (w_io w)) ∧
  (length (io_receives (w_io w)) ≤ 1)%nat ∧
  Forall (λ op,
    ro_offset op = readBufferHead (io_stream (w_io w)) ∧
    ro_size op = readBufferSize (io_stream (w_io w)) - readBufferHead (io_stream (w_io w)))
    (io_receives (w_io w)) ∧
  w_dropped w = [].
Proof.
  intros Hord Hs. destruct (reachable_wf ls w Hord Hs) as (n & _ & [Hwk Hun Hid Hdr [Hq Hb Hbuf Hr]] & _).
  pose proof (activity_starts _ _ Hs). pose proof (length_receives w). destruct Hord.
  unfold kMaxQueuedPackets in Hb. split_and!; try done; lia.
Qed.

Lemma counted_steps ls w :
  ordinary ls → steps initial ls w → locked_is ids_counted false (set_thread WorkerThread w).
Proof.
  revert ls w. apply ordinary_ind; [|by intros t w [[? ?] ?]|].
  - split; [split; [apply write_ids_new|done]|done].
  - intros ls l w w' _ _ Hen Hok E Hw. destruct (is_client l) eqn:Hc.
    + destruct Hw as [[Hio Hw] Hl].
      destruct l as [address|l'|r d t h| | | | | |]; try done; [|by injection E as <-..].
      apply start_Ret in E as [->|[op ->]]; [done|]. split; [split; [|done]|done].
      by apply write_ids_call.
    + pose proof (counted_step l w Hw Hen Hc Hok) as He. rewrite E in He.
      destruct He as [[? [? ?]] ?]. by split.
Qed.

(** The faults of a step, with callbacks that return, a socket that closes, and the id of the
    worker thread stored. *)
Lemma plain_faults ls w l f :
  ordinary ls → steps initial ls w → Z.of_nat (length (sent_buffers (w_io w))) < 2 ^ 32 - 1 →
  enabled w l → action l w = Crash f → environment_fault f.
Proof.
  intros Hord Hs Hsent Hen E. destruct (reachable_wf ls w Hord Hs) as (n & _ & Hwf & Hids).
  pose proof (accounts_hold ls w l (proj1 Hord) Hs Hids) as Hacc.
  destruct (is_run_request l) eqn:Hl.
  - destruct l; try done. pose proof (ends_run_request n i w Hwf Hen) as He. by rewrite E in He.
  - destruct (is_send_next l) eqn:Hl'.
    + destruct l; try done. destruct (counted_steps ls w Hord Hs) as [[Hio _] _].
      by destruct (send_next_safe n i w Hwf Hen (write_ids_free _ Hio Hsent) f).
    + pose proof (ends_action n l w Hwf Hen Hacc Hl Hl') as He. by rewrite E in He.
Qed.

(** The ids in use: queued, being sent, awaiting an answer. *)
Definition handler_id (h : SendHandler) : list Z :=
  match h with RequestSent _ msg _ => [msg_id msg] | _ => [] end.
Definition live_ids (w : World) : list Z :=
  (io_posted (w_io w) ≫= handler_id) ++ (io_sends (w_io w) ≫= λ op, handler_id (so_handler op)) ++
  (map_to_list (w_inFlight w)).*1.

Lemma count_id_bind {A} i (f : A → list Z) l :
  sum_list_with (λ x, count_occ Z.eq_dec (f x) i) l = count_occ Z.eq_dec (l ≫= f) i.
Proof. induction l; simpl; [done|]. rewrite count_occ_app. by f_equal. Qed.

Lemma id_of_count i h : id_of i h = count_occ Z.eq_dec (handler_id h) i.
Proof. destruct h; simpl; try done. destruct (Z.eq_dec _ _); by case_bool_decide. Qed.

Lemma total_live i w : (count_occ Z.eq_dec (live_ids w) i ≤ total (id_wt i) w)%nat.
Proof.
  unfold live_ids, total, total_io, total_flight. rewrite !count_occ_app. simpl.
  rewrite <- !count_id_bind.
  assert (∀ l : list (Z * Request), count_occ Z.eq_dec l.*1 i
    = sum_list_with (λ p, one (bool_decide (p.1 = i))) l) as ->.
  { induction l as [|[j r] l IH]; simpl; [done|].
    rewrite <- IH. destruct (Z.eq_dec j i); by case_bool_decide. }
  assert (∀ l, sum_list_with (λ h, count_occ Z.eq_dec (handler_id h) i) l = sum_list_with (id_of i) l) as ->.
  { induction l; simpl; [done|]. by rewrite id_of_count, IHl. }
  assert (∀ l : list (SendOp SendHandler),
    sum_list_with (λ op, count_occ Z.eq_dec (handler_id (so_handler op)) i) l
    = sum_list_with (λ op, id_of i (so_handler op)) l) as ->.
  { induction l; simpl; [done|]. by rewrite id_of_count, IHl. }
  lia.
Qed.

(** C18: the ids of the requests queued, being sent and awaiting an answer are all different
    and have all been given out before, so that an answer of the server finds the request it
    is for, and a new id is never in use. *)
Theorem request_ids_unique ls w :
  ordinary ls → steps initial ls w →
  NoDup (live_ids w) ∧ ∀ i, i ∈ live_ids w → i < w_reqId w.
Proof.
  intros Hord Hs. destruct (reachable_wf ls w Hord Hs) as (n & _ & _ & Hone & Hnew).
  split.
  - apply NoDup_ListNoDup, (NoDup_count_occ Z.eq_dec). intros i. etrans; [apply total_live|apply Hone].
  - intros i Hi%list_elem_of_In%(count_occ_In Z.eq_dec). pose proof (total_live i w).
    destruct (decide (i < w_reqId w)) as [|Hge]; [done|]. rewrite Hnew in * by lia. lia.
Qed.
End safety.
