(* ===== verification/Lifecycle.v ===== *)
(** * The life of a connection, as its listeners see it

    What the three ways of losing a connection do, completely; and the theorem that relates
    the events a listener has received to the state of the connection, in every execution. *)

From S2P Require Import Prelude Outcome Net Errors Events Gzip Message Packet ReadBuffer.
From S2P Require Import TcpPacketStream ConnState Json Connection Client System Stream Receive Flow Frame.
From S2P Require Import Handlers Invariants Safety.

Section losing.
Context `{BuildMode, BoostMessages, Zlib, Allocator, RapidJson, Resolver, DecompressFuel}.
Context `{!TimerService ConnTimerCb, !UnorderedIteration}.

(** Every listener has been told, in the order in which they were added. *)
Definition announce (ev : Event) (msg : string) (w : World) : World :=
  foldl (λ w l, add_trace (ListenerCalled l ev msg) w) w (listeners (w_listeners w)).

(** The state is [Inited]; the two timers are gone, with their pending waits. *)
Definition to_inited (w : World) : World :=
  set_state (State_new InitedState)
    (set_timers
       match st_val (w_state w) with
       | InitedState => w_timers w
       | ConnectedState c => ts_destroy (heartbeatTimeout c) (ts_destroy (heartbeatTimer c) (w_timers w))
       end w).

(** The socket has been shut down, then closed. *)
Definition disconnected (w : World) : World :=
  set_io (add_call CallClose (add_call CallShutdown (w_io w))) w.

Lemma Broadcast_Ret ev msg w : Broadcast ev msg w = Ret tt (announce ev msg w).
Proof.
  unfold Broadcast, EventListeners_Broadcast, announce.
  rewrite (bind_Ret get _ _ _ _ eq_refl). generalize (listeners (w_listeners w)) as ls.
  intros ls. revert w. induction ls as [|l ls IH]; intros w; simpl; [done|].
  by rewrite (bind_Ret _ _ _ _ _ (call_listener_Ret l ev msg w)), IH.
Qed.

Lemma SetInited_Ret w :
  SetInited w = Ret tt (set_state {| st_locked := st_locked (w_state w); st_val := InitedState |}
    (set_timers (w_timers (to_inited w)) w)).
Proof.
  unfold SetInited, destroy_val, to_inited. rewrite bind_assoc.
  rewrite (bind_Ret get_state _ _ _ _ eq_refl). change (view w) with (w_state w).
  destruct w as [? [? []] ? ? ? ? ? ? ? ? ?]; done.
Qed.

Lemma announce_fields ev msg w :
  announce ev msg w =
    {| w_reqId := w_reqId w; w_state := w_state w; w_io := w_io w; w_listeners := w_listeners w;
       w_inFlight := w_inFlight w; w_timers := w_timers w; w_posted := w_posted w;
       w_trace := w_trace w ++ ((λ l, ListenerCalled l ev msg) <$> listeners (w_listeners w));
       w_dropped := w_dropped w; w_thread := w_thread w; w_workerThreadId := w_workerThreadId w |}.
Proof.
  unfold announce. generalize (listeners (w_listeners w)) as ls. intros ls. revert w.
  induction ls as [|l ls IH]; intros w; simpl.
  - rewrite app_nil_r. by destruct w.
  - rewrite IH. simpl. by rewrite <- app_assoc.
Qed.

(** A computation under the mutex, when it is free. *)
Lemma with_lock_Ret {A} (m : M World A) w a w' :
  st_locked (w_state w) = false →
  m (set_state {| st_locked := true; st_val := st_val (w_state w) |} w) = Ret a w' →
  with_lock m w = Ret a (set_state {| st_locked := false; st_val := st_val (w_state w') |} w').
Proof.
  intros Hl E. unfold with_lock. change (view w) with (w_state w). rewrite Hl.
  assert ((set_locked true ;; m) w = Ret a w') as -> by exact E. done.
Qed.

Lemma set_state_self w :
  st_locked (w_state w) = false → set_state {| st_locked := false; st_val := st_val (w_state w) |} w = w.
Proof. destruct w as [? [? ?] ? ? ? ? ? ? ? ? ?]; simpl. by intros ->. Qed.

(** A failed handshake puts the state in [Inited] whatever it was, cancels the heartbeat
    timers, and tells every listener once, in order, with the message of the error. Nothing
    else changes: the socket is not closed, and the requests in flight stay. *)
Lemma HandshakeFailed_spec ec w :
  st_locked (w_state w) = false →
  Connection_HandshakeFailed ec w =
    Ret tt (announce EventConnectionFailed (ec_message ec) (to_inited w)).
Proof.
  intros Hl. unfold Connection_HandshakeFailed. erewrite with_lock_Ret; [|done|].
  2:{ rewrite (bind_Ret _ _ _ _ _ (SetInited_Ret _)). apply Broadcast_Ret. }
  by rewrite !announce_fields.
Qed.

Lemma disconnected_Ret ev msg w :
  (st ← get_state;
   if IsConnected st then
     SetInited ;; Broadcast ev msg ;; zoom (W := World) TcpPacketStream_Disconnect
   else mret tt) w =
  Ret tt (if IsConnected (w_state w) then
            disconnected (announce ev msg
              (set_state {| st_locked := st_locked (w_state w); st_val := InitedState |}
                 (set_timers (w_timers (to_inited w)) w)))
          else w).
Proof.
  rewrite (bind_Ret get_state _ _ _ _ eq_refl). change (view w) with (w_state w).
  destruct (IsConnected (w_state w)); [|done].
  rewrite (bind_Ret _ _ _ _ _ (SetInited_Ret _)), (bind_Ret _ _ _ _ _ (Broadcast_Ret _ _ _)).
  by rewrite announce_fields.
Qed.

Lemma lose_Ret ev msg w :
  st_locked (w_state w) = false →
  with_lock
    (st ← get_state;
     if IsConnected st then
       SetInited ;; Broadcast ev msg ;; zoom (W := World) TcpPacketStream_Disconnect
     else mret tt) w =
    Ret tt (if IsConnected (w_state w) then disconnected (announce ev msg (to_inited w)) else w).
Proof.
  intros Hl. erewrite with_lock_Ret; [|done|apply disconnected_Ret].
  rewrite !announce_fields. destruct w as [? [lk [|c]] ? ? ? ? ? ? ? ? ?]; simpl in Hl; by subst.
Qed.

(** An error of the connection does something only in the state [Connected]: it puts the
    state in [Inited], cancels the heartbeat timers, tells every listener once, in order, and
    shuts the socket down and closes it. In the state [Inited] nothing at all happens: an
    error during the handshake is not reported, and the socket stays open. The requests in
    flight stay in any case. *)
Lemma ConnectionError_spec ec w :
  st_locked (w_state w) = false →
  Connection_ConnectionError ec w =
    Ret tt (if IsConnected (w_state w)
            then disconnected (announce EventConnectionError (ec_message ec) (to_inited w))
            else w).
Proof. apply lose_Ret. Qed.

(** A kick does the same, with its own event and message. *)
Lemma KickedFromServer_spec w :
  st_locked (w_state w) = false →
  Connection_KickedFromServer w =
    Ret tt (if IsConnected (w_state w)
            then disconnected (announce EventKicked "Kicked from server" (to_inited w))
            else w).
Proof. apply lose_Ret. Qed.

(** C30: the three ways in which a connection ends, exactly. A failed handshake puts the state
    in [Inited] whatever it was, cancels the heartbeat timers, and tells every listener once,
    in order; the socket is not closed. An error and a kick do something only on an
    established connection: the same, and then the socket is shut down and closed; before the
    connection is established an error is not reported and the socket stays open. The
    requests in flight stay in every case. *)
Theorem teardown_spec ec w :
  st_locked (w_state w) = false →
  Connection_HandshakeFailed ec w =
    Ret tt (announce EventConnectionFailed (ec_message ec) (to_inited w)) ∧
  Connection_ConnectionError ec w =
    Ret tt (if IsConnected (w_state w)
            then disconnected (announce EventConnectionError (ec_message ec) (to_inited w))
            else w) ∧
  Connection_KickedFromServer w =
    Ret tt (if IsConnected (w_state w)
            then disconnected (announce EventKicked "Kicked from server" (to_inited w))
            else w).
Proof.
  intros Hl. split; [by apply HandshakeFailed_spec|].
  split; [by apply ConnectionError_spec|by apply KickedFromServer_spec].
Qed.

(** The timers when both have been armed. *)
Definition armed (n : Z) (w : World) : TS :=
  let t1 := (ts_new (w_timers w)).1 in
  let s1 := (ts_new (w_timers w)).2 in
  let t2 := (ts_new s1).1 in
  ts_async_wait t2 (CbHeartbeatTimeout HeartbeatTimedOut)
    (ts_expires t2 (ExpiresAtNowPlus (n * kHeartbeatFactor))
      (ts_async_wait t1 CbHeartbeatTick (ts_expires t1 (ExpiresAfter n) (ts_new s1).2))).

(** What [SetConnected] installs. *)
Definition connected_with (n : Z) (s : string) (d : gmap string Z) (w : World) : Connected HeartbeatFn := {|
  heartbeatInterval := n; heartbeatTimeoutSeconds := n * kHeartbeatFactor; serializer := s;
  routeToCode := d; codeToRoute := make_codeToRoute d;
  heartbeatTimer := (ts_new (w_timers w)).1;
  heartbeatTimeout := (ts_new (ts_new (w_timers w)).2).1;
  heartbeatTick := SendHeartbeat |}.

(** The timers after the old value of the state is gone. *)
Definition destroy_own (st : StateType HeartbeatFn) (ts : TS) : TS :=
  match st with
  | InitedState => ts
  | ConnectedState c => ts_destroy (heartbeatTimeout c) (ts_destroy (heartbeatTimer c) ts)
  end.

Lemma SetConnected_eq n s d w :
  fits_i64 (n * kHeartbeatFactor) = true →
  SetConnected n s d SendHeartbeat HeartbeatTimedOut w =
    Ret tt (set_state {| st_locked := st_locked (w_state w);
                         st_val := ConnectedState (connected_with n s d w) |}
              (set_timers (destroy_own (st_val (w_state w)) (armed n w)) w)).
Proof.
  intros Hfits. unfold SetConnected. rewrite Hfits, ret_bind.
  unfold Connected_new. rewrite bind_assoc, (bind_Ret _ _ _ _ _ (timer_new_Ret _)).
  rewrite bind_assoc, (bind_Ret _ _ _ _ _ (timer_new_Ret _)), ret_bind.
  do 4 rewrite (bind_Ret _ _ _ _ _ (timer_op_Ret _ _)).
  unfold destroy_val. rewrite bind_assoc, (bind_Ret _ _ _ _ _ (get_state_Ret _)).
  by destruct w as [? [? [|c]] ? ? ? ? ? ? ? ? ?].
Qed.

(** The end of the handshake: the state is [Connected], and every listener has been told. *)
Lemma connect_ends n s d msg w :
  st_locked (w_state w) = false →
  with_lock (SetConnected n s d SendHeartbeat HeartbeatTimedOut ;; Broadcast EventConnected msg) w =
    if fits_i64 (n * kHeartbeatFactor) then
      Ret tt (announce EventConnected msg (set_state (State_new (ConnectedState (connected_with n s d w)))
        (set_timers (destroy_own (st_val (w_state w)) (armed n w)) w)))
    else Crash (UndefinedBehaviour "signed overflow of heartbeatInterval * kHeartbeatFactor").
Proof.
  intros Hl. destruct (fits_i64 _) eqn:Hfits.
  - erewrite with_lock_Ret; [|done|].
    2:{ rewrite (bind_Ret _ _ _ _ _ (SetConnected_eq n s d _ Hfits)). apply Broadcast_Ret. }
    by rewrite !announce_fields.
  - unfold with_lock. change (view w) with (w_state w). rewrite Hl. unfold SetConnected.
    by rewrite Hfits.
Qed.

(** ** What a listener sees *)

(** The events a listener has received. *)
Definition events_for (l : Listener) (o : Observation) : list Event :=
  match o with
  | ListenerCalled l' ev _ => if decide (l' = l) then [ev] else []
  | HandlerCalled _ _ _ => []
  end.
Definition events_of (l : Listener) (w : World) : list Event := w_trace w ≫= events_for l.

(** The life of a connection: an error or a kick comes only to one that is established. *)
Definition lifecycle_step (connected : option bool) (ev : Event) : option bool :=
  match connected, ev with
  | None, _ => None
  | Some _, EventConnected => Some true
  | Some _, EventConnectionFailed => Some false
  | Some true, (EventConnectionError | EventKicked) => Some false
  | Some false, (EventConnectionError | EventKicked) => None
  end.
Definition lifecycle (evs : list Event) : option bool := foldl lifecycle_step (Some false) evs.

Section listener.
Context (l : Listener).

(** The listener was added once, and what it has seen ends in the present state. *)
Record watched (w : World) : Prop := {
  wa_listed : count_occ Nat.eq_dec (listeners (w_listeners w)) l = 1%nat;
  wa_events : lifecycle (events_of l w) = Some (IsConnected (w_state w));
  wa_unlocked : st_locked (w_state w) = false;
  wa_worker : w_workerThreadId w = Some WorkerThread;
}.

Lemma events_calls ev msg ls :
  ((λ l', ListenerCalled l' ev msg) <$> ls) ≫= events_for l = replicate (count_occ Nat.eq_dec ls l) ev.
Proof.
  induction ls as [|l' ls IH]; [done|]. rewrite fmap_cons, bind_cons, IH. cbn [events_for count_occ].
  destruct (Nat.eq_dec l' l) as [->|]; [by rewrite decide_True|by rewrite decide_False].
Qed.

Lemma events_announce ev msg w :
  count_occ Nat.eq_dec (listeners (w_listeners w)) l = 1%nat →
  events_of l (announce ev msg w) = events_of l w ++ [ev].
Proof.
  intros Hl. rewrite announce_fields. unfold events_of. cbn [w_trace].
  by rewrite bind_app, events_calls, Hl.
Qed.

Lemma lifecycle_snoc evs ev b : lifecycle evs = Some b → lifecycle (evs ++ [ev]) = lifecycle_step (Some b) ev.
Proof. unfold lifecycle. rewrite foldl_app. by intros ->. Qed.

(** An event announced in a state, and the state it leads to. *)
Lemma watched_announce ev msg w w1 :
  watched w → w_listeners w1 = w_listeners w → w_trace w1 = w_trace w →
  w_workerThreadId w1 = w_workerThreadId w → st_locked (w_state w1) = false →
  lifecycle_step (Some (IsConnected (w_state w))) ev = Some (IsConnected (w_state w1)) →
  watched (announce ev msg w1).
Proof.
  intros [Hl He Hu Hw] Hls Htr Hwk Hlk Hstep.
  assert (events_of l (announce ev msg w1) = events_of l w ++ [ev]) as Hev.
  { rewrite events_announce by (by rewrite Hls). unfold events_of. by rewrite Htr. }
  split; rewrite ?Hev, ?(lifecycle_snoc _ _ _ He), announce_fields; cbn; [by rewrite Hls|done|done|].
  by rewrite Hwk.
Qed.

(** What does not touch the state, the listeners or the events keeps it. *)
Lemma watched_frame w w1 :
  w_listeners w1 = w_listeners w → w_state w1 = w_state w → events_of l w1 = events_of l w →
  w_workerThreadId w1 = w_workerThreadId w → watched w → watched w1.
Proof. intros Hls Hst Hev Hwk []. split; by rewrite ?Hls, ?Hst, ?Hev, ?Hwk. Qed.

Definition watching (w : World) : Prop := watched w ∧ w_thread w = WorkerThread.

Lemma watching_modify F f :
  (∀ w, w_listeners (f w) = w_listeners w) → (∀ w, w_state (f w) = w_state w) →
  (∀ w, events_of l (f w) = events_of l w) → (∀ w, w_workerThreadId (f w) = w_workerThreadId w) →
  (∀ w, w_thread (f w) = w_thread w) → runs watching F (modify f).
Proof.
  intros H1' H2' H3' H4' H5'. apply runs_modify. intros w [Hw Ht]. split; [|by rewrite H5'].
  by apply (watched_frame w).
Qed.

Lemma watching_io io w : watching w → watching (set_io io w).
Proof. intros [Hw Ht]. split; [by apply (watched_frame w)|done]. Qed.

Lemma watching_zoom {A} (m : M ConnIO A) : runs watching (λ _, True) (zoom (W := World) m).
Proof. intros w Hw. unfold zoom. destruct (m _); [by apply watching_io..|done]. Qed.

#[export] Instance framed_watching : Framed watching (λ _, True).
Proof.
  assert (∀ f : World → World, runs watching (λ _, True) (modify f) → ∀ w, watching w → watching (f w)) as Hf.
  { intros f Hm w Hw. exact (Hm w Hw). }
  assert (∀ s, runs watching (λ _, True) (modify (set_timers s))) as Htimers.
  { intros s. by apply watching_modify. }
  assert (∀ ec, runs watching (λ _, True) (Connection_ConnectionError ec)) as Herror.
  { intros ec w [Hw Ht]. rewrite ConnectionError_spec by apply Hw.
    destruct (IsConnected (w_state w)) eqn:E; [|done].
    apply watching_io. split; [|by rewrite announce_fields].
    apply (watched_announce _ _ w); try done. by rewrite E. }
  split; try done.
  - intros w [[] ?]. congruence.
  - intros h s d. apply watching_modify; try done. intros w. unfold events_of. simpl.
    by rewrite bind_app, app_nil_r.
  - intros id h t w Hid Hw. unfold inFlight_emplace.
    destruct (Request_new_Ret h t id w) as (x & s & E). run E.
    rewrite (bind_Ret get _ _ _ _ eq_refl). cbn [w_inFlight set_timers]. rewrite Hid.
    destruct Hw as [Hw Ht]. split; [by apply (watched_frame w)|done].
  - intros id. apply runs_get_then. intros w Hw. destruct (_ !! id); [|done].
    destruct Hw as [Hw Ht]. split; [by apply (watched_frame w)|done].
  - intros ec. apply runs_any_tick; [intros f; by apply watching_modify|apply watching_zoom|done].
  - apply runs_any_extend. intros f. by apply watching_modify.
  - intros ec w [Hw Ht]. rewrite HandshakeFailed_spec by apply Hw.
    split; [|by rewrite announce_fields]. apply (watched_announce _ _ w); try done.
    by destruct (IsConnected (w_state w)).
  - intros w [Hw Ht]. rewrite KickedFromServer_spec by apply Hw.
    destruct (IsConnected (w_state w)) eqn:E; [|done].
    apply watching_io. split; [|by rewrite announce_fields].
    apply (watched_announce _ _ w); try done. by rewrite E.
  - intros p t m h _. apply watching_zoom.
  - apply watching_zoom.
  - intros id. apply watching_zoom.
Qed.

#[export] Instance sending_watching : Sending watching (λ _, True).
Proof.
  apply sending_any; [intros; apply watching_zoom..|].
  intros n s d. apply runs_bind; [|intros _; apply watching_zoom]. intros w [Hw Ht].
  rewrite connect_ends by apply Hw. destruct (fits_i64 _); [|done].
  split; [|by rewrite announce_fields].
  apply (watched_announce _ _ w); try done. by destruct (IsConnected (w_state w)).
Qed.

(** ** Every step *)

#[export] Instance stepped_watching : Stepped watching.
Proof.
  split; [apply _|apply _| |by intros; apply watching_io..|intros; apply watching_zoom].
  intros x w [Hw Ht]. split; [by apply (watched_frame w)|done].
Qed.

Lemma watching_action w lb w' :
  enabled w lb → is_client lb = false → accounts_ok w lb → action lb w = Ret tt w' →
  watched w → watched w'.
Proof.
  intros Hen Hc Hok E Hw.
  assert (watching (set_thread WorkerThread w)) as Hwt.
  { split; [by apply (watched_frame w)|done]. }
  assert (watching (taken w lb)) as Htk.
  { destruct lb; try done. destruct Hwt as [Hwt Ht]. split; [by apply (watched_frame (set_thread WorkerThread w))|done]. }
  assert (∀ s w0, watching w0 → watching (set_timers s w0)) as Htimers.
  { intros s w0 [Hw0 Ht0]. split; [by apply (watched_frame w0)|done]. }
  pose proof (ends_any_step watching watching_io Htimers lb w Htk Hen Hc Hok) as He. by rewrite E in He; apply He.
Qed.

Lemma watched_client lb w w' :
  is_client lb = true → lb ≠ LAddListener l → action lb w = Ret tt w' → watched w → watched w'.
Proof.
  intros Hc Hne E Hw. destruct lb as [address|l'|r d t h| | | | | |]; try done.
  - apply start_Ret in E as [->|[op ->]]; by apply (watched_frame w).
  - injection E as <-. destruct Hw as [Hl He Hu Hwk]. split; try done.
    trans (count_occ Nat.eq_dec (listeners (w_listeners w) ++ [l']) l); [done|].
    unfold Listener in *. rewrite count_occ_app, Hl. simpl. destruct (Nat.eq_dec l' l); [congruence|done].
  - injection E as <-. by apply (watched_frame w).
Qed.

Lemma watched_steps ls' w :
  steps initial ls' w → ordinary ls' →
  ∀ ls, ls' = LAddListener l :: ls → Forall (λ lb, lb ≠ LAddListener l) ls → watched w.
Proof.
  remember initial as wi eqn:Hwi. induction 1 as [w|w ls1 w1 lb w2 Hs IH Hstep]; [done|].
  intros Hord ls Els Hls. subst w. destruct ls1 as [|lb1 ls1].
  - injection Els as -> <-. inversion Hs; [subst|by destruct ls].
    inversion Hstep as [? _ E|? ? _ E]; [|done]. injection E as <-. split; try done. simpl.
    by destruct (Nat.eq_dec l l).
  - injection Els as -> <-. apply Forall_app in Hls as [Hls [Hlb _]%Forall_cons].
    specialize (IH eq_refl (ordinary_prefix _ _ Hord) _ eq_refl Hls).
    destruct (reachable_wf _ _ (ordinary_prefix _ _ Hord) Hs) as (_ & _ & _ & Hids).
    pose proof (accounts_hold _ w1 lb (proj1 (ordinary_prefix _ _ Hord)) Hs Hids) as Hok.
    inversion Hstep as [? Hen E|? ? Hc E]; subst.
    + destruct (is_client lb) eqn:Hc; [by eapply watched_client|by eapply watching_action].
    + destruct (client_throw _ _ _ _ Hc E) as [_ ->]. by apply (watched_frame w1).
Qed.

(** C12: what a listener added first sees is always a life of the connection, and tells its
    present state: after Connected the connection is established, until a failure, an error
    or a kick; an error or a kick comes only while it is established, and exactly one of
    them, or a failed handshake, ends it. *)
Theorem listener_lifecycle ls w :
  ordinary (LAddListener l :: ls) → steps initial (LAddListener l :: ls) w →
  Forall (λ lb, lb ≠ LAddListener l) ls →
  lifecycle (events_of l w) = Some (IsConnected (w_state w)).
Proof. intros Hord Hs Hls. by destruct (watched_steps _ w Hs Hord ls eq_refl Hls). Qed.
End listener.
End losing.
