(* ===== verification/Timers.v ===== *)
(** * The timers of a connection stay armed

    In every execution: the heartbeat of an established connection has its next tick
    pending, and every request in flight has its own timeout pending, on a timer that is
    alive. So nothing the server does, or does not do, leaves a request without an answer. *)

From S2P Require Import Prelude Outcome Net Errors Events Gzip Message Packet ReadBuffer.
From S2P Require Import TcpPacketStream ConnState Json Connection Client System Stream Receive Flow.
From S2P Require Import Requests Frame Handlers Invariants Safety Lifecycle.

Section timers.
Context `{BuildMode, BoostMessages, Zlib, Allocator, RapidJson, Resolver, DecompressFuel}.
Context `{!TimerService ConnTimerCb, !UnorderedIteration}.

(** ** The invariant *)

(** The own timers of a connection, the tick armed or, with [b] false, completed; the timers
    of the requests; and the handlers that can still be invoked. *)
Record timers_ok (b : bool) (st : StateType HeartbeatFn) (fl : gmap Z Request) (s : TS) : Prop := {
  tm_own c : st = ConnectedState c →
    heartbeatTick c = SendHeartbeat ∧ heartbeatTimer c ≠ heartbeatTimeout c ∧
    ts_alive s (heartbeatTimer c) ∧ ts_alive s (heartbeatTimeout c) ∧
    (ts_waiting s (heartbeatTimer c) = [CbHeartbeatTick] ∨ b = false ∧ ts_waiting s (heartbeatTimer c) = []) ∧
    (ts_waiting s (heartbeatTimeout c) = [] ∨
     ts_waiting s (heartbeatTimeout c) = [CbHeartbeatTimeout HeartbeatTimedOut]);
  tm_flight id r : fl !! id = Some r →
    ts_alive s (req_timer r) ∧ ts_waiting s (req_timer r) = [CbRequestTimeout id];
  tm_given f : CbHeartbeatTimeout f ∈ ts_given s → f = HeartbeatTimedOut;
}.

(** Compute with the laws of the timers, where the timers are known to be different. *)
Local Ltac timer_laws :=
  repeat first
    [ rewrite ts_async_wait_alive | rewrite ts_expires_alive | rewrite ts_new_alive
    | rewrite ts_destroy_alive | rewrite ts_async_wait_waiting | rewrite ts_expires_waiting
    | rewrite ts_new_waiting | rewrite ts_destroy_waiting | rewrite ts_async_wait_given
    | rewrite ts_expires_given | rewrite ts_new_given | rewrite ts_destroy_given
    | rewrite decide_True by done | rewrite decide_False by done ].

(** The timer of a request is not one of the connection's, nor of another request. *)
Lemma request_timer_own b c fl s id r :
  timers_ok b (ConnectedState c) fl s → fl !! id = Some r →
  req_timer r ≠ heartbeatTimer c ∧ req_timer r ≠ heartbeatTimeout c.
Proof.
  intros Hok Hr. destruct (tm_own _ _ _ _ Hok c eq_refl) as (_ & _ & _ & _ & Ht & Ho).
  destruct (tm_flight _ _ _ _ Hok id r Hr) as [_ Hw].
  split; intros E; rewrite E in Hw; rewrite Hw in *; naive_solver.
Qed.

Lemma request_timer_other b st fl s id r id' r' :
  timers_ok b st fl s → fl !! id = Some r → fl !! id' = Some r' → id ≠ id' → req_timer r ≠ req_timer r'.
Proof.
  intros Hok Hr Hr' Hne E. destruct (tm_flight _ _ _ _ Hok id r Hr) as [_ Hw].
  destruct (tm_flight _ _ _ _ Hok id' r' Hr') as [_ Hw']. rewrite E in Hw. congruence.
Qed.

(** Two services that agree on the timers in use. *)
Lemma timers_ok_agree b st fl s s' :
  (∀ c t, st = ConnectedState c → t = heartbeatTimer c ∨ t = heartbeatTimeout c →
     (ts_alive s t → ts_alive s' t) ∧ ts_waiting s' t = ts_waiting s t) →
  (∀ id r, fl !! id = Some r →
     (ts_alive s (req_timer r) → ts_alive s' (req_timer r)) ∧
     ts_waiting s' (req_timer r) = ts_waiting s (req_timer r)) →
  (∀ f, CbHeartbeatTimeout f ∈ ts_given s' → CbHeartbeatTimeout f ∈ ts_given s ∨ f = HeartbeatTimedOut) →
  timers_ok b st fl s → timers_ok b st fl s'.
Proof.
  intros Hown Hreq Hg Hok. split.
  - intros c E. destruct (tm_own _ _ _ _ Hok c E) as (? & ? & ? & ? & ? & ?).
    destruct (Hown c (heartbeatTimer c) E) as [Ha ->]; [by left|].
    destruct (Hown c (heartbeatTimeout c) E) as [Ha' ->]; [by right|].
    split_and!; auto.
  - intros id r Hr. destruct (Hreq id r Hr) as [Ha ->]. destruct (tm_flight _ _ _ _ Hok id r Hr). auto.
  - intros f [Hf| ->]%Hg; [by apply (tm_given _ _ _ _ Hok)|done].
Qed.

Lemma timers_ok_weaken b st fl s : timers_ok true st fl s → timers_ok b st fl s.
Proof.
  intros [Hown Hfl Hg]. split; [|done..]. intros c E.
  destruct (Hown c E) as (? & ? & ? & ? & [?|[? _]] & ?); [|done]. split_and!; auto.
Qed.

(** ** What is done to the timers *)

Lemma tk_extend b c fl s e :
  timers_ok b (ConnectedState c) fl s →
  timers_ok b (ConnectedState c) fl (ts_expires (heartbeatTimeout c) e s).
Proof.
  intros Hok. split.
  - intros c' [= <-]. destruct (tm_own _ _ _ _ Hok c eq_refl) as (? & ? & ? & ? & ? & ?).
    timer_laws. split_and!; auto.
  - intros id r Hr. destruct (request_timer_own _ _ _ _ _ _ Hok Hr).
    timer_laws. by apply (tm_flight _ _ _ _ Hok).
  - intros f. timer_laws. apply (tm_given _ _ _ _ Hok).
Qed.

Lemma tk_rearm b c fl s e :
  timers_ok b (ConnectedState c) fl s →
  timers_ok true (ConnectedState c) fl
    (ts_async_wait (heartbeatTimer c) CbHeartbeatTick (ts_expires (heartbeatTimer c) e s)).
Proof.
  intros Hok. split.
  - intros c' [= <-]. destruct (tm_own _ _ _ _ Hok c eq_refl) as (? & ? & ? & ? & _ & ?).
    timer_laws. split_and!; auto.
  - intros id r Hr. destruct (request_timer_own _ _ _ _ _ _ Hok Hr).
    timer_laws. by apply (tm_flight _ _ _ _ Hok).
  - intros f. timer_laws. intros [?|Hf]%elem_of_cons; [done|].
    by apply (tm_given _ _ _ _ Hok).
Qed.

Lemma tk_answered b st fl s id r :
  fl !! id = Some r → (∀ c, st = ConnectedState c →
    req_timer r ≠ heartbeatTimer c ∧ req_timer r ≠ heartbeatTimeout c) →
  (∀ id' r', fl !! id' = Some r' → id' ≠ id → req_timer r' ≠ req_timer r) →
  timers_ok b st (delete id fl) s → timers_ok b st (delete id fl) (ts_destroy (req_timer r) s).
Proof.
  intros Hr Hown Hother. apply timers_ok_agree.
  - intros c t E Ht. destruct (Hown c E). assert (t ≠ req_timer r) by naive_solver.
    by timer_laws.
  - intros id' r' [Hne Hr']%lookup_delete_Some. specialize (Hother _ _ Hr' (not_eq_sym Hne)).
    by timer_laws.
  - intros f. timer_laws. by left.
Qed.

Lemma tk_delete b st fl s id : timers_ok b st fl s → timers_ok b st (delete id fl) s.
Proof. intros [? Hfl ?]. split; [done| |done]. intros id' r' [_ ?]%lookup_delete_Some. auto. Qed.

Lemma tk_erase b st fl s id r :
  fl !! id = Some r → timers_ok b st fl s →
  timers_ok b st (delete id fl) (ts_destroy (req_timer r) s).
Proof.
  intros Hr Hok. apply tk_answered; [done|..|by apply tk_delete].
  - intros c ->. by eapply request_timer_own.
  - intros id' r' Hr' Hne. by eapply (request_timer_other _ _ _ _ id' r').
Qed.

(** A new timer is none of those in use. *)
Lemma fresh_ne s t : ts_alive s t → t ≠ (ts_new s).1.
Proof. intros Ht ->. by apply ts_new_fresh in Ht. Qed.

Lemma tk_emplace b st fl s id h t :
  timers_ok b st fl s →
  timers_ok b st (<[id := {| req_handler := h; req_timer := (ts_new s).1 |}]> fl) (request_armed t id s).
Proof.
  intros Hok.
  assert (∀ u, ts_alive s u → ts_alive (request_armed t id s) u ∧
    ts_waiting (request_armed t id s) u = ts_waiting s u) as Hold.
  { intros u Hu. pose proof (fresh_ne _ _ Hu). unfold request_armed.
    timer_laws. auto. }
  assert (∀ f, CbHeartbeatTimeout f ∈ ts_given (request_armed t id s) → f = HeartbeatTimedOut) as Hgiven.
  { intros f. unfold request_armed. timer_laws.
    intros [?|Hf]%elem_of_cons; [done|]. by apply (tm_given _ _ _ _ Hok). }
  split; [| |exact Hgiven].
  - intros c E. destruct (tm_own _ _ _ _ Hok c E) as (? & ? & Ha & Ha' & ? & ?).
    destruct (Hold _ Ha) as [? ->], (Hold _ Ha') as [? ->]. split_and!; auto.
  - intros id' r' [[<- <-]|[_ Hr']]%lookup_insert_Some.
    + cbn [req_timer]. unfold request_armed. timer_laws. auto.
    + destruct (tm_flight _ _ _ _ Hok id' r' Hr') as [Ha Hw]. by destruct (Hold _ Ha) as [? ->].
Qed.

(** The connection's own timers go; those of the requests stay. *)
Lemma tk_inited b st fl s : timers_ok b st fl s → timers_ok true InitedState fl (destroy_own st s).
Proof.
  intros Hok. destruct st as [|c]; [by split; [|apply (tm_flight _ _ _ _ Hok)|apply (tm_given _ _ _ _ Hok)]|].
  split; [done|..].
  - intros id r Hr. destruct (request_timer_own _ _ _ _ _ _ Hok Hr).
    cbn [destroy_own]. timer_laws.
    destruct (tm_flight _ _ _ _ Hok id r Hr). auto.
  - intros f. cbn [destroy_own]. timer_laws. apply (tm_given _ _ _ _ Hok).
Qed.

(** The two timers of a new connection, and those that were there before. *)
Lemma armed_new n w :
  let t1 := (ts_new (w_timers w)).1 in
  let t2 := (ts_new (ts_new (w_timers w)).2).1 in
  t1 ≠ t2 ∧ ts_alive (armed n w) t1 ∧ ts_alive (armed n w) t2 ∧
  ts_waiting (armed n w) t1 = [CbHeartbeatTick] ∧
  ts_waiting (armed n w) t2 = [CbHeartbeatTimeout HeartbeatTimedOut].
Proof.
  intros t1 t2. assert (t1 ≠ t2) as Hne.
  { apply fresh_ne. apply ts_new_alive. by left. }
  unfold armed. fold t1. fold t2. timer_laws. split_and!; auto.
Qed.

Lemma armed_old n w t :
  ts_alive (w_timers w) t →
  t ≠ (ts_new (w_timers w)).1 ∧ t ≠ (ts_new (ts_new (w_timers w)).2).1 ∧
  ts_alive (armed n w) t ∧ ts_waiting (armed n w) t = ts_waiting (w_timers w) t.
Proof.
  intros Ht. pose proof (fresh_ne _ _ Ht). assert (t ≠ (ts_new (ts_new (w_timers w)).2).1).
  { apply fresh_ne. apply ts_new_alive. by right. }
  unfold armed. timer_laws. split_and!; auto.
Qed.

Lemma armed_given n w f :
  CbHeartbeatTimeout f ∈ ts_given (armed n w) →
  CbHeartbeatTimeout f ∈ ts_given (w_timers w) ∨ f = HeartbeatTimedOut.
Proof.
  unfold armed. timer_laws. rewrite !elem_of_cons. intros [[= ->]|[?|?]]; [by right|done|by left].
Qed.

Lemma tk_connected n s d fl w :
  timers_ok true (st_val (w_state w)) fl (w_timers w) →
  timers_ok true (ConnectedState (connected_with n s d w)) fl (destroy_own (st_val (w_state w)) (armed n w)).
Proof.
  intros Hok. destruct (armed_new n w) as (Hne & Ha1 & Ha2 & Hw1 & Hw2).
  assert (∀ t, (∀ c, st_val (w_state w) = ConnectedState c → t ≠ heartbeatTimer c ∧ t ≠ heartbeatTimeout c) →
    (ts_alive (destroy_own (st_val (w_state w)) (armed n w)) t ↔ ts_alive (armed n w) t) ∧
    ts_waiting (destroy_own (st_val (w_state w)) (armed n w)) t = ts_waiting (armed n w) t) as Hdestroy.
  { intros t Ht. destruct (st_val (w_state w)) as [|c]; [done|]. destruct (Ht c eq_refl).
    cbn [destroy_own]. timer_laws. naive_solver. }
  assert (∀ t c, t = (ts_new (w_timers w)).1 ∨ t = (ts_new (ts_new (w_timers w)).2).1 →
    st_val (w_state w) = ConnectedState c → t ≠ heartbeatTimer c ∧ t ≠ heartbeatTimeout c) as Hnew.
  { intros t c Ht E. destruct (tm_own _ _ _ _ Hok c E) as (_ & _ & Hb & Hb' & _).
    destruct (armed_old n w _ Hb) as (? & ? & _), (armed_old n w _ Hb') as (? & ? & _). naive_solver. }
  split.
  - intros c [= <-]. cbn [connected_with heartbeatTimer heartbeatTimeout heartbeatTick].
    destruct (Hdestroy (ts_new (w_timers w)).1) as [-> ->]; [intros; eapply Hnew; eauto|].
    destruct (Hdestroy (ts_new (ts_new (w_timers w)).2).1) as [-> ->]; [intros; eapply Hnew; eauto|].
    split_and!; auto.
  - intros id r Hr. destruct (tm_flight _ _ _ _ Hok id r Hr) as [Ha Hw].
    destruct (Hdestroy (req_timer r)) as [-> ->].
    { intros c E. rewrite E in Hok. by eapply request_timer_own. }
    destruct (armed_old n w _ Ha) as (_ & _ & ? & ->). auto.
  - intros f Hf. assert (CbHeartbeatTimeout f ∈ ts_given (armed n w)) as [Hf'| ->]%armed_given; [|by apply (tm_given _ _ _ _ Hok)|done].
    destruct (st_val (w_state w)); [done|]. revert Hf. cbn [destroy_own]. by timer_laws.
Qed.

(** ** The operations of the connection *)

Definition timed_as (b : bool) (w : World) : Prop :=
  timers_ok b (st_val (w_state w)) (w_inFlight w) (w_timers w).

(** On the worker thread, between two operations. *)
Definition kept_as (b : bool) (w : World) : Prop :=
  timed_as b w ∧ st_locked (w_state w) = false ∧ w_thread w = WorkerThread ∧
  w_workerThreadId w = Some WorkerThread.
Abbreviation keeping := (kept_as true).

Lemma kept_as_frame b w w1 :
  st_val (w_state w1) = st_val (w_state w) → st_locked (w_state w1) = st_locked (w_state w) →
  w_inFlight w1 = w_inFlight w → w_timers w1 = w_timers w → w_thread w1 = w_thread w →
  w_workerThreadId w1 = w_workerThreadId w → kept_as b w → kept_as b w1.
Proof. unfold kept_as, timed_as. by intros -> -> -> -> -> ->. Qed.

Lemma keeping_zoom {A} (m : M ConnIO A) : runs keeping (λ _, True) (zoom (W := World) m).
Proof. intros w Hw. unfold zoom. by destruct (m _). Qed.

Lemma keeping_inited ev msg w : keeping w → keeping (announce ev msg (to_inited w)).
Proof.
  intros (Hok & ? & ? & ?). rewrite announce_fields. split_and!; try done.
  exact (tk_inited _ _ _ _ Hok).
Qed.

Lemma keeping_error ec : runs keeping (λ _, True) (Connection_ConnectionError ec).
Proof.
  intros w Hw. rewrite ConnectionError_spec by apply Hw. destruct (IsConnected _); [|done].
  by apply (kept_as_frame true (announce EventConnectionError (ec_message ec) (to_inited w))), keeping_inited.
Qed.


Lemma SendPacket_Ret p h w : ∃ io, zoom (W := World) (SendPacket p h) w = Ret tt (set_io io w).
Proof.
  unfold zoom. change (view w) with (w_io w). pose proof (SendPacket_spec p h (w_io w)) as E.
  cbv zeta in E. case_decide; rewrite E; by eexists.
Qed.

(** A tick arms the next one, whether its own wait is still pending or has completed. *)
Lemma ends_tick b ec w :
  ec_failed ec = false → kept_as b w → ends keeping (λ _, True) (HeartbeatTick call_fn ec w).
Proof.
  intros Hec (Hok & Hl & Ht & Hwk). unfold timed_as in Hok. unfold HeartbeatTick. rewrite Hec.
  rewrite (bind_Ret _ _ _ _ _ (get_state_Ret w)).
  destruct (st_val (w_state w)) as [|c] eqn:E.
  - split; [|done]. unfold timed_as. rewrite E. destruct Hok. by split.
  - destruct (tm_own _ _ _ _ Hok c eq_refl) as [-> _]. cbn [call_fn].
    destruct (SendPacket_Ret NewHeartbeat HeartbeatSent w) as [io Eio]. run Eio.
    rewrite (bind_Ret _ _ _ _ _ (timer_op_Ret _ _)), timer_op_Ret.
    split; [|done]. unfold timed_as. cbn [w_state w_inFlight w_timers set_io set_timers]. rewrite E.
    exact (tk_rearm _ _ _ _ _ Hok).
Qed.

#[export] Instance framed_keeping : Framed keeping (λ _, True).
Proof.
  split; try done.
  - by intros w (_ & _ & -> & ->).
  - intros h s d w Hw. exact Hw.
  - intros id h t w Hid (Hok & Hw). unfold inFlight_emplace.
    rewrite (bind_Ret (Request_new h t id) _ w {| req_handler := h; req_timer := (ts_new (w_timers w)).1 |}
             (set_timers (request_armed t id (w_timers w)) w)) by done.
    rewrite (bind_Ret get _ _ _ _ eq_refl). cbn [w_inFlight set_timers]. rewrite Hid.
    split; [exact (tk_emplace _ _ _ _ _ _ _ Hok)|exact Hw].
  - intros id. apply runs_get_then. intros w (Hok & Hw). destruct (_ !! id) as [r|] eqn:Hr; [|done].
    split; [exact (tk_erase _ _ _ _ _ _ Hr Hok)|exact Hw].
  - intros ec w Hw. destruct (ec_failed ec) eqn:Hec; [|by eapply ends_tick].
    unfold HeartbeatTick. by rewrite Hec.
  - intros w (Hok & Hw). unfold ExtendHeartbeatTimeout. rewrite (bind_Ret _ _ _ _ _ (get_state_Ret w)).
    unfold timed_as in Hok. destruct (st_val (w_state w)) as [|c] eqn:E.
    + split; [|exact Hw]. unfold timed_as. by rewrite E.
    + split; [|exact Hw]. unfold timed_as. cbn. rewrite E. exact (tk_extend _ _ _ _ _ Hok).
  - intros ec w Hw. rewrite HandshakeFailed_spec by apply Hw. by apply keeping_inited.
  - apply keeping_error.
  - intros w Hw. rewrite KickedFromServer_spec by apply Hw. destruct (IsConnected _); [|done].
    by apply (kept_as_frame true (announce EventKicked "Kicked from server" (to_inited w))), keeping_inited.
  - intros p t m h _. apply keeping_zoom.
  - apply keeping_zoom.
  - intros id. apply keeping_zoom.
Qed.

#[export] Instance sending_keeping : Sending keeping (λ _, True).
Proof.
  apply sending_any; [intros; apply keeping_zoom..|].
  intros n s d. apply runs_bind; [|intros _; apply keeping_zoom]. intros w (Hok & Hl & Hw).
  rewrite connect_ends by done. destruct (fits_i64 _); [|done]. rewrite announce_fields.
  split; [exact (tk_connected _ _ _ _ _ Hok)|by split].
Qed.

#[export] Instance stepped_keeping : Stepped keeping.
Proof. split; [apply _|apply _|by intros ? ?..|intros; apply keeping_zoom]. Qed.

(** ** A timer fires *)

Lemma fire_waiting s t h ec s' u :
  ts_fire s t h ec s' → (length (ts_waiting s u) ≤ 1)%nat →
  ts_waiting s' u = ts_waiting s u ∨ ts_waiting s u = [h] ∧ ts_waiting s' u = [].
Proof.
  intros Hf Hl. destruct (decide (u = t)) as [->|Hne]; [|left; by eapply ts_fire_other].
  destruct (ts_fire_waiting _ _ _ _ _ Hf) as [Hp|]; [right|by left].
  pose proof (Permutation_length Hp) as Hlen. simpl in Hlen.
  destruct (ts_waiting s' t) as [|]; simpl in *; [|lia].
  by apply Permutation_sym, Permutation_singleton_l in Hp.
Qed.

(** Which waits the completion of [cb] can have used up. *)
Lemma tk_fire st fl s t cb ec s' :
  timers_ok true st fl s → ts_fire s t cb ec s' →
  match cb with
  | CbHeartbeatTick => timers_ok false st fl s'
  | CbHeartbeatTimeout _ => timers_ok true st fl s'
  | CbRequestTimeout id => timers_ok true st (delete id fl) s'
  end.
Proof.
  intros Hok Hf.
  assert (∀ f, CbHeartbeatTimeout f ∈ ts_given s' → f = HeartbeatTimedOut) as Hgiven.
  { intros f. destruct (ts_fire_given _ _ _ _ _ Hf) as [_ ->]. apply (tm_given _ _ _ _ Hok). }
  assert (∀ u, ts_alive s u → ts_alive s' u) as Halive.
  { intros u. by rewrite (ts_fire_alive _ _ _ _ _ u Hf). }
  assert (∀ c, st = ConnectedState c →
    heartbeatTick c = SendHeartbeat ∧ heartbeatTimer c ≠ heartbeatTimeout c ∧
    ts_alive s' (heartbeatTimer c) ∧ ts_alive s' (heartbeatTimeout c) ∧
    (ts_waiting s' (heartbeatTimer c) = [CbHeartbeatTick] ∨
     cb = CbHeartbeatTick ∧ ts_waiting s' (heartbeatTimer c) = []) ∧
    (ts_waiting s' (heartbeatTimeout c) = [] ∨
     ts_waiting s' (heartbeatTimeout c) = [CbHeartbeatTimeout HeartbeatTimedOut])) as Hown.
  { intros c E. destruct (tm_own _ _ _ _ Hok c E) as (? & ? & ? & ? & Ht & Ho).
    pose proof (fire_waiting _ _ _ _ _ (heartbeatTimer c) Hf) as Ht'.
    pose proof (fire_waiting _ _ _ _ _ (heartbeatTimeout c) Hf) as Ho'.
    split_and!; auto.
    - destruct Ht as [Ht|[]]; [|done]. rewrite Ht in Ht'. destruct Ht' as [->|[[= <-] ->]]; auto.
    - destruct Ho as [Ho|Ho]; rewrite Ho in Ho'; simpl in Ho'; destruct Ho' as [->|[_ ->]]; auto. }
  assert (∀ id r, fl !! id = Some r → cb ≠ CbRequestTimeout id →
    ts_alive s' (req_timer r) ∧ ts_waiting s' (req_timer r) = [CbRequestTimeout id]) as Hflight.
  { intros id r Hr Hne. destruct (tm_flight _ _ _ _ Hok id r Hr) as [Ha Hw]. split; [auto|].
    pose proof (fire_waiting _ _ _ _ _ (req_timer r) Hf) as Hw'. rewrite Hw in Hw'.
    destruct Hw' as [->|[[= <-] _]]; [simpl; lia|done|done]. }
  destruct cb as [|f|id]; split; try done.
  - intros c E. destruct (Hown c E) as (? & ? & ? & ? & Ht & ?). split_and!; auto. naive_solver.
  - intros id r Hr. by apply Hflight.
  - intros c E. destruct (Hown c E) as (? & ? & ? & ? & Ht & ?). split_and!; auto. naive_solver.
  - intros id r Hr. by apply Hflight.
  - intros c E. destruct (Hown c E) as (? & ? & ? & ? & Ht & ?). split_and!; auto. naive_solver.
  - intros id' r [Hne Hr]%lookup_delete_Some. apply Hflight; [done|congruence].
Qed.

Lemma tk_fire_failed b st fl s t cb ec s' :
  timers_ok b st fl s → ts_fire s t cb ec s' → ec_failed ec = true → timers_ok b st fl s'.
Proof.
  intros Hok Hf Hec.
  assert (∀ u, (ts_alive s u → ts_alive s' u) ∧ ts_waiting s' u = ts_waiting s u) as Hsame.
  { intros u. rewrite (ts_fire_alive _ _ _ _ _ u Hf). split; [done|].
    destruct (decide (u = t)) as [->|]; [by eapply ts_fire_failed|by eapply ts_fire_other]. }
  revert Hok. apply timers_ok_agree; [intros; apply Hsame..|].
  intros f. destruct (ts_fire_given _ _ _ _ _ Hf) as [_ ->]. by left.
Qed.

Lemma ends_fire t cb ec s w :
  keeping (set_thread WorkerThread w) → ts_fire (w_timers w) t cb ec s →
  ends keeping (λ _, True) (action (LTimer t cb ec s) w).
Proof.
  intros (Hok & Hw) Hf. change (timers_ok true (st_val (w_state w)) (w_inFlight w) (w_timers w)) in Hok.
  cbn [action]. unfold on_thread.
  do 2 rewrite (bind_Ret (modify _) _ _ _ _ eq_refl).
  destruct (ec_failed ec) eqn:Hec.
  { apply (runs_call_timer keeping _); [intros f _; apply (runs_call_fn keeping _)|].
    split; [exact (tk_fire_failed _ _ _ _ _ _ _ _ Hok Hf Hec)|exact Hw]. }
  pose proof (tk_fire _ _ _ _ _ _ _ Hok Hf) as Hfire. destruct cb as [|f|id].
  - apply (ends_tick false); [done|]. split; [exact Hfire|exact Hw].
  - apply (runs_call_timer keeping _); [intros ? _; apply (runs_call_fn keeping _)|].
    split; [exact Hfire|exact Hw].
  - cbn [call_timer]. rewrite RequestTimeout_Ret, Hec. cbn [w_inFlight set_timers set_thread].
    destruct (w_inFlight w !! id) as [r|] eqn:Hr.
    + split; [|exact Hw]. apply (tk_answered _ _ _ _ id r); [exact Hr|..|exact Hfire].
      * intros c E. change (st_val (w_state w) = ConnectedState c) in E. rewrite E in Hok. exact (request_timer_own _ _ _ _ _ _ Hok Hr).
      * intros id' r' Hr' Hne. exact (request_timer_other _ _ _ _ _ _ _ _ Hok Hr' Hr Hne).
    + split; [|exact Hw]. unfold timed_as. cbn. rewrite delete_id in Hfire by done. exact Hfire.
Qed.

(** ** Every execution *)

(** Between two steps. *)
Definition timed (w : World) : Prop :=
  timed_as true w ∧ st_locked (w_state w) = false ∧ w_workerThreadId w = Some WorkerThread.

Lemma timed_client w l w' :
  is_client l = true → action l w = Ret tt w' → timed w → timed w'.
Proof.
  intros Hc E Hw. destruct l as [address|l'|r d t h| | | | | |]; try done.
  - by apply start_Ret in E as [->|[op ->]].
  - by injection E as <-.
  - by injection E as <-.
Qed.

Lemma timed_steps ls w : ordinary ls → steps initial ls w → timed w.
Proof.
  revert ls w. apply ordinary_ind.
  - split; [|done]. split; [done|done|]. intros f. change (w_timers initial) with ts_empty.
    rewrite ts_given_empty. by intros ?%not_elem_of_nil.
  - done.
  - intros ls l w1 w2 _ _ Hen Hok E (Hw & Hl & Hwk).
    destruct (is_client l) eqn:Hc; [by apply (timed_client w1 l)|].
    assert (keeping (set_thread WorkerThread w1)) as Hwt by by split_and!.
    assert (keeping (taken w1 l)) as Htk by by destruct l.
    assert (ends keeping (λ _, True) (action l w1)) as He.
    { apply (ends_worker_step keeping); [done..| |].
      - intros i ec data ->. destruct Hen as (_ & op & Hi & _). take_item Hi.
        by apply (runs_any_receive keeping).
      - intros t cb ec s ->. by apply ends_fire. }
    rewrite E in He. destruct He as (? & ? & _ & ?). by split.
Qed.

(** C8: no request in flight is forgotten, whatever the server does or does not do: in every
    execution its timeout, and only that, is pending on its own timer; and when the timer
    fires, the step calls its handler with Timeout and takes it, and no other request, out of
    the map. *)
Theorem requests_time_out ls w id r :
  ordinary ls → steps initial ls w → w_inFlight w !! id = Some r →
  ts_alive (w_timers w) (req_timer r) ∧
  ts_waiting (w_timers w) (req_timer r) = [CbRequestTimeout id] ∧
  ∀ ec s, ec_failed ec = false → ts_fire (w_timers w) (req_timer r) (CbRequestTimeout id) ec s →
    ∃ w', step w (LTimer (req_timer r) (CbRequestTimeout id) ec s) w' ∧
      w_trace w' = w_trace w ++ [HandlerCalled (req_handler r) StatusTimeout []] ∧
      w_inFlight w' = delete id (w_inFlight w) ∧
      ∀ id' r', id' ≠ id → w_inFlight w !! id' = Some r' →
        ts_waiting (w_timers w') (req_timer r') = [CbRequestTimeout id'].
Proof.
  intros Hord Hs Hr. destruct (timed_steps ls w Hord Hs) as (Hok & _ & _).
  destruct (tm_flight _ _ _ _ Hok id r Hr) as [Ha Hw]. split_and!; [done..|].
  intros ec s Hec Hf.
  assert (∃ w', action (LTimer (req_timer r) (CbRequestTimeout id) ec s) w = Ret tt w' ∧
    w' = answered id r StatusTimeout [] (set_timers s (set_thread WorkerThread w))) as (w' & E & Hw').
  { eexists. split; [|done]. cbn [action]. unfold on_thread.
    do 2 rewrite (bind_Ret (modify _) _ _ _ _ eq_refl).
    cbn [call_timer]. rewrite RequestTimeout_Ret, Hec. cbn [w_inFlight set_timers set_thread].
    by rewrite Hr. }
  assert (step w (LTimer (req_timer r) (CbRequestTimeout id) ec s) w') as Hstep by by apply step_return.
  exists w'. split; [done|]. subst w'. split_and!; [done..|].
  intros id' r' Hne Hr'. pose proof (request_timer_other _ _ _ _ _ _ _ _ Hok Hr' Hr Hne).
  destruct (tm_flight _ _ _ _ Hok id' r' Hr') as [_ Hw']. cbn [answered w_timers set_inFlight set_timers].
  timer_laws. by rewrite (ts_fire_other _ _ _ _ _ _ Hf).
Qed.

(** C16: the heart of an established connection beats: in every execution its next tick is
    pending; when the tick fires, the step hands one heartbeat packet to the stream, if the
    queue has room, and the tick after that is pending. *)
Theorem heartbeat_beats ls w c :
  ordinary ls → steps initial ls w → st_val (w_state w) = ConnectedState c →
  ts_waiting (w_timers w) (heartbeatTimer c) = [CbHeartbeatTick] ∧
  ∀ ec s, ec_failed ec = false → ts_fire (w_timers w) (heartbeatTimer c) CbHeartbeatTick ec s →
    ∃ w', step w (LTimer (heartbeatTimer c) CbHeartbeatTick ec s) w' ∧
      w_state w' = w_state w ∧
      ts_waiting (w_timers w') (heartbeatTimer c) = [CbHeartbeatTick] ∧
      packetSendQueue (io_stream (w_io w')) =
        packetSendQueue (io_stream (w_io w)) ++
          if decide (length (packetSendQueue (io_stream (w_io w))) < 50)%nat then [NewHeartbeat] else [].
Proof.
  intros Hord Hs Hc. destruct (timed_steps ls w Hord Hs) as (Hok & _ & _).
  destruct (tm_own _ _ _ _ Hok c Hc) as (Hsend & _ & _ & _ & [Hw|[]] & _); [|done].
  split; [done|]. intros ec s Hec Hf.
  set (w1 := set_timers s (set_thread WorkerThread w)).
  assert (∃ io, zoom (W := World) (SendPacket NewHeartbeat HeartbeatSent) w1 = Ret tt (set_io io w1) ∧
    packetSendQueue (io_stream io) = packetSendQueue (io_stream (w_io w)) ++
      if decide (length (packetSendQueue (io_stream (w_io w))) < 50)%nat then [NewHeartbeat] else [])
    as (io & Eio & Hq).
  { unfold zoom. change (view w1) with (w_io w). pose proof (SendPacket_spec NewHeartbeat HeartbeatSent (w_io w)) as E.
    cbv zeta in E. case_decide; rewrite E; eexists; (split; [done|]); [done|by rewrite app_nil_r]. }
  assert (∃ w', action (LTimer (heartbeatTimer c) CbHeartbeatTick ec s) w = Ret tt w' ∧
    w' = set_timers (ts_async_wait (heartbeatTimer c) CbHeartbeatTick
           (ts_expires (heartbeatTimer c) (ExpiresAfter (heartbeatInterval c)) s)) (set_io io w1))
    as (w' & E & Hw').
  { eexists. split; [|done]. cbn [action]. unfold on_thread.
    do 2 rewrite (bind_Ret (modify _) _ _ _ _ eq_refl). fold w1. cbn [call_timer].
    unfold HeartbeatTick. rewrite Hec, (bind_Ret _ _ _ _ _ (get_state_Ret w1)).
    change (w_state w1) with (w_state w). rewrite Hc, Hsend. cbn [call_fn]. run Eio.
    by rewrite (bind_Ret _ _ _ _ _ (timer_op_Ret _ _)). }
  exists w'. split; [by apply step_return|]. subst w'. split_and!; [done| |done].
  cbn [w_timers set_timers]. by timer_laws.
Qed.
End timers.
