(* ===== verification/Heartbeat.v ===== *)
(** * Heartbeats and the handshake response

    The two timers of an established connection, over any service that follows
    [TimerService]; and the handshake response as a function of its text. *)

From S2P Require Import Prelude Outcome Net Errors Events Gzip Message Packet ReadBuffer.
From S2P Require Import TcpPacketStream ConnState Json Connection Client System Stream Receive Flow Frame.
From S2P Require Import Handlers Invariants Safety Lifecycle.

Section heartbeat.
Context `{BuildMode, BoostMessages, Zlib, Allocator, RapidJson, Resolver, DecompressFuel}.
Context `{!TimerService ConnTimerCb, !UnorderedIteration}.

(** The timers a state owns. *)
Definition own_timers (st : StateType HeartbeatFn) : list nat :=
  match st with
  | InitedState => []
  | ConnectedState c => [heartbeatTimer c; heartbeatTimeout c]
  end.

Lemma armed_timers n w :
  let t1 := (ts_new (w_timers w)).1 in
  let t2 := (ts_new (ts_new (w_timers w)).2).1 in
  t1 ≠ t2 ∧ ¬ ts_alive (w_timers w) t1 ∧ ¬ ts_alive (w_timers w) t2 ∧
  ts_waiting (armed n w) t1 = [CbHeartbeatTick] ∧
  ts_waiting (armed n w) t2 = [CbHeartbeatTimeout HeartbeatTimedOut] ∧
  ∀ t, ts_alive (w_timers w) t → ts_waiting (armed n w) t = ts_waiting (w_timers w) t.
Proof.
  intros t1 t2.
  assert (t1 ≠ t2) as Hne.
  { intros E. apply (ts_new_fresh (ts_new (w_timers w)).2). fold t2. rewrite <- E.
    apply ts_new_alive. by left. }
  assert (¬ ts_alive (w_timers w) t1) as Hf1 by apply ts_new_fresh.
  assert (¬ ts_alive (w_timers w) t2) as Hf2.
  { intros E. apply (ts_new_fresh (ts_new (w_timers w)).2). fold t2. apply ts_new_alive. by right. }
  unfold armed. fold t1 t2. split_and!; [done..| | |].
  - by rewrite ts_async_wait_waiting, decide_False, ts_expires_waiting, decide_False,
      ts_async_wait_waiting, decide_True, ts_expires_waiting, decide_True by done.
  - by rewrite ts_async_wait_waiting, decide_True, ts_expires_waiting, decide_True by done.
  - intros t Ht. assert (t ≠ t1) by (by intros ->). assert (t ≠ t2) by (by intros ->).
    by rewrite ts_async_wait_waiting, decide_False, ts_expires_waiting, decide_False,
      ts_async_wait_waiting, decide_False, ts_expires_waiting, decide_False,
      !ts_new_waiting, !decide_False by done.
Qed.

Lemma destroy_own_waiting st ts t :
  ts_waiting (destroy_own st ts) t = if decide (t ∈ own_timers st) then [] else ts_waiting ts t.
Proof.
  destruct st as [|c]; [done|]. cbn [own_timers destroy_own].
  rewrite !ts_destroy_waiting. repeat case_decide; set_solver.
Qed.

(** C29: when the handshake ends, two new timers are armed: the first has exactly one wait, for
    the next heartbeat, the second exactly one, for the timeout; the timers of an earlier
    connection are gone with their waits, all the others are as they were. The interval is
    the one the server sent, and the timeout three times that; a product that does not fit is
    undefined. *)
Theorem SetConnected_spec n s d w :
  Forall (ts_alive (w_timers w)) (own_timers (st_val (w_state w))) →
  if fits_i64 (n * kHeartbeatFactor) then
    ∃ c ts, SetConnected n s d SendHeartbeat HeartbeatTimedOut w =
        Ret tt (set_state {| st_locked := st_locked (w_state w); st_val := ConnectedState c |}
                  (set_timers ts w)) ∧
      heartbeatInterval c = n ∧ heartbeatTimeoutSeconds c = 3 * n ∧
      routeToCode c = d ∧ codeToRoute c = make_codeToRoute d ∧
      heartbeatTimer c ≠ heartbeatTimeout c ∧
      ¬ ts_alive (w_timers w) (heartbeatTimer c) ∧ ¬ ts_alive (w_timers w) (heartbeatTimeout c) ∧
      ts_waiting ts (heartbeatTimer c) = [CbHeartbeatTick] ∧
      ts_waiting ts (heartbeatTimeout c) = [CbHeartbeatTimeout HeartbeatTimedOut] ∧
      ∀ t, ts_alive (w_timers w) t →
        ts_waiting ts t = if decide (t ∈ own_timers (st_val (w_state w))) then []
                          else ts_waiting (w_timers w) t
  else SetConnected n s d SendHeartbeat HeartbeatTimedOut w =
    Crash (UndefinedBehaviour "signed overflow of heartbeatInterval * kHeartbeatFactor").
Proof.
  intros Halive. destruct (fits_i64 _) eqn:Hfits; [|by unfold SetConnected; rewrite Hfits].
  destruct (armed_timers n w) as (Hne & Hf1 & Hf2 & Hw1 & Hw2 & Hother).
  assert (∀ t, ¬ ts_alive (w_timers w) t → t ∉ own_timers (st_val (w_state w))) as Hnotown.
  { intros t Ht Hin. rewrite Forall_forall in Halive. by apply Ht, Halive. }
  exists (connected_with n s d w), (destroy_own (st_val (w_state w)) (armed n w)).
  split_and!; try done.
  - by apply SetConnected_eq.
  - simpl. unfold kHeartbeatFactor. lia.
  - by rewrite destroy_own_waiting, decide_False by by apply Hnotown.
  - by rewrite destroy_own_waiting, decide_False by by apply Hnotown.
  - intros t Ht. rewrite destroy_own_waiting. case_decide; [done|]. by apply Hother.
Qed.

(** ** The heartbeat of the server *)

(** A heartbeat of the server changes only the timer of the timeout, and leaves it with no
    wait: the source sets the new expiry, which cancels the wait of the old one, and starts
    no new wait. *)
Lemma ExtendHeartbeatTimeout_disarms w c :
  st_val (w_state w) = ConnectedState c →
  ∃ ts, Connection_ProcessPacket NewHeartbeat w = Ret tt (set_timers ts w) ∧
    ts_waiting ts (heartbeatTimeout c) = [] ∧
    ∀ t, t ≠ heartbeatTimeout c → ts_waiting ts t = ts_waiting (w_timers w) t.
Proof.
  intros Hc. exists (ts_expires (heartbeatTimeout c)
    (ExpiresAtNowPlus (heartbeatTimeoutSeconds c)) (w_timers w)). split_and!.
  - unfold Connection_ProcessPacket, ExtendHeartbeatTimeout. cbn [pkt_type NewHeartbeat].
    rewrite (bind_Ret _ _ _ _ _ (get_state_Ret _)), Hc. done.
  - by rewrite ts_expires_waiting, decide_True.
  - intros t Ht. by rewrite ts_expires_waiting, decide_False.
Qed.

(** A tick of the heartbeat timer hands one Heartbeat to the stream and arms the timer
    again, with exactly one wait; the other timers are as they were. A tick that was
    cancelled, or that comes without a connection, does nothing. *)
Lemma HeartbeatTick_spec ec w :
  (st_val (w_state w) = InitedState ∨ ec_failed ec = true →
   call_timer CbHeartbeatTick ec w = Ret tt w) ∧
  (∀ c, st_val (w_state w) = ConnectedState c → heartbeatTick c = SendHeartbeat →
   ec_failed ec = false →
   ∃ io ts, SendPacket NewHeartbeat HeartbeatSent (w_io w) = Ret tt io ∧
     call_timer CbHeartbeatTick ec w = Ret tt (set_timers ts (set_io io w)) ∧
     ts_waiting ts (heartbeatTimer c) = [CbHeartbeatTick] ∧
     ∀ t, t ≠ heartbeatTimer c → ts_waiting ts t = ts_waiting (w_timers w) t).
Proof.
  split.
  - simpl. unfold HeartbeatTick. intros [Hst|Hec]; [|by rewrite Hec].
    destruct (ec_failed ec); [done|]. by rewrite (bind_Ret _ _ _ _ _ (get_state_Ret _)), Hst.
  - intros c Hc Htick Hec. simpl. unfold HeartbeatTick. rewrite Hec.
    rewrite (bind_Ret _ _ _ _ _ (get_state_Ret _)), Hc, Htick. cbn [call_fn].
    assert (∃ io, SendPacket NewHeartbeat HeartbeatSent (w_io w) = Ret tt io) as [io E].
    { pose proof (SendPacket_spec NewHeartbeat HeartbeatSent (w_io w)) as E. simpl in E.
      case_decide; rewrite E; by eexists. }
    assert (zoom (W := World) (SendPacket NewHeartbeat HeartbeatSent) w = Ret tt (set_io io w)) as Ez.
    { unfold zoom. change (view w) with (w_io w). by rewrite E. }
    run Ez.
    rewrite (bind_Ret _ _ _ _ _ (timer_op_Ret _ _)), timer_op_Ret.
    eexists io, _. split_and!; [done..| |].
    + simpl. by rewrite ts_async_wait_waiting, decide_True, ts_expires_waiting, decide_True.
    + intros t Ht. simpl. by rewrite ts_async_wait_waiting, decide_False, ts_expires_waiting, decide_False.
Qed.

(** ** The handshake response *)

(** What the client makes of the text of a handshake response. *)
Inductive Handshake :=
| Rejected
| NotAnObject
| Accepted (heartbeatInterval : Z) (serializer : string) (routeDict : gmap string Z).

Definition read_handshake (text : string) : Handshake :=
  match JParse (c_str text) with
  | None => Rejected
  | Some doc =>
    if negb (JIsObject doc) then NotAnObject else
    match JFindMember doc "sys" with
    | None => Rejected
    | Some sys =>
      if negb (JIsObject sys) then NotAnObject else
      match JFindMember sys "heartbeat" ≫= JUint64 with
      | None => Rejected
      | Some seconds =>
          Accepted (i64 seconds)
            (match JFindMember sys "serializer" ≫= JString with Some s => c_str s | None => "json" end)
            (match JFindMember sys "dict" with
             | Some v => if JIsObject v then read_dict (JMembers v) ∅ else ∅
             | None => ∅
             end)
      end
    end
  end.

Lemma HasMember_Ret v name (w : World) :
  JIsObject v = true →
  HasMember v name w = Ret (match JFindMember v name with Some _ => true | None => false end) w.
Proof. intros Hv. unfold HasMember, require_object. rewrite Hv. by destruct (JFindMember v name). Qed.

Lemma Member_Ret v name x (w : World) :
  JIsObject v = true → JFindMember v name = Some x → Member v name w = Ret x w.
Proof. intros Hv Hx. unfold Member, require_object. by rewrite Hv, Hx. Qed.

Lemma HasMember_crash v name (w : World) {A} (k : bool → M World A) :
  JIsObject v = false →
  (HasMember v name ≫= k) w =
    Crash (if ndebug then UndefinedBehaviour "member query on a JSON value that is not an object"
           else AssertFailed "IsObject()").
Proof.
  intros Hv. apply bind_Crash. unfold HasMember, require_object. rewrite Hv. by destruct ndebug.
Qed.

(** The queries, one after the other, compute [read_handshake]. *)
Lemma SendHandshakeAck_eq text w :
  Connection_SendHandshakeAck text w =
    match read_handshake text with
    | Rejected => Connection_ConnectionError (make_error_code InvalidHeartbeatJson) w
    | NotAnObject =>
        Crash (if ndebug then UndefinedBehaviour "member query on a JSON value that is not an object"
               else AssertFailed "IsObject()")
    | Accepted interval serializer routeDict =>
        zoom (W := World)
          (SendPacket NewHandshakeAck (HandshakeAckSent interval serializer routeDict)) w
    end.
Proof.
  unfold Connection_SendHandshakeAck, read_handshake.
  destruct (JParse _) as [doc|]; [|done].
  destruct (JIsObject doc) eqn:Hdoc; [cbn [negb]|by apply HasMember_crash].
  rewrite (bind_Ret _ _ _ _ _ (HasMember_Ret _ _ _ Hdoc)).
  destruct (JFindMember doc "sys") as [sys|] eqn:Hsys; [|done]. cbn [negb].
  rewrite (bind_Ret _ _ _ _ _ (Member_Ret _ _ _ w Hdoc Hsys)).
  destruct (JIsObject sys) eqn:Hobj; [cbn [negb]|by apply HasMember_crash].
  rewrite (bind_Ret _ _ _ _ _ (HasMember_Ret _ _ _ Hobj)).
  destruct (JFindMember sys "heartbeat") as [hb|] eqn:Hhb; [|done]. cbn [negb].
  rewrite (bind_Ret _ _ _ _ _ (Member_Ret _ _ _ w Hobj Hhb)).
  change (Some hb ≫= JUint64) with (JUint64 hb). destruct (JUint64 hb) as [seconds|]; [|done].
  rewrite (bind_Ret _ _ _ _ _ (HasMember_Ret _ _ _ Hobj)).
  erewrite bind_Ret.
  2:{ instantiate (1 := w). instantiate (1 := match JFindMember sys "serializer" ≫= JString with
        Some s => c_str s | None => "json"%string end).
      destruct (JFindMember sys "serializer") as [ser|] eqn:Hser; [|done]. cbn [negb].
      rewrite (bind_Ret _ _ _ _ _ (Member_Ret _ _ _ w Hobj Hser)).
      change (Some ser ≫= JString) with (JString ser). by destruct (JString ser). }
  rewrite (bind_Ret _ _ _ _ _ (HasMember_Ret _ _ _ Hobj)).
  destruct (JFindMember sys "dict") as [dict|] eqn:Hdict; [|done].
  by rewrite bind_assoc, (bind_Ret _ _ _ _ _ (Member_Ret _ _ _ w Hobj Hdict)).
Qed.

(** The routes of a response that is accepted. *)
Lemma read_handshake_routes text interval serializer routeDict :
  read_handshake text = Accepted interval serializer routeDict →
  ∃ doc sys, JParse (c_str text) = Some doc ∧ JFindMember doc "sys" = Some sys ∧
  ∀ route, routeDict !! route =
    match JFindMember sys "dict" with
    | Some v => if JIsObject v then code_of route (JMembers v) else None
    | None => None
    end.
Proof.
  unfold read_handshake. destruct (JParse _) as [doc|]; [|done].
  destruct (JIsObject doc); [|done]. cbn [negb]. destruct (JFindMember doc "sys") as [sys|] eqn:Hsys; [|done].
  destruct (JIsObject sys); [|done]. cbn [negb]. destruct (_ ≫= JUint64); [|done].
  intros [= _ _ <-]. exists doc, sys. split; [done|]. split; [done|]. intros route.
  destruct (JFindMember sys "dict") as [v|]; [|done]. destruct (JIsObject v); [|done].
  by rewrite read_dict_code, lookup_empty.
Qed.

(** C28: the queries of [SendHandshakeAck], one after the other, compute [read_handshake]. A
    response that is accepted is acknowledged, with the serializer and the routes defaulting
    to [json] and to none; the code of a route is that of the first member of [dict] with its
    name and an integer value. One that is not JSON, or has no [sys] with an unsigned [heartbeat],
    is an error of the connection: during a first handshake, when the state is [Inited], that
    changes nothing at all, so that no event is sent, the socket stays open, and no read or
    send is started. A response whose value, or whose [sys], is not an object breaks a
    precondition of the JSON library. *)
Theorem SendHandshakeAck_spec text w :
  st_locked (w_state w) = false →
  (∀ interval serializer routeDict,
    read_handshake text = Accepted interval serializer routeDict →
    ∃ doc sys, JParse (c_str text) = Some doc ∧ JFindMember doc "sys" = Some sys ∧
    ∀ route, routeDict !! route =
      match JFindMember sys "dict" with
      | Some v => if JIsObject v then code_of route (JMembers v) else None
      | None => None
      end) ∧
  Connection_SendHandshakeAck text w =
    match read_handshake text with
    | Rejected =>
        Ret tt (if IsConnected (w_state w)
                then disconnected (announce EventConnectionError
                       (ec_message (make_error_code InvalidHeartbeatJson)) (to_inited w))
                else w)
    | NotAnObject =>
        Crash (if ndebug then UndefinedBehaviour "member query on a JSON value that is not an object"
               else AssertFailed "IsObject()")
    | Accepted interval serializer routeDict =>
        zoom (W := World)
          (SendPacket NewHandshakeAck (HandshakeAckSent interval serializer routeDict)) w
    end.
Proof.
  intros Hl. split; [by apply read_handshake_routes|].
  rewrite SendHandshakeAck_eq. destruct (read_handshake text); [|done|done].
  by apply ConnectionError_spec.
Qed.
End heartbeat.
