(* ===== verification/Exceptions.v ===== *)
(** * Exceptions of the worker thread

    An exception that leaves a completion leaves [_ioContext->run()] and the worker thread
    with it, and ends the process. The file shows when that can happen, for any client, whose
    callbacks may throw, and for a socket whose [Close] may fail. *)

From S2P Require Import Prelude Outcome Net Errors Events Gzip Message Packet ReadBuffer.
From S2P Require Import TcpPacketStream ConnState Json Connection Client System.

Section exceptions.
Context `{BuildMode, BoostMessages, Zlib, Allocator, RapidJson, Resolver, DecompressFuel}.
Context `{!TimerService ConnTimerCb, !UnorderedIteration}.
Context {client : Reaction} {raising : Raising} {closing : Closing}.

Lemma no_throw_SendNextPacket h : no_throw (zoom (W := World) (SendNextPacket h)).
Proof.
  apply no_throw_zoom. unfold SendNextPacket, TcpSocket_Send.
  apply no_throw_bind; [apply no_throw_get|intros io].
  apply no_throw_bind; [apply no_throw_assert|intros _]. case_match; [apply no_throw_undefined|].
  do 3 (apply no_throw_bind; [apply no_throw_modify|intros _]).
  apply no_throw_bind; [apply no_throw_get|intros io'].
  apply no_throw_bind; [apply no_throw_assert|intros _]. apply no_throw_modify.
Qed.

Lemma throws_SendNextPacket_done id h ec n :
  throws unwinding (SendNextPacket_done (RH := ReceiveHandler) (CH := ConnectHandler) (EP := Endpoints)
                      call_send id h ec n).
Proof.
  unfold SendNextPacket_done. case_match; [apply throws_call_send|].
  apply throws_bind; [apply throws_call_send|intros _].
  apply throws_none, no_throw_zoom, no_throw_modify.
Qed.

(** The exception of the parser is caught, as is one of the library's own kind that a
    callback throws; the handler of that may throw again. *)
Lemma throws_ReadToBuffer_done h ec n :
  throws unwinding (ReadToBuffer_done (SH := SendHandler) (CH := ConnectHandler) (EP := Endpoints)
                      call_receive h ec n).
Proof.
  unfold ReadToBuffer_done. case_match; [apply throws_call_receive|].
  apply throws_bind; [apply throws_none, no_throw_assert|intros _].
  apply throws_bind; [apply throws_none, no_throw_zoom, no_throw_modify|intros _].
  apply throws_bind; [apply throws_none, no_throw_get|intros w0].
  apply throws_bind; [apply throws_none, no_throw_assert|intros _].
  apply throws_catch_pitaya; [|intros what; apply throws_call_receive]. apply throws_bind.
  - intros w e w' E. right. unfold zoom in E.
    destruct (ParsePacketsFromReadBuffer _) eqn:Ep; simplify_eq/=.
    unfold ParsePacketsFromReadBuffer in Ep. by apply parse_loop_exn in Ep.
  - intros packets. eapply throws_weaken; [by left|]. case_match; [|apply throws_call_receive].
    apply throws_none, (no_throw_ReceivePackets h).
Qed.

(** The only exception of the closure of a request that does not come from a callback. *)
Lemma PostRequest_run_Throw r w e w' :
  PostRequest_run r w = Throw e w' →
  unwinding e w' ∨
  e = StdOutOfRange ∧ ∃ c, st_val (w_state w) = ConnectedState c ∧ routeToCode c !! pr_route r = None.
Proof.
  unfold PostRequest_run. rewrite (bind_Ret _ _ _ _ _ (get_state_Ret w)). unfold IsConnected.
  destruct (st_val (w_state w)) as [|c]; cbn [negb]; [left; by eapply throws_call_back|].
  unfold mbind at 1, M_bind at 1. destruct (assert_worker w) as [[] w1|e1 w1|] eqn:E; [| |done].
  - apply pure_assert_worker in E as ->. rewrite (bind_Ret get _ _ _ _ eq_refl).
    rewrite (bind_Ret (modify _) _ _ _ _ eq_refl). cbv zeta. unfold mbind at 1, M_bind at 1.
    destruct (NewData_message _ _ _) as [packet w2|e2 w2|] eqn:E2; [| |done].
    + intros E3. exfalso. revert E3. apply no_throw_SendPacket.
    + intros [= <- _]. right. apply NewData_Throw in E2 as [-> Hr]. eauto.
  - exfalso. revert E. apply no_throw_assert_worker.
Qed.

(** C19: the exceptions that can leave a completion, and so end the process, for any client
    and any socket, are three. One is the [std::out_of_range] of a request whose route the
    server has given no code, posted on an established connection. One is the [system_error]
    of a socket that cannot be closed: [Close] was the last call of the socket, and it
    failed. One is an exception of the client's own: a callback was the last thing that was
    called, and it threw. In particular nothing the server sends, and no error code of the
    socket, makes the worker thread throw by itself. *)
Theorem completion_exceptions l w e w' :
  is_client l = false → enabled w l → action l w = Throw e w' →
  (e = StdOutOfRange ∧ ∃ i r c, l = LRunRequest i ∧ w_posted w !! i = Some r ∧
     st_val (w_state w) = ConnectedState c ∧ routeToCode c !! pr_route r = None) ∨
  close_failed e w' ∨ callback_threw e w'.
Proof.
  intros Hc Hen. change (close_failed e w' ∨ callback_threw e w') with (unwinding e w').
  destruct l as [| | |i|i|i ec nw|i ec data|i ec|t cb ec s]; try done.
  - destruct Hen as [r Hi]. take_item Hi. intros [Hu|(-> & c & Hst & Hr)]%PostRequest_run_Throw; [by right|].
    left. split; [done|]. by exists i, r, c.
  - destruct Hen as [h Hi]. take_item Hi. intros E. by apply no_throw_SendNextPacket in E.
  - destruct Hen as [op Hi]. take_item Hi. intros E. right. by eapply throws_SendNextPacket_done.
  - destruct Hen as (_ & op & Hi & _). take_item Hi. intros E. right. revert E. apply throws_bind.
    + apply throws_none, no_throw_zoom, no_throw_modify.
    + intros _. apply throws_ReadToBuffer_done.
  - destruct Hen as [op Hi]. take_item Hi. intros E. right. revert E. unfold Connect_done.
    case_match; apply throws_call_connect.
  - cbn [action]. unfold on_thread. do 2 rewrite (bind_Ret (modify _) _ _ _ _ eq_refl).
    intros E. right. by eapply throws_call_timer.
Qed.
End exceptions.
