(* ===== verification/Listening.v ===== *)
(** * An established connection listens

    In every execution: while the connection is established, the next packet is being waited
    for. So the worker thread always has work left, and the destructor of [Connection], which
    waits for that thread, does not return before the connection has ended. *)

From S2P Require Import Prelude Outcome Net Errors Events Gzip Message Packet ReadBuffer.
From S2P Require Import TcpPacketStream ConnState Json Connection Client System Stream Receive Flow Frame.
From S2P Require Import Handlers Invariants Safety Lifecycle Exceptions.

Section listening.
Context `{BuildMode, BoostMessages, Zlib, Allocator, RapidJson, Resolver, DecompressFuel}.
Context `{!TimerService ConnTimerCb, !UnorderedIteration}.

(** ** The destructor *)

(** What [_ioContext->run()] still waits for once [_work] is gone: closures that have not
    run, operations of the socket, waits of timers. *)
Definition outstanding (w : World) : Prop :=
  w_posted w ≠ [] ∨ io_posted (w_io w) ≠ [] ∨ io_sends (w_io w) ≠ [] ∨
  io_receives (w_io w) ≠ [] ∨ io_connects (w_io w) ≠ [] ∨ ∃ t, ts_waiting (w_timers w) t ≠ [].

(** [~Connection]: the thread is joined when its [run] has returned. *)
Definition Connection_destructor_returns (w : World) : Prop := ¬ outstanding w.

(** ** The invariant *)

Definition reads_packets (io : ConnIO) : Prop :=
  Exists (λ op, ro_handler op = PacketsReceived) (io_receives io).

Record attentive (w : World) : Prop := {
  at_reads : IsConnected (w_state w) = true → reads_packets (w_io w);
  at_unlocked : st_locked (w_state w) = false;
  at_worker : w_workerThreadId w = Some WorkerThread;
}.

Definition attending (w : World) : Prop := attentive w ∧ w_thread w = WorkerThread.

Lemma attentive_frame w w1 :
  w_state w1 = w_state w → (reads_packets (w_io w) → reads_packets (w_io w1)) →
  w_workerThreadId w1 = w_workerThreadId w → attentive w → attentive w1.
Proof. intros Hst Hio Hwk []. split; rewrite ?Hst, ?Hwk; auto. Qed.

(** A connection that is not established has nothing to listen to. *)
Lemma attentive_inited w :
  st_val (w_state w) = InitedState → st_locked (w_state w) = false →
  w_workerThreadId w = Some WorkerThread → attentive w.
Proof. intros Hst Hl Hwk. split; [|done..]. unfold IsConnected. by rewrite Hst. Qed.

(** The operations of the stream start reads, and end none. *)
Lemma reads_SendPacket p h : runs reads_packets (λ _, True) (SendPacket p h : M ConnIO unit).
Proof.
  apply runs_bind; [apply runs_get|intros io]. cbv zeta. case_match; [|by apply runs_modify].
  apply runs_bind; [|intros _]; by apply runs_modify.
Qed.

Lemma reads_ReceivePackets h : runs reads_packets (λ _, True) (ReceivePackets h : M ConnIO unit).
Proof.
  apply runs_bind; [apply runs_get|intros io]. apply runs_modify. intros io' Hio.
  apply Exists_app. by left.
Qed.

Lemma reads_SendNextPacket h : runs reads_packets (λ _, True) (SendNextPacket h : M ConnIO unit).
Proof.
  apply runs_bind; [apply runs_get|intros io]. apply runs_bind; [by apply runs_assert; left|intros _].
  case_match; [by apply runs_undefined|].
  do 3 (apply runs_bind; [by apply runs_modify|intros _]). apply runs_bind; [apply runs_get|intros io'].
  apply runs_bind; [by apply runs_assert; left|intros _]. by apply runs_modify.
Qed.

(** Between two operations of the worker thread, whatever is being read. *)
Abbreviation free := (locked_is on_worker false).

Lemma attending_free w : attending w → free w.
Proof. intros [[] ?]. by split. Qed.

Lemma free_inited w : free w → st_val (w_state w) = InitedState → attending w.
Proof. intros [[] ?] ?. split; [by apply attentive_inited|done]. Qed.

Lemma attending_zoom {A} (m : M ConnIO A) :
  runs reads_packets (λ _, True) m → runs attending (λ _, True) (zoom (W := World) m).
Proof.
  intros Hm w [Hw Ht]. unfold zoom. change (view w) with (w_io w).
  destruct (IsConnected (w_state w)) eqn:Hc.
  - specialize (Hm (w_io w) (at_reads _ Hw Hc)).
    destruct (m (w_io w)) as [a io|e io|]; [..|done]; (split; [by apply (attentive_frame w)|done]).
  - destruct Hw as [_ Hl Hwk].
    destruct (m (w_io w)) as [a io|e io|]; [..|done]; (split; [|done]); split; try done; simpl; congruence.
Qed.

(** The next packet is waited for. *)
Lemma listens_again w : free w → ends attending (λ _, True) (Connection_ReceivePackets w).
Proof.
  intros [[Ht Hwk] Hl]. split; [|done]. split; try done. intros _.
  apply Exists_app. right. by constructor.
Qed.

Lemma ends_error ec w : free w → ends attending (λ _, True) (Connection_ConnectionError ec w).
Proof.
  intros Hw. rewrite ConnectionError_spec by apply Hw. destruct (IsConnected (w_state w)) eqn:Hc.
  - rewrite announce_fields. destruct Hw as [[Ht Hwk] Hl]. split; [by apply attentive_inited|done].
  - destruct Hw as [[Ht Hwk] Hl]. split; [|done]. split; [congruence|done..].
Qed.

Lemma ends_inited ev msg w :
  free w → ends attending (λ _, True) (Ret tt (announce ev msg (to_inited w)) : outcome World unit).
Proof.
  intros [[Ht Hwk] Hl]. rewrite announce_fields. by apply free_inited.
Qed.

Lemma attending_modify f :
  (∀ w, w_state (f w) = w_state w) → (∀ w, w_io (f w) = w_io w) →
  (∀ w, w_workerThreadId (f w) = w_workerThreadId w) → (∀ w, w_thread (f w) = w_thread w) →
  runs attending (λ _, True) (modify f).
Proof.
  intros Hst Hio Hwk Ht. apply runs_modify. intros w [Hw Hth]. split; [|by rewrite Ht].
  apply (attentive_frame w); [done|by rewrite Hio|done..].
Qed.

Lemma ends_started n s d w :
  free w → ends attending (λ _, True) (Connection_StartReceivingPackets n s d w).
Proof.
  intros [[Ht Hwk] Hl]. unfold Connection_StartReceivingPackets.
  pose proof (connect_ends n s d "Connection successful" w Hl) as E.
  destruct (fits_i64 _); [|by rewrite (bind_Crash _ _ _ _ E)]. run E. apply listens_again. rewrite announce_fields. by split.
Qed.

#[export] Instance framed_attending : Framed attending (λ _, True).
Proof.
  split; try done.
  - intros w [[] ?]. congruence.
  - intros h s d. by apply attending_modify.
  - intros id h t w Hid Hw. unfold inFlight_emplace.
    destruct (Request_new_Ret h t id w) as (x & s & E). run E.
    rewrite (bind_Ret get _ _ _ _ eq_refl). cbn [w_inFlight set_timers]. rewrite Hid.
    destruct Hw as [Hw Ht]. split; [by apply (attentive_frame w)|done].
  - intros id. apply runs_get_then. intros w Hw. destruct (_ !! id); [|done].
    destruct Hw as [Hw Ht]. split; [by apply (attentive_frame w)|done].
  - intros ec. apply runs_any_tick; [intros f; by apply attending_modify| |].
    + apply attending_zoom, reads_SendPacket.
    + intros ec' w Hw. by apply ends_error, attending_free.
  - apply runs_any_extend. intros f. by apply attending_modify.
  - intros ec w Hw%attending_free. rewrite HandshakeFailed_spec by apply Hw. by apply ends_inited.
  - intros ec w Hw. by apply ends_error, attending_free.
  - intros w Hw. rewrite KickedFromServer_spec by apply Hw.
    destruct (IsConnected (w_state w)); [|done]. apply attending_free in Hw as [[Ht Hwk] Hl].
    rewrite announce_fields. by apply free_inited.
  - intros p t m h _. apply attending_zoom, reads_SendPacket.
  - apply attending_zoom, reads_ReceivePackets.
  - intros id. by apply attending_zoom, runs_modify.
Qed.

#[export] Instance sending_attending : Sending attending (λ _, True).
Proof.
  apply sending_any; [intros; apply attending_zoom..|].
  - apply reads_SendPacket.
  - apply reads_ReceivePackets.
  - intros n s d w Hw. by apply ends_started, attending_free.
Qed.

#[export] Instance stepped_attending : Stepped attending.
Proof.
  split; [apply _|apply _|..|intros; apply attending_zoom, reads_SendNextPacket];
    intros x w [Hw Ht]; (split; [by apply (attentive_frame w)|done]).
Qed.

(** ** A completed read *)

(** A packet, or an error: what was listened for is listened for again, or the connection is
    over. *)
Lemma ends_PacketsReceived ec packets w :
  free w → ends attending (λ _, True) (PacketsReceived_done ec packets w).
Proof.
  intros Hw. unfold PacketsReceived_done. destruct (ec_failed ec); [by apply ends_error|].
  assert (runs free (λ _, True) (cpp_assert "packets.size() == 1" (Z.of_nat (length packets) =? 1) ;;
    for_each packets Connection_ProcessPacket)) as Hm.
  { apply runs_bind; [by apply runs_assert; left|intros _]. apply runs_for_each. intros p.
    apply (runs_ProcessPacket free _). }
  assert (no_throw (cpp_assert "packets.size() == 1" (Z.of_nat (length packets) =? 1) ;;
    for_each packets Connection_ProcessPacket : M World unit)) as Hn.
  { apply no_throw_bind; [apply no_throw_assert|intros _]. apply no_throw_for_each.
    intros p. apply no_throw_ProcessPacket. }
  rewrite <- bind_assoc. apply (ends_then free); [done|by apply Hm|].
  intros [] w1. apply listens_again.
Qed.

(** What holds when a read of [h] completes: the read is no longer outstanding. *)
Definition completed (h : ReceiveHandler) (w : World) : Prop :=
  match h with PacketsReceived => free w | HandshakeResponseReceived => attending w end.

Lemma completed_io h s w : completed h w → completed h (set_io (set_stream s (w_io w)) w).
Proof.
  destruct h; simpl; [|by intros [[] ?]; split].
  intros [Hw Ht]. split; [by apply (attentive_frame w)|done].
Qed.

Lemma ends_call_receive h ec packets w :
  ec_failed ec = true ∨ packets ≠ [] → completed h w →
  ends attending (λ _, True) (call_receive h ec packets w).
Proof.
  intros Hp Hw. destruct h; simpl; [|by apply ends_PacketsReceived].
  by apply (runs_HandshakeResponseReceived_done attending _).
Qed.

Lemma ends_read_again h w :
  completed h w → ends attending (λ _, True) (zoom (W := World) (ReadToBuffer h) w).
Proof. destruct h; [apply (attending_zoom (ReceivePackets _)), reads_ReceivePackets|apply listens_again]. Qed.

Lemma attending_receive i ec data w :
  attentive w → accounts_ok w (LReceiveDone i ec data) → enabled w (LReceiveDone i ec data) →
  ends attending (λ _, True) (action (LReceiveDone i ec data) w).
Proof.
  intros Hw Hok (_ & op & Hi & _). take_item Hi.
  apply (ends_completed_read (completed (ro_handler op))); [by intros s w1 _; apply completed_io|..|].
  { intros. by apply ends_call_receive. }
  { apply ends_read_again. }
  pose proof (Hok op Hi) as Hone. destruct Hw as [Hreads Hl Hwk].
  destruct (ro_handler op) eqn:Hh; [|by split].
  split; [|done]. split; try done. simpl. intros Hc. specialize (Hreads Hc). unfold reads_packets in Hreads.
  rewrite Hone in Hreads. apply Exists_cons in Hreads as [|Hreads]; [congruence|by apply Exists_nil in Hreads].
Qed.

(** ** Every step *)

Lemma attentive_client l w w' :
  is_client l = true → action l w = Ret tt w' → attentive w → attentive w'.
Proof.
  intros Hc E Hw. destruct l as [address|l'|r d t h| | | | | |]; try done.
  - apply start_Ret in E as [->|[op ->]]; by apply (attentive_frame w).
  - injection E as <-. by apply (attentive_frame w).
  - injection E as <-. by apply (attentive_frame w).
Qed.

Lemma attentive_steps ls w : ordinary ls → steps initial ls w → attentive w.
Proof.
  revert ls w. apply ordinary_ind; [by apply attentive_inited|intros t w Hw; by apply (attentive_frame w)|].
  intros ls l w1 w2 _ _ Hen Hok E Hw.
  destruct (is_client l) eqn:Hc; [by eapply attentive_client|].
  assert (attending (set_thread WorkerThread w1)) as Hwt.
  { split; [by apply (attentive_frame w1)|done]. }
  assert (attending (taken w1 l)) as Htk.
  { destruct l; try done. destruct Hwt as [Hwt Ht].
    split; [by apply (attentive_frame (set_thread WorkerThread w1))|done]. }
  pose proof (ends_worker_step attending l w1 Htk Hen Hc Hok) as He. rewrite E in He. apply He.
  - intros i ec data ->. rewrite <- E. by apply attending_receive.
  - intros t cb ec s ->. rewrite <- E. apply (ends_any_timer attending); [|done].
    intros s' w0 [Hw0 Ht0]. split; [by apply (attentive_frame w0)|done].
Qed.

Lemma connected_outstanding ls w :
  ordinary ls → steps initial ls w → IsConnected (w_state w) = true → io_receives (w_io w) ≠ [].
Proof.
  intros Hord Hs Hc E. pose proof (at_reads _ (attentive_steps ls w Hord Hs) Hc) as Hr.
  unfold reads_packets in Hr. rewrite E in Hr. by apply Exists_nil in Hr.
Qed.

(** C15: in every execution, while the connection is established a read is outstanding whose
    completion hands the next packet to the connection. So the worker thread is never out of
    work, and the destructor, which joins it, does not return before the connection has
    ended. *)
Theorem connected_listens ls w :
  ordinary ls → steps initial ls w → IsConnected (w_state w) = true →
  Exists (λ op, ro_handler op = PacketsReceived) (io_receives (w_io w)) ∧
  ¬ Connection_destructor_returns w.
Proof.
  intros Hord Hs Hc. split; [exact (at_reads _ (attentive_steps ls w Hord Hs) Hc)|].
  intros Hd. apply Hd. do 3 right. left. by eapply connected_outstanding.
Qed.
End listening.
