(* ===== verification/Silence.v ===== *)
(** * A server that falls silent

    The timeout of the heartbeat is armed when the handshake ends, and nothing arms it again:
    the first heartbeat of the server disarms it for the rest of the connection. *)

From S2P Require Import Prelude Outcome Net Errors Events Gzip Message Packet ReadBuffer.
From S2P Require Import TcpPacketStream ConnState Json Connection Client System Stream Receive Flow.
From S2P Require Import Requests Frame Handlers Invariants Safety Lifecycle Timers Heartbeat Listening.

Section silence.
Context `{BuildMode, BoostMessages, Zlib, Allocator, RapidJson, Resolver, DecompressFuel}.
Context `{!TimerService ConnTimerCb, !UnorderedIteration}.

(** ** No second handshake *)

(** The stages of the handshake: a connection being made, a handshake or its ack being sent,
    the response being read. *)
Definition stage_wt : Weight := {|
  wt_posted _ := 0%nat;
  wt_send s := match s with HandshakeSent | HandshakeAckSent _ _ _ => 1%nat | _ => 0%nat end;
  wt_ignored _ := 0%nat;
  wt_receive h := match h with HandshakeResponseReceived => 1%nat | PacketsReceived => 0%nat end;
  wt_connect _ := 1%nat;
  wt_flight _ _ := 0%nat;
  wt_obs _ := 0%nat;
  wt_dropped _ := 0%nat;
|}.

#[export] Instance stage_flow : Flow le stage_wt (λ _, 0%nat).
Proof. split; intros; simpl; try apply _; repeat case_match; lia. Qed.

(** Nothing but a [Start] brings a stage back. *)
Lemma stage_step l w w' :
  step w l w' → is_start l = false → total stage_wt w = 0%nat → total stage_wt w' = 0%nat.
Proof.
  intros Hl%(step_total le stage_wt (λ _, 0%nat)) Hs Hw. rewrite Hw in Hl.
  assert (inflow stage_wt l = 0%nat) as Hin by by destruct l. lia.
Qed.

(** An established connection is reading packets, which leaves no stage of a handshake. *)
Lemma stage_activity w : reads_packets (w_io w) → (total stage_wt w < total activity_wt w)%nat.
Proof.
  intros Hr. assert (sum_list_with (λ op, wt_receive stage_wt (ro_handler op)) (io_receives (w_io w))
    < sum_list_with (λ op, wt_receive activity_wt (ro_handler op)) (io_receives (w_io w)))%nat as Hlt.
  { assert (∀ l : list (ReceiveOp ReceiveHandler),
      sum_list_with (λ op, wt_receive stage_wt (ro_handler op)) l
      ≤ sum_list_with (λ op, wt_receive activity_wt (ro_handler op)) l)%nat as Hle.
    { intros l. induction l as [|op l IH]; simpl in *; [done|]. destruct (ro_handler op); lia. }
    induction Hr as [op l Hop|op l Hr IH]; simpl in *; [rewrite Hop; specialize (Hle l); simpl in Hle; lia|].
    destruct (ro_handler op); lia. }
  unfold total, total_io, total_flight. simpl in *. lia.
Qed.

Lemma connected_stage ls w :
  ordinary ls → steps initial ls w → IsConnected (w_state w) = true →
  total stage_wt w = 0%nat ∧ count_labels is_start ls = 1%nat.
Proof.
  intros Hord Hs Hc. pose proof (stage_activity w (at_reads _ (attentive_steps ls w Hord Hs) Hc)).
  pose proof (activity_starts ls w Hs). destruct Hord. lia.
Qed.

(** What that says of the pending operations. *)
Lemma stage_sends w i op :
  total stage_wt w = 0%nat → io_sends (w_io w) !! i = Some op → wt_send stage_wt (so_handler op) = 0%nat.
Proof.
  unfold total, total_io. intros Hw Hi%list_elem_of_lookup_2.
  pose proof (sum_list_with_in op (λ op, wt_send stage_wt (so_handler op)) _ Hi). cbv beta in *. lia.
Qed.

Lemma stage_receives w i op :
  total stage_wt w = 0%nat → io_receives (w_io w) !! i = Some op → ro_handler op = PacketsReceived.
Proof.
  unfold total, total_io. intros Hw Hi%list_elem_of_lookup_2.
  pose proof (sum_list_with_in op (λ op, wt_receive stage_wt (ro_handler op)) _ Hi) as Hle.
  cbv beta in *. assert (wt_receive stage_wt (ro_handler op) = 0%nat) as Hz by lia.
  by destruct (ro_handler op).
Qed.

Lemma stage_connects w : total stage_wt w = 0%nat → io_connects (w_io w) = [].
Proof.
  unfold total, total_io. destruct (io_connects (w_io w)); [done|]. simpl. lia.
Qed.

(** ** The timeout, once disarmed *)

Section disarmed.
Context (c : Connected HeartbeatFn).
Local Abbreviation keeping := (kept_as true).

(** The connection [c] with no timeout pending, or a connection that is lost. *)
Definition quiet (w : World) : Prop :=
  st_val (w_state w) = InitedState ∨
  st_val (w_state w) = ConnectedState c ∧ ts_waiting (w_timers w) (heartbeatTimeout c) = [].

Definition silent (w : World) : Prop := keeping w ∧ quiet w.

Lemma ends_silent {A} (o : outcome World A) :
  ends keeping (λ _, True) o → ends quiet (λ _, True) o → ends silent (λ _, True) o.
Proof. by destruct o. Qed.

(** Operations on the timers that start no wait of the timeout. *)
Lemma quiet_timers w w1 :
  st_val (w_state w1) = st_val (w_state w) →
  (st_val (w_state w) = ConnectedState c → ts_waiting (w_timers w) (heartbeatTimeout c) = [] →
   ts_waiting (w_timers w1) (heartbeatTimeout c) = []) →
  quiet w → quiet w1.
Proof. unfold quiet. intros -> Ht [?|[? ?]]; [by left|right; auto]. Qed.

Lemma quiet_frame w w1 :
  st_val (w_state w1) = st_val (w_state w) → w_timers w1 = w_timers w → quiet w → quiet w1.
Proof. intros Hst Ht. apply quiet_timers; [done|by rewrite Ht]. Qed.

Lemma quiet_zoom {A} (m : M ConnIO A) : runs quiet (λ _, True) (zoom (W := World) m).
Proof. intros w Hw. unfold zoom. by destruct (m _). Qed.

Lemma silent_zoom {A} (m : M ConnIO A) : runs silent (λ _, True) (zoom (W := World) m).
Proof. intros w [Hk Hq]. apply ends_silent; [by apply keeping_zoom|by apply quiet_zoom]. Qed.

Lemma quiet_inited ev msg w : quiet (announce ev msg (to_inited w)).
Proof. left. by rewrite announce_fields. Qed.

Lemma quiet_error ec w :
  st_locked (w_state w) = false → quiet w → ends quiet (λ _, True) (Connection_ConnectionError ec w).
Proof.
  intros Hl Hq. rewrite ConnectionError_spec by done.
  destruct (IsConnected _); [|done]. apply (quiet_inited EventConnectionError).
Qed.

(** A tick waits on the other timer. *)
Lemma quiet_tick b ec w :
  kept_as b w → quiet w → ends quiet (λ _, True) (HeartbeatTick call_fn ec w).
Proof.
  intros (Hok & _) Hq. unfold HeartbeatTick. destruct (ec_failed ec); [done|].
  rewrite (bind_Ret _ _ _ _ _ (get_state_Ret w)). unfold timed_as in Hok.
  destruct Hq as [E|[E Hq]]; rewrite E in *; [by left|].
  destruct (tm_own _ _ _ _ Hok c eq_refl) as (-> & Hne & _). cbn [call_fn].
  destruct (SendPacket_Ret NewHeartbeat HeartbeatSent w) as [io Eio]. run Eio.
  rewrite (bind_Ret _ _ _ _ _ (timer_op_Ret _ _)), timer_op_Ret. right. split; [done|].
  cbn [w_timers set_io set_timers]. by rewrite ts_async_wait_waiting, decide_False,
    ts_expires_waiting, decide_False by done.
Qed.

#[export] Instance framed_silent : Framed silent (λ _, True).
Proof.
  split; try done.
  - intros w [Hk _]. by apply (fr_worker (P := keeping)).
  - intros h s d w Hw. exact Hw.
  - intros id h t w Hid [Hk Hq]. apply ends_silent; [by apply (fr_emplace (P := keeping))|].
    unfold inFlight_emplace.
    rewrite (bind_Ret (Request_new h t id) _ w {| req_handler := h; req_timer := (ts_new (w_timers w)).1 |}
             (set_timers (request_armed t id (w_timers w)) w)) by done.
    rewrite (bind_Ret get _ _ _ _ eq_refl). cbn [w_inFlight set_timers]. rewrite Hid.
    apply (quiet_timers w); [done| |done]. intros E Hw.
    destruct Hk as (Hok & _). unfold timed_as in Hok. rewrite E in Hok.
    destruct (tm_own _ _ _ _ Hok c eq_refl) as (_ & _ & _ & Ha & _). apply fresh_ne in Ha.
    cbn. unfold request_armed. by rewrite ts_async_wait_waiting, decide_False, ts_expires_waiting,
      decide_False, ts_new_waiting, decide_False by done.
  - intros id w [Hk Hq]. apply ends_silent; [by apply (fr_erase (P := keeping))|].
    unfold inFlight_erase. rewrite (bind_Ret get _ _ _ _ eq_refl). destruct (_ !! id) as [r|]; [|done].
    apply (quiet_timers w); [done| |done]. intros _ Hw. cbn. rewrite ts_destroy_waiting. by case_decide.
  - intros ec w [Hk Hq]. apply ends_silent; [by apply (fr_tick (P := keeping))|by eapply quiet_tick].
  - intros w [Hk Hq]. apply ends_silent; [by apply (fr_extend (P := keeping))|].
    unfold ExtendHeartbeatTimeout. rewrite (bind_Ret _ _ _ _ _ (get_state_Ret w)).
    destruct (st_val (w_state w)) as [|c'] eqn:E; [done|]. apply (quiet_timers w); [done| |done].
    intros _ Hw. cbn. rewrite ts_expires_waiting. by case_decide.
  - intros ec w [Hk Hq]. apply ends_silent; [by apply (fr_failed (P := keeping))|].
    rewrite HandshakeFailed_spec by apply Hk. apply quiet_inited.
  - intros ec w [Hk Hq]. apply ends_silent; [by apply (fr_error (P := keeping))|apply quiet_error; [apply Hk|done]].
  - intros w [Hk Hq]. apply ends_silent; [by apply (fr_kicked (P := keeping))|].
    rewrite KickedFromServer_spec by apply Hk. destruct (IsConnected _); [|done].
    apply (quiet_inited EventKicked).
  - intros p t m h _. apply silent_zoom.
  - apply silent_zoom.
  - intros id. apply silent_zoom.
Qed.

(** ** A step of the worker thread *)

Lemma quiet_fire t cb ec s w :
  silent w → ts_fire (w_timers w) t cb ec s → quiet (set_timers s w).
Proof.
  intros [_ Hq] Hf. apply (quiet_timers w); [done| |done]. intros _ Hw.
  pose proof (fire_waiting _ _ _ _ _ (heartbeatTimeout c) Hf) as Hs. rewrite Hw in Hs.
  by destruct Hs as [?|[]]; [simpl; lia|..].
Qed.

Lemma silent_fire t cb ec s w :
  silent (set_thread WorkerThread w) → ts_fire (w_timers w) t cb ec s →
  ends silent (λ _, True) (action (LTimer t cb ec s) w).
Proof.
  intros Hw Hf. apply ends_silent; [by apply ends_fire; [apply Hw|]|].
  pose proof (quiet_fire t cb ec s (set_thread WorkerThread w) Hw Hf) as Hq.
  destruct Hw as [(Hok & Hl & Hw) _]. cbn [action]. unfold on_thread.
  do 2 rewrite (bind_Ret (modify _) _ _ _ _ eq_refl).
  destruct cb as [|f|id]; cbn [call_timer].
  - destruct (ec_failed ec) eqn:Hec; [unfold HeartbeatTick; by rewrite Hec|].
    apply (quiet_tick false); [|done]. split; [exact (tk_fire _ _ _ _ _ _ _ Hok Hf)|done].
  - unfold HeartbeatTimeout_done. case_match; [done|].
    destruct f; [by apply quiet_zoom|by apply quiet_error].
  - rewrite RequestTimeout_Ret. case_match; [done|]. case_match; [|done].
    revert Hq. apply quiet_timers; [done|]. intros _ E. cbn. rewrite ts_destroy_waiting. by case_decide.
Qed.

Lemma silent_step l w :
  silent (set_thread WorkerThread w) → total stage_wt w = 0%nat →
  enabled w l → is_client l = false → accounts_ok w l → ends silent (λ _, True) (action l w).
Proof.
  intros Hw Hstage Hen Hc Hok.
  destruct l as [| | |i|i|i ec nw|i ec data|i ec|t cb ec s]; try done.
  - destruct Hen as [r Hi]. take_item Hi. by apply (runs_PostRequest_run silent).
  - destruct Hen as [h Hi]. take_item Hi. by apply silent_zoom.
  - destruct Hen as [op Hi]. take_item Hi. pose proof (stage_sends _ _ _ Hstage Hi) as Hop.
    apply ends_SendNextPacket_done; [apply _|..|done|].
    + specialize (Hok op Hi). by destruct (so_handler op).
    + intros ec'. apply (ends_call_established silent _); [by intros E; rewrite E in Hop| | |done].
      * intros n s d E. by rewrite E in Hop.
      * specialize (Hok op Hi). by destruct (so_handler op).
  - destruct Hen as (_ & op & Hi & _). take_item Hi. rewrite (stage_receives _ _ _ Hstage Hi).
    apply (ends_completed_read silent); [by intros ? ? _| | |done].
    + intros ec' packets w1 _ Hw1. by apply (runs_PacketsReceived_done silent _).
    + intros w1. apply silent_zoom.
  - destruct Hen as [op Hi]. by rewrite (stage_connects _ Hstage) in Hi.
  - by apply silent_fire.
Qed.
End disarmed.

(** Every execution from such a state. *)
Lemma quiet_steps c ls ls' w w' :
  ordinary (ls ++ ls') → steps initial ls w → steps w ls' w' →
  st_val (w_state w) = ConnectedState c → quiet c w →
  steps initial (ls ++ ls') w' ∧ total stage_wt w' = 0%nat ∧ quiet c w'.
Proof.
  intros Hord Hs Hs' Hc Hq.
  induction Hs' as [w|w ls' w1 l w2 Hs' IH Hl]; rewrite ?app_nil_r in *.
  { split; [done|]. split; [|done]. eapply connected_stage; [done..|]. unfold IsConnected. by rewrite Hc. }
  rewrite (assoc_L (++)) in *. pose proof (ordinary_prefix _ _ Hord) as Hord'.
  assert (is_start l = false) as Hstart.
  { destruct (connected_stage ls w (ordinary_prefix _ _ Hord') Hs) as [_ Hone];
      [unfold IsConnected; by rewrite Hc|].
    destruct Hord as [Hcount _]. rewrite count_labels_snoc, count_labels_app in Hcount.
    destruct (is_start l); [lia|done]. }
  destruct (IH Hord' Hs Hc Hq) as (Hs1 & Hstage & Hq1).
  split; [by eapply steps_snoc|]. split; [by eapply stage_step|].
  destruct (timed_steps _ _ Hord' Hs1) as (Hok & Hlk & Hwk).
  destruct (reachable_wf _ _ Hord' Hs1) as (_ & _ & _ & Hids).
  pose proof (accounts_hold _ w1 l (proj1 Hord') Hs1 Hids) as Hacc.
  destruct Hl as [w2 Hen E|e w2 Hcl E].
  - destruct (is_client l) eqn:Hcl.
    + destruct l; try done; by injection E as <-.
    + pose proof (silent_step c l w1) as He. rewrite E in He. by apply He.
  - destruct (client_throw _ _ _ _ Hcl E) as [[? ->] _]. done.
Qed.

(** C17: the timeout of the heartbeat works until the first heartbeat of the server. That packet
    cancels the wait for the timeout; and from any state of any execution in which the wait is
    not pending, whatever follows, it is never pending again: the connection stays the same
    one, unwatched, until it is lost for another reason, and there is no second one. So a
    server that falls silent after its first heartbeat is not noticed. *)
Theorem silence_undetected ls w c :
  steps initial ls w → st_val (w_state w) = ConnectedState c →
  (∃ ts, Connection_ProcessPacket NewHeartbeat w = Ret tt (set_timers ts w) ∧
     ts_waiting ts (heartbeatTimeout c) = []) ∧
  (ts_waiting (w_timers w) (heartbeatTimeout c) = [] →
   ∀ ls' w', ordinary (ls ++ ls') → steps w ls' w' →
     st_val (w_state w') = InitedState ∨
     st_val (w_state w') = ConnectedState c ∧ ts_waiting (w_timers w') (heartbeatTimeout c) = []).
Proof.
  intros Hs Hc. split.
  - destruct (ExtendHeartbeatTimeout_disarms w c Hc) as (ts & ? & ? & _). by exists ts.
  - intros Hw ls' w' Hord Hs'. eapply (quiet_steps c ls ls' w w'); try done. by right.
Qed.
End silence.
