(* ===== verification/Wire.v ===== *)
(** * What the client puts on the wire

    The packets a connection hands to its stream are typed by the protocol: one handshake,
    then one ack, then heartbeats and requests, each a packet of the wire format; and the
    bytes given to the socket are their frames, in that order. *)

From S2P Require Import Prelude Outcome Net Errors Events Gzip Message Packet ReadBuffer.
From S2P Require Import TcpPacketStream ConnState Json Connection Client System Stream Receive Flow.
From S2P Require Import Requests Frame Handlers Invariants Safety Lifecycle Timers Heartbeat Listening.

(** ** The session *)

(** The packets of an established connection. *)
Definition established_packet (p : Packet) : Prop := p = NewHeartbeat ∨ request_packet p.

(** The packets of a client, in order. *)
Inductive session : list Packet → Prop :=
| session_none : session []
| session_handshake : session [NewHandshake handshake_json]
| session_established ps :
    Forall established_packet ps →
    session (NewHandshake handshake_json :: NewHandshakeAck :: ps).

(** A packet that the header describes exactly, of bytes. *)
Definition sendable (p : Packet) : Prop :=
  bytes_wf (pkt_body p) ∧ Z.of_nat (length (pkt_body p)) < 2 ^ 24.

Lemma request_packet_sendable p : request_packet p → sendable p.
Proof.
  intros (id & bs & code & Hid & E & ->).
  destruct (encode_id_spec (W := unit) id Hid) as (bs' & Hbs & Hlen & Hwf & _).
  specialize (Hbs tt). unfold encode_id in Hbs. rewrite E in Hbs. injection Hbs as ->.
  split; cbn [pkt_body]; unfold request_body.
  - apply Forall_cons. split; [by unfold byte_wf|]. apply bytes_wf_app; [done|].
    repeat apply Forall_cons_2; auto with bytes.
  - simpl. rewrite length_app. simpl. lia.
Qed.

Lemma session_sendable ps : session ps → Forall sendable ps.
Proof.
  assert (sendable (NewHandshake handshake_json)) as Hh.
  { split; [apply bytes_of_string_wf|]. by vm_compute. }
  intros [| |qs Hqs]; [done|by repeat constructor|].
  apply Forall_cons. split; [done|]. apply Forall_cons. split; [by split|].
  eapply Forall_impl; [exact Hqs|]. intros p [->|Hp]; [by split|by apply request_packet_sendable].
Qed.

Section wire.
Context `{BuildMode, BoostMessages, Zlib, Allocator, RapidJson, Resolver, DecompressFuel}.
Context `{!TimerService ConnTimerCb, !UnorderedIteration}.

(** ** The stream *)

(** [ps]: the packets the stream has taken, those already given to the socket first. *)
Definition handed (io : ConnIO) (ps : list Packet) : Prop :=
  ∃ sent, sent_buffers io = frame <$> sent ∧ ps = sent ++ packetSendQueue (io_stream io).

(** What waits in the stream: closures, writes, reads. *)
Definition pending_ops (io : ConnIO) : nat :=
  length (io_posted io) + length (io_sends io) + length (io_receives io).

(** The packets taken satisfy [S]; the handlers waiting in the stream, [HS] and [HR]; there
    are [n] of them with [T n], and at most [nc] attempts to connect. *)
Record wired (S : list Packet → Prop) (HS : SendHandler → Prop) (HR : ReceiveHandler → Prop)
    (T : nat → Prop) (nc : nat) (io : ConnIO) : Prop := {
  wi_handed : ∃ ps, handed io ps ∧ S ps;
  wi_posted : Forall HS (io_posted io);
  wi_sends : Forall (λ op, HS (so_handler op)) (io_sends io);
  wi_reads : Forall (λ op, HR (ro_handler op)) (io_receives io);
  wi_pending : T (pending_ops io);
  wi_connects : (length (io_connects io) ≤ nc)%nat;
}.

Section keeps.
Context (S : list Packet → Prop) (HS : SendHandler → Prop) (HR : ReceiveHandler → Prop).
Context (T : nat → Prop) (nc : nat).
Local Abbreviation W := (wired S HS HR T nc).

Lemma wired_stream s io : same_sending (io_stream io) s → W io → W (set_stream s io).
Proof.
  intros (Hq & _) [(ps & (sent & Hb & Hps) & HS0) Hp Hs Hr Ht Hc]. split; [|done..].
  exists ps. split; [|done]. exists sent. split; [done|]. simpl. by rewrite Hps, Hq.
Qed.

Lemma wired_written id io :
  W io → W (set_stream (set_writeBuffers (delete id (writeBuffers (io_stream io)))
                          (writeId (io_stream io)) (io_stream io)) io).
Proof. by intros []. Qed.

Lemma wired_call c io : (∀ b, c ≠ CallSend b) → W io → W (add_call c io).
Proof.
  intros Hc [(ps & (sent & Hb & Hps) & HS0) Hp Hs Hr Ht Hn]. split; [|done..].
  exists ps. split; [|done]. exists sent. split; [|done]. rewrite sent_buffers_call, Hb.
  destruct c; rewrite ?app_nil_r; naive_solver.
Qed.

(** With nothing pending, any handler may come next. *)
Lemma wired_idle HS' HR' (T' : nat → Prop) io :
  pending_ops io = 0%nat → T' 0%nat → W io → wired S HS' HR' T' nc io.
Proof.
  unfold pending_ops. intros Hnum HT' [Hh Hp Hs Hr Ht Hc].
  destruct (io_posted io) eqn:E1, (io_sends io) eqn:E2, (io_receives io) eqn:E3; try done.
  split; rewrite ?E1, ?E2, ?E3; try done. unfold pending_ops. by rewrite E1, E2, E3.
Qed.

Section next.
Context (T' : nat → Prop) (HT : ∀ n, T n → T' (Datatypes.S n)).

Lemma pending_more io io' :
  T (pending_ops io) → pending_ops io' = Datatypes.S (pending_ops io) → T' (pending_ops io').
Proof. intros Ht ->. auto. Qed.

Local Ltac one_more io :=
  apply (pending_more io); [done|unfold pending_ops; simpl; rewrite length_app; simpl; lia].

Lemma wired_read (h : ReceiveHandler) io :
  HR h → W io → ends (wired S HS HR T' nc) (λ _, True) (ReceivePackets h io : outcome ConnIO unit).
Proof.
  intros Hh [Hps Hp Hs Hr Ht Hc].
  match goal with |- ends _ _ (ReceivePackets _ _) => unfold ReceivePackets, ReadToBuffer end.
  rewrite (bind_Ret get _ _ _ _ eq_refl). cbv zeta. cbn [TcpSocket_Receive modify ends].
  destruct Hps as (ps & (sent & Hb & Hps) & HS0). split; try done.
  - exists ps. split; [|done]. exists sent. split; [|done].
    rewrite sent_buffers_call, app_nil_r. exact Hb.
  - apply Forall_app. split; [done|]. by repeat constructor.
  - one_more io.
Qed.

(** A packet is taken, or refused. *)
Lemma wired_send S' p h io :
  HS h → (∀ ps, S ps → S' (ps ++ [p])) → W io →
  ends (λ io', wired S' HS HR T' nc io' ∨ W io') (λ _, True) (SendPacket p h io : outcome ConnIO unit).
Proof.
  intros Hh HS' Hio. pose proof (SendPacket_spec p h io) as E. cbv zeta in E.
  case_decide; rewrite E; [left|right]; destruct Hio as [(ps & (sent & Hb & Hps) & HS0) Hpo Hs Hr Ht Hc].
  - split; [|apply Forall_app; by auto|done..| |done].
    + exists (ps ++ [p]). split; [|auto]. exists sent. split; [done|]. by rewrite Hps, <- app_assoc.
    + one_more io.
  - split; try done. exists ps. split; [by exists sent|done].
Qed.

(** The closure that sends the front packet, once it has left the posted ones. *)
Lemma wired_send_next h io :
  HS h → W io → ends (wired S HS HR T' nc) (λ _, True) (SendNextPacket h io : outcome ConnIO unit).
Proof.
  intros Hh Hio. destruct (packetSendQueue (io_stream io)) as [|p q] eqn:Hq.
  - unfold SendNextPacket. rewrite (bind_Ret get _ _ _ _ eq_refl), Hq.
    unfold cpp_assert. simpl. by destruct ndebug.
  - rewrite (SendNextPacket_spec h io p q Hq).
    assert (wired S HS HR T' nc (sent_next p q h io)) as Hw; [|by destruct (_ !! _), ndebug].
    destruct Hio as [(ps & (sent & Hb & Hps) & HS0) Hpo Hs Hr Ht Hc]. split; [|done| |done| |done].
    + exists ps. split; [|done]. exists (sent ++ [p]). unfold sent_next. rewrite sent_buffers_call.
      rewrite fmap_app. split; [by rewrite <- Hb|]. simpl. by rewrite Hps, Hq, <- app_assoc.
    + apply Forall_app. split; [done|]. by repeat constructor.
    + one_more io.
Qed.
End next.
End keeps.

(** ** The three phases *)

(** Nothing has been sent; at most [nc] attempts to connect are under way. *)
Abbreviation phase0 nc := (wired (λ ps, ps = []) (λ _, False) (λ _, False) (λ _, True) nc).

(** The handshake has been sent; one thing at most is under way: its closure, its write, or
    the read of the response. *)
Abbreviation phase1 k :=
  (wired (λ ps, ps = [NewHandshake handshake_json]) (λ h, h = HandshakeSent)
     (λ h, h = HandshakeResponseReceived) (λ n, n ≤ k)%nat 0%nat).

(** The ack has been sent. *)
Definition opened (ps : list Packet) : Prop :=
  ∃ qs, ps = NewHandshake handshake_json :: NewHandshakeAck :: qs ∧ Forall established_packet qs.
Abbreviation phase2 :=
  (wired opened (λ h, h ≠ HandshakeSent) (λ h, h = PacketsReceived) (λ _, True) 0%nat).

Lemma opened_more ps p : established_packet p → opened ps → opened (ps ++ [p]).
Proof. intros Hp (qs & -> & Hqs). exists (qs ++ [p]). split; [done|]. apply Forall_app. by auto. Qed.

Lemma phase2_send p h io :
  established_packet p → h ≠ HandshakeSent → phase2 io →
  ends phase2 (λ _, True) (SendPacket p h io : outcome ConnIO unit).
Proof.
  intros Hp Hh Hio.
  pose proof (wired_send opened _ _ _ _ (λ _, True) (λ _ _, I) opened p h io Hh
    (λ ps, opened_more ps p Hp) Hio) as He.
  destruct (SendPacket p h io); simpl in *; tauto.
Qed.

(** Before the connection is established: [J] holds of the stream. *)
Definition calm (J : ConnIO → Prop) (w : World) : Prop :=
  J (w_io w) ∧ on_worker w ∧ w_state w = State_new InitedState.

Abbreviation active := (locked_is (λ w, phase2 (w_io w) ∧ on_worker w) false).

Definition wiring (w : World) : Prop :=
  calm (phase0 1) w ∨ calm (phase1 1) w ∨ active w.

(** *** Established *)

Lemma active_zoom {A} (m : M ConnIO A) :
  runs phase2 (λ _, True) m →
  runs (λ w, phase2 (w_io w) ∧ on_worker w) (λ _, True) (zoom (W := World) m).
Proof. intros Hm. eapply runs_zoom; [exact Hm|by intros w []|]. by intros w io [] Hio. Qed.

#[export] Instance untouched_active :
  Untouched (λ w, phase2 (w_io w) ∧ on_worker w) (λ _, True).
Proof.
  split; try done.
  - by intros w [_ [-> ->]].
  - intros p t m h Hp. apply active_zoom. intros io. apply phase2_send; [by right|done].
  - apply active_zoom. intros io. apply phase2_send; [by left|done].
  - apply active_zoom. intros io. by apply wired_read.
  - apply active_zoom. apply runs_bind; [|intros _]; apply runs_modify; intros io; by apply wired_call.
  - intros id. apply active_zoom, runs_modify. apply wired_written.
Qed.

(** The packets of an established connection, in any step of the worker thread. *)
Lemma active_set_io io w : phase2 io → active w → active (set_io io w).
Proof. intros Hio [[_ Hw] Hl]. by split. Qed.

Lemma active_io w : active w → phase2 (w_io w).
Proof. by intros [[? _] _]. Qed.

Lemma active_step l w :
  active (set_thread WorkerThread w) → enabled w l → is_client l = false → accounts_ok w l →
  ends active (λ _, True) (action l w).
Proof.
  intros Hw Hen Hc Hok. pose proof (active_io _ Hw) as Hio.
  destruct l as [| | |i|i|i ec nw|i ec data|i ec|t cb ec s]; try done.
  - destruct Hen as [r Hi]. take_item Hi. apply (runs_PostRequest_run active); [by intros n w0 [[? ?] ?]|].
    exact Hw.
  - destruct Hen as [h Hi]. take_item Hi. destruct Hio as [Hh Hp Hs Hr _ Hn].
    pose proof (Forall_lookup_1 _ _ _ _ Hp Hi) as Hne.
    apply (runs_locked_zoom _ _ false); [|].
    + apply active_zoom. intros io0 Hio0. by apply (wired_send_next _ _ _ (λ _, True)).
    + apply (active_set_io _ (set_thread WorkerThread w)); [|exact Hw]. split; try done. by apply Forall_delete.
  - destruct Hen as [op Hi]. take_item Hi. destruct Hio as [Hh Hp Hs Hr _ Hn].
    pose proof (Forall_lookup_1 _ _ _ _ Hs Hi) as Hne. cbn beta in Hne.
    set (w1 := set_io _ (set_thread WorkerThread w)). assert (active w1) as Hw1.
    { apply (active_set_io _ (set_thread WorkerThread w)); [|exact Hw]. split; try done. by apply Forall_delete. }
    assert (fresh_id (so_handler op) w1) as Hid by (specialize (Hok op Hi); by destruct (so_handler op)).
    apply ends_SendNextPacket_done; [apply _|done..|]. intros ec'.
    apply (ends_call_established active _); try done. intros n s d _. apply runs_started, _.
  - destruct Hen as (_ & op & Hi & _). take_item Hi. destruct Hio as [Hh Hp Hs Hr _ Hn].
    pose proof (Forall_lookup_1 _ _ _ _ Hr Hi) as Hne. cbn beta in Hne. rewrite Hne.
    apply (ends_completed_read active).
    + intros s w1 Hs1 Hw1. apply active_set_io; [|done]. by apply wired_stream, active_io.
    + intros ec' packets w1 _ Hw1. by apply (runs_PacketsReceived_done active _).
    + intros w1 Hw1. by apply (fr_listen (P := active)).
    + apply (active_set_io _ (set_thread WorkerThread w)); [|exact Hw]. split; try done. by apply Forall_delete.
  - destruct Hen as [op Hi]. apply wi_connects in Hio. simpl in Hio.
    destruct (io_connects (w_io w)); [done|simpl in Hio; lia].
  - cbn [action]. unfold on_thread. do 2 rewrite (bind_Ret (modify _) _ _ _ _ eq_refl).
    apply (runs_call_timer active _); [|exact Hw]. intros f _. destruct f; [|apply (fr_error (P := active))].
    apply runs_locked_zoom. apply (un_heartbeat (J := λ w, phase2 (w_io w) ∧ on_worker w)).
Qed.

(** *** Before *)

Section before.
Context (J : ConnIO → Prop).

Lemma calm_request r w : calm J w → PostRequest_run r w = Ret tt (add_trace (HandlerCalled (pr_handler r) StatusNotConnectedError []) w).
Proof.
  intros (_ & _ & Hst). unfold PostRequest_run. rewrite (bind_Ret _ _ _ _ _ (get_state_Ret w)).
  unfold IsConnected. by rewrite Hst.
Qed.

Lemma calm_failed ec w : calm J w → ends (calm J) (λ _, True) (Connection_HandshakeFailed ec w).
Proof.
  intros (HJ & Hw & Hst). rewrite HandshakeFailed_spec by (by rewrite Hst). rewrite announce_fields. by split_and!.
Qed.

Lemma calm_error ec w : calm J w → Connection_ConnectionError ec w = Ret tt w.
Proof. intros (_ & _ & Hst). rewrite ConnectionError_spec by (by rewrite Hst). by rewrite Hst. Qed.

Lemma calm_timer cb ec w :
  calm J w → (∀ f, cb = CbHeartbeatTimeout f → f = HeartbeatTimedOut) →
  ends (calm J) (λ _, True) (call_timer cb ec w).
Proof.
  intros Hw Hf. destruct cb as [|f|id]; cbn [call_timer].
  - unfold HeartbeatTick. destruct (ec_failed ec); [done|].
    rewrite (bind_Ret _ _ _ _ _ (get_state_Ret w)). destruct Hw as (? & ? & Hst). by rewrite Hst.
  - rewrite (Hf f eq_refl). unfold HeartbeatTimeout_done. destruct (ec_failed ec); [done|].
    cbn [call_fn]. by rewrite calm_error.
  - rewrite RequestTimeout_Ret. destruct (ec_failed ec); [done|]. by destruct (_ !! _).
Qed.

(** What a closure of a request or a timer does leaves the stream alone. *)
Lemma calm_step l w :
  calm J (set_thread WorkerThread w) → enabled w l → is_run_request l = true ∨ (∃ t cb ec s, l = LTimer t cb ec s) →
  (∀ f, CbHeartbeatTimeout f ∈ ts_given (w_timers w) → f = HeartbeatTimedOut) →
  ends (calm J) (λ _, True) (action l w).
Proof.
  intros Hw Hen Hl Hgiven.
  destruct l as [| | |i|i|i ec nw|i ec data|i ec|t cb ec s]; try (exfalso; naive_solver).
  - destruct Hen as [r Hi]. take_item Hi. rewrite calm_request; exact Hw.
  - cbn [action]. unfold on_thread. do 2 rewrite (bind_Ret (modify _) _ _ _ _ eq_refl).
    apply calm_timer; [exact Hw|]. intros f ->. apply Hgiven. by eapply ts_fire_given.
Qed.
End before.

Lemma calm_mono (J K : ConnIO → Prop) w : (∀ io, J io → K io) → calm J w → calm K w.
Proof. intros HJK (? & ? & ?). split_and!; auto. Qed.

Lemma calm_worker J w : calm J w → assert_worker w = Ret tt w.
Proof. intros (_ & [Ht Hwk] & _). apply assert_worker_Ret. by rewrite Ht, Hwk. Qed.

Lemma calm_set_io (J K : ConnIO → Prop) io w : calm J w → K io → calm K (set_io io w).
Proof. by intros (? & ? & ?) ?. Qed.

Lemma calm_zoom {A} (J K : ConnIO → Prop) (m : M ConnIO A) w :
  calm J w → ends K (λ _, True) (m (w_io w)) → ends (calm K) (λ _, True) (zoom (W := World) m w).
Proof.
  intros Hw Hm. unfold zoom. change (view w) with (w_io w).
  destruct (m (w_io w)); [by eapply calm_set_io..|done].
Qed.

Lemma ends_mono {A} (I K : World → Prop) F (o : outcome World A) :
  (∀ w, I w → K w) → ends I F o → ends K F o.
Proof. destruct o; simpl; auto. Qed.

Lemma phase0_pending nc io : phase0 nc io → pending_ops io = 0%nat.
Proof.
  intros [_ Hp Hs Hr _ _]. unfold pending_ops.
  destruct (io_posted io), (io_sends io), (io_receives io); try done;
    by repeat match goal with Hf : Forall _ (_ :: _) |- _ => apply Forall_cons in Hf as [[] _] end.
Qed.

(** The socket is connected: the handshake is sent. *)
Lemma phase0_connect h ec w : calm (phase0 0) w → ends wiring (λ _, True) (call_connect h ec w).
Proof.
  intros Hw. destruct h as [host port]. cbn [call_connect]. unfold StartConnected_done.
  rewrite (bind_Ret _ _ _ _ _ (calm_worker _ w Hw)).
  assert (∀ io, phase0 0 io → phase0 1 io) as H01 by (intros io []; split; auto).
  destruct (ec_failed ec).
  { eapply ends_mono; [|by eapply calm_failed]. intros w1 Hw1. left. by eapply calm_mono. }
  unfold Connection_SendHandshake. rewrite (bind_Ret _ _ _ _ _ (calm_worker _ w Hw)).
  pose proof Hw as (Hio & _ & _). pose proof (phase0_pending _ _ Hio) as Hnone.
  apply (wired_idle _ _ _ _ _ (λ h, h = HandshakeSent) (λ h, h = HandshakeResponseReceived) (λ n, n ≤ 0)%nat)
    in Hio; [|done|done].
  apply (wired_send _ _ _ _ _ (λ n, n ≤ 1)%nat (λ n Hn, le_n_S _ _ Hn) (λ ps, ps = [NewHandshake handshake_json])
    (NewHandshake handshake_json) HandshakeSent) in Hio; [|done|by intros ps ->].
  eapply ends_mono; [|by eapply calm_zoom]. intros w1 ([Hs|Hs] & Hw1 & Hst); [right; left; by split_and!|].
  left. split_and!; [|done..]. apply H01. pose proof (wi_pending _ _ _ _ _ _ Hs) as Hn. cbn beta in Hn.
  revert Hs. apply wired_idle; [lia|done].
Qed.

(** The handshake is written: the response is waited for. *)
Lemma phase1_sent ec w :
  calm (phase1 0) w → ends (calm (phase1 1)) (λ _, True) (HandshakeSent_done ec w).
Proof.
  intros Hw. unfold HandshakeSent_done. destruct (ec_failed ec).
  { eapply ends_mono; [|by eapply calm_failed]. intros w1. apply calm_mono. intros io []. split; auto. }
  unfold Connection_ReceiveHandshakeResponse. rewrite (bind_Ret _ _ _ _ _ (calm_worker _ w Hw)).
  eapply calm_zoom; [done|]. destruct Hw as (Hio & _ & _).
  apply (wired_read _ _ _ (λ n, n ≤ 0)%nat); [lia|done..].
Qed.

Lemma wiring_calm1 w : calm (phase1 0) w → wiring w.
Proof. intros Hw. right; left. revert Hw. apply calm_mono. intros io []. split; auto. Qed.

(** A pure computation, for what follows it. *)
Lemma ends_pure {A B} (I : World → Prop) (m : M World A) (k : A → M World B) w :
  pure_comp m → no_throw m → (∀ a, ends I (λ _, True) (k a w)) → ends I (λ _, True) ((m ≫= k) w).
Proof.
  intros Hm Hn Hk. apply (ends_then (λ w', w' = w)); [done| |by intros a w' ->].
  destruct (m w) eqn:E; simpl; [by eapply Hm|by apply Hn in E|done].
Qed.

(** The response is read: the ack is sent. *)
Lemma phase1_response ec packets w :
  calm (phase1 0) w → ends wiring (λ _, True) (HandshakeResponseReceived_done ec packets w).
Proof.
  intros Hw.
  assert (∀ ec, ends wiring (λ _, True) (Connection_HandshakeFailed ec w)) as Hfailed.
  { intros ec'. eapply ends_mono; [apply wiring_calm1|by eapply calm_failed]. }
  assert (∀ ec, ends wiring (λ _, True) (Connection_ConnectionError ec w)) as Herror.
  { intros ec'. erewrite calm_error by done. by apply wiring_calm1. }
  unfold HandshakeResponseReceived_done. destruct (ec_failed ec); [done|].
  apply ends_pure; [apply pure_assert|apply no_throw_assert|intros _]. case_match; [done|].
  apply ends_pure; [apply pure_vec_at|apply no_throw_vec_at|intros packet]. case_match; [done|].
  apply ends_pure; [apply pure_handshake_text|apply no_throw_handshake_text|intros [text|]]; [|done].
  rewrite SendHandshakeAck_eq. destruct (read_handshake text) as [| |n s d]; [done|done|].
  pose proof Hw as (Hio & _ & _). assert (pending_ops (w_io w) = 0%nat) as Hnone.
  { apply wi_pending in Hio. cbn beta in Hio. lia. }
  apply (wired_idle _ _ _ _ _ (λ h, h ≠ HandshakeSent) (λ h, h = PacketsReceived) (λ n, n ≤ 0)%nat)
    in Hio; [|done|done].
  apply (wired_send _ _ _ _ _ (λ _, True) (λ _ _, I) opened NewHandshakeAck (HandshakeAckSent n s d))
    in Hio; [|done|intros ps ->; by exists []].
  eapply ends_mono; [|by eapply calm_zoom].
  intros w1 ([Hs|Hs] & Hw1 & Hst); [right; right; split; [done|by rewrite Hst]|].
  apply wiring_calm1. split_and!; [|done..]. pose proof (wi_pending _ _ _ _ _ _ Hs) as Hn. cbn beta in Hn.
  revert Hs. apply wired_idle; lia.
Qed.

(** *** The steps *)

Definition timeouts_only (w : World) : Prop :=
  ∀ f, CbHeartbeatTimeout f ∈ ts_given (w_timers w) → f = HeartbeatTimedOut.

Lemma phase0_step nc l w :
  calm (phase0 nc) (set_thread WorkerThread w) → timeouts_only w → enabled w l → is_client l = false →
  (∃ i ec, l = LConnectDone i ec) ∨ ends (calm (phase0 nc)) (λ _, True) (action l w).
Proof.
  intros Hw Hgiven Hen Hc. pose proof Hw as ([_ Hp Hs Hr _ _] & _ & _). simpl in Hp, Hs, Hr.
  destruct l as [| | |i|i|i ec nw|i ec data|i ec|t cb ec s]; try done; [right| | | |by left; eauto|right].
  - by apply calm_step; [| |left|].
  - destruct Hen as [h Hi]. by pose proof (Forall_lookup_1 _ _ _ _ Hp Hi).
  - destruct Hen as [op Hi]. by pose proof (Forall_lookup_1 _ _ _ _ Hs Hi).
  - destruct Hen as (_ & op & Hi & _). by pose proof (Forall_lookup_1 _ _ _ _ Hr Hi).
  - apply calm_step; [done|done|right; by do 4 eexists|done].
Qed.

Lemma phase0_connected i ec w :
  calm (phase0 1) (set_thread WorkerThread w) → enabled w (LConnectDone i ec) →
  ends wiring (λ _, True) (action (LConnectDone i ec) w).
Proof.
  intros Hw [op Hi]. take_item Hi.
  assert (calm (phase0 0) (set_io (set_connects (delete i (io_connects (w_io w))) (w_io w))
    (set_thread WorkerThread w))) as Hw'.
  { apply (calm_set_io _ _ _ _ Hw). destruct Hw as ([Hh Hp Hs Hr Ht Hn] & _ & _). split; try done.
    cbn [io_connects set_connects]. simpl in Hn. rewrite length_delete by done. lia. }
  unfold Connect_done. destruct (ec_failed ec); by apply phase0_connect.
Qed.

(** With one thing under way, taking it leaves none. *)
Lemma phase1_taken (io io' : ConnIO) :
  phase1 1 io → handed io' = handed io → (pending_ops io' < pending_ops io)%nat →
  io_connects io' = io_connects io → phase1 0 io'.
Proof.
  intros [Hh Hp Hs Hr Ht Hn] Hhanded Hlt Hc. cbn beta in Ht. unfold pending_ops in *.
  destruct (io_posted io') eqn:E1, (io_sends io') eqn:E2, (io_receives io') eqn:E3; simpl in Hlt; try lia.
  split; rewrite ?E1, ?E2, ?E3, ?Hc, ?Hhanded; try done. unfold pending_ops. rewrite E1, E2, E3. simpl. lia.
Qed.

Lemma phase1_step l w :
  calm (phase1 1) (set_thread WorkerThread w) → timeouts_only w → enabled w l → is_client l = false →
  ends wiring (λ _, True) (action l w).
Proof.
  intros Hw Hgiven Hen Hc. pose proof Hw as (Hio & _ & _). pose proof Hio as [_ Hp Hs Hr _ Hn].
  simpl in Hio, Hp, Hs, Hr, Hn.
  assert (∀ {A} (o : outcome World A), ends (calm (phase1 1)) (λ _, True) o → ends wiring (λ _, True) o) as Hends.
  { intros A o. apply ends_mono. by right; left. }
  destruct l as [| | |i|i|i ec nw|i ec data|i ec|t cb ec s]; try done.
  - by apply Hends, calm_step; [| |left|].
  - destruct Hen as [h Hi]. take_item Hi. apply Hends.
    pose proof (Forall_lookup_1 _ _ _ _ Hp Hi) as Hh.
    assert (phase1 0 (set_posted (delete i (io_posted (w_io w))) (w_io w))) as Hio'.
    { apply (phase1_taken _ _ Hio); [done| |done]. apply lookup_lt_Some in Hi as Hlt.
      unfold pending_ops. simpl. rewrite length_delete by done. lia. }
    apply (calm_zoom (phase1 0)); [by apply (calm_set_io _ _ _ _ Hw)|].
    by apply (wired_send_next _ _ _ (λ n, n ≤ 0)%nat _ _ (λ n Hn, le_n_S _ _ Hn)).
  - destruct Hen as [op Hi]. take_item Hi. apply Hends.
    pose proof (Forall_lookup_1 _ _ _ _ Hs Hi) as Hh. cbn beta in Hh. rewrite Hh.
    assert (phase1 0 (set_sends (delete i (io_sends (w_io w))) (w_io w))) as Hio'.
    { apply (phase1_taken _ _ Hio); [done| |done]. apply lookup_lt_Some in Hi as Hlt.
      unfold pending_ops. simpl. rewrite length_delete by done. lia. }
    assert (∀ ec', ends (calm (phase1 1)) (λ _, True) (call_send HandshakeSent ec'
      (set_io (set_sends (delete i (io_sends (w_io w))) (w_io w)) (set_thread WorkerThread w)))) as Hcall.
    { intros ec'. apply phase1_sent. by apply (calm_set_io _ _ _ _ Hw). }
    unfold SendNextPacket_done. destruct (ec_failed ec); [apply Hcall|].
    eapply ends_bind; [apply Hcall| |done]. intros [] w1 Hw1 _.
    apply (calm_zoom (phase1 1)); [done|]. apply wired_written, Hw1.
  - destruct Hen as (_ & op & Hi & _). take_item Hi.
    pose proof (Forall_lookup_1 _ _ _ _ Hr Hi) as Hh. cbn beta in Hh. rewrite Hh.
    apply (ends_completed_read (calm (phase1 0))).
    + intros s w1 Hs1 Hw1. apply (calm_set_io _ _ _ _ Hw1), wired_stream; [done|apply Hw1].
    + intros ec' packets w1 _ Hw1. by apply phase1_response.
    + intros w1 Hw1. apply Hends, (calm_zoom (phase1 0)); [done|].
      by apply (wired_read _ _ _ (λ n, n ≤ 0)%nat _ _ (λ n Hn, le_n_S _ _ Hn)), Hw1.
    + apply (calm_set_io _ _ _ _ Hw), (phase1_taken _ _ Hio); [done| |done]. apply lookup_lt_Some in Hi as Hlt.
      unfold pending_ops. simpl. rewrite length_delete by done. lia.
  - destruct Hen as [op Hi]. destruct (io_connects (w_io w)); [done|simpl in Hn; lia].
  - apply Hends, calm_step; [done|done|right; by do 4 eexists|done].
Qed.

(** Between two steps, whichever thread ran last. *)
Definition wiring_ok (ls : list label) (w : World) : Prop :=
  wiring (set_thread WorkerThread w) ∧
  (count_labels is_start ls = 0%nat → calm (phase0 0) (set_thread WorkerThread w)).

Lemma wiring_frame w w1 :
  w_io w1 = w_io w → w_state w1 = w_state w → w_thread w1 = w_thread w →
  w_workerThreadId w1 = w_workerThreadId w → wiring w → wiring w1.
Proof.
  unfold wiring, calm, locked_is, on_worker. by intros -> -> -> ->.
Qed.

Lemma wiring_worker w : wiring w → w_thread w = WorkerThread.
Proof. by intros [(_ & [? _] & _)|[(_ & [? _] & _)|[[_ [? _]] _]]]. Qed.

Lemma set_thread_self w : set_thread (w_thread w) w = w.
Proof. by destruct w. Qed.

Lemma wiring_ok_client ls l w w' :
  ordinary (ls ++ [l]) → is_client l = true → action l w = Ret tt w' →
  wiring_ok ls w → wiring_ok (ls ++ [l]) w'.
Proof.
  intros [Hone _] Hc E [Hw Hstart]. unfold wiring_ok. rewrite count_labels_snoc in Hone |- *.
  destruct l as [address|l'|r d t h| | | | | |]; try done; simpl in Hone.
  - split; [|simpl; lia]. assert (calm (phase0 0) (set_thread WorkerThread w)) as Hcalm by (apply Hstart; lia).
    left. apply start_Ret in E as [->|[op ->]].
    + revert Hcalm. apply calm_mono. intros io []. split; auto.
    + apply (calm_set_io _ _ _ _ Hcalm), wired_call; [done|].
      destruct Hcalm as ([Hh Hp Hs Hr Ht Hn] & _ & _). split; try done.
      cbn [io_connects set_connects]. simpl in Hn. rewrite length_app. simpl. lia.
  - injection E as <-. split; [by apply (wiring_frame (set_thread WorkerThread w))|].
    intros Hnum. by apply Hstart; simpl in Hnum; lia.
  - injection E as <-. split; [by apply (wiring_frame (set_thread WorkerThread w))|].
    intros Hnum. by apply Hstart; simpl in Hnum; lia.
Qed.

Lemma wiring_ok_worker ls l w w' :
  timeouts_only w → enabled w l → accounts_ok w l → is_client l = false → action l w = Ret tt w' →
  wiring_ok ls w → wiring_ok (ls ++ [l]) w'.
Proof.
  intros Hgiven Hen Hok Hc E [Hw Hstart]. unfold wiring_ok. rewrite count_labels_snoc.
  assert (ends wiring (λ _, True) (action l w)) as He.
  { destruct Hw as [Hw|[Hw|Hw]].
    - destruct (phase0_step _ l w Hw) as [(i & ec & ->)|He]; [done..|by apply phase0_connected|].
      revert He. apply ends_mono. by left.
    - by apply phase1_step.
    - eapply ends_mono; [|by apply active_step]. by right; right. }
  rewrite E in He. simpl in He. pose proof (wiring_worker _ He) as Hthread.
  rewrite <- Hthread, set_thread_self. split; [done|]. intros Hnum.
  destruct (phase0_step 0 l w) as [(i & ec & ->)|He0]; [by apply Hstart; destruct (is_start l); lia|done..| |].
  - destruct Hen as [op Hi]. destruct Hstart as ([_ _ _ _ _ Hn] & _ & _); [destruct (is_start _); simpl in *; lia|].
    simpl in Hn. destruct (io_connects (w_io w)); [done|simpl in Hn; lia].
  - by rewrite E in He0.
Qed.

Lemma wiring_steps ls w : ordinary ls → steps initial ls w → wiring_ok ls w.
Proof.
  revert ls w. apply ordinary_trace_ind.
  - assert (∀ nc, phase0 nc (StreamIO_new 2048 : ConnIO)) as Hnew.
    { intros nc. split; try done; [|simpl; lia]. exists []. split; [by exists []|done]. }
    split; [left|intros _]; by split_and!.
  - intros ls address w [Hone _] [Hw Hstart]. unfold wiring_ok. rewrite count_labels_snoc in Hone |- *.
    simpl in Hone. split; [done|simpl; lia].
  - intros ls l w w' Hord Hs Hen Hok E Hw. destruct (is_client l) eqn:Hc; [by eapply wiring_ok_client|].
    destruct (timed_steps ls w (ordinary_prefix _ _ Hord) Hs) as ([_ _ Hgiven] & _).
    by eapply wiring_ok_worker.
Qed.

Lemma opened_session ps : opened ps → session ps.
Proof. intros (qs & -> & Hqs). by constructor. Qed.

(** C7: the client's side of the protocol. In every execution the bytes given to the socket
    are the frames of packets which, with those still queued, are the start of a session: one
    handshake, then one ack, then only heartbeats and requests, each request being the flag,
    an encoded id and the code of a route; of an established connection the handshake and
    the ack have been taken. Every body consists of bytes and is short enough for the three
    bytes of the length. *)
Theorem wire_typed ls w :
  ordinary ls → steps initial ls w →
  ∃ sent, sent_buffers (w_io w) = frame <$> sent ∧
    session (sent ++ packetSendQueue (io_stream (w_io w))) ∧
    Forall sendable (sent ++ packetSendQueue (io_stream (w_io w))) ∧
    (IsConnected (w_state w) = true → opened (sent ++ packetSendQueue (io_stream (w_io w)))).
Proof.
  intros Hord Hs. destruct (wiring_steps ls w Hord Hs) as [Hw _].
  assert (∃ ps, handed (w_io w) ps ∧ session ps ∧ (IsConnected (w_state w) = true → opened ps))
    as (ps & (sent & Hb & ->) & Hps & Hc).
  { destruct Hw as [([(ps & Hh & ->) _ _ _ _ _] & _ & Hst)|[([(ps & Hh & ->) _ _ _ _ _] & _ & Hst)|Hw]].
    - exists []. simpl in Hst. rewrite Hst. split_and!; [done|constructor|done].
    - eexists. simpl in Hst. rewrite Hst. split_and!; [done|constructor|done].
    - destruct (active_io _ Hw) as [(ps & Hh & Hps) _ _ _ _ _]. exists ps.
      split_and!; [done|by apply opened_session|done]. }
  exists sent. split_and!; [done|done|by apply session_sendable|done].
Qed.
End wire.
