(* ===== verification/Session.v ===== *)
(** * Sessions: the parts at work together

    Two executions of the whole client, for all inputs: a handshake that succeeds, from the
    call of [Connect] to the event Connected, and a request on an established connection,
    from the call of [Request] to the call of its handler. The server's bytes may come in any
    pieces. Both are built from two lemmas: what happens when a packet is sent, and what
    happens when the pieces of one are received. *)

From S2P Require Import Prelude Outcome Net Errors Events Gzip Message Packet ReadBuffer.
From S2P Require Import TcpPacketStream ConnState Json Connection Client System Stream Receive Flow Frame.
From S2P Require Import Handlers Invariants Safety Lifecycle Requests Heartbeat.

Section session.
Context `{BuildMode, BoostMessages, Zlib, Allocator, RapidJson, Resolver, DecompressFuel}.
Context `{!TimerService ConnTimerCb, !UnorderedIteration}.

Lemma steps_one w l w' : enabled w l → action l w = Ret tt w' → steps w [l] w'.
Proof. intros Hen E. eapply (steps_cons w l); [by apply step_return|constructor]. Qed.

(** ** Sending one packet *)

(** The stream when the send is over: its bytes are forgotten. *)
Definition written (id : Z) (io : ConnIO) : ConnIO :=
  set_stream (set_writeBuffers (delete id (writeBuffers (io_stream io))) (writeId (io_stream io))
    (io_stream io)) io.

(** The packet on its way, its completion taken out of the pending ones. *)
Definition sending (p : Packet) (h : SendHandler) (io : ConnIO) : ConnIO :=
  set_sends [] (sent_next p [] h (set_posted [] io)).

Lemma send_cycle h p n w (Q : World → Prop) :
  io_posted (w_io w) = [h] → packetSendQueue (io_stream (w_io w)) = [p] → io_sends (w_io w) = [] →
  writeBuffers (io_stream (w_io w)) = ∅ →
  (∃ w2, call_send h ec_success (set_io (sending p h (w_io w)) (set_thread WorkerThread w)) = Ret tt w2 ∧
     Q (set_io (written (writeId (io_stream (w_io w))) (w_io w2)) w2)) →
  ∃ w', steps w [LSendNext 0; LSendDone 0 ec_success n] w' ∧ Q w'.
Proof.
  intros Hp Hq Hs Hb (w2 & E2 & HQ). eexists. split; [|exact HQ].
  set (w1 := set_io (sent_next p [] h (set_posted [] (w_io w))) (set_thread WorkerThread w)).
  apply (steps_cons w _ w1).
  - apply step_return; [by simpl; rewrite Hp|].
    assert (io_posted (w_io (set_thread WorkerThread w)) !! 0%nat = Some h) as Hi by (simpl; by rewrite Hp).
    take_item Hi. unfold zoom. cbn [view lens_io w_io set_io set_thread]. rewrite Hp. cbn [delete list_delete].
    pose proof (SendNextPacket_spec h (set_posted [] (w_io w)) p []) as E.
    cbn [io_stream set_posted] in E. specialize (E Hq). rewrite Hb, lookup_empty in E.
    change (delete 0%nat [h]) with (@nil SendHandler). rewrite E. done.
  - apply steps_one; [by simpl; rewrite Hs|].
    assert (io_sends (w_io (set_thread WorkerThread w1)) !! 0%nat =
      Some {| so_buffer := frame p; so_id := writeId (io_stream (w_io w)); so_handler := h |}) as Hi.
    { simpl. by rewrite Hs. }
    take_item Hi. unfold SendNextPacket_done. rewrite ec_failed_success. cbn [so_handler so_id].
    match goal with |- (?m ≫= _) ?w0 = _ => assert (m w0 = Ret tt w2) as E end.
    { rewrite <- E2. f_equal. unfold w1, sending. simpl. rewrite Hs. done. }
    run E. done.
Qed.

(** ** Receiving one packet *)

(** A read is outstanding, for [h]; [pending] has been received of the next packet. *)
Record listening (h : ReceiveHandler) (pending : list Z) (io : ConnIO) : Prop := {
  li_buffer : buffer_wf (io_stream io);
  li_valid : valid_bytes (io_stream io) = pending;
  li_read : io_receives io =
    [{| ro_offset := readBufferHead (io_stream io);
        ro_size := readBufferSize (io_stream io) - readBufferHead (io_stream io);
        ro_handler := h |}];
}.

Definition is_read (c : SocketCall) : bool := match c with CallReceive _ => true | _ => false end.

(** The calls of the socket, but for those that ask for bytes. *)
Definition spoken (io : ConnIO) : list SocketCall := filter (λ c, is_read c = false) (io_calls io).

(** Only the read buffer and the reads differ. *)
Record only_read (io io' : ConnIO) : Prop := {
  or_queue : packetSendQueue (io_stream io') = packetSendQueue (io_stream io);
  or_buffers : writeBuffers (io_stream io') = writeBuffers (io_stream io);
  or_id : writeId (io_stream io') = writeId (io_stream io);
  or_max : readBufferMaxSize (io_stream io') = readBufferMaxSize (io_stream io);
  or_posted : io_posted io' = io_posted io;
  or_sends : io_sends io' = io_sends io;
  or_connects : io_connects io' = io_connects io;
  or_ignored : io_ignored io' = io_ignored io;
  or_calls : spoken io' = spoken io;
}.

#[export] Instance only_read_preorder : PreOrder only_read.
Proof.
  split.
  - intros io. by split.
  - intros io1 io2 io3 [] []. split; congruence.
Qed.

(** One more read, after the parser has left [pending]. *)
Lemma read_again h s io :
  buffer_wf s → packetSendQueue s = packetSendQueue (io_stream io) →
  writeBuffers s = writeBuffers (io_stream io) → writeId s = writeId (io_stream io) →
  readBufferMaxSize s = readBufferMaxSize (io_stream io) →
  ∃ io', ReceivePackets h (set_stream s (set_receives [] io)) = Ret tt io' ∧
    listening h (valid_bytes s) io' ∧ only_read io io'.
Proof.
  intros Hwf Hq Hb Hid Hmax. rewrite ReceivePackets_Ret by exact Hwf.
  eexists. split; [done|]. split; [by split|].
  split; simpl; try done. unfold spoken. simpl. by rewrite filter_app, app_nil_r.
Qed.

Definition receive_labels (chunks : list (list Z)) : list label :=
  LReceiveDone 0 ec_success <$> chunks.

(** What the parser changes of the stream. *)
Lemma parse_frames_only s ps rest :
  buffer_wf s → valid_bytes s = frames ps ++ rest → Forall receivable ps → incomplete rest →
  ∃ b, ParsePacketsFromReadBuffer s = Ret ps (set_readBuffer (Z.of_nat (length rest)) b s) ∧
    buffer_wf (set_readBuffer (Z.of_nat (length rest)) b s) ∧
    valid_bytes (set_readBuffer (Z.of_nat (length rest)) b s) = rest.
Proof.
  intros Hwf Hvalid Hps Hinc.
  destruct (parse_frames s ps rest Hwf Hvalid Hps Hinc) as (s' & E & Hwf' & Hv & Hh & _).
  pose proof (parse_safe s Hwf) as Hsafe. rewrite E in Hsafe. destruct Hsafe as (_ & _ & b & Hs').
  rewrite Hh in Hs'. exists b. rewrite <- Hs'. by split_and!.
Qed.

(** The completion of a read, on a well-formed stream with room for the bytes. *)
Lemma receive_step h pending data w packets rest :
  listening h pending (w_io w) → bytes_wf data → data ≠ [] →
  Z.of_nat (length data) ≤ readBufferSize (io_stream (w_io w)) - readBufferHead (io_stream (w_io w)) →
  pending ++ data = frames packets ++ rest → Forall receivable packets → incomplete rest →
  enabled w (LReceiveDone 0 ec_success data) ∧
  ∃ s, action (LReceiveDone 0 ec_success data) w =
      catch_pitaya
        (if Z.of_nat (length packets) =? 0 then zoom (W := World) (ReadToBuffer h)
         else call_receive h ec_success packets)
        (λ _, call_receive h (make_error_code InvalidPacketType) [])
        (set_io (set_stream s (set_receives [] (w_io w))) (set_thread WorkerThread w)) ∧
    buffer_wf s ∧ valid_bytes s = rest ∧
    packetSendQueue s = packetSendQueue (io_stream (w_io w)) ∧
    writeBuffers s = writeBuffers (io_stream (w_io w)) ∧
    writeId s = writeId (io_stream (w_io w)) ∧
    readBufferMaxSize s = readBufferMaxSize (io_stream (w_io w)).
Proof.
  intros [Hwf Hv Hr] Hdata Hne Hroom Hsplit Hps Hinc.
  split; [split; [done|]; by rewrite Hr; eexists|].
  destruct (wrote_wf data _ Hwf Hdata Hroom) as [Hwf1 Hv1]. rewrite Hv, Hsplit in Hv1.
  destruct (parse_frames_only _ _ _ Hwf1 Hv1 Hps Hinc) as (b & Eparse & Hwf2 & Hv2).
  eexists. split; [|by split_and!].
  assert (io_receives (w_io (set_thread WorkerThread w)) !! 0%nat = Some
    {| ro_offset := readBufferHead (io_stream (w_io w));
       ro_size := readBufferSize (io_stream (w_io w)) - readBufferHead (io_stream (w_io w));
       ro_handler := h |}) as Hi by (simpl; by rewrite Hr).
  take_item Hi. cbn [ro_offset ro_handler].
  set (w1 := set_io _ _).
  pose proof (ReadToBuffer_done_eq (SH := SendHandler) (CH := ConnectHandler) (EP := Endpoints)
    call_receive h ec_success data w1) as E.
  cbv zeta in E. change (io_stream (view w1)) with (io_stream (w_io w)) in E.
  rewrite E by (done || by right). rewrite Eparse. unfold catch_pitaya.
  assert (with_stream (set_readBuffer (Z.of_nat (length rest)) b (wrote data (io_stream (w_io w)))) w1 =
    set_io (set_stream (set_readBuffer (Z.of_nat (length rest)) b (wrote data (io_stream (w_io w))))
      (set_receives [] (w_io w))) (set_thread WorkerThread w)) as Ew.
  { unfold w1, with_stream. simpl. by rewrite Hr. }
  rewrite Ew. done.
Qed.

(** The last piece of a packet hands it to [h]. *)
Lemma receive_last h p pending c w (Q : World → Prop) :
  listening h pending (w_io w) → receivable p → bytes_wf c → c ≠ [] → pending ++ c = frame p →
  Z.of_nat (length c) ≤ readBufferSize (io_stream (w_io w)) - readBufferHead (io_stream (w_io w)) →
  (∀ io, only_read (w_io w) io → io_receives io = [] → buffer_wf (io_stream io) →
     valid_bytes (io_stream io) = [] →
     ∃ w3, call_receive h ec_success [p] (set_io io (set_thread WorkerThread w)) = Ret tt w3 ∧ Q w3) →
  ∃ w3, steps w (receive_labels [c]) w3 ∧ Q w3.
Proof.
  intros Hl Hp Hcwf Hc Hbytes Hroom HQ.
  destruct (receive_step h pending c w [p] [] Hl Hcwf Hc Hroom)
    as (Hen & s & E & Hs & Hv & Hq & Hb & Hid & Hmax);
    [by rewrite Hbytes; simpl; rewrite !app_nil_r|by constructor|done|].
  destruct (HQ (set_stream s (set_receives [] (w_io w)))) as (w3 & E3 & HQ3); [by split|done..|].
  exists w3. split; [|done]. apply steps_one; [done|]. rewrite E. unfold catch_pitaya.
  match goal with |- match ?m ?w0 with _ => _ end = _ => assert (m w0 = Ret tt w3) as -> by exact E3 end.
  done.
Qed.

(** After any other piece there is another read. *)
Lemma receive_more h pending c w :
  listening h pending (w_io w) → bytes_wf c → c ≠ [] → incomplete (pending ++ c) →
  Z.of_nat (length c) ≤ readBufferSize (io_stream (w_io w)) - readBufferHead (io_stream (w_io w)) →
  ∃ io, step w (LReceiveDone 0 ec_success c) (set_io io (set_thread WorkerThread w)) ∧
    listening h (pending ++ c) io ∧ only_read (w_io w) io.
Proof.
  intros Hl Hcwf Hc Hinc Hroom.
  destruct (receive_step h pending c w [] (pending ++ c) Hl Hcwf Hc Hroom)
    as (Hen & s & E & Hs & Hv & Hq & Hb & Hid & Hmax); [done|constructor|done|].
  destruct (read_again h s (w_io w) Hs Hq Hb Hid Hmax) as (io & Eio & Hl2 & Honly). rewrite Hv in Hl2.
  exists io. split; [|done]. apply step_return; [done|]. rewrite E. unfold catch_pitaya.
  match goal with |- match ?m ?w0 with _ => _ end = _ =>
    assert (m w0 = Ret tt (set_io io (set_thread WorkerThread w))) as -> end; [|done].
  change (Z.of_nat (length (@nil Packet)) =? 0) with true. cbv iota. unfold zoom.
  match goal with |- context [ReadToBuffer h ?x] => change (ReadToBuffer h x) with
    (ReceivePackets h (set_stream s (set_receives [] (w_io w))) : outcome ConnIO unit) end.
  by rewrite Eio.
Qed.

(** The pieces of a packet. *)
Lemma receive_packet h p chunks w (Q : World → Prop) :
  listening h [] (w_io w) → receivable p →
  Z.of_nat (length (frame p)) ≤ readBufferMaxSize (io_stream (w_io w)) →
  Forall (λ c, c ≠ []) chunks → concat chunks = frame p →
  (∀ io, only_read (w_io w) io → io_receives io = [] → buffer_wf (io_stream io) →
     valid_bytes (io_stream io) = [] →
     ∃ w3, call_receive h ec_success [p] (set_io io (set_thread WorkerThread w)) = Ret tt w3 ∧ Q w3) →
  ∃ w3, steps w (receive_labels chunks) w3 ∧ Q w3.
Proof.
  intros Hl Hp Hfit Hne Hconcat HQ.
  assert (∀ pending t io, listening h pending io → only_read (w_io w) io →
    chunks ≠ [] → pending ++ concat chunks = frame p →
    ∃ w3, steps (set_io io (set_thread t w)) (receive_labels chunks) w3 ∧ Q w3) as Hall.
  2: { specialize (Hall [] (w_thread w) (w_io w) Hl ltac:(done) ltac:(by intros ->) Hconcat). by destruct w. }
  clear Hl Hconcat. induction Hne as [|c chunks Hc Hne IH]; [done|].
  intros pending t io Hl Honly _ Hbytes. simpl in Hbytes.
  pose proof (frame_bytes_wf _ Hp) as Hwf. rewrite <- Hbytes, app_assoc in Hwf.
  apply Forall_app in Hwf as [[_ Hcwf]%Forall_app _].
  assert (Z.of_nat (length c) ≤ readBufferSize (io_stream io) - readBufferHead (io_stream io)) as Hroom.
  { destruct Hl as [Hb Hv _]. rewrite (buffer_size _ Hb), (or_max _ _ Honly).
    destruct (buffer_split _ [] pending (buffer_head _ Hb) Hv) as (Hh & _). simpl in Hh.
    apply (f_equal length) in Hbytes. rewrite !length_app in Hbytes. lia. }
  destruct (decide (chunks = [])) as [->|Hmore].
  - simpl in Hbytes. rewrite app_nil_r in Hbytes. apply (receive_last h p pending); try done.
    intros io' Honly'. apply HQ. by etrans.
  - destruct (receive_more h pending c (set_io io (set_thread t w))) as (io2 & Hstep & Hl2 & Honly2); try done.
    { apply (strict_prefix_incomplete p _ (concat chunks)); [done|by rewrite <- app_assoc|].
      destruct Hne as [|c' chunks Hc' _]; [done|]. by destruct c'. }
    destruct (IH (pending ++ c) WorkerThread io2 Hl2) as (w3 & Hs3 & HQ3); [by etrans|done|by rewrite <- app_assoc|].
    exists w3. split; [|done]. by eapply steps_cons.
Qed.

(** ** A request and its answer *)

(** A connection with nothing under way but the read of the next packet, and any requests in
    flight. *)
Record resting (st : StateType HeartbeatFn) (w : World) : Prop := {
  es_state : w_state w = State_new st;
  es_worker : w_workerThreadId w = Some WorkerThread;
  es_requests : w_posted w = [];
  es_posted : io_posted (w_io w) = [];
  es_queue : packetSendQueue (io_stream (w_io w)) = [];
  es_sends : io_sends (w_io w) = [];
  es_buffers : writeBuffers (io_stream (w_io w)) = ∅;
  es_max : readBufferMaxSize (io_stream (w_io w)) = 2048;
  es_listening : listening PacketsReceived [] (w_io w);
}.
Definition established (c : Connected HeartbeatFn) : World → Prop := resting (ConnectedState c).

Lemma SendPacket_empty p h (io : ConnIO) :
  packetSendQueue (io_stream io) = [] →
  SendPacket p h io = Ret tt (set_posted (io_posted io ++ [h])
    (set_stream (set_packetSendQueue [p] (io_stream io)) io)).
Proof.
  intros Hq. pose proof (SendPacket_spec p h io) as E. cbv zeta in E. rewrite Hq in E.
  rewrite decide_True in E by (simpl; lia). exact E.
Qed.

(** A read that is outstanding stays so when the queue and the write buffers change. *)
Lemma listening_ext h pending (io io' : ConnIO) :
  readBufferHead (io_stream io') = readBufferHead (io_stream io) →
  readBuffer (io_stream io') = readBuffer (io_stream io) →
  readBufferMaxSize (io_stream io') = readBufferMaxSize (io_stream io) →
  io_receives io' = io_receives io → listening h pending io → listening h pending io'.
Proof.
  intros Hh Hb Hm Hr [[] Hv Hread]. unfold valid_bytes, readBufferSize in *.
  split; unfold valid_bytes; [split| |]; unfold readBufferSize in *; by rewrite ?Hh, ?Hb, ?Hm, ?Hr.
Qed.

(** The packet of a response, on an established connection: the request it answers is gone,
    its handler has been called, and the next read is started. *)
Lemma response_received c w flag id bs payload r :
  st_val (w_state w) = ConnectedState c → 0 ≤ id < 2 ^ 64 →
  Z.land (Z.shiftr flag 1) kMessageTypeMask = 2 → Z.land flag kMessageGzipMask = 0 →
  (∀ w' : World, encode_id id w' = Ret bs w') → w_inFlight w !! id = Some r →
  call_receive PacketsReceived ec_success [NewData_bytes (flag :: bs ++ payload)] w =
    zoom (W := World) (ReceivePackets PacketsReceived)
      (answered id r (if Z.testbit flag 5 then StatusServerError else StatusOk) payload w).
Proof.
  intros Hst Hid Hty Hgz Hbs Hr. cbn [call_receive]. unfold PacketsReceived_done.
  rewrite ec_failed_success.
  rewrite (bind_Ret _ _ _ _ _ (cpp_assert_true "packets.size() == 1"
    (Z.of_nat (length [NewData_bytes (flag :: bs ++ payload)]) =? 1) w eq_refl)).
  assert (Connection_ProcessPacket (NewData_bytes (flag :: bs ++ payload)) w =
    Ret tt (answered id r (if Z.testbit flag 5 then StatusServerError else StatusOk) payload w)) as E.
  { unfold Connection_ProcessPacket. cbn [pkt_type pkt_body NewData_bytes].
    rewrite (bind_Ret _ _ _ _ _ (get_state_Ret w)). unfold IsConnected. rewrite Hst. cbn [negb].
    run (Deserialize_response zlib_fuel flag id bs payload (codeToRoute c) w Hty Hgz Hid (Hbs w)).
    rewrite ProcessMessage_Ret by done. cbn [msg_id msg_error msg_data]. by rewrite Hr. }
  cbn [for_each]. rewrite bind_assoc. run E. done.
Qed.

(** The request has been sent and is in flight. *)
Definition in_flight (w w1 : World) (c : Connected HeartbeatFn) (r : Request) (body : list Z) : Prop :=
  established c w1 ∧ w_listeners w1 = w_listeners w ∧ w_trace w1 = w_trace w ∧ w_reqId w1 = u64 (w_reqId w + 1) ∧
  w_inFlight w1 = <[w_reqId w := r]> (w_inFlight w) ∧
  spoken (w_io w1) = spoken (w_io w) ++ [CallSend (frame {| pkt_type := PT_Data; pkt_body := body |})].

Lemma request_sent c w route code data timeout h n :
  established c w → routeToCode c !! route = Some code →
  0 ≤ w_reqId w < 2 ^ 64 → w_inFlight w !! w_reqId w = None →
  ∃ bs timer w1, (∀ w' : World, encode_id (w_reqId w) w' = Ret bs w') ∧
    steps w [LRequest route data timeout h; LRunRequest 0; LSendNext 0; LSendDone 0 ec_success n] w1 ∧
    in_flight w w1 c {| req_handler := h; req_timer := timer |} (request_body bs code).
Proof.
  intros [Hst Hwk Hreq Hpost Hq Hs Hb Hmax Hl] Hcode Hid Hfree.
  set (pr := {| pr_route := route; pr_data := data; pr_timeout := timeout; pr_handler := h |}).
  set (w1 := set_requests [pr] (set_thread ClientThread w)).
  set (w2 := set_requests [] (set_thread WorkerThread w1)).
  destruct (PostRequest_run_connected pr w2 c code) as (bs & Hbs & Erun);
    [done|done|simpl; by rewrite Hst|done|].
  set (p := {| pkt_type := PT_Data; pkt_body := request_body bs code |}) in *.
  set (msg := Message_NewRequest (w_reqId w) route data).
  set (io3 := set_posted [RequestSent timeout msg h]
    (set_stream (set_packetSendQueue [p] (io_stream (w_io w))) (w_io w))).
  set (w3 := set_io io3 (set_reqId (u64 (w_reqId w + 1)) w2)).
  destruct (send_cycle (RequestSent timeout msg h) p n w3
    (λ w4, in_flight w w4 c {| req_handler := h; req_timer := (ts_new (w_timers w)).1 |} (request_body bs code)))
    as (w4 & Hs4 & HQ); [done..| |].
  - eexists. split; [by apply RequestSent_done_Ret|].
    split_and!; try done; [|unfold spoken; simpl; by rewrite filter_app].
    split; simpl; try done; [by rewrite Hb, delete_insert_id|].
    eapply listening_ext; [..|exact Hl]; done.
  - exists bs, (ts_new (w_timers w)).1, w4. split; [done|]. split; [|done].
    eapply (steps_cons _ _ w1); [|eapply (steps_cons _ _ w3); [|exact Hs4]].
    + apply step_return; [done|]. transitivity
        (Ret (W := World) tt (set_requests (w_posted w ++ [pr]) (set_thread ClientThread w)));
        [done|by rewrite Hreq].
    + apply step_return; [by simpl|].
      assert (w_posted (set_thread WorkerThread w1) !! 0%nat = Some pr) as Hi by done.
      take_item Hi. change (set_requests _ _) with w2. rewrite Erun. unfold zoom.
      rewrite SendPacket_empty by done. unfold w3, io3. simpl. by rewrite Hpost.
Qed.

(** The bytes of an answer: the flag, the id in base 128, the payload. *)
Definition response_packet (flag : Z) (id_bytes payload : list Z) : Packet :=
  NewData_bytes (flag :: id_bytes ++ payload).

(** An answer to a request in flight, in any pieces. *)
Lemma answer_received c w id r flag bs payload chunks :
  established c w → w_inFlight w !! id = Some r → 0 ≤ id < 2 ^ 64 →
  (∀ w' : World, encode_id id w' = Ret bs w') →
  Z.land (Z.shiftr flag 1) kMessageTypeMask = 2 → Z.land flag kMessageGzipMask = 0 →
  receivable (response_packet flag bs payload) →
  Z.of_nat (length (frame (response_packet flag bs payload))) ≤ 2048 →
  Forall (λ ch, ch ≠ []) chunks → concat chunks = frame (response_packet flag bs payload) →
  ∃ w', steps w (receive_labels chunks) w' ∧ established c w' ∧
    w_trace w' = w_trace w ++
      [HandlerCalled (req_handler r) (if Z.testbit flag 5 then StatusServerError else StatusOk) payload] ∧
    w_inFlight w' = delete id (w_inFlight w) ∧ w_reqId w' = w_reqId w ∧
    spoken (w_io w') = spoken (w_io w).
Proof.
  intros [Hst Hwk Hreq Hpost Hq Hs Hb Hmax Hl] Hr Hid Hbs Hty Hgz Hrec Hlen Hne Hcat.
  apply (receive_packet PacketsReceived (response_packet flag bs payload)); try done; [by rewrite Hmax|].
  intros io Honly Hnil Hwf Hv.
  set (w1 := set_io io (set_thread WorkerThread w)).
  set (w2 := answered id r (if Z.testbit flag 5 then StatusServerError else StatusOk) payload w1).
  pose proof (response_received c w1 flag id bs payload r) as E. unfold response_packet.
  rewrite E by (done || by simpl; rewrite Hst).
  destruct (read_again PacketsReceived (io_stream io) io Hwf eq_refl eq_refl eq_refl eq_refl)
    as (io' & Eio & Hl' & Honly').
  assert (set_stream (io_stream io) (set_receives [] io) = io) as Eself
    by (rewrite <- Hnil; by destruct io).
  rewrite Eself in Eio. exists (set_io io' w2). split.
  { unfold zoom. change (view (answered _ _ _ _ w1)) with io. by rewrite Eio. }
  pose proof (transitivity Honly Honly') as Hall. rewrite Hv in Hl'.
  split; [|split_and!; try done; apply (or_calls _ _ Hall)].
  destruct Hall. split; simpl; try done; congruence.
Qed.

(** C4: a request on an established connection, answered by the server, for every route that has a
    code, every data, handler and answer, and every way of cutting the answer into pieces: the
    posted closure runs, its packet is sent, the answer is received, and the connection is
    where it was but for this: the handler has been called once, with the status of the flag
    and with the payload of the answer; the next id is taken; and all that was asked of the
    socket, beside reads, is to send one frame, with the flag, the id and the code of the route. *)
Theorem request_answered c w route code data timeout h n flag bs payload chunks :
  established c w → routeToCode c !! route = Some code →
  0 ≤ w_reqId w < 2 ^ 64 → w_inFlight w !! w_reqId w = None →
  (∀ w' : World, encode_id (w_reqId w) w' = Ret bs w') →
  Z.land (Z.shiftr flag 1) kMessageTypeMask = 2 → Z.land flag kMessageGzipMask = 0 →
  receivable (response_packet flag bs payload) →
  Z.of_nat (length (frame (response_packet flag bs payload))) ≤ 2048 →
  Forall (λ ch, ch ≠ []) chunks → concat chunks = frame (response_packet flag bs payload) →
  ∃ w',
    steps w ([LRequest route data timeout h; LRunRequest 0; LSendNext 0; LSendDone 0 ec_success n]
             ++ receive_labels chunks) w' ∧
    established c w' ∧
    w_trace w' = w_trace w ++
      [HandlerCalled h (if Z.testbit flag 5 then StatusServerError else StatusOk) payload] ∧
    w_inFlight w' = w_inFlight w ∧ w_reqId w' = u64 (w_reqId w + 1) ∧
    spoken (w_io w') = spoken (w_io w)
      ++ [CallSend (frame {| pkt_type := PT_Data; pkt_body := request_body bs code |})].
Proof.
  intros Hest Hcode Hid Hfree Hbs Hty Hgz Hrec Hlen Hne Hcat.
  destruct (request_sent c w route code data timeout h n Hest Hcode Hid Hfree)
    as (bs' & timer & w1 & Hbs' & Hs1 & Hest1 & _ & Ht1 & Hid1 & Hf1 & Hc1).
  pose proof (Hbs w) as Eb. rewrite Hbs' in Eb. injection Eb as ->.
  destruct (answer_received c w1 (w_reqId w) {| req_handler := h; req_timer := timer |} flag bs payload chunks)
    as (w2 & Hs2 & Hest2 & Ht2 & Hf2 & Hid2 & Hc2); try done.
  { by rewrite Hf1, lookup_insert_eq. }
  exists w2. split_and!; try done; [by eapply steps_app|by rewrite Ht2, Ht1| |by rewrite Hid2|].
  - by rewrite Hf2, Hf1, delete_insert_id.
  - by rewrite Hc2, Hc1.
Qed.

(** ** The handshake *)

(** A connection that is not established, with nothing under way. *)
Record idle (w : World) : Prop := {
  id_state : w_state w = State_new InitedState;
  id_worker : w_workerThreadId w = Some WorkerThread;
  id_requests : w_posted w = [];
  id_posted : io_posted (w_io w) = [];
  id_queue : packetSendQueue (io_stream (w_io w)) = [];
  id_sends : io_sends (w_io w) = [];
  id_buffers : writeBuffers (io_stream (w_io w)) = ∅;
  id_max : readBufferMaxSize (io_stream (w_io w)) = 2048;
  id_connects : io_connects (w_io w) = [];
  id_receives : io_receives (w_io w) = [];
  id_buffer : buffer_wf (io_stream (w_io w));
  id_valid : valid_bytes (io_stream (w_io w)) = [];
}.

Lemma idle_initial ls : idle (set_listeners ls initial).
Proof. split; try done. apply (sy_stream 1 initial), system_wf_initial. Qed.

(** Between two of its sends the handshake has changed only the stream: [w] is where it
    started, [h] the completion and [p] the packet it has posted, if any. *)
Record handshaking (hp : list (SendHandler * Packet)) (said : list SocketCall) (w w' : World) : Prop := {
  ha_state : w_state w' = State_new InitedState;
  ha_worker : w_workerThreadId w' = Some WorkerThread;
  ha_requests : w_posted w' = [];
  ha_posted : io_posted (w_io w') = hp.*1;
  ha_queue : packetSendQueue (io_stream (w_io w')) = hp.*2;
  ha_sends : io_sends (w_io w') = [];
  ha_buffers : writeBuffers (io_stream (w_io w')) = ∅;
  ha_max : readBufferMaxSize (io_stream (w_io w')) = 2048;
  ha_said : spoken (w_io w') = spoken (w_io w) ++ said;
  ha_listeners : w_listeners w' = w_listeners w;
  ha_trace : w_trace w' = w_trace w;
  ha_inFlight : w_inFlight w' = w_inFlight w;
  ha_reqId : w_reqId w' = w_reqId w;
  ha_timers : w_timers w' = w_timers w;
}.

(** Nothing is being read, and nothing is left of what was. *)
Definition silent (io : ConnIO) : Prop :=
  io_receives io = [] ∧ buffer_wf (io_stream io) ∧ valid_bytes (io_stream io) = [].

Lemma silent_ext (io io' : ConnIO) :
  readBufferHead (io_stream io') = readBufferHead (io_stream io) →
  readBuffer (io_stream io') = readBuffer (io_stream io) →
  readBufferMaxSize (io_stream io') = readBufferMaxSize (io_stream io) →
  io_receives io' = io_receives io → silent io → silent io'.
Proof.
  intros Hh Hb Hm Hr (Hnil & [] & Hv). unfold silent, valid_bytes, readBufferSize in *.
  split_and!; [congruence|split; unfold readBufferSize in *; congruence|congruence].
Qed.

Lemma read_first h io :
  silent io → ∃ io', ReceivePackets h io = Ret tt io' ∧ listening h [] io' ∧ only_read io io'.
Proof.
  intros (Hnil & Hwf & Hv).
  destruct (read_again h (io_stream io) io Hwf eq_refl eq_refl eq_refl eq_refl) as (io' & E & Hl & Ho).
  assert (set_stream (io_stream io) (set_receives [] io) = io) as Eself by (rewrite <- Hnil; by destruct io).
  rewrite Eself in E. rewrite Hv in Hl. by exists io'.
Qed.

Lemma handshaking_reads hp said w w1 t io :
  handshaking hp said w w1 → only_read (w_io w1) io → handshaking hp said w (set_io io (set_thread t w1)).
Proof. intros [] []. split; simpl; congruence. Qed.

Lemma start_connects w address host port ep :
  idle w → SplitHostAndPort address = Some (host, port) → resolve host port = inr ep →
  ∃ w1, steps w [LStart address; LConnectDone 0 ec_success] w1 ∧
    handshaking [(HandshakeSent, NewHandshake handshake_json)] [CallConnect] w w1 ∧ silent (w_io w1).
Proof.
  intros [Hst Hwk Hreq Hpost Hq Hs Hb Hmax Hc Hr Hbuf Hv] Hsplit Hres.
  set (io1 := add_call CallConnect (set_connects
    [{| co_endpoints := ep; co_handler := StartConnected host port |}] (w_io w))).
  set (w1 := set_io io1 (set_thread ClientThread w)).
  set (w2 := set_io (set_connects [] io1) (set_thread WorkerThread w1)).
  assert (action (LStart address) w = Ret tt w1) as E1.
  { cbn [action]. unfold on_thread. rewrite (bind_Ret (modify _) _ _ _ _ eq_refl).
    unfold Client_Connect, Connection_Start. rewrite (bind_Ret get _ _ _ _ eq_refl).
    rewrite bool_decide_eq_true_2 by (simpl; congruence).
    rewrite (bind_Ret _ _ _ _ _ (cpp_assert_true _ true _ eq_refl)), Hsplit. unfold catch_system, zoom, TcpPacketStream_Connect, catch_system. rewrite Hres.
    unfold w1, io1. simpl. by rewrite Hc. }
  set (io2 := set_posted [HandshakeSent]
    (set_stream (set_packetSendQueue [NewHandshake handshake_json] (io_stream (w_io w2))) (w_io w2))).
  assert (action (LConnectDone 0 ec_success) w1 = Ret tt (set_io io2 w2)) as E2.
  { assert (io_connects (w_io (set_thread WorkerThread w1)) !! 0%nat =
      Some {| co_endpoints := ep; co_handler := StartConnected host port |}) as Hi by done.
    take_item Hi. match goal with |- _ ?w0 = _ => change w0 with w2 end. unfold Connect_done. rewrite ec_failed_success.
    cbn [call_connect co_handler]. unfold StartConnected_done, Connection_SendHandshake.
    rewrite ec_failed_success. do 2 rewrite (bind_Ret _ _ _ _ _ (assert_worker_Ret w2 Hwk)).
    unfold zoom. rewrite SendPacket_empty by done. unfold io2. simpl. by rewrite Hpost. }
  exists (set_io io2 w2). split; [|split].
  - eapply steps_cons; [by apply step_return|]. apply steps_one; [by eexists|done].
  - split; try done. unfold spoken. simpl. by rewrite filter_app.
  - apply (silent_ext (w_io w)); done || by split_and!.
Qed.

Lemma handshake_sent w w1 n said :
  handshaking [(HandshakeSent, NewHandshake handshake_json)] said w w1 → silent (w_io w1) →
  ∃ w2, steps w1 [LSendNext 0; LSendDone 0 ec_success n] w2 ∧
    handshaking [] (said ++ [CallSend (frame (NewHandshake handshake_json))]) w w2 ∧
    listening HandshakeResponseReceived [] (w_io w2).
Proof.
  intros [] Hsil. apply (send_cycle HandshakeSent (NewHandshake handshake_json)); [done..|].
  set (w2 := set_io (sending _ _ _) _).
  destruct (read_first HandshakeResponseReceived (w_io w2))
    as (io & E & Hl & Honly); [by apply (silent_ext (w_io w1))|].
  exists (set_io io w2). split.
  - simpl. unfold HandshakeSent_done, Connection_ReceiveHandshakeResponse.
    rewrite ec_failed_success, (bind_Ret _ _ _ _ _ (assert_worker_Ret w2 ha_worker0)).
    unfold zoom. change (view w2) with (w_io w2). by rewrite E.
  - split; [|by eapply listening_ext; [..|exact Hl]].
    destruct Honly. split; try done; simpl; try congruence.
    + rewrite or_buffers0. simpl. by rewrite ha_buffers0, delete_insert_id.
    + by rewrite or_max0.
    + transitivity (spoken io); [done|]. rewrite or_calls0, app_assoc, <- ha_said0.
      unfold spoken. simpl. by rewrite filter_app.
Qed.

(** The packet of the server's answer, which is accepted: the acknowledgement is posted. *)
Lemma response_accepted w w1 said body text i ser dict :
  handshaking [] said w w1 → (∀ w' : World, handshake_text body w' = Ret (Some text) w') →
  read_handshake text = Accepted i ser dict →
  ∃ w2, call_receive HandshakeResponseReceived ec_success [NewHandshake_bytes body] w1 = Ret tt w2 ∧
    handshaking [(HandshakeAckSent i ser dict, NewHandshakeAck)] said w w2 ∧
    (silent (w_io w1) → silent (w_io w2)).
Proof.
  intros [] Htext Hread.
  set (io2 := set_posted [HandshakeAckSent i ser dict]
    (set_stream (set_packetSendQueue [NewHandshakeAck] (io_stream (w_io w1))) (w_io w1))).
  exists (set_io io2 w1). split; [|split; [by split|by apply silent_ext]].
  cbn [call_receive]. unfold HandshakeResponseReceived_done. rewrite ec_failed_success.
  rewrite (bind_Ret _ _ _ _ _ (cpp_assert_true "packets.size() > 0"
    (0 <? Z.of_nat (length [NewHandshake_bytes body])) w1 eq_refl)).
  change (1 <? Z.of_nat (length [NewHandshake_bytes body])) with false. cbv iota.
  run (eq_refl : vec_at "packets" [NewHandshake_bytes body] 0 w1 = Ret (NewHandshake_bytes body) w1).
  change (bool_decide (pkt_type (NewHandshake_bytes body) = PT_Handshake)) with true. cbn [negb].
  run (Htext w1). rewrite SendHandshakeAck_eq, Hread. unfold zoom.
  rewrite SendPacket_empty by done. unfold io2. simpl. by rewrite ha_posted0.
Qed.

Lemma handshake_answered w w1 said body text i ser dict chunks :
  handshaking [] said w w1 → listening HandshakeResponseReceived [] (w_io w1) →
  (∀ w' : World, handshake_text body w' = Ret (Some text) w') →
  read_handshake text = Accepted i ser dict →
  receivable (NewHandshake_bytes body) → Z.of_nat (length (frame (NewHandshake_bytes body))) ≤ 2048 →
  Forall (λ ch, ch ≠ []) chunks → concat chunks = frame (NewHandshake_bytes body) →
  ∃ w2, steps w1 (receive_labels chunks) w2 ∧
    handshaking [(HandshakeAckSent i ser dict, NewHandshakeAck)] said w w2 ∧ silent (w_io w2).
Proof.
  intros Hh Hl Htext Hread Hrec Hlen Hne Hcat.
  apply (receive_packet HandshakeResponseReceived (NewHandshake_bytes body)); try done;
    [by rewrite (ha_max _ _ _ _ Hh)|].
  intros io Honly Hnil Hwf Hv.
  destruct (response_accepted w (set_io io (set_thread WorkerThread w1)) said body text i ser dict)
    as (w2 & E & Hh2 & Hsil); [by apply handshaking_reads|done..|].
  exists w2. split; [done|]. split; [done|]. apply Hsil. by split_and!.
Qed.

(** The end of the handshake, under the mutex. *)
Lemma connect_Ret i ser dict msg w :
  w_state w = State_new InitedState → fits_i64 (i * kHeartbeatFactor) = true →
  with_lock (SetConnected i ser dict SendHeartbeat HeartbeatTimedOut ;; Broadcast EventConnected msg) w =
    Ret tt (announce EventConnected msg
      (set_state (State_new (ConnectedState (connected_with i ser dict w))) (set_timers (armed i w) w))).
Proof. intros Hst Hfits. rewrite connect_ends by (by rewrite Hst). by rewrite Hfits, Hst. Qed.

Lemma timers_armed i ser dict w w1 :
  w_timers w1 = w_timers w →
  connected_with i ser dict w1 = connected_with i ser dict w ∧ armed i w1 = armed i w.
Proof. intros E. unfold connected_with, armed. by rewrite E. Qed.

Lemma ack_sent w w1 said i ser dict n :
  handshaking [(HandshakeAckSent i ser dict, NewHandshakeAck)] said w w1 → silent (w_io w1) →
  fits_i64 (i * kHeartbeatFactor) = true →
  ∃ w2, steps w1 [LSendNext 0; LSendDone 0 ec_success n] w2 ∧
    established (connected_with i ser dict w) w2 ∧
    w_trace w2 = w_trace w ++ ((λ l, ListenerCalled l EventConnected "Connection successful")
                                 <$> listeners (w_listeners w)) ∧
    w_timers w2 = armed i w ∧ w_inFlight w2 = w_inFlight w ∧ w_reqId w2 = w_reqId w ∧
    w_listeners w2 = w_listeners w ∧ spoken (w_io w2) = spoken (w_io w) ++ said ++ [CallSend (frame NewHandshakeAck)].
Proof.
  intros [] Hsil Hfits. apply (send_cycle (HandshakeAckSent i ser dict) NewHandshakeAck); [done..|].
  set (w2 := set_io (sending _ _ _) _).
  destruct (read_first PacketsReceived (w_io w2)) as (io & E & Hl & Honly);
    [by apply (silent_ext (w_io w1))|].
  set (w3 := announce EventConnected "Connection successful"
    (set_state (State_new (ConnectedState (connected_with i ser dict w))) (set_timers (armed i w) w2))).
  exists (set_io io w3). split.
  - simpl. unfold HandshakeAckSent_done, Connection_StartReceivingPackets. rewrite ec_failed_success.
    assert (w_timers w2 = w_timers w) as Ht by exact ha_timers0.
    rewrite (bind_Ret _ _ _ _ _ (connect_Ret i ser dict _ w2 ha_state0 Hfits)).
    destruct (timers_armed i ser dict w w2 Ht) as [-> ->]. fold w3.
    unfold Connection_ReceivePackets, zoom. change (view w3) with (w_io w3).
    assert (w_io w3 = w_io w2) as -> by (unfold w3; by rewrite announce_fields). by rewrite E.
  - destruct Honly. unfold w3. rewrite announce_fields. split_and!; try done.
    + split; try done; simpl; try congruence.
      * rewrite or_buffers0. simpl. by rewrite ha_buffers0, delete_insert_id.
      * by rewrite or_max0.
      * by eapply listening_ext; [..|exact Hl].
    + simpl. by rewrite ha_trace0, ha_listeners0.
    + transitivity (spoken io); [done|]. rewrite or_calls0, app_assoc, <- ha_said0.
      unfold spoken. simpl. by rewrite filter_app.
Qed.

(** C5: a handshake that succeeds, for every address with a colon whose host resolves, every
    acceptable answer of the server, compressed or not, and every way of cutting it into
    pieces: the client connects, sends its handshake, receives the answer, acknowledges it,
    and the connection is established, with the routes and the interval of the answer; both
    heartbeat timers are armed; every listener has been told once, in the order in which they
    were added; and all that was asked of the socket, beside reads, is to connect and to send
    those two frames. *)
Theorem handshake_connects w address host port ep body text i ser dict chunks n1 n2 :
  idle w → SplitHostAndPort address = Some (host, port) → resolve host port = inr ep →
  (∀ w' : World, handshake_text body w' = Ret (Some text) w') →
  read_handshake text = Accepted i ser dict → fits_i64 (i * kHeartbeatFactor) = true →
  receivable (NewHandshake_bytes body) → Z.of_nat (length (frame (NewHandshake_bytes body))) ≤ 2048 →
  Forall (λ ch, ch ≠ []) chunks → concat chunks = frame (NewHandshake_bytes body) →
  ∃ w' c,
    steps w ([LStart address; LConnectDone 0 ec_success; LSendNext 0; LSendDone 0 ec_success n1]
             ++ receive_labels chunks ++ [LSendNext 0; LSendDone 0 ec_success n2]) w' ∧
    established c w' ∧ routeToCode c = dict ∧ codeToRoute c = make_codeToRoute dict ∧
    heartbeatInterval c = i ∧ serializer c = ser ∧ heartbeatTick c = SendHeartbeat ∧
    ts_waiting (w_timers w') (heartbeatTimer c) = [CbHeartbeatTick] ∧
    ts_waiting (w_timers w') (heartbeatTimeout c) = [CbHeartbeatTimeout HeartbeatTimedOut] ∧
    w_trace w' = w_trace w ++ ((λ l, ListenerCalled l EventConnected "Connection successful")
                                 <$> listeners (w_listeners w)) ∧
    w_listeners w' = w_listeners w ∧ w_inFlight w' = w_inFlight w ∧ w_reqId w' = w_reqId w ∧
    spoken (w_io w') = spoken (w_io w)
      ++ [CallConnect; CallSend (frame (NewHandshake handshake_json)); CallSend (frame NewHandshakeAck)].
Proof.
  intros Hidle Hsplit Hres Htext Hread Hfits Hrec Hlen Hne Hcat.
  destruct (start_connects w address host port ep Hidle Hsplit Hres) as (w1 & Hs1 & Hh1 & Hsil1).
  destruct (handshake_sent w w1 n1 _ Hh1 Hsil1) as (w2 & Hs2 & Hh2 & Hl2).
  destruct (handshake_answered w w2 _ body text i ser dict chunks Hh2 Hl2)
    as (w3 & Hs3 & Hh3 & Hsil3); [done..|].
  destruct (ack_sent w w3 _ i ser dict n2 Hh3 Hsil3 Hfits)
    as (w4 & Hs4 & Hest & Htr & Hti & Hfl & Hid & Hls & Hsaid).
  destruct (armed_timers i w) as (_ & _ & _ & Hw1 & Hw2 & _).
  exists w4, (connected_with i ser dict w). split.
  { change [LStart address; LConnectDone 0 ec_success; LSendNext 0; LSendDone 0 ec_success n1]
      with ([LStart address; LConnectDone 0 ec_success] ++ [LSendNext 0; LSendDone 0 ec_success n1]).
    rewrite <- app_assoc. do 2 (eapply steps_app; [done|]). by eapply steps_app. }
  by split_and!; rewrite ?Hti.
Qed.
End session.
