(* ===== verification/Dialogue.v ===== *)
(** * Client and server in dialogue

    The client of an established connection as an abstract machine: the requests it makes,
    the packets the server sends and the timers that run out, one after the other, and what
    follows from them for the client and for the wire. The theorem says that the program
    implements the machine, for every sequence of these events, whatever pieces the packets
    come in. *)

From S2P Require Import Prelude Outcome Net Errors Events Gzip Message Packet ReadBuffer.
From S2P Require Import TcpPacketStream ConnState Json Connection Client System Stream Receive Flow Frame.
From S2P Require Import Handlers Invariants Safety Lifecycle Requests Heartbeat Session.

(** ** The machine *)

(** The packets of the server: a heartbeat; a response, with its flag, the id and the payload;
    a push, with its flag, the two bytes of the route's code and the payload; a kick. *)
Inductive ServerPacket :=
| ServerHeartbeat
| ServerResponse (flag id : Z) (payload : list Z)
| ServerPush (flag hi lo : Z) (payload : list Z)
| ServerKick.

(** What the client knows and has seen, and what it has asked of the socket beside reads. *)
Record Dialogue := {
  dg_connected : bool;
  dg_next : Z;
  dg_flight : gmap Z RequestHandler;
  dg_seen : list Observation;
  dg_said : list SocketCall;
}.

(** The digits of an id. *)
Definition id_bytes (id : Z) : list Z := default [] (encode_id_loop 10 id).

Definition packet_of (p : ServerPacket) : Packet :=
  match p with
  | ServerHeartbeat => NewHeartbeat
  | ServerResponse flag id payload => NewData_bytes (flag :: id_bytes id ++ payload)
  | ServerPush flag hi lo payload => NewData_bytes (flag :: hi :: lo :: payload)
  | ServerKick => NewKick
  end.

Section machine.
Context `{BoostMessages, !TimerService ConnTimerCb}.

(** A request; a packet of the server, in pieces; the completion of a wait of a timer, which
    leaves the timers in [s]. *)
Inductive DialogueEvent :=
| Ask (route : string) (data : list Z) (timeout : Z) (handler : RequestHandler) (nwritten : Z)
| Say (p : ServerPacket) (chunks : list (list Z))
| Fire (t : nat) (cb : ConnTimerCb) (ec : error_code) (s : TS) (nwritten : Z).

(** The routes the server has given codes, both ways, and the listeners. *)
Context (routes : gmap string Z) (codes : gmap Z string) (audience : list Listener).

Definition see (os : list Observation) (d : Dialogue) : Dialogue :=
  {| dg_connected := dg_connected d; dg_next := dg_next d; dg_flight := dg_flight d;
     dg_seen := dg_seen d ++ os; dg_said := dg_said d |}.

(** The connection ends: the listeners are told, the socket is closed; what is in flight stays. *)
Definition hang_up (ev : Event) (msg : string) (d : Dialogue) : Dialogue :=
  {| dg_connected := false; dg_next := dg_next d; dg_flight := dg_flight d;
     dg_seen := dg_seen d ++ ((λ l, ListenerCalled l ev msg) <$> audience);
     dg_said := dg_said d ++ [CallShutdown; CallClose] |}.

(** After the end nothing of the server is heeded. A response to no request is ignored, and so
    is a push, but for one whose route is not known, which ends the connection. *)
Definition heed (p : ServerPacket) (d : Dialogue) : Dialogue :=
  if negb (dg_connected d) then d else
  match p with
  | ServerHeartbeat => d
  | ServerResponse flag id payload =>
      match dg_flight d !! id with
      | None => d
      | Some h =>
          {| dg_connected := true; dg_next := dg_next d; dg_flight := delete id (dg_flight d);
             dg_seen := dg_seen d ++
               [HandlerCalled h (if Z.testbit flag 5 then StatusServerError else StatusOk) payload];
             dg_said := dg_said d |}
      end
  | ServerPush flag hi lo payload =>
      match codes !! u8 (Z.lor (Z.shiftl hi 8) lo) with
      | Some _ => d
      | None => hang_up EventConnectionError (ec_message (make_error_code InvalidMessage)) d
      end
  | ServerKick => hang_up EventKicked "Kicked from server" d
  end.

(** A request takes the next id and is written to the socket, or is refused at once. *)
Definition ask (route : string) (handler : RequestHandler) (d : Dialogue) : Dialogue :=
  if negb (dg_connected d) then see [HandlerCalled handler StatusNotConnectedError []] d else
  match routes !! route with
  | None => d
  | Some code =>
      {| dg_connected := true; dg_next := dg_next d + 1;
         dg_flight := <[dg_next d := handler]> (dg_flight d);
         dg_seen := dg_seen d;
         dg_said := dg_said d ++
           [CallSend (frame {| pkt_type := PT_Data; pkt_body := request_body (id_bytes (dg_next d)) code |})] |}
  end.

(** A request that times out is answered so; a tick sends a heartbeat, and the timeout of the
    heartbeat ends the connection, while there is one. *)
Definition fire (cb : ConnTimerCb) (ec : error_code) (d : Dialogue) : Dialogue :=
  if ec_failed ec then d else
  match cb with
  | CbRequestTimeout id =>
      match dg_flight d !! id with
      | None => d
      | Some h =>
          {| dg_connected := dg_connected d; dg_next := dg_next d; dg_flight := delete id (dg_flight d);
             dg_seen := dg_seen d ++ [HandlerCalled h StatusTimeout []]; dg_said := dg_said d |}
      end
  | CbHeartbeatTick =>
      if dg_connected d then
        {| dg_connected := true; dg_next := dg_next d; dg_flight := dg_flight d;
           dg_seen := dg_seen d; dg_said := dg_said d ++ [CallSend (frame NewHeartbeat)] |}
      else d
  | CbHeartbeatTimeout _ =>
      if dg_connected d
      then hang_up EventConnectionError (ec_message (make_error_code HeartbeatTimeout)) d
      else d
  end.

Definition respond (d : Dialogue) (e : DialogueEvent) : Dialogue :=
  match e with
  | Ask route _ _ handler _ => ask route handler d
  | Say p _ => heed p d
  | Fire _ cb ec _ _ => fire cb ec d
  end.

Definition is_tick (cb : ConnTimerCb) : bool := match cb with CbHeartbeatTick => true | _ => false end.
Definition is_fire (e : DialogueEvent) : bool := match e with Fire _ _ _ _ _ => true | _ => false end.

(** What the program does for an event: the tasks and completions it consists of. A request
    on an established connection is posted, its closure runs, its packet is given to the
    socket, and the socket says it has sent it. *)
Definition event_labels (d : Dialogue) (e : DialogueEvent) : list label :=
  match e with
  | Ask route data timeout handler nwritten =>
      [LRequest route data timeout handler; LRunRequest 0] ++
      (if dg_connected d then [LSendNext 0; LSendDone 0 ec_success nwritten] else [])
  | Say _ chunks => receive_labels chunks
  | Fire t cb ec s nwritten =>
      LTimer t cb ec s ::
      (if dg_connected d && negb (ec_failed ec) && is_tick cb
       then [LSendNext 0; LSendDone 0 ec_success nwritten] else [])
  end.

(** The packets of a server that keeps to the protocol. *)
Definition valid_packet (p : ServerPacket) : Prop :=
  receivable (packet_of p) ∧ Z.of_nat (length (frame (packet_of p))) ≤ 2048 ∧
  match p with
  | ServerResponse flag id payload =>
      Z.land (Z.shiftr flag 1) kMessageTypeMask = 2 ∧ Z.land flag kMessageGzipMask = 0 ∧
      0 ≤ id < 2 ^ 64
  | ServerPush flag hi lo payload =>
      Z.land (Z.shiftr flag 1) kMessageTypeMask = 3 ∧ Z.land flag kMessageGzipMask = 0 ∧
      Z.land flag kMessageRouteCompressionMask = 1
  | _ => True
  end.

(** Requests are for routes with codes while ids last; a packet comes in any pieces. *)
Definition valid_event (d : Dialogue) (e : DialogueEvent) : Prop :=
  match e with
  | Ask route _ _ _ _ =>
      dg_connected d = true → is_Some (routes !! route) ∧ dg_next d + 1 < 2 ^ 64
  | Say p chunks =>
      valid_packet p ∧ Forall (λ ch, ch ≠ []) chunks ∧ concat chunks = frame (packet_of p)
  | Fire _ cb _ _ _ =>
      match cb with CbHeartbeatTimeout f => f = HeartbeatTimedOut | _ => True end
  end.

Fixpoint script_labels (d : Dialogue) (script : list DialogueEvent) : list label :=
  match script with
  | [] => []
  | e :: script => event_labels d e ++ script_labels (respond d e) script
  end.

Fixpoint valid_script (d : Dialogue) (script : list DialogueEvent) : Prop :=
  match script with
  | [] => True
  | e :: script => valid_event d e ∧ valid_script (respond d e) script
  end.
End machine.

(** ** The program as the machine *)

Section dialogue.
Context `{BuildMode, BoostMessages, Zlib, Allocator, RapidJson, Resolver, DecompressFuel}.
Context `{!TimerService ConnTimerCb, !UnorderedIteration}.

Definition dialogue_of (w : World) : Dialogue :=
  {| dg_connected := IsConnected (w_state w); dg_next := w_reqId w;
     dg_flight := req_handler <$> w_inFlight w; dg_seen := w_trace w; dg_said := spoken (w_io w) |}.

(** Nothing is under way but the read of the next packet; the connection is the one that was
    established, or has ended. *)
Record speaking (c : Connected HeartbeatFn) (audience : list Listener) (w : World) : Prop := {
  sp_resting : ∃ st, resting st w ∧ (st = InitedState ∨ st = ConnectedState c);
  sp_tick : heartbeatTick c = SendHeartbeat;
  sp_listeners : listeners (w_listeners w) = audience;
  sp_next : 0 ≤ w_reqId w;
  sp_ids : ∀ id, is_Some (w_inFlight w !! id) → 0 ≤ id < w_reqId w;
}.

(** A packet that is processed leaves the stream and what is pending alone. *)
Record kept (w w2 : World) : Prop := {
  kp_worker : w_workerThreadId w2 = w_workerThreadId w;
  kp_requests : w_posted w2 = w_posted w;
  kp_listeners : w_listeners w2 = w_listeners w;
  kp_next : w_reqId w2 = w_reqId w;
  kp_ids id : is_Some (w_inFlight w2 !! id) → is_Some (w_inFlight w !! id);
  kp_stream : io_stream (w_io w2) = io_stream (w_io w);
  kp_posted : io_posted (w_io w2) = io_posted (w_io w);
  kp_sends : io_sends (w_io w2) = io_sends (w_io w);
  kp_receives : io_receives (w_io w2) = io_receives (w_io w);
}.

Lemma kept_refl w : kept w w.
Proof. by split. Qed.
Hint Resolve kept_refl : core.

(** What the end of the connection looks like. *)
Lemma lost_dialogue audience c ev msg w :
  w_state w = State_new (ConnectedState c) → listeners (w_listeners w) = audience →
  let w2 := disconnected (announce ev msg (to_inited w)) in
  kept w w2 ∧ w_state w2 = State_new InitedState ∧
  dialogue_of w2 = hang_up audience ev msg (dialogue_of w).
Proof.
  intros Hst <-. rewrite announce_fields. split; [by split|]. split; [done|].
  unfold dialogue_of, hang_up, spoken. simpl. by rewrite !filter_app, <- app_assoc.
Qed.

Lemma id_bytes_encode id : 0 ≤ id < 2 ^ 64 → ∀ w : World, encode_id id w = Ret (id_bytes id) w.
Proof.
  intros Hid w. destruct (encode_id_spec (W := World) id Hid) as (bs & E & _).
  rewrite E. pose proof (E w) as Ew. unfold encode_id, id_bytes in *.
  destruct (encode_id_loop 10 id); [by injection Ew as ->|done].
Qed.

Lemma packet_ended p w : w_state w = State_new InitedState → Connection_ProcessPacket (packet_of p) w = Ret tt w.
Proof.
  intros Hst. assert (st_locked (w_state w) = false) as Hl by by rewrite Hst.
  assert (∀ ec, Connection_ConnectionError ec w = Ret tt w) as Herr.
  { intros ec. rewrite ConnectionError_spec by done. by rewrite Hst. }
  unfold Connection_ProcessPacket.
  destruct p; cbn [packet_of pkt_type NewHeartbeat NewData_bytes NewKick].
  - unfold ExtendHeartbeatTimeout. rewrite (bind_Ret _ _ _ _ _ (get_state_Ret w)). by rewrite Hst.
  - rewrite (bind_Ret _ _ _ _ _ (get_state_Ret w)). unfold IsConnected. rewrite Hst. apply Herr.
  - rewrite (bind_Ret _ _ _ _ _ (get_state_Ret w)). unfold IsConnected. rewrite Hst. apply Herr.
  - rewrite KickedFromServer_spec by done. by rewrite Hst.
Qed.

(** A packet on an established connection. *)
Lemma packet_heeded c audience p w :
  w_state w = State_new (ConnectedState c) → listeners (w_listeners w) = audience → valid_packet p →
  ∃ w2 st, Connection_ProcessPacket (packet_of p) w = Ret tt w2 ∧ kept w w2 ∧
    w_state w2 = State_new st ∧ (st = InitedState ∨ st = ConnectedState c) ∧
    dialogue_of w2 = heed (codeToRoute c) audience p (dialogue_of w).
Proof.
  intros Hst Hls (_ & _ & Hp). assert (st_locked (w_state w) = false) as Hl by by rewrite Hst.
  unfold Connection_ProcessPacket, heed.
  change (dg_connected (dialogue_of w)) with (IsConnected (w_state w)).
  assert (IsConnected (w_state w) = true) as Hc by by rewrite Hst. rewrite Hc. cbn [negb].
  destruct p as [|flag id payload|flag hi lo payload|];
    cbn [packet_of pkt_type pkt_body NewHeartbeat NewData_bytes NewKick].
  - unfold ExtendHeartbeatTimeout. rewrite (bind_Ret _ _ _ _ _ (get_state_Ret w)), Hst. simpl.
    rewrite timer_op_Ret. eexists _, _. split; [done|]. split; [by split|].
    split; [exact Hst|]. split; [by right|done].
  - destruct Hp as (Hty & Hgz & Hid).
    rewrite (bind_Ret _ _ _ _ _ (get_state_Ret w)), Hc. cbn [negb].
    rewrite Hst. cbn [State_new st_val].
    run (Deserialize_response zlib_fuel flag id _ payload (codeToRoute c) w Hty Hgz Hid (id_bytes_encode id Hid w)).
    rewrite ProcessMessage_Ret by done. cbn [msg_id msg_error msg_data dialogue_of dg_flight].
    rewrite lookup_fmap. destruct (w_inFlight w !! id) as [r|] eqn:Hr; simpl.
    2: { exists w, (ConnectedState c). split_and!; auto. }
    eexists _, _. split; [done|]. split; [split; try done|].
    { intros id' Hi. unfold answered in Hi. simpl in Hi. destruct (decide (id' = id)) as [->|]; [by rewrite Hr|by rewrite lookup_delete_ne in Hi]. }
    split; [exact Hst|]. split; [by right|]. unfold dialogue_of. simpl. by rewrite Hc, fmap_delete.
  - destruct Hp as (Hty & Hgz & Hrc).
    rewrite (bind_Ret _ _ _ _ _ (get_state_Ret w)), Hc. cbn [negb].
    rewrite Hst. cbn [State_new st_val].
    run (Deserialize_push zlib_fuel flag hi lo payload (codeToRoute c) w Hty Hgz Hrc).
    destruct (codeToRoute c !! _) as [route|]; cbn [fmap option_fmap option_map].
    { exists w, (ConnectedState c). split_and!; auto. }
    rewrite ConnectionError_spec, Hc by done.
    destruct (lost_dialogue audience c EventConnectionError (ec_message (make_error_code InvalidMessage)) w)
      as (? & ? & ?); [done..|]. eexists _, _. split_and!; eauto.
  - rewrite KickedFromServer_spec, Hc by done.
    destruct (lost_dialogue audience c EventKicked "Kicked from server" w) as (? & ? & ?); [done..|].
    eexists _, _. split_and!; eauto.
Qed.

(** A packet in any pieces. *)
Lemma say_refines c audience p chunks w :
  speaking c audience w → valid_event (routeToCode c) (dialogue_of w) (Say p chunks) →
  ∃ w', steps w (receive_labels chunks) w' ∧ speaking c audience w' ∧
    dialogue_of w' = heed (codeToRoute c) audience p (dialogue_of w).
Proof.
  intros [(st & [Hst Hwk Hreq Hpost Hq Hs Hb Hmax Hl] & Hor) Htick Hls Hnext Hids] (Hp & Hne & Hcat).
  destruct Hp as (Hrec & Hlen & Hp).
  apply (receive_packet PacketsReceived (packet_of p)); try done; [by rewrite Hmax|].
  intros io Honly Hnil Hwf Hv. set (w1 := set_io io (set_thread WorkerThread w)).
  assert (dialogue_of w1 = dialogue_of w) as Hd.
  { unfold dialogue_of. simpl. by rewrite (or_calls _ _ Honly). }
  assert (∃ w2 st', Connection_ProcessPacket (packet_of p) w1 = Ret tt w2 ∧ kept w1 w2 ∧
    w_state w2 = State_new st' ∧ (st' = InitedState ∨ st' = ConnectedState c) ∧
    dialogue_of w2 = heed (codeToRoute c) audience p (dialogue_of w1)) as (w2 & st' & E & Hk & Hst' & Hor' & Hd2).
  { destruct Hor as [->| ->]; [|by apply packet_heeded].
    exists w1, InitedState. rewrite (packet_ended p w1 Hst). split_and!; auto.
    unfold heed. simpl. by rewrite Hst. }
  destruct Hk as [kwk kreq kls knext kids kstr kpost ksend krecv].
  destruct (read_again PacketsReceived (io_stream io) (w_io w2)) as (io' & Eio & Hl' & Honly');
    [done|by rewrite kstr..|].
  exists (set_io io' w2). split.
  { cbn [call_receive]. unfold PacketsReceived_done. rewrite ec_failed_success.
    rewrite (bind_Ret _ _ _ _ _ (cpp_assert_true "packets.size() == 1"
      (Z.of_nat (length [packet_of p]) =? 1) w1 eq_refl)).
    cbn [for_each]. rewrite bind_assoc. run E.
    transitivity (zoom (W := World) (ReceivePackets PacketsReceived) w2); [done|].
    unfold zoom. change (view w2) with (w_io w2).
    assert (set_stream (io_stream io) (set_receives [] (w_io w2)) = w_io w2) as Eself.
    { rewrite <- Hnil. change io with (w_io w1). rewrite <- kstr, <- krecv. by destruct (w_io w2). }
    rewrite Eself in Eio. by rewrite Eio. }
  rewrite Hv in Hl'. pose proof (or_calls _ _ Honly') as Hcalls. destruct Honly, Honly'. subst w1. simpl in *. split.
  - split; [|done|by rewrite <- Hls; apply (f_equal listeners kls)|by simpl; rewrite knext|].
    + exists st'. split; [|done]. split; simpl; try done; try congruence.
    + intros id Hid. simpl. rewrite knext. by apply Hids, kids.
  - rewrite <- Hd, <- Hd2. unfold dialogue_of. simpl. by rewrite Hcalls.
Qed.

(** A request. *)
Lemma ask_refines c audience route data timeout h n w :
  speaking c audience w → valid_event (routeToCode c) (dialogue_of w) (Ask route data timeout h n) →
  ∃ w', steps w (event_labels (dialogue_of w) (Ask route data timeout h n)) w' ∧ speaking c audience w' ∧
    dialogue_of w' = ask (routeToCode c) route h (dialogue_of w).
Proof.
  intros [(st & Hrest & Hor) Htick Hls Hnext Hids] Hv. pose proof (es_state _ _ Hrest) as Hst.
  destruct Hor as [->| ->].
  - set (pr := {| pr_route := route; pr_data := data; pr_timeout := timeout; pr_handler := h |}).
    set (w1 := set_requests [pr] (set_thread ClientThread w)).
    destruct Hrest as [_ Hwk Hreq Hpost Hq Hs Hb Hmax Hl].
    exists (add_trace (HandlerCalled h StatusNotConnectedError []) (set_requests [] (set_thread WorkerThread w1))).
    unfold event_labels, ask. cbn [dialogue_of dg_connected]. rewrite Hst. cbn [negb]. split_and!.
    + apply (steps_cons _ _ w1); [|apply steps_one; [by simpl|]].
      * apply step_return; [done|]. transitivity
          (Ret (W := World) tt (set_requests (w_posted w ++ [pr]) (set_thread ClientThread w)));
          [done|by rewrite Hreq].
      * assert (w_posted (set_thread WorkerThread w1) !! 0%nat = Some pr) as Hi by done.
        take_item Hi. unfold PostRequest_run. rewrite (bind_Ret _ _ _ _ _ (get_state_Ret _)).
        unfold IsConnected. simpl. by rewrite Hst.
    + split; [exists InitedState; split; [by split|by left]|done..].
    + unfold dialogue_of, see. simpl. by rewrite Hst.
  - destruct Hv as [[code Hcode] Hmax]; [simpl; by rewrite Hst|]. simpl in Hmax.
    destruct (request_sent c w route code data timeout h n Hrest Hcode ltac:(lia))
      as (bs & timer & w1 & Hbs & Hsteps & Hest & Hls1 & Ht & Hid & Hfl & Hsp).
    { destruct (w_inFlight w !! w_reqId w) eqn:E; [|done]. specialize (Hids _ ltac:(by rewrite E)). lia. }
    rewrite u64_small in Hid by lia.
    pose proof (Hbs w) as Ebs. rewrite id_bytes_encode in Ebs by lia. injection Ebs as <-.
    exists w1. unfold event_labels, ask. cbn [dialogue_of dg_connected dg_next dg_flight]. rewrite Hst.
    cbn [negb State_new st_val IsConnected app]. rewrite Hcode. split_and!; [done| |].
    + split; [exists (ConnectedState c); by auto|done|by rewrite Hls1|lia|].
      intros id. rewrite Hfl, Hid, lookup_insert_is_Some. intros [<-|[_ Hi%Hids]]; lia.
    + unfold dialogue_of. rewrite Ht, Hid, Hfl, Hsp, fmap_insert, (es_state _ _ Hest). done.
Qed.

(** What changes neither the stream nor what is pending. *)
Lemma speaking_kept c audience st w w2 :
  speaking c audience w → kept w w2 → w_state w2 = State_new st →
  st = InitedState ∨ st = ConnectedState c → speaking c audience w2.
Proof.
  intros [(st' & [Hst Hwk Hreq Hpost Hq Hs Hb Hmax [Hbuf Hval Hread]] & Hor) Htick Hls Hnext Hids]
    [kwk kreq kls knext kids kstr kpost ksend krecv] Hst2 Hor2.
  split; [|done|by rewrite kls|by rewrite knext|].
  - exists st. split; [|done]. split; try congruence. split; rewrite ?kstr; [done..|]. by rewrite krecv.
  - intros id Hid. rewrite knext. by apply Hids, kids.
Qed.

(** A tick of an established connection: one heartbeat is sent. *)
Lemma tick_refines c audience t ec s n w :
  speaking c audience w → w_state w = State_new (ConnectedState c) → ec_failed ec = false →
  ts_fire (w_timers w) t CbHeartbeatTick ec s →
  ∃ w', steps w [LTimer t CbHeartbeatTick ec s; LSendNext 0; LSendDone 0 ec_success n] w' ∧
    speaking c audience w' ∧ dialogue_of w' = fire audience CbHeartbeatTick ec (dialogue_of w).
Proof.
  intros [(st & [_ Hwk Hreq Hpost Hq Hs Hb Hmax Hl] & _) Htick Hls Hnext Hids] Hst Hec Hf.
  set (w1 := set_timers s (set_thread WorkerThread w)).
  set (io := set_posted [HeartbeatSent]
    (set_stream (set_packetSendQueue [NewHeartbeat] (io_stream (w_io w))) (w_io w))).
  assert (∃ ts, action (LTimer t CbHeartbeatTick ec s) w = Ret tt (set_timers ts (set_io io w1))) as (ts & E).
  { eexists. cbn [action]. unfold on_thread. do 2 rewrite (bind_Ret (modify _) _ _ _ _ eq_refl).
    fold w1. cbn [call_timer]. unfold HeartbeatTick. rewrite Hec, (bind_Ret _ _ _ _ _ (get_state_Ret w1)).
    change (w_state w1) with (w_state w). rewrite Hst. cbn [State_new st_val]. rewrite Htick. cbn [call_fn].
    assert (zoom (W := World) (SendPacket NewHeartbeat HeartbeatSent) w1 = Ret tt (set_io io w1)) as Eio.
    { unfold zoom. rewrite SendPacket_empty by done. unfold io. simpl. by rewrite Hpost. }
    run Eio. by rewrite (bind_Ret _ _ _ _ _ (timer_op_Ret _ _)), timer_op_Ret. }
  destruct (send_cycle HeartbeatSent NewHeartbeat n (set_timers ts (set_io io w1))
    (λ w', speaking c audience w' ∧ dialogue_of w' = fire audience CbHeartbeatTick ec (dialogue_of w)))
    as (w' & Hs' & HQ); [done..| |].
  - eexists. split; [done|]. split.
    + split; [exists (ConnectedState c); split; [|by right]|done..]. split; simpl; try done.
      { by rewrite Hb, delete_insert_id. }
      eapply listening_ext; [..|exact Hl]; done.
    + unfold dialogue_of, fire, spoken. simpl. rewrite Hec, Hst. cbn [IsConnected State_new st_val].
      by rewrite filter_app.
  - exists w'. split; [|exact HQ]. eapply steps_cons; [|exact Hs']. by apply step_return.
Qed.

(** A timer that runs out. *)
Lemma fire_refines c audience t cb ec s n w :
  speaking c audience w → valid_event (routeToCode c) (dialogue_of w) (Fire t cb ec s n) →
  ts_fire (w_timers w) t cb ec s →
  ∃ w', steps w (event_labels (dialogue_of w) (Fire t cb ec s n)) w' ∧ speaking c audience w' ∧
    dialogue_of w' = fire audience cb ec (dialogue_of w).
Proof.
  intros Hw Hv Hf. pose proof Hw as [(st & Hrest & Hor) _ Hls _ _]. pose proof (es_state _ _ Hrest) as Hst.
  cbn [event_labels]. change (dg_connected (dialogue_of w)) with (IsConnected (w_state w)).
  destruct (IsConnected (w_state w) && negb (ec_failed ec) && is_tick cb) eqn:Htick.
  { destruct cb; rewrite ?andb_false_r in Htick; try done.
    apply andb_true_iff in Htick as [[Hc Hec]%andb_true_iff _]. apply negb_true_iff in Hec.
    destruct Hor as [->| ->]; [by rewrite Hst in Hc|]. by apply tick_refines. }
  set (w1 := set_timers s (set_thread WorkerThread w)).
  assert (∃ w2 st', call_timer cb ec w1 = Ret tt w2 ∧ kept w w2 ∧ w_state w2 = State_new st' ∧
    (st' = InitedState ∨ st' = ConnectedState c) ∧ dialogue_of w2 = fire audience cb ec (dialogue_of w))
    as (w2 & st' & E & Hk & Hst' & Hor' & Hd).
  2: { exists w2. split_and!; [|by eapply speaking_kept|done]. apply steps_one; [done|]. rewrite <- E. done. }
  unfold fire. destruct (ec_failed ec) eqn:Hec.
  { exists w1, st. split; [|by split_and!].
    destruct cb; cbn [call_timer]; unfold HeartbeatTick, HeartbeatTimeout_done, RequestTimeout_done; by rewrite Hec. }
  change (dg_connected (dialogue_of w)) with (IsConnected (w_state w)).
  destruct cb as [|f|id]; cbn [call_timer].
  - exists w1, st. rewrite !andb_true_r in Htick. rewrite Htick. split; [|by split_and!].
    unfold HeartbeatTick. rewrite Hec, (bind_Ret _ _ _ _ _ (get_state_Ret w1)).
    destruct Hor as [->| ->]; [|by rewrite Hst in Htick]. change (w_state w1) with (w_state w). by rewrite Hst.
  - simpl in Hv. subst f. unfold HeartbeatTimeout_done. rewrite Hec. cbn [call_fn].
    rewrite ConnectionError_spec by (change (w_state w1) with (w_state w); by rewrite Hst).
    change (w_state w1) with (w_state w). destruct Hor as [->| ->]; rewrite Hst; cbn [IsConnected State_new st_val].
    + exists w1, InitedState. split; [done|]. by split_and!; auto.
    + destruct (lost_dialogue audience c EventConnectionError (ec_message (make_error_code HeartbeatTimeout)) w1)
        as ([] & ? & Hd); [done..|]. eexists _, _. split; [done|]. split_and!; eauto. by split.
  - rewrite RequestTimeout_Ret, Hec. cbn [dialogue_of dg_flight]. rewrite lookup_fmap.
    change (w_inFlight w1) with (w_inFlight w). destruct (w_inFlight w !! id) as [r|] eqn:Hr; simpl.
    + eexists _, st. split; [done|]. split_and!; try done.
      * split; try done. intros id' Hi. simpl in Hi.
        destruct (decide (id' = id)) as [->|]; [by rewrite Hr|by rewrite lookup_delete_ne in Hi].
      * unfold dialogue_of. simpl. by rewrite fmap_delete.
    + exists w1, st. by split_and!.
Qed.

(** A timer event happens only where the timer can fire. *)
Definition can_happen (w : World) (e : DialogueEvent) : Prop :=
  match e with Fire t cb ec s _ => ts_fire (w_timers w) t cb ec s | _ => True end.

Lemma event_refines c audience e w :
  speaking c audience w → valid_event (routeToCode c) (dialogue_of w) e → can_happen w e →
  ∃ w', steps w (event_labels (dialogue_of w) e) w' ∧ speaking c audience w' ∧
    dialogue_of w' = respond (routeToCode c) (codeToRoute c) audience (dialogue_of w) e.
Proof. destruct e; intros; [by apply ask_refines|by apply say_refines|by apply fire_refines]. Qed.

Lemma event_can_happen w e w' : steps w (event_labels (dialogue_of w) e) w' → can_happen w e.
Proof.
  destruct e as [| |t cb ec s n]; [done..|]. cbn [event_labels]. intros Hs.
  destruct (steps_cons_inv _ _ _ _ Hs) as (w1 & Hstep & _). by inversion Hstep.
Qed.

(** C6: the program implements the machine. From an established connection with nothing under
    way, every script of requests and packets, whatever pieces the packets come in, has an
    execution; and whenever an execution follows a script, of requests, packets and timers
    that run out, then at its end the connection, the next id, the requests in flight,
    everything the callbacks were told and everything that was asked of the socket, beside
    reads, are those of the machine, and the connection is ready for more. In particular
    answers may come in any order, a response or a timeout that no request in flight has the
    id of changes nothing, and after a kick, the timeout of the heartbeat, or a push whose
    route has no name, packets are not heeded and requests are refused at once, while those in
    flight stay so until they time out. *)
Theorem dialogue_refined c audience script w :
  speaking c audience w →
  valid_script (routeToCode c) (codeToRoute c) audience (dialogue_of w) script →
  (Forall (λ e, is_fire e = false) script →
   ∃ w', steps w (script_labels (routeToCode c) (codeToRoute c) audience (dialogue_of w) script) w') ∧
  ∀ w', steps w (script_labels (routeToCode c) (codeToRoute c) audience (dialogue_of w) script) w' →
    speaking c audience w' ∧
    dialogue_of w' = foldl (respond (routeToCode c) (codeToRoute c) audience) (dialogue_of w) script.
Proof.
  revert w. induction script as [|e script IH]; intros w Hw.
  { intros _. split; [exists w; constructor|]. intros w' Hs. by rewrite (steps_nil_inv _ _ Hs). }
  intros [He Hscript]. cbn [script_labels foldl].
  assert (can_happen w e → ∃ w1, steps w (event_labels (dialogue_of w) e) w1 ∧ speaking c audience w1 ∧
    dialogue_of w1 = respond (routeToCode c) (codeToRoute c) audience (dialogue_of w) e) as Hevent
    by by apply event_refines.
  split.
  - intros [Hnf Hnfs]%Forall_cons. destruct Hevent as (w1 & Hs1 & Hw1 & Hd1); [by destruct e|].
    rewrite <- Hd1 in *. destruct (IH w1 Hw1 Hscript) as [Hex _].
    destruct (Hex Hnfs) as (w2 & Hs2). exists w2. by eapply steps_app.
  - intros w' (w1 & Hs1 & Hs2)%steps_app_inv.
    destruct (Hevent (event_can_happen _ _ _ Hs1)) as (w1' & Hs1' & Hw1 & Hd1).
    rewrite (steps_det _ _ _ _ Hs1 Hs1') in Hs2. rewrite <- Hd1 in *. by apply (IH w1' Hw1 Hscript).
Qed.

(** Where a script may start: where the handshake has left the connection. *)
Lemma speaking_established c w :
  established c w → heartbeatTick c = SendHeartbeat → 0 ≤ w_reqId w → w_inFlight w = ∅ →
  speaking c (listeners (w_listeners w)) w.
Proof.
  intros Hw Htick Hid Hfl. split; [exists (ConnectedState c); by auto|done..|].
  intros id. rewrite Hfl, lookup_empty. by intros [].
Qed.
End dialogue.
