(* ===== verification/Interleaving.v ===== *)
(** * Requests made at any time, and from callbacks

    [Client::Request] only posts a closure, so that it commutes with everything the worker
    thread does. The file compares the code of the connection in two situations: for a client
    whose callbacks make requests, with some requests posted beforehand; and for a quiet
    client, with those requests posted afterwards. Every operation does the same in both.
    Two theorems follow: it does not matter when a client makes a request; and a client that
    makes requests from its callbacks sees nothing that a quiet one does not see, so that the
    theorems about executions, which are about quiet clients, are about all. *)

From S2P Require Import Prelude Outcome Net Errors Events Gzip Message Packet ReadBuffer.
From S2P Require Import TcpPacketStream ConnState Json Connection Client System Frame Safety.

(** The outcome, with its state changed by [f]. *)
Definition map_state {W A} (f : W → W) (o : outcome W A) : outcome W A :=
  match o with
  | Ret a w => Ret a (f w)
  | Throw e w => Throw e (f w)
  | Crash x => Crash x
  end.

Create HintDb free.

(** ** Two clients *)

Section free.
Context `{BuildMode, BoostMessages, Zlib, Allocator, RapidJson, Resolver, DecompressFuel}.
Context `{!TimerService ConnTimerCb, !UnorderedIteration}.
(** [client] makes requests from its callbacks; [rs] are posted when the observations are
    [before]. *)
Context (client : Reaction) (rs : list PostedRequest) (before : list Observation).

(** What [client] has posted by now: [rs], then the requests of the callbacks made since. *)
Definition due (w : World) : list PostedRequest :=
  rs ++ (drop (length before) (w_trace w) ≫= @reaction client).
Definition late (w : World) : World := set_requests (w_posted w ++ due w) w.

Definition since (w : World) : Prop := before `prefix_of` w_trace w.

(** [m] does for [client] what it does for a quiet client, with the requests on top. *)
Definition free {A} (m : Reaction → M World A) : Prop :=
  ∀ w, since w →
    m client (late w) = map_state late (m quiet_client w) ∧
    ends since (λ _, True) (m quiet_client w).

(** *** Each construct *)

Lemma free_ret {A} (a : A) : free (λ _, mret a).
Proof. done. Qed.
Lemma free_throw {A} e : free (λ _, throw e : M World A).
Proof. done. Qed.
Lemma free_crash {A} x : free (λ _, crash x : M World A).
Proof. done. Qed.
Lemma free_undefined {A} what : free (λ _, undefined what : M World A).
Proof. done. Qed.
Lemma free_assert what b : free (λ _, cpp_assert what b).
Proof. intros w Hw. unfold cpp_assert. by destruct ndebug, b. Qed.

Lemma free_modify g :
  (∀ w, g (late w) = late (g w)) → (∀ w, w_trace (g w) = w_trace w) → free (λ _, modify g).
Proof. intros Hg Ht w Hw. unfold modify. simpl. by rewrite Hg; unfold since; rewrite Ht. Qed.

Lemma free_bind {A B} (m : Reaction → M World A) (k : Reaction → A → M World B) :
  free m → (∀ a, free (λ r, k r a)) → free (λ r, m r ≫= k r).
Proof.
  intros Hm Hk w Hw. destruct (Hm w Hw) as [E He]. unfold mbind, M_bind. rewrite E.
  destruct (m quiet_client w) as [a w1| |]; [by apply Hk|done..].
Qed.

(** A look at the state, at what is the same for both. *)
Lemma free_get_then {A} (k : Reaction → World → M World A) :
  (∀ r w, k r (late w) = k r w) → (∀ w, free (λ r, k r w)) → free (λ r, get ≫= k r).
Proof. intros Hf Hk w Hw. unfold mbind, M_bind, get. rewrite Hf. by apply Hk. Qed.

Lemma free_for_each {A} (l : list A) (body : Reaction → A → M World unit) :
  (∀ x, free (λ r, body r x)) → free (λ r, for_each l (body r)).
Proof. intros Hb. induction l; simpl; [apply free_ret|by apply free_bind]. Qed.

Lemma free_vec_at {A} name (v : list A) i : free (λ _, vec_at name v i).
Proof. intros w Hw. unfold vec_at. case_match; [done|]. by case_match. Qed.
Lemma free_vec_range {A} name (v : list A) i j : free (λ _, vec_range name v i j).
Proof. intros w Hw. unfold vec_range. by case_match. Qed.

Lemma free_catch_pitaya {A} (m : Reaction → M World A) h :
  free m → (∀ what, free (λ r, h r what)) → free (λ r, catch_pitaya (m r) (h r)).
Proof.
  intros Hm Hh w Hw. destruct (Hm w Hw) as [E He]. unfold catch_pitaya. rewrite E.
  destruct (m quiet_client w) as [|[]|]; try done. by apply Hh.
Qed.
Lemma free_catch_system {A} (m : Reaction → M World A) h :
  free m → (∀ what, free (λ r, h r what)) → free (λ r, catch_system (m r) (h r)).
Proof.
  intros Hm Hh w Hw. destruct (Hm w Hw) as [E He]. unfold catch_system. rewrite E.
  destruct (m quiet_client w) as [|[]|]; try done. by apply Hh.
Qed.

(** *** The operations on the world *)

Lemma free_get_state : free (λ _, get_state : M World _).
Proof. done. Qed.
Lemma free_io {A} (m : M ConnIO A) : free (λ _, zoom (W := World) m).
Proof. intros w Hw. unfold zoom. change (view (late w)) with (w_io w). change (view w) with (w_io w). by destruct (m (w_io w)). Qed.
Lemma free_timer_op g : free (λ _, timer_op g : M World unit).
Proof. done. Qed.
Lemma free_timer_new : free (λ _, timer_new : M World nat).
Proof. done. Qed.
Lemma free_set_val v : free (λ _, set_val v : M World unit).
Proof. done. Qed.
Lemma free_set_locked b : free (λ _, set_locked b : M World unit).
Proof. done. Qed.

(** The one place where the two differ. *)
Lemma late_observe o w :
  since w → late (observe (client := quiet_client) o w) = observe (client := client) o (late w) ∧
  since (observe (client := quiet_client) o w).
Proof.
  intros Hw. change (observe (client := quiet_client) o w) with (add_trace o w). split.
  - unfold late, due, observe. cbn [w_trace w_posted add_trace set_requests].
    rewrite drop_app_le by by apply prefix_length. rewrite bind_app. cbn [mbind list_bind].
    destruct (@reaction client o) as [|q qs]; simpl; [by rewrite !app_nil_r|].
    by rewrite app_nil_r, !(assoc_L (++)).
  - unfold since. cbn. by apply prefix_app_r.
Qed.

Lemma free_call_handler h s d : free (λ r, call_handler h s d).
Proof. intros w Hw. destruct (late_observe (HandlerCalled h s d) w Hw) as [E He]. split; [|done]. simpl. by rewrite E. Qed.
Lemma free_call_listener l ev msg : free (λ r, call_listener l ev msg).
Proof. intros w Hw. destruct (late_observe (ListenerCalled l ev msg) w Hw) as [E He]. split; [|done]. simpl. by rewrite E. Qed.

Lemma free_with_lock {A} (m : Reaction → M World A) : free m → free (λ r, with_lock (m r)).
Proof.
  intros Hm w Hw. unfold with_lock. change (view (late w)) with (w_state w).
  change (view w) with (w_state w). destruct (st_locked (w_state w)); [done|].
  destruct (free_bind (λ _, set_locked true) (λ r _, m r) (free_set_locked true) (λ _, Hm) w Hw) as [E He].
  rewrite E. by destruct ((set_locked true ;; m quiet_client) w).
Qed.
End free.

#[export] Hint Resolve free_ret free_throw free_crash free_undefined free_assert free_vec_at
  free_vec_range free_get_state free_io free_timer_op free_timer_new free_set_val
  free_call_handler free_call_listener : free.

Ltac free_tac :=
  repeat lazymatch goal with
  | |- ∀ _, _ => intros ?
  | |- free _ _ _ (λ _, get ≫= _) => apply free_get_then; [reflexivity|]
  | |- free _ _ _ (λ _, for_each _ _) => apply free_for_each
  | |- free _ _ _ (λ _, catch_system _ _) => apply free_catch_system
  | |- free _ _ _ (λ _, catch_pitaya _ _) => apply free_catch_pitaya
  | |- free _ _ _ (λ _, modify _) => apply free_modify; reflexivity
  | |- free _ _ _ (λ _, match _ with _ => _ end) => case_match
  | |- free _ _ _ _ => first [solve [auto with free nocore]|apply free_bind]
  end.

(** ** The code of the connection *)

Section lambdas.
Context `{BuildMode, BoostMessages, Zlib, Allocator, RapidJson, Resolver, DecompressFuel}.
Context `{!TimerService ConnTimerCb, !UnorderedIteration}.
Context (client : Reaction) (rs : list PostedRequest) (before : list Observation).
Local Abbreviation free := (free client rs before).

Lemma free_HasMember v name : free (λ _, HasMember v name : M World bool).
Proof. unfold HasMember, require_object. free_tac. Qed.
Lemma free_Member v name : free (λ _, Member v name : M World _).
Proof. unfold Member, require_object. free_tac. Qed.
Lemma free_decode_id_loop bs i off id : free (λ _, decode_id_loop bs i off id : M World _).
Proof. revert i id. induction bs; intros i id; simpl; free_tac. Qed.
#[local] Hint Resolve free_HasMember free_Member free_decode_id_loop : free.

Lemma free_Deserialize fuel buf codes : free (λ _, Message_Deserialize fuel buf codes : M World _).
Proof. unfold Message_Deserialize, decode_route, decode_body. free_tac. Qed.
Lemma free_NewData msg dict : free (λ _, NewData_message msg dict : M World _).
Proof. unfold NewData_message, Message_SerializeInto, map_at, encode_id. free_tac. Qed.
Lemma free_Broadcast ev msg : free (λ _, Broadcast ev msg).
Proof. unfold Broadcast, EventListeners_Broadcast. free_tac. Qed.
Lemma free_assert_worker : free (λ _, assert_worker).
Proof. unfold assert_worker. free_tac. Qed.
Lemma free_destroy_val : free (λ _, destroy_val (W := World)).
Proof. unfold destroy_val. free_tac. Qed.
#[local] Hint Resolve free_Deserialize free_NewData free_Broadcast free_assert_worker free_destroy_val : free.

Lemma free_SetInited : free (λ _, SetInited (W := World)).
Proof. unfold SetInited. free_tac. Qed.
Lemma free_SetConnected n s d g h : free (λ _, SetConnected (W := World) n s d g h).
Proof. unfold SetConnected, Connected_new. free_tac. Qed.
#[local] Hint Resolve free_SetInited free_SetConnected : free.

Lemma free_HandshakeFailed ec : free (λ _, Connection_HandshakeFailed ec).
Proof. apply free_with_lock. free_tac. Qed.
Lemma free_ConnectionError ec : free (λ _, Connection_ConnectionError ec).
Proof. apply free_with_lock. free_tac. Qed.
Lemma free_KickedFromServer : free (λ _, Connection_KickedFromServer).
Proof. apply free_with_lock. free_tac. Qed.
Lemma free_inFlight_erase id : free (λ _, inFlight_erase id).
Proof. unfold inFlight_erase, Request_destroy. free_tac. Qed.
Lemma free_inFlight_emplace id h t : free (λ _, inFlight_emplace id h t).
Proof. unfold inFlight_emplace, Request_new, Request_destroy. free_tac. Qed.
Lemma free_handshake_text body : free (λ _, handshake_text body).
Proof. unfold handshake_text, IsCompressed. free_tac. Qed.
#[local] Hint Resolve free_HandshakeFailed free_ConnectionError free_KickedFromServer free_inFlight_erase free_inFlight_emplace free_handshake_text : free.

Lemma free_call_fn g : free (λ _, call_fn g).
Proof. destruct g; simpl; free_tac. Qed.
#[local] Hint Resolve free_call_fn : free.

Lemma free_ExtendHeartbeatTimeout : free (λ _, ExtendHeartbeatTimeout (W := World)).
Proof. unfold ExtendHeartbeatTimeout. free_tac. Qed.
Lemma free_ProcessMessage msg : free (λ _, Connection_ProcessMessage msg).
Proof. unfold Connection_ProcessMessage. free_tac. Qed.
#[local] Hint Resolve free_ExtendHeartbeatTimeout free_ProcessMessage : free.

Lemma free_ProcessPacket packet : free (λ _, Connection_ProcessPacket packet).
Proof. unfold Connection_ProcessPacket. free_tac. Qed.
Lemma free_SendHandshakeAck text : free (λ _, Connection_SendHandshakeAck text).
Proof. unfold Connection_SendHandshakeAck. free_tac. Qed.
Lemma free_StartReceivingPackets n s d : free (λ _, Connection_StartReceivingPackets n s d).
Proof. apply free_bind; [apply free_with_lock|intros _; apply free_io]. free_tac. Qed.
#[local] Hint Resolve free_ProcessPacket free_SendHandshakeAck free_StartReceivingPackets : free.

(** *** The completions *)

Lemma free_call_receive h ec packets : free (λ _, call_receive h ec packets).
Proof.
  destruct h; cbn [call_receive]; unfold HandshakeResponseReceived_done, PacketsReceived_done,
    Connection_ReceivePackets; free_tac.
Qed.
Lemma free_call_send h ec : free (λ _, call_send h ec).
Proof.
  destruct h; cbn [call_send]; unfold HandshakeSent_done, Connection_ReceiveHandshakeResponse,
    HandshakeAckSent_done, HeartbeatSent_done, RequestSent_done; free_tac.
Qed.
Lemma free_call_connect h ec : free (λ _, call_connect h ec).
Proof.
  destruct h; cbn [call_connect]; unfold StartConnected_done, Connection_SendHandshake; free_tac.
Qed.
Lemma free_call_timer cb ec : free (λ _, call_timer cb ec).
Proof.
  destruct cb; cbn [call_timer]; unfold HeartbeatTick, HeartbeatTimeout_done, RequestTimeout_done,
    Connection_ProcessRequestTimeout; free_tac.
Qed.
Lemma free_PostRequest_run q : free (λ _, PostRequest_run q).
Proof. unfold PostRequest_run. free_tac. Qed.
#[local] Hint Resolve free_call_receive free_call_send free_call_connect free_call_timer free_PostRequest_run : free.

Lemma free_SendNextPacket_done id h ec n :
  free (λ _, SendNextPacket_done (RH := ReceiveHandler) (CH := ConnectHandler) (EP := Endpoints)
               call_send id h ec n).
Proof. unfold SendNextPacket_done. free_tac. Qed.

Lemma free_ReadToBuffer_done h ec n :
  free (λ _, ReadToBuffer_done (SH := SendHandler) (CH := ConnectHandler) (EP := Endpoints)
               call_receive h ec n).
Proof. unfold ReadToBuffer_done. free_tac. Qed.

Lemma free_socket_wrote offset data :
  free (λ _, socket_wrote (SH := SendHandler) (RH := ReceiveHandler) (CH := ConnectHandler)
               (EP := Endpoints) offset data).
Proof. unfold socket_wrote. free_tac. Qed.

Lemma free_Connect_done h ec : free (λ _, Connect_done call_connect h ec).
Proof. unfold Connect_done. free_tac. Qed.
Lemma free_Connect address : free (λ _, Client_Connect address).
Proof. unfold Client_Connect, Connection_Start. free_tac. Qed.
Lemma free_take_posted i : free (λ _, take_posted i).
Proof. unfold take_posted, take_pending. free_tac. Qed.
Lemma free_take_send i : free (λ _, take_send i).
Proof. unfold take_send, take_pending. free_tac. Qed.
Lemma free_take_receive i : free (λ _, take_receive i).
Proof. unfold take_receive, take_pending. free_tac. Qed.
Lemma free_take_connect i : free (λ _, take_connect i).
Proof. unfold take_connect, take_pending. free_tac. Qed.
#[local] Hint Resolve free_SendNextPacket_done free_ReadToBuffer_done free_socket_wrote free_Connect_done free_Connect free_take_posted free_take_send free_take_receive free_take_connect : free.

(** *** The steps *)

Local Abbreviation late := (late client rs before).
Local Abbreviation since := (since before).
Local Abbreviation quiet := (action (client := quiet_client)).

Lemma late_thread t w : set_thread t (late w) = late (set_thread t w).
Proof. done. Qed.

(** Taking an earlier closure. *)
Lemma late_take_request i w :
  is_Some (w_posted w !! i) → take_request i (late w) = map_state late (take_request i w).
Proof.
  intros [q Hq]. unfold take_request. rewrite (take_pending_eq _ _ _ _ _ Hq).
  erewrite take_pending_eq by (cbn; by apply lookup_app_l_Some).
  unfold map_state, Interleaving.late. cbn [w_posted w_trace set_requests].
  apply lookup_lt_Some in Hq. rewrite !delete_take_drop, take_app_le, drop_app_le by lia.
  by rewrite <-(assoc_L (++)).
Qed.

Lemma late_run_request i w :
  since w → is_Some (w_posted w !! i) →
  action (client := client) (LRunRequest i) (late w) = map_state late (quiet (LRunRequest i) w) ∧
  ends since (λ _, True) (quiet (LRunRequest i) w).
Proof.
  intros Hw Hi. cbn [action]. unfold on_thread, mbind, M_bind, modify.
  rewrite late_thread, late_take_request by done. destruct Hi as [q Hq].
  unfold take_request. rewrite (take_pending_eq _ _ _ _ q) by done. by apply free_PostRequest_run.
Qed.

(** Everything but another request of the client. *)
Lemma late_action l w :
  is_request l = false → enabled w l → since w →
  action (client := client) l (late w) = map_state late (quiet l w) ∧
  ends since (λ _, True) (quiet l w).
Proof.
  intros Hl En Hw. destruct (is_run_request l) eqn:Hr.
  { destruct l; try done. by apply late_run_request. }
  enough (free (λ _, action l)) as Hfree by by apply Hfree. clear En Hw.
  destruct l; try done; cbn [action]; (apply free_bind; [by apply free_modify|intros _]).
  all: free_tac.
Qed.

Lemma late_enabled l w : enabled w l → enabled (late w) l.
Proof. destruct l; try done. cbn. intros [q Hq]. exists q. by apply lookup_app_l_Some. Qed.
End lambdas.

(** ** Worlds that differ in the thread that ran last *)

Section thread.
Context `{BuildMode, BoostMessages, Zlib, Allocator, RapidJson, Resolver, DecompressFuel}.
Context `{!TimerService ConnTimerCb, !UnorderedIteration} {client : Reaction}.

#[export] Instance World_equiv : Equiv World :=
  λ w1 w2, set_thread ClientThread w1 = set_thread ClientThread w2.
#[export] Instance World_equivalence : Equivalence (≡@{World}).
Proof.
  unfold equiv, World_equiv. split; [done|by intros x y Hxy|intros x y z Hxy Hyz; by transitivity (set_thread ClientThread y)].
Qed.

Lemma equiv_thread t w : set_thread t w ≡ w.
Proof. done. Qed.
Lemma equiv_set_thread w1 w2 t : w1 ≡ w2 → set_thread t w1 = set_thread t w2.
Proof. destruct w1, w2. intros [=]. by subst. Qed.

(** A step names the thread it runs in first, so what it does depends on the rest. *)
#[export] Instance action_proper l : Proper ((≡) ==> (=)) (action l).
Proof.
  intros w1 w2 Hw. destruct l; cbn [action]; unfold on_thread, mbind, M_bind, modify;
    by rewrite (equiv_set_thread _ _ _ Hw).
Qed.
#[export] Instance enabled_proper : Proper ((≡) ==> (=) ==> iff) enabled.
Proof. intros [] [] [=] l _ <-. by subst. Qed.
#[export] Instance step_proper : Proper ((≡) ==> (=) ==> (=) ==> iff) step.
Proof.
  assert (∀ w1 w2 l w', w1 ≡ w2 → step w1 l w' → step w2 l w') as Himpl.
  { intros w1 w2 l w' Hw [w En E|e w Hc E].
    - apply step_return; [by rewrite <-Hw|by rewrite <-(action_proper _ _ _ Hw)].
    - apply (step_throw _ _ e); [done|by rewrite <-(action_proper _ _ _ Hw)]. }
  intros w1 w2 Hw l _ <- w' _ <-. split; by apply Himpl.
Qed.

Lemma steps_proper w1 w2 ls w :
  w1 ≡ w2 → steps w1 ls w → ∃ w', steps w2 ls w' ∧ w' ≡ w.
Proof.
  intros Hw Hs. induction Hs as [|w1 ls w l w' Hs IH Hl].
  - exists w2. split; [apply steps_nil|done].
  - destruct (IH Hw) as (w3 & Hs3 & Hw3). exists w'. split; [|done].
    eapply steps_snoc; [done|]. by rewrite Hw3.
Qed.
End thread.

(** ** Requests of a quiet client *)

Section quiet.
Context `{BuildMode, BoostMessages, Zlib, Allocator, RapidJson, Resolver, DecompressFuel}.
Context `{!TimerService ConnTimerCb, !UnorderedIteration}.

(** The closure of one more request has been posted. *)
Definition posted_too (r : PostedRequest) (w : World) : World := set_requests (w_posted w ++ [r]) w.

#[export] Instance posted_too_proper r : Proper ((≡) ==> (≡)) (posted_too r).
Proof. intros [] [] [=]. by subst. Qed.

Lemma late_quiet r w : late quiet_client [r] [] w = posted_too r w.
Proof.
  unfold late, due, posted_too. assert (∀ os, os ≫= @reaction quiet_client = []) as -> by by induction os.
  by rewrite app_nil_r.
Qed.

Lemma step_posted_too r l w w' :
  is_request l = false → step w l w' → step (posted_too r w) l (posted_too r w').
Proof.
  intros Hl Hstep. rewrite <-!late_quiet.
  assert (enabled w l) as Hen by (destruct Hstep as [|???]; [done|by destruct l]).
  destruct (late_action quiet_client [r] [] l w Hl Hen (prefix_nil _)) as [E _].
  destruct Hstep as [w1 _ E1|e w1 Hc E1]; rewrite E1 in E.
  - apply step_return; [by apply late_enabled|done].
  - by apply (step_throw _ _ e).
Qed.

Lemma steps_posted_too r ls w w' :
  Forall (λ l, is_request l = false) ls → steps w ls w' → steps (posted_too r w) ls (posted_too r w').
Proof.
  intros Hls Hs. induction Hs as [|w ls w1 l w2 Hs IH Hl]; [apply steps_nil|].
  apply Forall_app in Hls as [Hls Hl']. inversion_clear Hl'.
  eapply steps_snoc; [by apply IH|by apply step_posted_too].
Qed.

Definition request_label (r : PostedRequest) : label :=
  LRequest (pr_route r) (pr_data r) (pr_timeout r) (pr_handler r).

Lemma step_request r w : step w (request_label r) (posted_too r (set_thread ClientThread w)).
Proof. apply step_return; [done|by destruct r]. Qed.

Lemma steps_requests rs w :
  ∃ w', steps w (request_label <$> rs) w' ∧ w' ≡ set_requests (w_posted w ++ rs) w.
Proof.
  revert w. induction rs as [|r rs IH]; intros w; simpl.
  - exists w. rewrite app_nil_r. split; [apply steps_nil|by destruct w].
  - destruct (IH (posted_too r (set_thread ClientThread w))) as (w' & Hs & Hw').
    exists w'. split; [eapply steps_cons; [apply step_request|done]|].
    rewrite Hw'. cbn. by rewrite <-(assoc_L (++)).
Qed.

(** C11: It does not matter when a client makes its next request. In any run of the program
    that contains no other request (whatever completes, times out or fails in it, and
    whether the client starts the connection or adds a listener meanwhile), the request can
    be made first or last: the same labels are enabled and return or throw as before, and
    the two worlds they end in are equal up to the thread that ran last. *)
Theorem request_any_time w ls w1 route data timeout h :
  steps w ls w1 → Forall (λ l, is_request l = false) ls →
  ∃ early late,
    steps w (LRequest route data timeout h :: ls) early ∧
    steps w (ls ++ [LRequest route data timeout h]) late ∧
    early ≡ late.
Proof.
  intros Hs Hls.
  pose proof (step_request {| pr_route := route; pr_data := data; pr_timeout := timeout; pr_handler := h |})
    as Hr. set (r := {| pr_route := route |}) in Hr.
  destruct (steps_proper (posted_too r w) (posted_too r (set_thread ClientThread w)) ls (posted_too r w1))
    as (early & He & Heq); [done|by apply steps_posted_too|].
  exists early, (posted_too r (set_thread ClientThread w1)). split_and!.
  - by eapply steps_cons.
  - by eapply steps_snoc.
  - by rewrite Heq, equiv_thread.
Qed.
End quiet.

(** ** Clients that make requests from their callbacks *)

Section reactive.
Context `{BuildMode, BoostMessages, Zlib, Allocator, RapidJson, Resolver, DecompressFuel}.
Context `{!TimerService ConnTimerCb, !UnorderedIteration}.
Context (client : Reaction).
Local Abbreviation quiet_steps := (steps (client := quiet_client)).
Local Abbreviation quiet_action := (action (client := quiet_client)).

(** The requests of the callbacks called between two worlds. *)
Definition made_between (w w' : World) : list PostedRequest :=
  drop (length (w_trace w)) (w_trace w') ≫= @reaction client.

Lemma late_same w v : w_trace v = w_trace w → late client [] (w_trace w) v = v.
Proof. intros E. unfold late, due. rewrite E, drop_all. destruct v. cbn. by rewrite !app_nil_r. Qed.

(** The outcomes of one action, for the two clients. *)
Lemma reactive_action w l :
  enabled w l →
  action (client := client) l w = map_state (late client [] (w_trace w)) (quiet_action l w) ∧
  ends (since (w_trace w)) (λ _, True) (quiet_action l w).
Proof.
  intros Hen. destruct (is_request l) eqn:Hl.
  - destruct l; try done. split; [|change (w_trace w `prefix_of` w_trace w); reflexivity].
    symmetry. refine (f_equal (Ret tt) (late_same w (posted_too {| pr_route := route; pr_data := data;
      pr_timeout := timeout; pr_handler := handler |} (set_thread ClientThread w)) eq_refl)).
  - destruct (late_action client [] (w_trace w) l w Hl Hen) as [E He]; [unfold since; reflexivity|].
    by rewrite (late_same w w eq_refl) in E.
Qed.

Lemma reactive_step w l w' :
  step (client := client) w l w' →
  ∃ v, step (client := quiet_client) w l v ∧ w_trace w `prefix_of` w_trace v ∧ w_trace w' = w_trace v ∧
    w' = set_requests (w_posted v ++ made_between w w') v.
Proof.
  intros Hstep. assert (enabled w l) as Hen by (destruct Hstep as [|???]; [done|by destruct l]).
  destruct (reactive_action w l Hen) as [E He].
  destruct Hstep as [w1 _ E1|e w1 Hc E1]; rewrite E1 in E; destruct (quiet_action l w) eqn:Eq;
    try done; injection E as E; subst.
  - exists w0. split; [by apply step_return|]. done.
  - exists w0. split; [by eapply step_throw|]. done.
Qed.

(** The labels, each followed by the requests made from the callbacks of its step. *)
Definition with_reactions (ls : list label) (made : list (list PostedRequest)) : list label :=
  concat (zip_with (λ l rs, l :: (request_label <$> rs)) ls made).

Definition same_end {A} (o o' : outcome World A) : Prop :=
  match o, o' with
  | Ret a _, Ret a' _ => a = a'
  | Throw e _, Throw e' _ => e = e'
  | Crash f, Crash f' => f = f'
  | _, _ => False
  end.

Lemma reactive_steps ls w :
  steps (client := client) initial ls w →
  ∃ made v, length made = length ls ∧ concat made = w_trace w ≫= @reaction client ∧
    quiet_steps initial (with_reactions ls made) v ∧ v ≡ w.
Proof.
  remember initial as w0 eqn:Hw0. induction 1 as [w|w ls w1 l w2 Hs IH Hl].
  { exists [], w. subst. split_and!; [done..|apply steps_nil|done]. }
  destruct (IH Hw0) as (made & v & Hlen & Hmade & Hv & Heq).
  destruct (reactive_step w1 l w2 Hl) as (v1 & Hv1 & [tr Htr] & Ht & E).
  rewrite <-Heq in Hv1. destruct (steps_requests (made_between w1 w2) v1) as (v2 & Hv2 & Heq2).
  exists (made ++ [made_between w1 w2]), v2. split_and!.
  - rewrite !length_app. simpl. lia.
  - rewrite concat_app, Hmade. simpl. unfold made_between.
    by rewrite Ht, Htr, drop_app_length, bind_app, app_nil_r.
  - unfold with_reactions. rewrite zip_with_app, concat_app by done. simpl. rewrite app_nil_r.
    eapply steps_app; [done|]. by eapply steps_cons.
  - by rewrite Heq2, <-E.
Qed.

(** C10: a client that makes requests from its callbacks is no different, for the connection and
    for what the client observes, from one that makes the same requests right after the step
    in which they were made. For every execution with such a client there is one with a quiet
    client, of the same steps, each followed by the requests made from its callbacks; it ends
    in the same world, up to the thread that ran last; and what a next step ends in, a return,
    an exception or a fault, is the same for both. *)
Theorem reactive_client_simulated ls w :
  steps (client := client) initial ls w →
  ∃ made v,
    length made = length ls ∧ concat made = w_trace w ≫= @reaction client ∧
    quiet_steps initial (with_reactions ls made) v ∧ v ≡ w ∧
    ∀ l, enabled w l →
      enabled v l ∧ same_end (action (client := client) l w) (quiet_action l v).
Proof.
  intros (made & v & Hlen & Hmade & Hv & Heq)%reactive_steps.
  exists made, v. do 4 (split; [done|]). intros l Hen. split; [by rewrite Heq|].
  rewrite (action_proper l _ _ Heq). destruct (reactive_action w l Hen) as [-> _].
  by destruct (quiet_action l w).
Qed.

(** What holds in the ordinary executions of quiet clients holds in those of all clients. *)
Lemma count_reactions f ls made :
  length made = length ls → (∀ r, f (request_label r) = false) →
  count_labels f (with_reactions ls made) = count_labels f ls.
Proof.
  intros Hlen Hf. revert made Hlen.
  induction ls as [|l ls IH]; intros [|rs made] Hlen; try done. injection Hlen as Hlen.
  change (with_reactions (l :: ls) (rs :: made)) with ([l] ++ (request_label <$> rs) ++ with_reactions ls made).
  change (l :: ls) with ([l] ++ ls). rewrite !count_labels_app, (IH made Hlen).
  assert (count_labels f (request_label <$> rs) = 0%nat) as ->; [|done].
  induction rs as [|r rs IHr]; [done|]. unfold count_labels in *. rewrite fmap_cons, filter_cons.
  by rewrite decide_False by (by rewrite Hf).
Qed.

Lemma any_client (Φ : World → Prop) `{!Proper ((≡) ==> iff) Φ} :
  (∀ ls w, ordinary ls → quiet_steps initial ls w → Φ w) →
  ∀ ls w, ordinary ls → steps (client := client) initial ls w → Φ w.
Proof.
  intros HΦ ls w Hord (made & v & Hlen & _ & Hv & <-)%reactive_steps.
  apply (HΦ (with_reactions ls made)); [|done].
  unfold ordinary in *. by rewrite !count_reactions.
Qed.
End reactive.
