(* ===== verification/Startup.v ===== *)
(** * The surroundings of the program

    The executions the other files are about start when the constructor of [Connection] has
    stored the id of its worker thread, with callbacks that return and a socket that closes.
    None of this is certain. The constructor starts the thread, which stores its id, before it
    initialises the member that holds it; a callback may throw, and so may [Close]. The file
    compares the code in any such surroundings with the code in the plain ones. Every
    operation does the same in both, until a failed assertion or an exception ends the
    process; so the executions in any surroundings are executions in the plain ones. The
    theorem on the faults of the program is for all of them. *)

From S2P Require Import Prelude Outcome Net Errors Events Gzip Message Packet ReadBuffer.
From S2P Require Import TcpPacketStream ConnState Json Connection Client System Stream Frame.
From S2P Require Import Invariants Safety Interleaving.

(** What a client's callbacks throw, and when closing the socket fails. *)
Class Surroundings := { sr_raising : Raising; sr_closing : Closing }.
#[local] Existing Instance sr_raising.
#[local] Existing Instance sr_closing.
Definition plain : Surroundings := {| sr_raising := callbacks_return; sr_closing := closing_succeeds |}.

(** No callback throws an exception of the library's own, which a completed read catches. *)
Definition foreign (r : Raising) : Prop := ∀ o what, @raises r o ≠ Some (PitayaException what).

(** What is not caught. *)
Definition loud (e : exn) : Prop := ∀ what, e ≠ PitayaException what.

(** The assertion on the thread. *)
Definition wrong_thread : fault := AssertFailed "std::this_thread::get_id() == _workerThreadId".

Create HintDb real.

Section real.
Context `{BuildMode, BoostMessages, Zlib, Allocator, RapidJson, Resolver, DecompressFuel}.
Context `{!TimerService ConnTimerCb, !UnorderedIteration} {client : Reaction}.
(** [overwritten]: the initialisation of the member came after the store of the id. *)
Context (around : Surroundings) (overwritten : bool).

Definition built (w : World) : World :=
  set_workerThreadId (if overwritten then None else w_workerThreadId w) w.

(** [m] does in its surroundings what it does in the plain ones, unless it ends the process. *)
Definition real_outcome {A} (o plain_o : outcome World A) : Prop :=
  match o with
  | Ret a w1 => ∃ w2, plain_o = Ret a w2 ∧ w1 = built w2
  | Throw e w1 => loud e ∨ ∃ w2, plain_o = Throw e w2 ∧ w1 = built w2
  | Crash f => plain_o = Crash f ∨ f = wrong_thread ∧ overwritten = true
  end.
Definition real {A} (m : Surroundings → M World A) : Prop :=
  ∀ w, real_outcome (m around (built w)) (m plain w).

(** *** Each construct *)

Lemma real_outcome_map {A} (o : outcome World A) : real_outcome (map_state built o) o.
Proof. destruct o; simpl; eauto. Qed.

Lemma real_same {A} (m : M World A) : (∀ w, m (built w) = map_state built (m w)) → real (λ _, m).
Proof. intros Hm w. rewrite Hm. apply real_outcome_map. Qed.

Lemma real_ret {A} (a : A) : real (λ _, mret a).
Proof. by apply real_same. Qed.
Lemma real_crash {A} x : real (λ _, crash x : M World A).
Proof. by apply real_same. Qed.
Lemma real_undefined {A} what : real (λ _, undefined what : M World A).
Proof. by apply real_same. Qed.
Lemma real_throw {A} e : real (λ _, throw e : M World A).
Proof. by apply real_same. Qed.
Lemma real_assert what b : real (λ _, cpp_assert what b).
Proof. apply real_same. intros w. unfold cpp_assert. by destruct ndebug, b. Qed.
Lemma real_vec_at {A} name (v : list A) i : real (λ _, vec_at name v i).
Proof. apply real_same. intros w. unfold vec_at. case_match; [done|]. by case_match. Qed.
Lemma real_vec_range {A} name (v : list A) i j : real (λ _, vec_range name v i j).
Proof. apply real_same. intros w. unfold vec_range. by case_match. Qed.
Lemma real_io {A} (m : M ConnIO A) : real (λ _, zoom (W := World) m).
Proof.
  apply real_same. intros w. unfold zoom. change (view (built w)) with (w_io w).
  change (view w) with (w_io w). by destruct (m (w_io w)).
Qed.
Lemma real_get_state : real (λ _, get_state : M World _).
Proof. by apply real_same. Qed.
Lemma real_timer_op g : real (λ _, timer_op g : M World unit).
Proof. by apply real_same. Qed.
Lemma real_timer_new : real (λ _, timer_new : M World nat).
Proof. by apply real_same. Qed.
Lemma real_set_val v : real (λ _, set_val v : M World unit).
Proof. by apply real_same. Qed.

Lemma real_modify g : (∀ w, g (built w) = built (g w)) → real (λ _, modify g).
Proof. intros Hg. apply real_same. intros w. unfold modify. simpl. by rewrite Hg. Qed.

Lemma real_bind {A B} (m : Surroundings → M World A) (k : Surroundings → A → M World B) :
  real m → (∀ a, real (λ s, k s a)) → real (λ s, m s ≫= k s).
Proof.
  intros Hm Hk w. specialize (Hm w). unfold mbind, M_bind.
  destruct (m around (built w)) as [a w1|e w1|f]; simpl in Hm.
  - destruct Hm as (w2 & -> & ->). apply Hk.
  - destruct Hm as [He|(w2 & -> & ->)]; simpl; eauto.
  - destruct Hm as [->|Hf]; simpl; eauto.
Qed.

Lemma real_get_then {A} (k : Surroundings → World → M World A) :
  (∀ s w, k s (built w) = k s w) → (∀ w, real (λ s, k s w)) → real (λ s, get ≫= k s).
Proof. intros Hf Hk w. unfold mbind, M_bind, get. rewrite Hf. apply Hk. Qed.

Lemma real_for_each {A} (l : list A) (body : Surroundings → A → M World unit) :
  (∀ x, real (λ s, body s x)) → real (λ s, for_each l (body s)).
Proof. intros Hb. induction l; simpl; [apply real_ret|by apply real_bind]. Qed.

Lemma real_catch_pitaya {A} (m : Surroundings → M World A) h :
  real m → (∀ what, real (λ s, h s what)) → real (λ s, catch_pitaya (m s) (h s)).
Proof.
  intros Hm Hh w. specialize (Hm w). unfold catch_pitaya.
  destruct (m around (built w)) as [a w1|e w1|f]; simpl in Hm.
  - destruct Hm as (w2 & -> & ->). simpl. eauto.
  - destruct Hm as [He|(w2 & -> & ->)].
    + destruct e as [what| |]; simpl; [by destruct (He what)|auto..].
    + destruct e as [what| |]; simpl; [apply Hh|eauto..].
  - destruct Hm as [->|Hf]; simpl; eauto.
Qed.

Lemma real_with_lock {A} (m : Surroundings → M World A) : real m → real (λ s, with_lock (m s)).
Proof.
  intros Hm w. unfold with_lock. change (view (built w)) with (w_state w).
  change (view w) with (w_state w). destruct (st_locked (w_state w)); [by left|].
  assert (real (λ s, set_locked true ;; m s)) as Hr by (apply real_bind; [by apply real_same|done]).
  specialize (Hr w). cbv beta in Hr. destruct ((set_locked true ;; m around) (built w)) as [a w1|e w1|f]; simpl in Hr.
  - destruct Hr as (w2 & -> & ->). simpl. eauto.
  - destruct Hr as [He|(w2 & -> & ->)]; simpl; eauto.
  - destruct Hr as [->|Hf]; simpl; eauto.
Qed.

(** *** Where the surroundings matter *)

Lemma real_assert_worker : real (λ _, assert_worker).
Proof.
  intros w. unfold assert_worker, cpp_assert, mbind, M_bind, get, built, mret, M_ret.
  cbn [w_workerThreadId w_thread set_workerThreadId]. destruct ndebug; [simpl; eauto|].
  destruct overwritten eqn:Hov; [rewrite bool_decide_eq_false_2 by done; by right|].
  destruct (bool_decide _); simpl; [|by left].
  exists w. split; [done|]. unfold built. by rewrite Hov.
Qed.

Lemma real_call_back o : foreign (@sr_raising around) → real (λ _, call_back o).
Proof.
  intros Hf w. unfold call_back. change (@raises (@sr_raising plain) o) with (@None exn).
  assert (∀ w, observe o (built w) = built (observe o w)) as Ho.
  { intros w0. unfold observe. by destruct (reaction o). }
  destruct (@raises (@sr_raising around) o) as [e|] eqn:Er; simpl.
  - left. intros what ->. by apply (Hf o what).
  - rewrite Ho. eauto.
Qed.

Lemma real_Disconnect : real (λ _, zoom (W := World) TcpPacketStream_Disconnect).
Proof.
  intros w. unfold zoom, TcpPacketStream_Disconnect, TcpSocket_Shutdown, TcpSocket_Close, mbind, M_bind, get, modify.
  cbn. destruct (@close_error (@sr_closing around) _); simpl; [by left|]. by eexists.
Qed.
End real.

#[export] Hint Resolve real_ret real_throw real_crash real_undefined real_assert real_vec_at
  real_vec_range real_get_state real_timer_op real_timer_new real_set_val
  real_assert_worker : real.

Ltac real_tac :=
  repeat lazymatch goal with
  | |- ∀ _, _ => intros ?
  | |- real _ _ (λ _, get ≫= _) => apply real_get_then; [reflexivity|]
  | |- real _ _ (λ _, for_each _ _) => apply real_for_each
  | |- real _ _ (λ _, catch_pitaya _ _) => apply real_catch_pitaya
  | |- real _ _ (λ _, modify _) => apply real_modify; reflexivity
  | |- real _ _ (λ _, zoom TcpPacketStream_Disconnect) => apply real_Disconnect
  | |- real _ _ (λ _, zoom _) => apply real_io
  | |- real _ _ (λ _, match _ with _ => _ end) => case_match
  | |- real _ _ _ => first [solve [auto with real nocore]|apply real_bind]
  end.

(** ** The code of the connection *)

Section lambdas.
Context `{BuildMode, BoostMessages, Zlib, Allocator, RapidJson, Resolver, DecompressFuel}.
Context `{!TimerService ConnTimerCb, !UnorderedIteration} {client : Reaction}.
Context (around : Surroundings) (overwritten : bool).
Hypothesis around_foreign : foreign (@sr_raising around).
Local Abbreviation real := (real around overwritten).

Lemma real_call_handler h s d : real (λ _, call_handler h s d).
Proof. by apply real_call_back. Qed.
Lemma real_call_listener l ev msg : real (λ _, call_listener l ev msg).
Proof. by apply real_call_back. Qed.
Lemma real_HasMember v name : real (λ _, HasMember v name : M World bool).
Proof. unfold HasMember, require_object. real_tac. Qed.
Lemma real_Member v name : real (λ _, Member v name : M World _).
Proof. unfold Member, require_object. real_tac. Qed.
Lemma real_decode_id_loop bs i off id : real (λ _, decode_id_loop bs i off id : M World _).
Proof. revert i id. induction bs; intros i id; simpl; real_tac. Qed.
#[local] Hint Resolve real_call_handler real_call_listener real_HasMember real_Member real_decode_id_loop : real.

Lemma real_Deserialize fuel buf codes : real (λ _, Message_Deserialize fuel buf codes : M World _).
Proof. unfold Message_Deserialize, decode_route, decode_body. real_tac. Qed.
Lemma real_NewData msg dict : real (λ _, NewData_message msg dict : M World _).
Proof. unfold NewData_message, Message_SerializeInto, map_at, encode_id. real_tac. Qed.
Lemma real_Broadcast ev msg : real (λ _, Broadcast ev msg).
Proof. unfold Broadcast, EventListeners_Broadcast. real_tac. Qed.
Lemma real_destroy_val : real (λ _, destroy_val (W := World)).
Proof. unfold destroy_val. real_tac. Qed.
#[local] Hint Resolve real_Deserialize real_NewData real_Broadcast real_destroy_val : real.

Lemma real_SetInited : real (λ _, SetInited (W := World)).
Proof. unfold SetInited. real_tac. Qed.
Lemma real_SetConnected n s d g h : real (λ _, SetConnected (W := World) n s d g h).
Proof. unfold SetConnected, Connected_new. real_tac. Qed.
#[local] Hint Resolve real_SetInited real_SetConnected : real.

Lemma real_HandshakeFailed ec : real (λ _, Connection_HandshakeFailed ec).
Proof. apply real_with_lock. real_tac. Qed.
Lemma real_ConnectionError ec : real (λ _, Connection_ConnectionError ec).
Proof. apply real_with_lock. real_tac. Qed.
Lemma real_KickedFromServer : real (λ _, Connection_KickedFromServer).
Proof. apply real_with_lock. real_tac. Qed.
Lemma real_inFlight_erase id : real (λ _, inFlight_erase id).
Proof. unfold inFlight_erase, Request_destroy. real_tac. Qed.
Lemma real_inFlight_emplace id h t : real (λ _, inFlight_emplace id h t).
Proof. unfold inFlight_emplace, Request_new, Request_destroy. real_tac. Qed.
Lemma real_handshake_text body : real (λ _, handshake_text body).
Proof. unfold handshake_text, IsCompressed. real_tac. Qed.
#[local] Hint Resolve real_HandshakeFailed real_ConnectionError real_KickedFromServer real_inFlight_erase real_inFlight_emplace real_handshake_text : real.

Lemma real_call_fn g : real (λ _, call_fn g).
Proof. destruct g; simpl; real_tac. Qed.
Lemma real_ExtendHeartbeatTimeout : real (λ _, ExtendHeartbeatTimeout (W := World)).
Proof. unfold ExtendHeartbeatTimeout. real_tac. Qed.
Lemma real_ProcessMessage msg : real (λ _, Connection_ProcessMessage msg).
Proof. unfold Connection_ProcessMessage. real_tac. Qed.
#[local] Hint Resolve real_call_fn real_ExtendHeartbeatTimeout real_ProcessMessage : real.

Lemma real_ProcessPacket packet : real (λ _, Connection_ProcessPacket packet).
Proof. unfold Connection_ProcessPacket. real_tac. Qed.
Lemma real_SendHandshakeAck text : real (λ _, Connection_SendHandshakeAck text).
Proof. unfold Connection_SendHandshakeAck. real_tac. Qed.
Lemma real_StartReceivingPackets n s d : real (λ _, Connection_StartReceivingPackets n s d).
Proof. apply real_bind; [apply real_with_lock|intros _; apply real_io]. real_tac. Qed.
#[local] Hint Resolve real_ProcessPacket real_SendHandshakeAck real_StartReceivingPackets : real.

(** *** The completions *)

Lemma real_call_receive h ec packets : real (λ _, call_receive h ec packets).
Proof.
  destruct h; cbn [call_receive]; unfold HandshakeResponseReceived_done, PacketsReceived_done,
    Connection_ReceivePackets; real_tac.
Qed.
Lemma real_call_send h ec : real (λ _, call_send h ec).
Proof.
  destruct h; cbn [call_send]; unfold HandshakeSent_done, Connection_ReceiveHandshakeResponse,
    HandshakeAckSent_done, HeartbeatSent_done, RequestSent_done; real_tac.
Qed.
Lemma real_call_connect h ec : real (λ _, call_connect h ec).
Proof.
  destruct h; cbn [call_connect]; unfold StartConnected_done, Connection_SendHandshake; real_tac.
Qed.
Lemma real_call_timer cb ec : real (λ _, call_timer cb ec).
Proof.
  destruct cb; cbn [call_timer]; unfold HeartbeatTick, HeartbeatTimeout_done, RequestTimeout_done,
    Connection_ProcessRequestTimeout; real_tac.
Qed.
Lemma real_PostRequest_run q : real (λ _, PostRequest_run q).
Proof. unfold PostRequest_run. real_tac. Qed.
#[local] Hint Resolve real_call_receive real_call_send real_call_connect real_call_timer real_PostRequest_run : real.

Lemma real_take {A} (pending : World → list A) set i :
  (∀ w, pending (built overwritten w) = pending w) →
  (∀ l w, set l (built overwritten w) = built overwritten (set l w)) →
  real (λ _, take_pending pending set i).
Proof.
  intros Hp Hset. unfold take_pending. apply real_get_then; [intros s w; by rewrite Hp|]. intros w.
  destruct (pending w !! i); real_tac. by apply real_modify.
Qed.

(** A completion, or a task that has been posted. *)
Lemma real_action l : is_client l = false → real (λ _, action l).
Proof.
  intros Hl. destruct l; try done; cbn [action];
    (apply real_bind; [by apply real_modify|intros _]).
  all: try (apply real_bind; [by apply real_take|intros op]).
  all: unfold SendNextPacket_done, ReadToBuffer_done, socket_wrote, Connect_done; real_tac.
Qed.

Lemma built_enabled l w : enabled (built overwritten w) l ↔ enabled w l.
Proof. by destruct l. Qed.
End lambdas.

(** ** Executions *)

Section executions.
Context `{BuildMode, BoostMessages, Zlib, Allocator, RapidJson, Resolver, DecompressFuel}.
Context `{!TimerService ConnTimerCb, !UnorderedIteration} (client : Reaction).
Context (around : Surroundings).
Local Abbreviation steps_around := (steps (client := client) (raising := @sr_raising around)
  (closing := @sr_closing around)).
Local Abbreviation action_around := (action (client := client) (raising := @sr_raising around)
  (closing := @sr_closing around)).

(** The executions from the constructor, by whether the initialisation of the member came
    after the store of the id. If it came before, the client may have made calls by the time
    of the store. *)
Inductive execution : bool → list label → World → Prop :=
| execution_stored calls w1 ls w :
    Forall (λ l, is_client l = true) calls → steps_around (initialise_id Client_new) calls w1 →
    steps_around (store_id w1) ls w → execution false (calls ++ ls) w
| execution_overwritten ls w : steps_around initial_overwritten ls w → execution true ls w.

(** A call of the client does not look at its surroundings, and never runs on the worker. *)
Lemma client_action b l w :
  is_client l = true → w_workerThreadId w = Some WorkerThread →
  action_around l (built b w) =
    map_state (built b) (action (client := client) (raising := callbacks_return)
      (closing := closing_succeeds) l w).
Proof.
  intros Hl Hid. destruct l as [address| | | | | | | |]; try done; [|by destruct b..].
  cbn [action]. unfold on_thread. rewrite !(bind_Ret (modify _) _ _ _ _ eq_refl).
  unfold Client_Connect, Connection_Start. rewrite !(bind_Ret get _ _ _ _ eq_refl).
  rewrite bool_decide_eq_true_2 by (destruct b; cbn; congruence).
  rewrite (bool_decide_eq_true_2 (w_workerThreadId (set_thread ClientThread w) ≠ _)) by (cbn; congruence).
  assert (∀ w0 : World, cpp_assert "std::this_thread::get_id() != _workerThreadId" true w0 = Ret tt w0) as Ha
    by (intros w0; unfold cpp_assert; by destruct ndebug).
  rewrite !(bind_Ret (cpp_assert _ true) _ _ _ _ (Ha _)).
  destruct (SplitHostAndPort address) as [[host port]|]; [|by destruct b].
  unfold catch_system, zoom, TcpPacketStream_Connect, catch_system.
  by destruct (resolve host port), b.
Qed.

Local Abbreviation plain_steps := (steps (client := client) (raising := callbacks_return)
  (closing := closing_succeeds)).
Local Abbreviation plain_action := (action (client := client) (raising := callbacks_return)
  (closing := closing_succeeds)).

Lemma plain_id ls w : ordinary ls → plain_steps initial ls w → w_workerThreadId w = Some WorkerThread.
Proof.
  revert ls w. apply any_client.
  - intros w1 w2 Hw. assert (w_workerThreadId w1 = w_workerThreadId w2) as ->; [exact (f_equal w_workerThreadId Hw)|done].
  - intros ls w Hord Hs. by destruct (reachable_wf ls w Hord Hs) as (n & _ & [? ? ? ? ?] & _).
Qed.

Hypothesis around_foreign : foreign (@sr_raising around).

Lemma around_action b l w :
  w_workerThreadId w = Some WorkerThread → real_outcome b (action_around l (built b w)) (plain_action l w).
Proof.
  intros Hid. destruct (is_client l) eqn:Hl.
  - rewrite client_action by done. apply real_outcome_map.
  - by apply (real_action around b around_foreign l Hl w).
Qed.

Lemma around_step b l w w1 :
  w_workerThreadId w = Some WorkerThread → step (client := client) (raising := @sr_raising around)
    (closing := @sr_closing around) (built b w) l w1 →
  ∃ w2, step (client := client) (raising := callbacks_return) (closing := closing_succeeds) w l w2 ∧
    w1 = built b w2.
Proof.
  intros Hid [w' Hen E|e w' Hc E].
  - pose proof (around_action b l w Hid) as Hr. rewrite E in Hr. destruct Hr as (w2 & E2 & ->).
    exists w2. split; [|done]. apply step_return; [by apply built_enabled in Hen|done].
  - rewrite client_action in E by done. destruct (plain_action l w) as [|e' w2|] eqn:E2; try done.
    injection E as <- <-. exists w2. split; [|done]. by apply (step_throw _ _ e').
Qed.

Lemma around_steps b u before ls w :
  plain_steps initial before u → ordinary (before ++ ls) → steps_around (built b u) ls w →
  ∃ v, plain_steps initial (before ++ ls) v ∧ w = built b v.
Proof.
  intros Hu Hord Hs. remember (built b u) as w0 eqn:Hw0.
  induction Hs as [w|w ls w1 l w2 Hs IH Hl]; [exists u; by rewrite app_nil_r|]. subst w.
  rewrite app_assoc in Hord |- *. pose proof (ordinary_prefix _ _ Hord) as Hord'.
  destruct (IH Hord' eq_refl) as (v & Hv & ->).
  destruct (around_step b l v w2 (plain_id _ _ Hord' Hv) Hl) as (v2 & Hv2 & ->).
  exists v2. split; [by eapply steps_snoc|done].
Qed.

Lemma store_built w : w_workerThreadId w = Some WorkerThread → store_id (built true w) = w.
Proof. destruct w. cbn. by intros ->. Qed.

(** Every execution is one of the plain surroundings, in which the id is stored at once. *)
Lemma execution_plain b ls w :
  ordinary ls → execution b ls w → ∃ v, plain_steps initial ls v ∧ w = built b v.
Proof.
  intros Hord Hx. destruct Hx as [calls w1 ls w _ Hs1 Hs2|ls w Hs].
  - destruct (around_steps true initial [] calls w1) as (v1 & Hv1 & ->);
      [apply steps_nil|by eapply ordinary_prefix|done|].
    pose proof (plain_id _ _ (ordinary_prefix _ _ Hord) Hv1) as Hid.
    apply (around_steps false v1); [done..|].
    rewrite store_built in Hs2 by done. by destruct v1.
  - by apply (around_steps true initial []); [apply steps_nil|..].
Qed.

(** Not among the faults of [environment_fault]: an index or a range outside the read buffer, the first packet of none. *)
Lemma excluded_faults f :
  environment_fault f →
  f ≠ index_out_of_range "_readBuffer" ∧ f ≠ invalid_range "_readBuffer" ∧ f ≠ index_out_of_range "packets" ∧
  f ≠ index_out_of_range "data" ∧ f ≠ invalid_range "data" ∧ f ≠ wrong_thread ∧ f ≠ Deadlock.
Proof. by destruct 1. Qed.
(** C13: whatever the client's callbacks do (make requests, or throw anything but an exception
    of the library's own), whether or not the socket closes, and wherever in the constructor and the client's first calls the worker
    thread stores its id: a step can end only in a fault of [environment_fault], which
    something the server sent or a library returned causes; or, if the constructor has
    overwritten the id, in the failure of the assertion that compares the thread with it.
    In no execution of fewer than 2^32 - 1 sends does the program lock its mutex twice, run a
    completion on the wrong thread, find the queue of packets empty, find a write buffer or a
    request id in use, follow a null pointer, read outside the read buffer, or find no packet
    in a completed handshake ([excluded_faults]). *)
Theorem reachable_faults b ls w l f :
  ordinary ls → execution b ls w → Z.of_nat (length (sent_buffers (w_io w))) < 2 ^ 32 - 1 →
  enabled w l → action_around l w = Crash f →
  environment_fault f ∨ b = true ∧ f = wrong_thread.
Proof.
  intros Hord Hx Hsent Hen E. destruct (execution_plain b ls w Hord Hx) as (v & Hv & ->).
  pose proof (around_action b l v (plain_id ls v Hord Hv)) as Hr. rewrite E in Hr. simpl in Hr.
  destruct Hr as [Ep|[-> ->]]; [left|by right]. apply built_enabled in Hen.
  destruct (reactive_steps client ls v Hv) as (made & u & Hlen & _ & Hu & Heq).
  destruct (reactive_action client v l Hen) as [Er _]. rewrite Ep in Er.
  rewrite <-Heq in Hen. rewrite <-(action_proper l _ _ Heq) in Er.
  destruct (action l u) as [| |f'] eqn:Eu; try done. injection Er as <-.
  apply (plain_faults (with_reactions ls made) u l f); [|done| |done|done].
  - unfold ordinary in *. by rewrite !count_reactions.
  - assert (w_io u = w_io v) as ->; [exact (f_equal w_io Heq)|done].
Qed.

End executions.
