(* ===== verification/Demo.v ===== *)
(** * The example program (src/example.cpp: [main])

    The thread of [main], statement by statement, next to the worker thread of its client.
    The two meet in the semaphore: the listener of [main] notifies it, on the worker thread,
    when the event is Connected; [main] waits for it before its request. The semaphore is the
    atomic one, which [Semaphore] shows the class of the program to refine. *)

From S2P Require Import Prelude Outcome Net Errors Events Gzip Message Packet ReadBuffer.
From S2P Require Import TcpPacketStream ConnState Json Connection Client System Stream Receive Flow Frame.
From S2P Require Import Handlers Invariants Safety Lifecycle Exceptions Listening Semaphore.

Section demo.
Context `{BuildMode, BoostMessages, Zlib, Allocator, RapidJson, Resolver, DecompressFuel}.
Context `{!TimerService ConnTimerCb, !UnorderedIteration}.

(** The statement [main] is about to run; [AtScopeEnd rv] is the end of the block, where the
    client is destroyed, on the way to the result [rv]. *)
Inductive MainPc :=
| AtAddListener | AtConnect | AtWait | AtRequest
| AtScopeEnd (rv : Z)
| Returned (rv : Z).

Record Demo := { dm_pc : MainPc; dm_world : World; dm_sem : nat }.

Definition demo_listener : Listener := 0%nat.
Definition demo_handler : RequestHandler := 0%nat.
Definition demo_address : string :=
  "a1d127034f31611e8858512b1bea90da-838011280.us-east-1.elb.amazonaws.com:3251".

Definition demo_start : Demo := {| dm_pc := AtAddListener; dm_world := initial; dm_sem := 0 |}.

(** How often the listener has been told that the connection is established: each time it
    calls [semaphore.Notify()]. *)
Definition connections (w : World) : nat :=
  length (filter (λ ev, ev = EventConnected) (events_of demo_listener w)).

Definition notified (w w' : World) : list abs_op :=
  replicate (connections w' - connections w) AbsNotify.

(** One step, of [main] or of the worker thread, with the labels of the connection's steps.
    An exception of the library is caught: the client is destroyed and the result is -1. *)
Inductive demo_step (d : Demo) : list label → Demo → Prop :=
| demo_AddEventListener w' :
    dm_pc d = AtAddListener → action (LAddListener demo_listener) (dm_world d) = Ret tt w' →
    demo_step d [LAddListener demo_listener] {| dm_pc := AtConnect; dm_world := w'; dm_sem := dm_sem d |}
| demo_Connect w' :
    dm_pc d = AtConnect → action (LStart demo_address) (dm_world d) = Ret tt w' →
    demo_step d [LStart demo_address] {| dm_pc := AtWait; dm_world := w'; dm_sem := dm_sem d |}
| demo_Connect_throws what w' :
    dm_pc d = AtConnect → action (LStart demo_address) (dm_world d) = Throw (PitayaException what) w' →
    demo_step d [LStart demo_address] {| dm_pc := AtScopeEnd (-1); dm_world := w'; dm_sem := dm_sem d |}
| demo_Wait n :
    dm_pc d = AtWait → abs_step AbsWait (dm_sem d) = Some n →
    demo_step d [] {| dm_pc := AtRequest; dm_world := dm_world d; dm_sem := n |}
| demo_Request w' :
    dm_pc d = AtRequest →
    action (LRequest "connector.getsessiondata" [] 5 demo_handler) (dm_world d) = Ret tt w' →
    demo_step d [LRequest "connector.getsessiondata" [] 5 demo_handler]
      {| dm_pc := AtScopeEnd 0; dm_world := w'; dm_sem := dm_sem d |}
| demo_destroy rv :
    dm_pc d = AtScopeEnd rv → Connection_destructor_returns (dm_world d) →
    demo_step d [] {| dm_pc := Returned rv; dm_world := dm_world d; dm_sem := dm_sem d |}
| demo_worker l w' n :
    (∀ rv, dm_pc d ≠ Returned rv) → is_client l = false → step (dm_world d) l w' →
    abs_run (notified (dm_world d) w') (dm_sem d) = Some n →
    demo_step d [l] {| dm_pc := dm_pc d; dm_world := w'; dm_sem := n |}.

Inductive demo_steps : list label → Demo → Prop :=
| demo_nil : demo_steps [] demo_start
| demo_snoc ls d ls' d' : demo_steps ls d → demo_step d ls' d' → demo_steps (ls ++ ls') d'.

(** ** What a step of the worker thread leaves as it is *)

Record after (trace : list Observation) (posted : list PostedRequest) (w : World) : Prop := {
  af_trace : trace `prefix_of` w_trace w;
  af_posted : w_posted w = posted;
  af_on : on_worker w;
}.

Lemma after_zoom trace posted {A} (m : M ConnIO A) :
  runs (after trace posted) (λ _, True) (zoom (W := World) m).
Proof. intros w []. unfold zoom. by destruct (m _). Qed.

#[export] Instance untouched_after trace posted : Untouched (after trace posted) (λ _, True).
Proof.
  split; try done; try (intros; apply after_zoom); try by intros ? w []; split.
  - intros o w []. split; [|done..]. by apply prefix_app_r.
  - intros w [_ _ [-> ->]]. done.
Qed.

#[export] Instance sending_after trace posted :
  Sending (locked_is (after trace posted) false) (λ _, True).
Proof. apply (sending_locked (after trace posted) _); intros; apply after_zoom. Qed.

#[export] Instance stepped_after trace posted : Stepped (locked_is (after trace posted) false).
Proof.
  split; [apply _|apply _|..|intros; apply runs_locked_zoom, after_zoom]; intros x w [[] ?]; (split; [by split|done]).
Qed.

Lemma worker_leaves ls w l w' :
  ordinary ls → steps initial ls w → is_client l = false → step w l w' →
  w_trace w `prefix_of` w_trace w' ∧ w_posted w' = w_posted (taken w l).
Proof.
  intros Hord Hs Hc Hstep.
  destruct (reachable_wf _ _ Hord Hs) as (n & _ & Hwf & Hids).
  pose proof (accounts_hold _ w l (proj1 Hord) Hs Hids) as Hok.
  inversion Hstep as [? Hen E|? ? Hc' E]; [subst|congruence].
  assert (locked_is (after (w_trace w) (w_posted (taken w l))) false (taken w l)) as Hw.
  { destruct Hwf. split; [split|]; by destruct l. }
  assert (∀ io w0, locked_is (after (w_trace w) (w_posted (taken w l))) false w0 →
    locked_is (after (w_trace w) (w_posted (taken w l))) false (set_io io w0)) as Hio.
  { intros io w0 [[] ?]. split; [by split|done]. }
  assert (∀ s w0, locked_is (after (w_trace w) (w_posted (taken w l))) false w0 →
    locked_is (after (w_trace w) (w_posted (taken w l))) false (set_timers s w0)) as Htimers.
  { intros s w0 [[] ?]. split; [by split|done]. }
  pose proof (ends_any_step _ Hio Htimers l w Hw Hen Hc Hok) as He.
  rewrite E in He. by destruct He as [[] _].
Qed.

Lemma connections_mono w w' :
  w_trace w `prefix_of` w_trace w' → (connections w ≤ connections w')%nat.
Proof.
  intros [t Ht]. unfold connections, events_of.
  rewrite Ht, bind_app, filter_app, length_app. lia.
Qed.

Lemma abs_run_notify k n : abs_run (replicate k AbsNotify) n = Some (n + k)%nat.
Proof.
  revert n. induction k as [|k IH]; intros n; [by rewrite Nat.add_0_r|].
  simpl. rewrite IH. f_equal. lia.
Qed.

(** ** The invariant *)

Definition request_made (p : MainPc) : bool :=
  match p with AtScopeEnd rv | Returned rv => rv =? 0 | _ => false end.

Definition connect_called (p : MainPc) : bool :=
  match p with AtAddListener | AtConnect => false | _ => true end.

Record demo_wf (ls : list label) (d : Demo) : Prop := {
  dw_steps : steps initial ls (dm_world d);
  dw_starts : count_labels is_start ls = (if connect_called (dm_pc d) then 1 else 0)%nat;
  dw_requested : requested ls = if request_made (dm_pc d) then [demo_handler] else [];
  dw_runs : (count_labels is_run_request ls + length (w_posted (dm_world d)) = length (requested ls))%nat;
  dw_sem : match dm_pc d with
           | AtAddListener | AtConnect | AtWait => dm_sem d = connections (dm_world d)
           | AtRequest => (0 < connections (dm_world d))%nat
           | AtScopeEnd rv | Returned rv => rv = 0 → (0 < connections (dm_world d))%nat
           end;
  dw_returned : ∀ rv, dm_pc d = Returned rv → IsConnected (w_state (dm_world d)) = false;
}.

Lemma demo_ordinary ls d : demo_wf ls d → ordinary ls.
Proof.
  intros [_ Hs Hr Hn _ _]. split; [rewrite Hs; destruct (connect_called _); lia|].
  rewrite Hr in Hn. destruct (request_made _); simpl in Hn; lia.
Qed.

Lemma requested_app ls ls' : requested (ls ++ ls') = requested ls ++ requested ls'.
Proof. apply bind_app. Qed.

(** A call of [main] in the connection. *)
Lemma demo_wf_call ls d l w' p n :
  demo_wf ls d → is_client l = true → (action l (dm_world d) = Ret tt w' ∨ ∃ e, action l (dm_world d) = Throw e w') →
  w_trace w' = w_trace (dm_world d) →
  length (w_posted w') = (length (w_posted (dm_world d)) + length (requested_by l))%nat →
  connect_called p = connect_called (dm_pc d) || is_start l →
  (is_start l = true → connect_called (dm_pc d) = false) →
  (if request_made p then [demo_handler] else []) =
    (if request_made (dm_pc d) then [demo_handler] else []) ++ requested_by l →
  (connections w' = connections (dm_world d) →
    match p with
    | AtAddListener | AtConnect | AtWait => n = connections w'
    | AtRequest => (0 < connections w')%nat
    | AtScopeEnd rv | Returned rv => rv = 0 → (0 < connections w')%nat
    end) →
  (∀ rv, p ≠ Returned rv) →
  demo_wf (ls ++ [l]) {| dm_pc := p; dm_world := w'; dm_sem := n |}.
Proof.
  intros [Hs Hst Hr Hn Hsem Hret] Hc E Htr Hp Hcall Hcall' Hreq Hsem' Hp'.
  assert (requested [l] = requested_by l) as Hl by apply app_nil_r.
  split; simpl.
  - eapply steps_snoc; [done|]. destruct E as [E|[e E]]; [|by eapply step_throw].
    apply step_return; [by destruct l|done].
  - rewrite count_labels_snoc, Hst, Hcall. destruct (is_start l).
    + by rewrite Hcall'.
    + rewrite orb_false_r. lia.
  - by rewrite requested_app, Hr, Hl.
  - rewrite count_labels_snoc, requested_app, length_app, Hl, Hp.
    assert (is_run_request l = false) as -> by by destruct l. lia.
  - apply Hsem'. unfold connections, events_of. by rewrite Htr.
  - intros rv ->. by destruct (Hp' rv).
Qed.

Lemma demo_wf_worker ls d l w' n :
  demo_wf ls d → (∀ rv, dm_pc d ≠ Returned rv) → is_client l = false → step (dm_world d) l w' →
  abs_run (notified (dm_world d) w') (dm_sem d) = Some n →
  demo_wf (ls ++ [l]) {| dm_pc := dm_pc d; dm_world := w'; dm_sem := n |}.
Proof.
  intros Hwf Hpc Hc Hstep Hrun. pose proof (demo_ordinary _ _ Hwf) as Hord.
  destruct Hwf as [Hs Hst Hr Hn Hsem Hret].
  destruct (worker_leaves ls _ _ _ Hord Hs Hc Hstep) as [Htr Hp].
  pose proof (connections_mono _ _ Htr) as Hmono.
  unfold notified in Hrun. rewrite abs_run_notify in Hrun. injection Hrun as <-.
  assert (requested_by l = [] ∧ is_start l = false) as [Hl Hl'] by by destruct l.
  assert (requested (ls ++ [l]) = requested ls) as Hreq.
  { rewrite requested_app. unfold requested at 2. simpl. by rewrite Hl, app_nil_r. }
  split; simpl.
  - by eapply steps_snoc.
  - rewrite count_labels_snoc, Hst, Hl'. lia.
  - by rewrite Hreq.
  - rewrite Hreq, <- Hn, count_labels_snoc, Hp. destruct l as [| | |i| | | | |]; simpl; try lia; try done.
    inversion Hstep as [? [r Hi] _|]; [|done]. rewrite length_delete by done.
    apply lookup_lt_Some in Hi. lia.
  - destruct (dm_pc d); try (intros; lia). all: intros Hrv; specialize (Hsem Hrv); lia.
  - intros rv E. by destruct (Hpc rv).
Qed.

Lemma demo_start_wf : demo_wf [] demo_start.
Proof. split; try done. apply steps_nil. Qed.

Lemma demo_wf_step ls d ls' d' : demo_wf ls d → demo_step d ls' d' → demo_wf (ls ++ ls') d'.
Proof.
  intros Hwf Hstep. pose proof Hwf as [Hs Hst Hr Hn Hsem Hret].
  destruct Hstep as [w' Hpc E|w' Hpc E|what w' Hpc E|n Hpc E|w' Hpc E|rv Hpc Hd|l w' n Hpc Hc Hstep Hrun];
    rewrite ?Hpc in *.
  - apply (demo_wf_call ls d); rewrite ?Hpc; auto; injection E as <-; simpl; try done; lia || congruence.
  - apply start_Ret in E as Hw'.
    apply (demo_wf_call ls d); rewrite ?Hpc; auto; try done; destruct Hw' as [->|[op ->]]; simpl; lia || congruence.
  - destruct (client_throw (LStart demo_address) (dm_world d) _ _ eq_refl E) as [_ Hw'].
    apply (demo_wf_call ls d); rewrite ?Hpc; eauto; subst w'; simpl; lia || done.
  - rewrite app_nil_r. split; simpl; rewrite ?Hpc; try done.
    destruct (dm_sem d) as [|m] eqn:Hm; [done|]. lia.
  - apply (demo_wf_call ls d); rewrite ?Hpc; auto; injection E as <-; simpl; try done.
    by rewrite length_app.
  - rewrite app_nil_r. split; simpl; try done. intros _ _.
    destruct (IsConnected (w_state (dm_world d))) eqn:Hc; [|done]. exfalso. apply Hd. do 3 right. left.
    by eapply connected_outstanding; [eapply demo_ordinary|..].
  - by apply demo_wf_worker.
Qed.

Lemma demo_wf_steps ls d : demo_steps ls d → demo_wf ls d.
Proof. induction 1; [apply demo_start_wf|by eapply demo_wf_step]. Qed.

(** A run of the worker thread, by computation. *)
Lemma demo_workers ls0 d ls w' :
  demo_steps ls0 d → (∀ rv, dm_pc d ≠ Returned rv) → forallb (λ l, negb (is_client l)) ls = true →
  exec ls (dm_world d) = Some w' →
  ∃ n, demo_steps (ls0 ++ ls) {| dm_pc := dm_pc d; dm_world := w'; dm_sem := n |}.
Proof.
  revert ls0 d. induction ls as [|l ls IH]; intros ls0 [p w n] Hs Hp; simpl.
  { intros _ [= <-]. exists n. by rewrite app_nil_r. }
  intros [Hl%negb_true_iff Hls]%andb_true_iff. destruct (enabledb w l) eqn:Hen; [|done].
  destruct (action l w) as [[] w1| |] eqn:E; [|done..]. intros Hex.
  destruct (IH (ls0 ++ [l]) {| dm_pc := p; dm_world := w1;
    dm_sem := n + (connections w1 - connections w) |}) as (n' & Hn'); [|done..|].
  { eapply demo_snoc; [exact Hs|]. apply (demo_worker {| dm_pc := p; dm_world := w; dm_sem := n |}); try done.
    - apply step_return; [by apply enabledb_spec|done].
    - apply abs_run_notify. }
  exists n'. by rewrite <- app_assoc in Hn'.
Qed.

(** C23: the example program makes one request, and only after its listener has been told that
    the connection is established; it returns 0 only when that has happened, and returns at
    all only when the connection is not established any more. *)
Theorem demo_main ls d :
  demo_steps ls d →
  (requested ls = [] ∨
   requested ls = [demo_handler] ∧ EventConnected ∈ events_of demo_listener (dm_world d)) ∧
  (∀ rv, dm_pc d = Returned rv →
    IsConnected (w_state (dm_world d)) = false ∧
    (rv = 0 → requested ls = [demo_handler] ∧ EventConnected ∈ events_of demo_listener (dm_world d))).
Proof.
  intros [Hs _ Hr _ Hsem Hret]%demo_wf_steps.
  assert ((0 < connections (dm_world d))%nat → EventConnected ∈ events_of demo_listener (dm_world d)) as Hin.
  { unfold connections. destruct (filter _ _) as [|ev evs] eqn:E; simpl; [lia|].
    assert (ev ∈ filter (λ ev, ev = EventConnected) (events_of demo_listener (dm_world d))) as Hev
      by (rewrite E; by left).
    by apply list_elem_of_filter in Hev as [<- ?]. }
  split.
  - destruct (request_made (dm_pc d)) eqn:Hm; rewrite Hr; [right|by left]. split; [done|].
    apply Hin. destruct (dm_pc d); try done; simpl in Hm; bool_to_prop; auto.
  - intros rv Hpc. split; [by apply (Hret rv)|]. intros ->. rewrite Hpc in *. auto.
Qed.
End demo.
