(* ===== verification/Examples.v ===== *)
(** * A concrete environment, and the theorems on it

    The classes the development is parametric in are given concrete instances: a zlib that
    stores, timers kept in a ledger, a JSON library that knows one document. The theorems
    with hypotheses are then applied to concrete inputs, most of them to the states of one
    execution of the whole client: it connects, shakes hands, sends a request and gets the
    answer. *)

From S2P Require Import Prelude Outcome Net Errors Events Gzip Message Packet ReadBuffer.
From S2P Require Import TcpPacketStream ConnState Json Connection Client System Flow Stream.
From S2P Require Import Receive Frame Handlers Invariants Safety Lifecycle Requests Heartbeat.
From S2P Require Import Logger Exceptions Compress Socket Semaphore Session Listening Demo Timers Silence Wire Dialogue Interleaving Startup.

(** ** The environment *)

#[local] Instance messages : BoostMessages := λ _, "boost error"%string.
#[local] Instance allocator : Allocator := λ _ _, true.
#[local] Instance inflate_fuel : DecompressFuel := 100%nat.

#[local] Instance resolver : Resolver := {|
  Endpoints := unit;
  resolve host port := if decide (host = "nowhere"%string) then inl "unknown host"%string else inr tt
|}.

(** A zlib whose streams are [0x78], [0x9C] and the data as they are. [None] is a stream
    before its first call, [Some rest] one that still has to write [rest]. *)
Definition stored_write (rest : list Z) (n : Z) : ZCall (option (list Z)) := {|
  z_ret := if Z.of_nat (length rest) <=? n then Z_STREAM_END else Z_BUF_ERROR;
  z_strm := Some (drop (Z.to_nat n) rest);
  z_in := [];
  z_out := take (Z.to_nat n) rest |}.

Definition stored_inflate (s : option (list Z)) (i : list Z) (n flush : Z) : ZCall (option (list Z)) :=
  match s, i with
  | Some rest, _ => stored_write rest n
  | None, 0x78 :: 0x9C :: plain => stored_write plain n
  | None, _ => {| z_ret := Z_DATA_ERROR; z_strm := None; z_in := i; z_out := [] |}
  end.

Definition stored_deflate (s : option (list Z)) (i : list Z) (n flush : Z) : ZCall (option (list Z)) :=
  if n <=? 0 then {| z_ret := Z_BUF_ERROR; z_strm := s; z_in := i; z_out := [] |} else
  match s with
  | Some rest => stored_write rest n
  | None => stored_write (0x78 :: 0x9C :: i) n
  end.

#[local] Instance stored : Zlib := {|
  z_stream := option (list Z);
  inflateInit2 _ := (Z_OK, None);
  inflate := stored_inflate;
  inflateEnd _ := Z_OK;
  deflateInit _ := (Z_OK, None);
  deflate := stored_deflate;
  deflateEnd _ := Z_OK;
|}.

#[local, refine] Instance stored_inflates (plain : list Z) : Inflates (0x78 :: 0x9C :: plain) plain := {|
  inflating s i rest := match s with Some r => r = rest | None => i = 0x78 :: 0x9C :: rest end
|}.
Proof.
  - by exists None.
  - intros [r|] i rest n; intros ->; intros Hn; cbv zeta;
      change (inflate ?s ?i ?n ?f) with (stored_inflate s i n f); unfold stored_inflate, stored_write;
      cbn [z_out z_strm z_in z_ret]; (split; [done|split; [done|]]); case_match; set_solver.
  - done.
Defined.

#[local, refine] Instance stored_deflates (data : list Z) : Deflates data (0x78 :: 0x9C :: data) := {|
  deflating s i rest := match s with Some r => r = rest | None => rest = 0x78 :: 0x9C :: i end
|}.
Proof.
  - by exists None.
  - intros s i rest Hs. by split_and!.
  - intros s i rest n Hs Hn. cbv zeta. change (deflate s i n Z_FINISH) with (stored_deflate s i n Z_FINISH).
    unfold stored_deflate. rewrite (proj2 (Z.leb_gt n 0)) by done.
    assert (match s with Some rest => stored_write rest n | None => stored_write (0x78 :: 0x9C :: i) n end
      = stored_write rest n) as -> by (destruct s; by subst).
    unfold stored_write. cbn [z_out z_strm z_in z_ret]. split_and!; [done..|].
    destruct (Z.ltb_spec (Z.of_nat (length rest)) n); [by rewrite (proj2 (Z.leb_le _ _)) by lia|].
    destruct (_ <=? n); set_solver.
Defined.

(** Timers in a ledger: the live ones, the waits of each, and the cancelled waits whose
    completion has not been delivered; and every handler given so far. *)
Record Ledger (Cb : Type) := {
  lg_alive : list nat;
  lg_waits : gmap nat (list Cb);
  lg_cancelled : list (nat * Cb);
  lg_given : list Cb;
}.
Arguments lg_alive {Cb}. Arguments lg_waits {Cb}. Arguments lg_cancelled {Cb}.
Arguments lg_given {Cb}.

Section ledger.
Context {Cb : Type}.

Definition lg_waiting (s : Ledger Cb) (t : nat) : list Cb := default [] (lg_waits s !! t).

Definition lg_cancel (t : nat) (alive : list nat) (s : Ledger Cb) : Ledger Cb := {|
  lg_alive := alive;
  lg_waits := delete t (lg_waits s);
  lg_cancelled := lg_cancelled s ++ ((t,.) <$> lg_waiting s t);
  lg_given := lg_given s |}.

Definition lg_new (s : Ledger Cb) : nat * Ledger Cb :=
  let t := S (max_list (lg_alive s)) in
  (t, {| lg_alive := t :: lg_alive s; lg_waits := delete t (lg_waits s);
         lg_cancelled := lg_cancelled s; lg_given := lg_given s |}).

Definition lg_async_wait (t : nat) (h : Cb) (s : Ledger Cb) : Ledger Cb := {|
  lg_alive := lg_alive s;
  lg_waits := <[t := lg_waiting s t ++ [h]]> (lg_waits s);
  lg_cancelled := lg_cancelled s;
  lg_given := h :: lg_given s |}.

Definition lg_destroy (t : nat) (s : Ledger Cb) : Ledger Cb :=
  lg_cancel t (filter (.≠ t) (lg_alive s)) s.

Inductive lg_fire (s : Ledger Cb) (t : nat) (h : Cb) (ec : error_code) : Ledger Cb → Prop :=
| lg_fire_expired before after :
    ec_failed ec = false → lg_waiting s t = before ++ h :: after → h ∈ lg_given s →
    lg_fire s t h ec {| lg_alive := lg_alive s; lg_waits := <[t := before ++ after]> (lg_waits s);
                        lg_cancelled := lg_cancelled s; lg_given := lg_given s |}
| lg_fire_cancelled before after :
    ec_failed ec = true → lg_cancelled s = before ++ (t, h) :: after → h ∈ lg_given s →
    lg_fire s t h ec {| lg_alive := lg_alive s; lg_waits := lg_waits s;
                        lg_cancelled := before ++ after; lg_given := lg_given s |}.

Lemma lg_new_fresh (s : Ledger Cb) : (lg_new s).1 ∉ lg_alive s.
Proof.
  cbn. intros Hin. assert (∀ l n, n ∈ l → (n ≤ max_list l)%nat) as Hmax.
  { induction l as [|m l IH]; intros n; [by intros ?%not_elem_of_nil|].
    rewrite elem_of_cons. simpl. intros [->|?%IH]; lia. }
  apply Hmax in Hin. lia.
Qed.
End ledger.

#[local, refine] Instance ledger_service (Cb : Type) : TimerService Cb := {|
  TS := Ledger Cb;
  ts_empty := {| lg_alive := []; lg_waits := ∅; lg_cancelled := []; lg_given := [] |};
  ts_new := lg_new;
  ts_expires t e s := lg_cancel t (lg_alive s) s;
  ts_async_wait := lg_async_wait;
  ts_destroy := lg_destroy;
  ts_fire := lg_fire;
  ts_alive s t := t ∈ lg_alive s;
  ts_waiting := lg_waiting;
  ts_given := lg_given;
|}.
Proof.
  - apply lg_new_fresh.
  - intros s t. apply elem_of_cons.
  - intros s t. unfold lg_waiting. cbn [lg_new snd fst lg_waits]. case_decide as Ht.
    + by rewrite Ht, lookup_delete_eq.
    + by rewrite lookup_delete_ne by done.
  - done.
  - intros t e s t'. unfold lg_waiting at 1. cbn. case_decide as Ht.
    + by rewrite Ht, lookup_delete_eq.
    + by rewrite lookup_delete_ne by done.
  - done.
  - intros t h s t'. unfold lg_waiting at 1. cbn. case_decide as Ht.
    + by rewrite Ht, lookup_insert_eq.
    + by rewrite lookup_insert_ne by done.
  - intros t s t'. cbn. by rewrite list_elem_of_filter.
  - intros t s t'. unfold lg_waiting at 1. cbn. case_decide as Ht.
    + by rewrite Ht, lookup_delete_eq.
    + by rewrite lookup_delete_ne by done.
  - intros s t h ec s' t' []; done.
  - intros s t h ec s' t' [] ?; unfold lg_waiting at 1; cbn; [|done].
    by rewrite lookup_insert_ne.
  - intros s t h ec s' [before after _ Hw _|]; [left|by right].
    rewrite Hw. unfold lg_waiting. cbn. rewrite lookup_insert_eq. cbn. by rewrite Permutation_middle.
  - intros s t h ec s' [|]; [congruence|done].
  - done.
  - done.
  - done.
  - done.
  - done.
  - by intros s t h ec s' [].
Defined.

(** The only wait of a timer can complete. *)
Lemma sole_wait_fires {Cb} (s : TS (Cb := Cb)) t cb :
  ts_waiting s t = [cb] → cb ∈ ts_given s → ∃ s', ts_fire s t cb ec_success s'.
Proof.
  intros Hw Hg. eexists. apply (lg_fire_expired s t cb ec_success [] []); [|exact Hw|exact Hg].
  apply ec_failed_success.
Qed.

(** A JSON library that parses one document. *)
Inductive json :=
| JText (s : string)
| JNumber (n : Z)
| JObject (members : list (string * json)).

Definition json_find (v : json) (k : string) : option json :=
  match v with
  | JObject ms => snd <$> list_find (λ m, m.1 = k) ms ≫= λ p, Some p.2
  | _ => None
  end.

Definition response_text : string :=
  with_quotes "{'sys': {'heartbeat': 30, 'dict': {'room.join': 7}}}".
Definition response_json : json :=
  JObject [("sys", JObject [("heartbeat", JNumber 30);
                            ("dict", JObject [("room.join", JNumber 7)])])]%string.

#[local] Instance rapidjson : RapidJson := {|
  JValue := json;
  JParse s := if decide (s = response_text) then Some response_json else None;
  JIsObject v := match v with JObject _ => true | _ => false end;
  JMembers v := match v with JObject ms => ms | _ => [] end;
  JFindMember := json_find;
  JUint64 v := match v with JNumber n => if (0 <=? n) && (n <? 2 ^ 64) then Some n else None | _ => None end;
  JString v := match v with JText s => Some s | _ => None end;
  JInt v := match v with
            | JNumber n => if (- 2 ^ 31 <=? n) && (n <? 2 ^ 31) then Some n else None
            | _ => None end;
|}.

Example response_read : read_handshake response_text = Accepted 30 "json" {["room.join"%string := 7]}.
Proof. vm_compute. reflexivity. Qed.

(** ** One execution, in a build with assertions *)

#[local] Instance debug : BuildMode := false.

Definition handshake_response : list Z :=
  Packet_SerializeInto (NewHandshake response_text) [].

(** A Data packet with the response [hi] to the request of id 1. *)
Definition room_response : list Z :=
  Packet_SerializeInto (NewData_bytes [4; 1; 104; 105]) [].

Definition until_connected : list label :=
  [LAddListener 1%nat; LStart "host:1234"; LConnectDone 0 ec_success; LSendNext 0;
   LSendDone 0 ec_success 0; LReceiveDone 0 ec_success handshake_response;
   LSendNext 0; LSendDone 0 ec_success 0].

Definition until_sent : list label :=
  until_connected ++ [LRequest "room.join" [1; 2] 5 42%nat; LRunRequest 0; LSendNext 0].

Definition scenario : list label :=
  until_sent ++ [LSendDone 0 ec_success 0; LReceiveDone 0 ec_success room_response].

Example scenario_trace :
  w_trace (reached scenario) =
    [ListenerCalled 1%nat EventConnected "Connection successful";
     HandlerCalled 42%nat StatusOk [104; 105]].
Proof. vm_compute. reflexivity. Qed.

(** ** The theorems on executions *)

Lemma scenario_steps : steps initial scenario (reached scenario).
Proof. apply reached_steps. vm_compute. reflexivity. Qed.
Lemma connected_steps : steps initial until_connected (reached until_connected).
Proof. apply reached_steps. vm_compute. reflexivity. Qed.
Lemma sent_steps : steps initial until_sent (reached until_sent).
Proof. apply reached_steps. vm_compute. reflexivity. Qed.

Lemma scenario_ordinary : ordinary scenario.
Proof. split; [apply Nat.leb_le|apply Z.ltb_lt]; vm_compute; reflexivity. Qed.
Lemma sent_ordinary : ordinary until_sent.
Proof. split; [apply Nat.leb_le|apply Z.ltb_lt]; vm_compute; reflexivity. Qed.
Lemma connected_ordinary : ordinary until_connected.
Proof. split; [apply Nat.leb_le|apply Z.ltb_lt]; vm_compute; reflexivity. Qed.

(** The handler of the request is under way while the packet is being sent. *)
Lemma handlers_conserved_witness :
  requested until_sent ≡ₚ
    called (reached until_sent) ++ waiting (reached until_sent) ++ discarded (reached until_sent) ∧
  waiting (reached until_sent) = [42%nat].
Proof.
  split; [apply (handlers_conserved until_sent), sent_steps|vm_compute; reflexivity].
Defined.

Lemma handlers_called_once_witness :
  called (reached scenario) = [42%nat] ∧ NoDup (called (reached scenario)).
Proof.
  split; [vm_compute; reflexivity|].
  apply (handlers_called_once scenario); [apply scenario_steps|].
  repeat constructor. set_solver.
Defined.

Lemma listener_lifecycle_witness :
  events_of 1%nat (reached scenario) = [EventConnected] ∧
  lifecycle (events_of 1%nat (reached scenario)) = Some (IsConnected (w_state (reached scenario))).
Proof.
  split; [vm_compute; reflexivity|].
  apply (listener_lifecycle 1%nat (tail scenario)); [apply scenario_ordinary|apply scenario_steps|].
  repeat constructor; discriminate.
Defined.

(** The request has been sent and waits for its answer. *)
Definition until_in_flight : list label := until_sent ++ [LSendDone 0 ec_success 0].

Lemma in_flight_steps : steps initial until_in_flight (reached until_in_flight).
Proof. apply reached_steps. vm_compute. reflexivity. Qed.
Lemma in_flight_ordinary : ordinary until_in_flight.
Proof. split; [apply Nat.leb_le|apply Z.ltb_lt]; vm_compute; reflexivity. Qed.

Definition awaits_answer (w : World) : Prop :=
  match w_inFlight w !! 1, ts_given (w_timers w) with
  | Some r, cb :: _ => req_handler r = 42%nat ∧ cb = CbRequestTimeout 1
  | _, _ => False
  end.

Lemma in_flight_facts : awaits_answer (reached until_in_flight).
Proof. vm_compute. repeat split. Qed.

Lemma in_flight_request (w : World) :
  awaits_answer w →
  ∃ r, w_inFlight w !! 1 = Some r ∧ req_handler r = 42%nat ∧ CbRequestTimeout 1 ∈ ts_given (w_timers w).
Proof.
  unfold awaits_answer. destruct (_ !! 1) as [r|]; [|done]. destruct (ts_given _) as [|cb g]; [done|].
  intros [? ->]. exists r. split_and!; [done|done|by left].
Qed.

(** The server does not answer: the request times out. *)
Lemma requests_time_out_witness :
  ∃ r s w', w_inFlight (reached until_in_flight) !! 1 = Some r ∧
    step (reached until_in_flight) (LTimer (req_timer r) (CbRequestTimeout 1) ec_success s) w' ∧
    w_trace w' = w_trace (reached until_in_flight) ++ [HandlerCalled (req_handler r) StatusTimeout []] ∧
    req_handler r = 42%nat.
Proof.
  destruct (in_flight_request (reached until_in_flight) in_flight_facts) as (r & Hr & Hh & Hg).
  destruct (requests_time_out until_in_flight (reached until_in_flight) 1 r
    in_flight_ordinary in_flight_steps Hr) as (_ & Hw & Hfire).
  destruct (sole_wait_fires _ _ _ Hw Hg) as [s Hs].
  destruct (Hfire ec_success s ec_failed_success Hs) as (w' & Hstep & Htrace & _).
  exists r, s, w'. exact (conj Hr (conj Hstep (conj Htrace Hh))).
Defined.

Definition ticks (w : World) : Prop :=
  match st_val (w_state w), ts_given (w_timers w) with
  | ConnectedState c, _ :: cb :: _ => cb = CbHeartbeatTick
  | _, _ => False
  end.

Lemma connected_given : ticks (reached until_connected).
Proof. vm_compute. repeat split. Qed.

Lemma connected_ticks (w : World) :
  ticks w →
  ∃ c, st_val (w_state w) = ConnectedState c ∧ CbHeartbeatTick ∈ ts_given (w_timers w).
Proof.
  unfold ticks. destruct (st_val _) as [|c]; [done|]. destruct (ts_given _) as [|f [|cb g]]; [done..|].
  intros ->. exists c. split; [done|]. right. by left.
Qed.

Lemma heartbeat_beats_witness :
  ∃ c s w', st_val (w_state (reached until_connected)) = ConnectedState c ∧
    step (reached until_connected) (LTimer (heartbeatTimer c) CbHeartbeatTick ec_success s) w' ∧
    ts_waiting (w_timers w') (heartbeatTimer c) = [CbHeartbeatTick].
Proof.
  destruct (connected_ticks (reached until_connected) connected_given) as (c & Hc & Hg).
  destruct (heartbeat_beats until_connected (reached until_connected) c
    connected_ordinary connected_steps Hc) as (Hw & Hfire).
  destruct (sole_wait_fires _ _ _ Hw Hg) as [s Hs].
  destruct (Hfire ec_success s ec_failed_success Hs) as (w' & Hstep & _ & Hagain & _).
  exists c, s, w'. exact (conj Hc (conj Hstep Hagain)).
Defined.

(** A client that makes a request as soon as its listener is told that it is connected. *)
Definition eager : Reaction := λ o,
  match o with
  | ListenerCalled _ EventConnected _ =>
      [{| pr_route := "room.join"; pr_data := [1; 2]; pr_timeout := 5; pr_handler := 42%nat |}]
  | _ => []
  end.

Definition until_eager : list label := until_connected ++ [LRunRequest 0].

Lemma eager_steps :
  steps (client := eager) initial until_eager (reached (client := eager) until_eager).
Proof. apply reached_steps. vm_compute. reflexivity. Qed.

Lemma reactive_client_simulated_witness :
  ∃ made v, length made = 9%nat ∧
    steps initial (with_reactions until_eager made) v ∧ v ≡ reached (client := eager) until_eager.
Proof.
  destruct (reactive_client_simulated eager until_eager (reached (client := eager) until_eager) eager_steps)
    as (made & v & Hlen & _ & Hv & Heq & _).
  exists made, v. exact (conj Hlen (conj Hv Heq)).
Defined.

(** The server has sent a heartbeat, and then falls silent. *)
Definition until_silent : list label :=
  until_connected ++ [LReceiveDone 0 ec_success (frame NewHeartbeat)].

Lemma silent_steps : steps initial until_silent (reached until_silent).
Proof. apply reached_steps. vm_compute. reflexivity. Qed.
Lemma silent_ordinary : ordinary (until_silent ++ [LSendNext 0]).
Proof. by split. Qed.

(** The state is [Connected] and the timer of the timeout has no wait. *)
Definition unwatched (w : World) : Prop :=
  match st_val (w_state w) with
  | ConnectedState c => ts_waiting (w_timers w) (heartbeatTimeout c) = []
  | InitedState => False
  end.

Lemma silent_unwatched : unwatched (reached until_silent).
Proof. vm_compute. reflexivity. Qed.

Lemma unwatched_connected (w : World) :
  unwatched w →
  ∃ c, st_val (w_state w) = ConnectedState c ∧ ts_waiting (w_timers w) (heartbeatTimeout c) = [].
Proof. unfold unwatched. destruct (st_val _) as [|c]; [done|]. by exists c. Qed.

Lemma silence_undetected_witness :
  ∃ c, st_val (w_state (reached until_silent)) = ConnectedState c ∧
    ∀ w', step (reached until_silent) (LSendNext 0) w' →
      st_val (w_state w') = InitedState ∨
      st_val (w_state w') = ConnectedState c ∧ ts_waiting (w_timers w') (heartbeatTimeout c) = [].
Proof.
  destruct (unwatched_connected (reached until_silent) silent_unwatched) as (c & Hc & Hw).
  exists c. split; [exact Hc|]. intros w' Hstep.
  refine (proj2 (silence_undetected until_silent (reached until_silent) c silent_steps Hc) Hw
    [LSendNext 0] w' silent_ordinary _).
  exact (steps_snoc _ [] _ _ _ (steps_nil _) Hstep).
Defined.

(** A request before the connection, or once it is established. *)
Lemma request_any_time_witness :
  ∃ early late,
    steps initial (LRequest "room.leave" [] 5 43%nat :: until_connected) early ∧
    steps initial (until_connected ++ [LRequest "room.leave" [] 5 43%nat]) late ∧
    early ≡ late.
Proof.
  apply (request_any_time initial until_connected (reached until_connected)).
  - apply connected_steps.
  - repeat constructor.
Defined.

(** Three packets have been written. *)
Lemma wire_typed_witness :
  ∃ sent, sent_buffers (w_io (reached until_sent)) = frame <$> sent ∧ length sent = 3%nat ∧
    session (sent ++ packetSendQueue (io_stream (w_io (reached until_sent)))).
Proof.
  destruct (wire_typed until_sent (reached until_sent) sent_ordinary sent_steps)
    as (sent & Hb & Hsession & _).
  exists sent. split; [exact Hb|]. split; [|exact Hsession].
  rewrite <- (length_fmap frame), <- Hb. vm_compute. reflexivity.
Defined.

(** A server that answers with a HandshakeAck: the assertion of the parser fails. *)
Definition bad_receive : label := LReceiveDone 0 ec_success (frame NewHandshakeAck).

Lemma bad_receive_crashes :
  action bad_receive (reached until_connected) =
    Crash (AssertFailed "Unexpected packet type from server").
Proof. vm_cast_no_check (eq_refl (action bad_receive (reached until_connected))). Qed.

Lemma reachable_invariant_witness :
  length (packetSendQueue (io_stream (w_io (reached until_sent)))) =
    length (io_posted (w_io (reached until_sent))) ∧
  w_dropped (reached until_sent) = [].
Proof.
  pose proof (reachable_invariant until_sent (reached until_sent) sent_ordinary sent_steps)
    as (_ & Hq & _ & _ & _ & _ & Hd).
  exact (conj Hq Hd).
Defined.

Lemma request_ids_unique_witness :
  live_ids (reached until_sent) = [1] ∧ NoDup (live_ids (reached until_sent)) ∧
  ∀ i, i ∈ live_ids (reached until_sent) → i < w_reqId (reached until_sent).
Proof.
  split; [vm_compute; reflexivity|].
  apply (request_ids_unique until_sent); [apply sent_ordinary|apply sent_steps].
Defined.

(** A request for a route without a code, on an established connection. *)
Definition until_unknown_route : list label :=
  until_connected ++ [LRequest "room.leave" [] 5 43%nat].

Definition throws_out_of_range (o : outcome World unit) : bool :=
  match o with Throw StdOutOfRange _ => true | _ => false end.

Lemma throws_out_of_range_spec o : throws_out_of_range o = true → ∃ w, o = Throw StdOutOfRange w.
Proof. destruct o as [|[]|]; try done. intros _. by eexists. Qed.

Lemma unknown_route_throws :
  throws_out_of_range (action (LRunRequest 0) (reached until_unknown_route)) = true.
Proof. vm_compute. reflexivity. Qed.

(** A kick, with a socket that cannot be closed. *)
Definition stuck_socket : Closing := λ _, Some "close: bad descriptor"%string.
Definition kick_label : label := LReceiveDone 0 ec_success (frame NewKick).

Definition throws_system_error (o : outcome World unit) : bool :=
  match o with Throw (SystemError _) _ => true | _ => false end.

Lemma throws_system_error_spec o :
  throws_system_error o = true → ∃ what w, o = Throw (SystemError what) w.
Proof. destruct o as [|[| |what]|]; try done. intros _. by do 2 eexists. Qed.

Lemma kick_throws :
  throws_system_error (action (closing := stuck_socket) kick_label (reached until_connected)) = true.
Proof. vm_compute. reflexivity. Qed.

Lemma kick_enabled : enabled (reached until_connected) kick_label.
Proof. apply enabledb_spec. vm_compute. reflexivity. Qed.
Lemma unknown_route_enabled : enabled (reached until_unknown_route) (LRunRequest 0).
Proof. apply enabledb_spec. vm_compute. reflexivity. Qed.

Lemma completion_exceptions_witness :
  (∃ w', action (LRunRequest 0) (reached until_unknown_route) = Throw StdOutOfRange w' ∧
   ∃ i r c, LRunRequest 0 = LRunRequest i ∧ w_posted (reached until_unknown_route) !! i = Some r ∧
     st_val (w_state (reached until_unknown_route)) = ConnectedState c ∧
     routeToCode c !! pr_route r = None) ∧
  ∃ what w', action (closing := stuck_socket) kick_label (reached until_connected) =
      Throw (SystemError what) w' ∧
    close_failed (closing := stuck_socket) (SystemError what) w'.
Proof.
  split.
  - destruct (throws_out_of_range_spec _ unknown_route_throws) as [w' E]. exists w'.
    split; [exact E|].
    destruct (completion_exceptions (client := quiet_client) (raising := callbacks_return)
      (closing := closing_succeeds) (LRunRequest 0) (reached until_unknown_route)
      StdOutOfRange w' eq_refl unknown_route_enabled E)
      as [[_ Hroute]|[(? & ? & Hne & _)|(? & _ & Hne)]]; [exact Hroute|discriminate Hne..].
  - destruct (throws_system_error_spec _ kick_throws) as (what & w' & E). exists what, w'.
    split; [exact E|].
    destruct (completion_exceptions (client := quiet_client) (raising := callbacks_return)
      (closing := stuck_socket) kick_label (reached until_connected)
      (SystemError what) w' eq_refl kick_enabled E)
      as [[Hne _]|[Hclose|(? & _ & Hne)]]; [discriminate Hne|exact Hclose|discriminate Hne].
Defined.

(** Surroundings in which the handlers of requests throw and the socket cannot be closed. *)
Definition rough : Surroundings := {|
  sr_raising o := match o with HandlerCalled _ _ _ => Some (SystemError "callback") | _ => None end;
  sr_closing := stuck_socket |}.

Lemma rough_foreign : foreign (@sr_raising rough).
Proof. intros [] what; discriminate. Qed.

Local Abbreviation rough_exec :=
  (exec (client := quiet_client) (raising := @sr_raising rough) (closing := @sr_closing rough)).

Lemma rough_steps w ls w' :
  match rough_exec ls w with Some _ => true | None => false end = true →
  w' = default initial (rough_exec ls w) →
  steps (client := quiet_client) (raising := @sr_raising rough) (closing := @sr_closing rough) w ls w'.
Proof. intros Hs ->. apply exec_steps. by destruct (rough_exec ls w). Qed.

(** The client starts the connection before the worker thread has stored its id. *)
Definition rough_calls : list label := take 2 until_connected.
Definition rough_called : World := default initial (rough_exec rough_calls (initialise_id Client_new)).
Definition rough_connected : World :=
  default initial (rough_exec (drop 2 until_connected) (store_id rough_called)).

Lemma rough_connected_execution :
  execution quiet_client rough false until_connected rough_connected.
Proof.
  apply (execution_stored quiet_client rough rough_calls rough_called (drop 2 until_connected)).
  - repeat constructor.
  - apply rough_steps; [vm_compute; reflexivity|reflexivity].
  - apply rough_steps; [vm_compute; reflexivity|reflexivity].
Qed.

(** The constructor overwrites the id. *)
Definition until_unasserted : list label := [LStart "host:1234"].
Definition unasserted : World := default initial (rough_exec until_unasserted initial_overwritten).

Lemma unasserted_execution : execution quiet_client rough true until_unasserted unasserted.
Proof. apply execution_overwritten, rough_steps; [vm_compute; reflexivity|reflexivity]. Qed.

Lemma bad_receive_rough :
  action (client := quiet_client) (raising := @sr_raising rough) (closing := @sr_closing rough)
    bad_receive rough_connected = Crash (AssertFailed "Unexpected packet type from server").
Proof. vm_compute. reflexivity. Qed.

Lemma unasserted_crashes :
  action (client := quiet_client) (raising := @sr_raising rough) (closing := @sr_closing rough)
    (LConnectDone 0 ec_success) unasserted = Crash wrong_thread.
Proof. vm_compute. reflexivity. Qed.

Lemma reachable_faults_witness :
  environment_fault (AssertFailed "Unexpected packet type from server") ∧
  (environment_fault wrong_thread ∨ true = true ∧ wrong_thread = wrong_thread).
Proof.
  split.
  - destruct (reachable_faults quiet_client rough rough_foreign false until_connected rough_connected
      bad_receive (AssertFailed "Unexpected packet type from server") connected_ordinary
      rough_connected_execution) as [Hf|[Hb _]].
    + apply Z.ltb_lt. vm_compute. reflexivity.
    + apply enabledb_spec. vm_compute. reflexivity.
    + exact bad_receive_rough.
    + exact Hf.
    + discriminate Hb.
  - apply (reachable_faults quiet_client rough rough_foreign true until_unasserted unasserted
      (LConnectDone 0 ec_success) wrong_thread).
    + split; [apply Nat.leb_le|apply Z.ltb_lt]; vm_compute; reflexivity.
    + exact unasserted_execution.
    + apply Z.ltb_lt. vm_compute. reflexivity.
    + apply enabledb_spec. vm_compute. reflexivity.
    + exact unasserted_crashes.
Defined.

(** ** The theorems on the stream *)

Definition two_packets : list Packet := [NewHeartbeat; NewData_bytes [4; 1; 104; 105]].

Lemma two_packets_receivable : Forall receivable two_packets.
Proof.
  repeat constructor; simpl; try done; try (intros; discriminate); unfold byte_wf; lia.
Qed.

(** The bytes come three at a time, in a buffer of ten bytes. *)
Lemma pump_delivers_all_witness :
  ∃ left k ps',
    pump (SH := unit) (CH := unit) (EP := unit) (replicate 12 3%nat) (frames two_packets)
      (sink_start 10) = Ret left k ∧ sk_errors k = 0%nat ∧
    two_packets = sk_got k ++ ps' ∧ valid_bytes (io_stream (sk_io k)) ++ left = frames ps' ∧
    match ps' with
    | [] => valid_bytes (io_stream (sk_io k)) = []
    | p :: _ => (length (valid_bytes (io_stream (sk_io k))) < length (frame p))%nat
    end ∧
    ((length (frames two_packets) ≤ length (replicate 12 3))%nat → left = [] ∧ sk_got k = two_packets).
Proof.
  apply (pump_delivers_all 10 (replicate 12 3%nat) two_packets).
  - lia.
  - apply two_packets_receivable.
  - repeat constructor; vm_compute; discriminate.
  - repeat constructor.
Defined.

Lemma oversize_never_delivered_witness :
  ∃ left k op,
    pump (SH := unit) (CH := unit) (EP := unit) (replicate 6 3%nat)
      (frame (NewData_bytes [1; 2; 3]) ++ [7]) (sink_start 6) = Ret left k ∧ sk_got k = [] ∧
    io_receives (sk_io k) = [op] ∧ ro_size op = 0 ∧
    valid_bytes (io_stream (sk_io k)) = [4; 0; 0; 3; 1; 2].
Proof.
  destruct (oversize_never_delivered (SH := unit) (CH := unit) (EP := unit) 6 (replicate 6 3%nat)
      (NewData_bytes [1; 2; 3]) [7])
    as (left & k & op & E & Hgot & _ & _ & Hop & _ & Hfull).
  - lia.
  - repeat constructor; simpl; unfold byte_wf; lia.
  - vm_compute. reflexivity.
  - repeat constructor; unfold byte_wf; lia.
  - destruct Hfull as (Hv & Hsize & _); [apply Forall_replicate; lia|vm_compute; discriminate|].
    exists left, k, op. split; [exact E|]. split; [exact Hgot|]. split; [exact Hop|].
    split; [exact Hsize|]. rewrite Hv. vm_compute. reflexivity.
Defined.

(** Three calls and one posted closure, from a new stream. *)
Definition three_sends : list (send_op nat) :=
  [OpSend NewHeartbeat 1%nat; OpSend NewKick 2%nat; OpNext; OpSend NewHandshakeAck 3%nat].

Lemma stream_refines_outbox_witness :
  ∃ io', stream_ops three_sends (StreamIO_new (RH := unit) (CH := unit) (EP := unit) 2048) = Ret tt io' ∧
    outbox_of io' = {| ob_queue := [(NewKick, 2%nat); (NewHandshakeAck, 3%nat)];
                       ob_sent := [(frame NewHeartbeat, 1%nat)]; ob_refused := [] |}.
Proof.
  apply (stream_refines_outbox three_sends (StreamIO_new 2048)); [|vm_compute; reflexivity].
  split; [done|by intros ?|split; vm_compute; [discriminate|reflexivity]].
Defined.

(** ** The theorems on the parser *)

(** A buffer of 32 bytes that starts with [valid]. *)
Definition buffer_with (valid : list Z) : TcpPacketStream :=
  set_readBuffer (Z.of_nat (length valid)) (valid ++ replicate (32 - length valid) 0)
    (TcpPacketStream_new 32).

Definition bytesb (l : list Z) : bool := forallb (λ b, (0 <=? b) && (b <? 256)) l.

Lemma bytesb_wf l : bytesb l = true → bytes_wf l.
Proof.
  intros Hl. apply Forall_forall. intros b Hb. unfold bytesb in Hl. rewrite forallb_forall in Hl.
  specialize (Hl b ltac:(by apply list_elem_of_In)). unfold byte_wf. bool_to_prop. lia.
Qed.

Lemma buffer_with_wf valid :
  bytesb valid = true → (length valid ≤ 32)%nat → buffer_wf (buffer_with valid).
Proof.
  intros Hb Hl. split; unfold buffer_with, readBufferSize; simpl;
    rewrite ?length_app, ?length_replicate; try lia.
  apply bytes_wf_app; [by apply bytesb_wf|]. apply Forall_replicate. unfold byte_wf. lia.
Qed.

Lemma ParsePackets_iff_witness :
  ∃ s', ParsePacketsFromReadBuffer (buffer_with (frames two_packets ++ [4; 0])) = Ret two_packets s' ∧
    valid_bytes s' = [4; 0].
Proof.
  apply (ParsePackets_iff (buffer_with (frames two_packets ++ [4; 0])) two_packets [4; 0]).
  - by apply buffer_with_wf; [|apply Nat.leb_le].
  - reflexivity.
  - split; [vm_compute; reflexivity|]. split; [apply two_packets_receivable|exact I].
Defined.

Lemma ParsePackets_safe_witness :
  let s := buffer_with [4; 0; 0; 255; 9] in
  parse_outcome s (λ fuel, parse_loop fuel (readBufferHead s) 0 [] s) (ParsePacketsFromReadBuffer s).
Proof.
  intros s. apply (ParsePackets_safe s). by apply buffer_with_wf; [|apply Nat.leb_le].
Defined.

Lemma ParsePackets_HandshakeAck_witness :
  ParsePacketsFromReadBuffer (buffer_with (frames two_packets ++ frame NewHandshakeAck ++ [1])) =
    Crash (AssertFailed "Unexpected packet type from server") ∧
  ∀ fuel, parse_loop (H := true) fuel 16 0 []
      (buffer_with (frames two_packets ++ frame NewHandshakeAck)) = Crash FuelExhausted.
Proof.
  split.
  - assert (ndebug = false) as Hmode by reflexivity.
    pose proof (ParsePackets_HandshakeAck
      (buffer_with (frames two_packets ++ frame NewHandshakeAck ++ [1]))
      two_packets NewHandshakeAck [1]) as E.
    rewrite Hmode in E. apply E; [by apply buffer_with_wf; [|apply Nat.leb_le]|
      vm_compute; reflexivity|apply two_packets_receivable|reflexivity|reflexivity].
  - pose proof (ParsePackets_HandshakeAck (H := true)
      (buffer_with (frames two_packets ++ frame NewHandshakeAck))
      two_packets NewHandshakeAck []) as E.
    apply E; [by apply buffer_with_wf; [|apply Nat.leb_le]|
      vm_compute; reflexivity|apply two_packets_receivable|reflexivity|reflexivity].
Defined.

(** ** The theorems on messages and compression *)

Lemma message_id_roundtrip_witness :
  ∃ bs, encode_id 300 tt = Ret bs tt ∧ (1 ≤ length bs ≤ 10)%nat ∧ bytes_wf bs ∧
    ∀ rest off, decode_id_loop (bs ++ rest) off off 0 tt = Ret (300, off + Z.of_nat (length bs)) tt.
Proof. apply (message_id_roundtrip 300 tt). lia. Defined.

Lemma request_roundtrip_witness :
  ∃ buf,
    Message_SerializeInto (Message_NewRequest 300 "room.join" []) [] {["room.join"%string := 263]} tt
      = Ret buf tt ∧
    Message_Deserialize 10 buf {[7 := "room.join"%string]} tt =
      Ret (Some (Message_NewRequest 300 "room.join" [])) tt.
Proof.
  destruct (request_roundtrip 10 (Message_NewRequest 300 "room.join" []) {["room.join"%string := 263]}
              {[7 := "room.join"%string]} 263 tt) as (buf & E & D); [reflexivity|simpl; lia|reflexivity|].
  exists buf. split; [exact E|]. rewrite D. reflexivity.
Defined.

Lemma Deserialize_response_defined_witness :
  ¬ ∃ r, Message_Deserialize 10 (4 :: replicate 11 255) ∅ tt = Ret r tt.
Proof.
  intros H. apply (Deserialize_response_defined 10 4 (replicate 11 255) ∅ tt) in H;
    [|reflexivity..|discriminate].
  destruct H as [H|(j & b & _ & [-> _]%lookup_replicate & Hb)]; [simpl in H; lia|lia].
Defined.

Lemma Decompress_correct_witness :
  ∃ d, Decompress 10 0 (0x78 :: 0x9C :: replicate 20 7) = Some d ∧ d_rc d = Z_OK ∧
    output_bytes d = Some (replicate 20 7).
Proof.
  apply (Decompress_correct (0x78 :: 0x9C :: replicate 20 7) (replicate 20 7)).
  - done.
  - vm_compute. reflexivity.
  - vm_compute. reflexivity.
  - vm_compute. reflexivity.
  - apply Nat.leb_le. vm_compute. reflexivity.
Defined.

(** Two routes under one code. *)
Lemma make_codeToRoute_spec_witness :
  is_Some (make_codeToRoute {["a"%string := 1; "b"%string := 1]} !! 1) ∧
  ∀ r c, make_codeToRoute {["a"%string := 1; "b"%string := 2]} !! c = Some r ↔
    ({["a"%string := 1; "b"%string := 2]} : gmap string Z) !! r = Some c.
Proof.
  split.
  - apply (make_codeToRoute_spec {["a"%string := 1; "b"%string := 1]}) with "b"%string. reflexivity.
  - apply (make_codeToRoute_spec {["a"%string := 1; "b"%string := 2]}).
    intros r1 r2 c. rewrite !lookup_insert_Some, !lookup_singleton_Some. naive_solver lia.
Defined.

(** ** The theorems on the connection *)

(** The states of the scenario: connected, and with the request in flight. *)
Definition w_connected : World := reached until_connected.
Definition w_in_flight : World := reached (until_sent ++ [LSendDone 0 ec_success 0]).

#[local] Strategy opaque [w_connected w_in_flight].

Definition response_message (id : Z) : Message :=
  {| msg_type := MT_Response; msg_id := id; msg_route := ""; msg_data := [104; 105]; msg_error := false |}.

Lemma answered_once_witness :
  let msg := response_message 1 in
  (Connection_ProcessMessage msg ;; RequestTimeout_done (msg_id msg) ec_success) w_in_flight =
    Connection_ProcessMessage msg w_in_flight.
Proof.
  exact (proj1 (answered_once (response_message 1) (response_message 1) ec_success w_in_flight
                  eq_refl eq_refl eq_refl)).
Defined.

Lemma unlocked_connected : st_locked (w_state w_connected) = false.
Proof. vm_compute. reflexivity. Qed.

Lemma connected_facts :
  match st_val (w_state w_connected) with
  | InitedState => False
  | ConnectedState c =>
      routeToCode c !! "room.leave"%string = None ∧ heartbeatTick c = SendHeartbeat ∧
      ts_waiting (w_timers w_connected) (heartbeatTimeout c) = [CbHeartbeatTimeout HeartbeatTimedOut]
  end.
Proof. vm_compute. repeat split. Qed.

Lemma connected_id : w_workerThreadId w_connected = Some (w_thread w_connected) ∧ w_reqId w_connected = 1.
Proof. vm_compute. repeat split. Qed.

Lemma PostRequest_run_spec_witness :
  PostRequest_run {| pr_route := "room.leave"; pr_data := []; pr_timeout := 5; pr_handler := 43%nat |}
    w_connected = Throw StdOutOfRange (set_reqId (u64 (w_reqId w_connected + 1)) w_connected).
Proof.
  pose proof (PostRequest_run_spec
    {| pr_route := "room.leave"; pr_data := []; pr_timeout := 5; pr_handler := 43%nat |} w_connected) as E.
  pose proof connected_facts as F. pose proof connected_id as [Hth Hid].
  destruct (st_val (w_state w_connected)) as [|c]; [destruct F|]. destruct F as [Hr _].
  cbn [pr_route] in E. rewrite Hr in E. apply E; [exact Hth|rewrite Hid; lia].
Defined.

(** The first heartbeats of a connection, from the state before it. *)
Lemma SetConnected_spec_witness :
  ∃ c ts, SetConnected 30 "json" ∅ SendHeartbeat HeartbeatTimedOut initial =
      Ret tt (set_state {| st_locked := st_locked (w_state initial); st_val := ConnectedState c |}
                (set_timers ts initial)) ∧
    heartbeatTimeoutSeconds c = 3 * 30 ∧ ts_waiting ts (heartbeatTimer c) = [CbHeartbeatTick].
Proof.
  destruct (SetConnected_spec 30 "json" ∅ initial) as (c & ts & E & _ & Ht & _ & _ & _ & _ & _ & Hw & _).
  - repeat constructor.
  - exact (ex_intro _ c (ex_intro _ ts (conj E (conj Ht Hw)))).
Defined.

Lemma teardown_spec_witness :
  Connection_HandshakeFailed (make_error_code WrongPacket) w_connected =
    Ret tt (announce EventConnectionFailed (ec_message (make_error_code WrongPacket))
              (to_inited w_connected)).
Proof. exact (proj1 (teardown_spec (make_error_code WrongPacket) w_connected unlocked_connected)). Defined.

(** The client that has just sent its handshake gets a text that is not JSON. *)
Lemma SendHandshakeAck_spec_witness :
  Connection_SendHandshakeAck "no json" initial = Ret tt initial.
Proof. exact (proj2 (SendHandshakeAck_spec "no json" initial eq_refl)). Defined.

(** ** The theorems on whole sessions *)

Lemma connected_is_connected : IsConnected (w_state (reached until_connected)) = true.
Proof. vm_compute. reflexivity. Qed.

Lemma connected_listens_witness :
  IsConnected (w_state (reached until_connected)) = true ∧
  ¬ Connection_destructor_returns (reached until_connected).
Proof.
  split; [exact connected_is_connected|].
  refine (proj2 (connected_listens until_connected (reached until_connected) _ _ connected_is_connected)).
  - exact connected_ordinary.
  - exact connected_steps.
Defined.

Definition watched_start : World := set_listeners {| listeners := [1%nat] |} initial.

(** The answer of the server comes in two pieces. *)
Lemma handshake_connects_witness :
  ∃ w c,
    steps watched_start
      ([LStart "host:1234"; LConnectDone 0 ec_success; LSendNext 0; LSendDone 0 ec_success 0]
       ++ receive_labels [take 3 handshake_response; drop 3 handshake_response]
       ++ [LSendNext 0; LSendDone 0 ec_success 0]) w ∧
    established c w ∧ routeToCode c = {["room.join"%string := 7]} ∧
    w_trace w = [ListenerCalled 1%nat EventConnected "Connection successful"].
Proof.
  destruct (handshake_connects watched_start "host:1234" "host" "1234" tt (bytes_of_string response_text)
      response_text 30 "json" {["room.join"%string := 7]}
      [take 3 handshake_response; drop 3 handshake_response] 0 0)
    as (w & c & Hs & Hest & Hr & _ & _ & _ & _ & _ & _ & Ht & _).
  - apply idle_initial.
  - reflexivity.
  - reflexivity.
  - intros w. vm_compute. reflexivity.
  - vm_compute. reflexivity.
  - reflexivity.
  - split; [apply bytesb_wf; vm_compute; reflexivity|]. split; [vm_compute; reflexivity|exact I].
  - vm_compute. discriminate.
  - repeat constructor; vm_compute; discriminate.
  - vm_compute. reflexivity.
  - exists w, c. split; [exact Hs|]. split; [exact Hest|]. split; [exact Hr|exact Ht].
Defined.

(** The connection of the scenario, at rest. *)
Definition room_state (w : World) : option (Connected HeartbeatFn) :=
  match st_val (w_state w) with ConnectedState c => Some c | InitedState => None end.

Lemma connected_rests :
  match room_state w_connected with
  | Some c =>
      routeToCode c !! "room.join"%string = Some 7 ∧
      w_state w_connected = {| st_locked := false; st_val := ConnectedState c |}
  | None => False
  end.
Proof. vm_compute. split; reflexivity. Qed.

Lemma connected_stream :
  let s := io_stream (w_io w_connected) in
  readBufferHead s = 0 ∧ readBufferMaxSize s = 2048 ∧ length (readBuffer s) = 2048%nat ∧
  bytesb (readBuffer s) = true ∧ packetSendQueue s = [] ∧ writeBuffers s = ∅.
Proof. vm_compute. repeat split. Qed.

Lemma connected_io :
  w_workerThreadId w_connected = Some WorkerThread ∧ w_posted w_connected = [] ∧
  io_posted (w_io w_connected) = [] ∧ io_sends (w_io w_connected) = [] ∧
  io_receives (w_io w_connected) =
    [{| ro_offset := 0; ro_size := 2048; ro_handler := PacketsReceived |}] ∧
  w_inFlight w_connected = ∅.
Proof. vm_compute. repeat split. Qed.

Lemma connected_audience : listeners (w_listeners w_connected) = [1%nat].
Proof. vm_compute. reflexivity. Qed.

Lemma established_connected c :
  w_state w_connected = {| st_locked := false; st_val := ConnectedState c |} → established c w_connected.
Proof.
  intros Hst. destruct connected_stream as (Hh & Hm & Hl & Hb & Hq & Hw).
  destruct connected_io as (Hwk & Hp & Hio & Hs & Hr & _).
  assert (readBufferSize (io_stream (w_io w_connected)) = 2048) as Hsize.
  { unfold readBufferSize. rewrite Hl. reflexivity. }
  split; try assumption. split.
  - split; rewrite ?Hh, ?Hsize, ?Hm; [lia|reflexivity|lia|apply bytesb_wf; exact Hb].
  - unfold valid_bytes. rewrite Hh. reflexivity.
  - rewrite Hh, Hsize. exact Hr.
Qed.

Lemma request_answered_witness :
  ∃ c w,
    steps w_connected
      ([LRequest "room.join" [1; 2] 5 42%nat; LRunRequest 0; LSendNext 0; LSendDone 0 ec_success 0]
       ++ receive_labels [take 2 room_response; drop 2 room_response]) w ∧
    established c w ∧
    w_trace w = w_trace w_connected ++ [HandlerCalled 42%nat StatusOk [104; 105]].
Proof.
  pose proof connected_rests as F. destruct (room_state w_connected) as [c|]; [|destruct F].
  destruct F as [Hcode Hst]. pose proof connected_id as [_ Hid].
  destruct connected_io as (_ & _ & _ & _ & _ & Hfl).
  destruct (request_answered c w_connected "room.join" 7 [1; 2] 5 42%nat 0 4 [1] [104; 105]
      [take 2 room_response; drop 2 room_response])
    as (w & Hs & Hest & Ht & _).
  - apply established_connected. exact Hst.
  - exact Hcode.
  - rewrite Hid. lia.
  - rewrite Hfl. reflexivity.
  - intros w. rewrite Hid. reflexivity.
  - reflexivity.
  - reflexivity.
  - split; [apply bytesb_wf; reflexivity|]. split; [reflexivity|exact I].
  - vm_compute. discriminate.
  - repeat constructor; vm_compute; discriminate.
  - vm_compute. reflexivity.
  - exists c, w. split; [exact Hs|]. split; [exact Hest|exact Ht].
Defined.

(** From the same connection: a heartbeat of the server, a request, a response to no request,
    the response to it in two pieces, a kick, another heartbeat, and a request that is refused. *)
Definition talk : list DialogueEvent :=
  [Say ServerHeartbeat [frame NewHeartbeat];
   Ask "room.join" [1; 2] 5 42%nat 0;
   Say (ServerResponse 4 9 []) [frame (packet_of (ServerResponse 4 9 []))];
   Say (ServerResponse 4 1 [104; 105]) [take 2 room_response; drop 2 room_response];
   Say ServerKick [frame NewKick];
   Say ServerHeartbeat [frame NewHeartbeat];
   Ask "room.join" [] 5 43%nat 0].

Lemma talk_packets :
  valid_packet ServerHeartbeat ∧ valid_packet ServerKick ∧
  valid_packet (ServerResponse 4 9 []) ∧ valid_packet (ServerResponse 4 1 [104; 105]).
Proof.
  split_and!; (split; [|split; [vm_compute; discriminate|try done]]);
    repeat split; try done; apply bytesb_wf; reflexivity.
Qed.

Lemma talk_valid (c : Connected HeartbeatFn) ls d :
  routeToCode c !! "room.join"%string = Some 7 → dg_connected d = true → dg_next d = 1 → dg_flight d = ∅ →
  valid_script (routeToCode c) (codeToRoute c) ls d talk ∧
  foldl (respond (routeToCode c) (codeToRoute c) ls) d talk =
    {| dg_connected := false; dg_next := 2; dg_flight := ∅;
       dg_seen := ((dg_seen d ++ [HandlerCalled 42%nat StatusOk [104; 105]])
                   ++ ((λ l, ListenerCalled l EventKicked "Kicked from server") <$> ls))
                   ++ [HandlerCalled 43%nat StatusNotConnectedError []];
       dg_said := (dg_said d ++ [CallSend [4; 0; 0; 4; 1; 1; 0; 7]]) ++ [CallShutdown; CallClose] |}.
Proof.
  intros Hcode. destruct d as [con next flight seen said]. simpl. intros -> -> ->.
  destruct talk_packets as (Hb & Hk & H9 & H1). cbn [talk valid_script foldl].
  unfold respond, ask. rewrite !Hcode. split; [|reflexivity].
  refine (conj _ (conj _ (conj _ (conj _ (conj _ (conj _ (conj _ I)))))));
    try (split; [assumption|split; [repeat constructor; vm_compute; discriminate|reflexivity]]).
  - intros _. split; [exists 7; reflexivity|reflexivity].
  - intros E. vm_compute in E. discriminate E.
Qed.

Lemma dialogue_refined_witness :
  ∃ (c : Connected HeartbeatFn) w,
    steps w_connected
      (script_labels (routeToCode c) (codeToRoute c) [1%nat] (dialogue_of w_connected) talk) w ∧
    dg_connected (dialogue_of w) = false ∧ w_inFlight w = ∅ ∧
    w_trace w = w_trace w_connected ++
      [HandlerCalled 42%nat StatusOk [104; 105]; ListenerCalled 1%nat EventKicked "Kicked from server";
       HandlerCalled 43%nat StatusNotConnectedError []].
Proof.
  pose proof connected_rests as F. destruct (room_state w_connected) as [c|]; [|destruct F].
  destruct F as [Hcode Hst]. pose proof connected_id as [_ Hid].
  destruct connected_io as (_ & _ & _ & _ & _ & Hfl).
  destruct (talk_valid c [1%nat] (dialogue_of w_connected)) as [Hvalid Hend].
  - exact Hcode.
  - simpl. rewrite Hst. reflexivity.
  - exact Hid.
  - simpl. rewrite Hfl. apply fmap_empty.
  - destruct (dialogue_refined c [1%nat] talk w_connected) as [Hex Hall].
    + rewrite <- connected_audience. apply speaking_established.
      * apply established_connected. exact Hst.
      * pose proof connected_facts as F. rewrite Hst in F. apply F.
      * rewrite Hid. lia.
      * exact Hfl.
    + exact Hvalid.
    + destruct Hex as (w & Hs); [repeat constructor|]. destruct (Hall w Hs) as [_ Hd].
      rewrite Hend in Hd. exists c, w. split; [exact Hs|]. split; [rewrite Hd; reflexivity|]. split.
      * apply (f_equal dg_flight) in Hd. exact (fmap_empty_inv req_handler (w_inFlight w) Hd).
      * apply (f_equal dg_seen) in Hd. cbn [dg_seen dialogue_of] in Hd. rewrite <- !app_assoc in Hd. exact Hd.
Defined.

(** ** The example program *)

(** It connects, is told so, and has posted its request. *)
Definition demo_ls0 : list label := [LAddListener demo_listener; LStart demo_address].
Definition demo_ls1 : list label :=
  [LConnectDone 0 ec_success; LSendNext 0; LSendDone 0 ec_success 0;
   LReceiveDone 0 ec_success handshake_response; LSendNext 0; LSendDone 0 ec_success 0].
Definition demo_request : label := LRequest "connector.getsessiondata" [] 5 demo_handler.

(** The three states of the connection. *)
Definition w_demo1 : World := set_listeners {| listeners := [demo_listener] |} initial.
Definition w_demo2 : World := default w_demo1 (exec [LStart demo_address] w_demo1).
Definition w_demo3 : World := default w_demo2 (exec demo_ls1 w_demo2).
Definition w_demo4 : World := set_requests
  [{| pr_route := "connector.getsessiondata"; pr_data := []; pr_timeout := 5; pr_handler := demo_handler |}]
  (set_thread ClientThread w_demo3).

Definition runs_through (ls : list label) (w : World) : bool :=
  match exec ls w with Some _ => true | None => false end.

Lemma runs_through_spec ls w w0 :
  runs_through ls w = true → exec ls w = Some (default w0 (exec ls w)).
Proof. unfold runs_through. by destruct (exec ls w). Qed.

Lemma demo_added : action (LAddListener demo_listener) initial = Ret tt w_demo1.
Proof. reflexivity. Qed.
Lemma demo_starts : runs_through [LStart demo_address] w_demo1 = true.
Proof. vm_compute. reflexivity. Qed.
Lemma demo_works : runs_through demo_ls1 w_demo2 = true.
Proof. vm_compute. reflexivity. Qed.
Lemma demo_told : connections w_demo3 = 1%nat.
Proof. vm_compute. reflexivity. Qed.
Lemma demo_requested : action demo_request w_demo3 = Ret tt w_demo4.
Proof. reflexivity. Qed.

Lemma demo_started : action (LStart demo_address) w_demo1 = Ret tt w_demo2.
Proof.
  pose proof (runs_through_spec _ _ w_demo1 demo_starts) as E. fold w_demo2 in E. revert E.
  cbn [exec enabledb]. destruct (action (LStart demo_address) w_demo1) as [[] w| |]; [|done..].
  by intros [= ->].
Qed.

Lemma demo_worked : exec demo_ls1 w_demo2 = Some w_demo3.
Proof. exact (runs_through_spec _ _ w_demo2 demo_works). Qed.

#[local] Opaque w_demo1 w_demo2 w_demo3 w_demo4.

Lemma demo_waits : demo_steps demo_ls0 {| dm_pc := AtWait; dm_world := w_demo2; dm_sem := 0 |}.
Proof.
  apply (demo_snoc [LAddListener demo_listener]
    {| dm_pc := AtConnect; dm_world := w_demo1; dm_sem := 0 |} [LStart demo_address]).
  - apply (demo_snoc [] demo_start [LAddListener demo_listener]); [apply demo_nil|].
    apply demo_AddEventListener; [reflexivity|apply demo_added].
  - apply demo_Connect; [reflexivity|apply demo_started].
Qed.

Lemma demo_is_told :
  demo_steps (demo_ls0 ++ demo_ls1) {| dm_pc := AtWait; dm_world := w_demo3; dm_sem := 1 |}.
Proof.
  destruct (demo_workers demo_ls0 _ demo_ls1 w_demo3 demo_waits) as [n Hn];
    [intros rv; discriminate|reflexivity|apply demo_worked|].
  pose proof (dw_sem _ _ (demo_wf_steps _ _ Hn)) as Hsem. cbn [dm_pc dm_sem dm_world] in Hsem.
  rewrite demo_told in Hsem. subst n. exact Hn.
Qed.

Lemma demo_requests :
  demo_steps (((demo_ls0 ++ demo_ls1) ++ []) ++ [demo_request])
    {| dm_pc := AtScopeEnd 0; dm_world := w_demo4; dm_sem := 0 |}.
Proof.
  eapply demo_snoc; [eapply demo_snoc; [apply demo_is_told|]|].
  - apply (demo_Wait _ 0); reflexivity.
  - apply demo_Request; [reflexivity|apply demo_requested].
Qed.

Lemma demo_main_witness :
  requested (((demo_ls0 ++ demo_ls1) ++ []) ++ [demo_request]) = [demo_handler] ∧
  EventConnected ∈ events_of demo_listener w_demo4.
Proof.
  destruct (demo_main _ _ demo_requests) as [[E|E] _]; [discriminate E|exact E].
Defined.

(** ** The theorems on the semaphore *)

(** Thread 0 waits, sleeps, is woken by thread 1, and returns. *)
Definition sleep_and_wake : list (nat * event) :=
  [(0, CallWait); (0, Go); (0, Go);
   (1, CallNotify); (1, Go); (1, Go); (1, Wake 0); (1, Go);
   (0, Go); (0, Go); (0, Go)]%nat.

Definition sem_end (ls : list (nat * event)) : Semaphore :=
  match sem_exec ls (Semaphore_new 2) with Some (s, _) => s | None => Semaphore_new 2 end.

Lemma semaphore_atomic_witness :
  abs_run [AbsNotify; AbsWait] 0 = Some 0%nat ∧
  returns WaitUnlock sleep_and_wake (Semaphore_new 2) = 1%nat.
Proof.
  destruct (semaphore_atomic 2 sleep_and_wake (sem_end sleep_and_wake) [AbsNotify; AbsWait])
    as (Ha & _ & _); [vm_compute; reflexivity|reflexivity|].
  split; [exact Ha|vm_compute; reflexivity].
Defined.

(** The counter is 1 and thread 0 is asleep. *)
Definition asleep : list (nat * event) := take 6 sleep_and_wake.

Lemma semaphore_no_lost_wakeup_witness :
  ∃ i e s', sem_step i e (sem_end asleep) = Some s' ∧ (e = Go ∨ ∃ j, e = Wake j).
Proof.
  refine (proj2 (proj2 (semaphore_no_lost_wakeup 2 asleep (sem_end asleep) [AbsNotify] _ _) _ _)).
  - vm_compute. reflexivity.
  - reflexivity.
  - reflexivity.
  - vm_compute. left.
Defined.

(** ** The theorems on the socket and on compression *)

#[local] Instance quiet_socket :
  RawTcpSocket (SH := nat) (RH := unit) (CH := unit) (EP := unit) :=
  {| raw_shutdown_error _ := Some "not connected"%string; raw_close_error _ := None |}.

Lemma AsioSend_dangling_witness :
  let s := asio_runs (EP := unit) [AsioSend [1; 2] 5%nat; AsioShutdown; AsioReceive 0 64 tt; AsioClose]
             {| as_open := true; as_objects := ∅; as_next := 0; as_ops := [] |} in
  ∃ object, RawSend object 2 5%nat ∈ as_ops s ∧
    ∀ n, transmit (RawSend object 2 5%nat) n s =
      Crash (UndefinedBehaviour "read of a destroyed vector").
Proof.
  apply (AsioSend_dangling [1; 2] 5%nat [AsioShutdown; AsioReceive 0 64 tt; AsioClose]).
  split; cbn.
  - intros o. rewrite lookup_empty. intros [? [=]].
  - intros o size h Hin. inversion Hin.
Defined.

(** Data that needs a block of two chunks. *)
Lemma Compress_correct_witness :
  Compress 200 [] 0 (replicate 100 7) tt =
    Ret {| c_rc := Z_OK; c_output := Some (Some <$> 0x78 :: 0x9C :: replicate 100 7); c_size := 102 |} tt.
Proof.
  apply (Compress_correct (replicate 100 7) (0x78 :: 0x9C :: replicate 100 7)).
  - reflexivity.
  - vm_compute. reflexivity.
  - vm_compute. reflexivity.
  - apply Nat.leb_le. vm_compute. reflexivity.
Defined.

(** ** A line of the log *)

#[local, refine] Instance calendar : LocalTime := {|
  localtime t := if decide (t = 0) then
    Some {| tm_sec := 5; tm_min := 0; tm_hour := 12; tm_mday := 1; tm_mon := 2; tm_year := 119 |}
  else None
|}.
Proof. intros t d. case_decide; [intros [= <-]; simpl; lia|done]. Defined.

Lemma log_line :
  LOG LogLevel_Info "connection.cpp" 512 ["Running "; "worker thread"]%string
    {| con_time := 0; con_out := "" |} =
  Ret tt {| con_time := 0;
            con_out := "[2019-03-01 12:00:05] [INFO] connection.cpp(512): Running worker thread"
                       +:+ newline |}.
Proof. vm_compute. reflexivity. Qed.
